(* ===== verification/_CoqProject ===== *)
-Q . S2P
Prelude.v
GoLib.v
Text.v
Float.v
Json.v
Instances.v
Common.v
Entities.v
Buffers.v
Codec.v
Fallback.v
Fs.v
Disk.v
DiskUsers.v
DiskFamily.v
Redis.v
RedisServer.v
RedisUsers.v
RedisFamily.v
Pg.v
Jsonb.v
PgFamily.v
PgStore.v
PgInvariant.v
Worker.v
Health.v
Trakt.v
Drain.v
DrainSystem.v
PgDrain.v
PgRequests.v
Delivery.v
Queue.v
DiskQueue.v
RedisQueue.v
MultiLock.v
LockSafety.v
Sessions.v
Webhooks.v
Request.v
Plex.v
OAuth.v
Families.v
PgWeb.v
FamilyFlow.v
UserFlow.v
Wizard.v
Admin.v
AdminFlow.v
Assets.v
Server.v
Pages.v
Outage.v
Concurrent.v
