(* ===== verification/Prelude.v ===== *)
(** * Plaxt: a verification library

    Plaxt receives webhooks from Plex media servers and reports what is played
    to Trakt ("scrobbling").  A webhook arrives at the [api] endpoint of
    [main.go], is decoded ([plexhooks]), deduplicated, and goes to the Trakt
    client ([lib/trakt/main.go]), which derives an action and a progress,
    identifies the media and posts a scrobble.  When Trakt is unavailable the
    event is queued in the store ([lib/store]: PostgreSQL, Redis or files), with
    an in-memory buffer as fallback; the health checker
    ([lib/trakt/health.go]) notices when Trakt is back and the drain
    ([main.go]) sends the queued events.  Family groups share one Plex account:
    their scrobbles are broadcast to every member, and failed ones are meant to
    be retried from a persistent retry queue by the worker ([lib/queue]).
    Users and families authorize themselves through OAuth handlers, a landing
    page guides them, and an admin API shows and edits what is stored.

    ** Files

    Go and its libraries:
    - Prelude.v (this file): errors, results, panics, tactics, hints;
    - GoLib.v, Text.v: byte strings and package strings, strconv, 64-bit
      integers, time; Unicode tables beyond ASCII are the class [UnicodeTables];
    - Float.v: float64 and float32 with division, rounding, decimal parsing;
    - Json.v: JSON trees and decoding into Go values; the concrete syntax is the
      class [JsonText], the text of timestamps [TimeText], of numbers
      [NumberText]; printing is relied on for trees of integers and valid UTF-8
      only ([json_wf]);
    - Instances.v: executable instances of these classes with their laws;
    - Fs.v: the file system below the disk store.

    Data:
    - Common.v: [lib/common] structs.go, main.go, displayname.go;
    - Entities.v: [lib/store] family_group.go, group_member.go,
      retry_queue_item.go, notification.go, user.go, identifiers of queue.go;
    - Codec.v: the JSON of what the disk and Redis stores keep;
    - Buffers.v: [lib/store] queue.go and queue_event_log.go; Fallback.v: the
      in-memory fallback that the three stores share;
    - MultiLock.v: [lib/common/lock.go], the four methods of the keyed lock as
      interleaved atomic actions; LockSafety.v: when the lock excludes.

    Stores:
    - Queue.v: the scrobble queue of [Store] as an abstract map of events;
    - Pg.v, PgFamily.v, PgStore.v: the PostgreSQL store: schema and statements,
      [postgresql_family.go], [postgresql.go]; PgInvariant.v: the invariant of
      the database under all operations; Jsonb.v: bodies in a JSONB column;
    - Disk.v, DiskUsers.v, DiskFamily.v, DiskQueue.v: [disk.go]: operations,
      then users, families and the refinement of the abstract queue;
    - Redis.v, RedisServer.v, RedisUsers.v, RedisFamily.v, RedisQueue.v:
      [redis.go] likewise; RedisServer.v states what is relied on of the server.

    Delivery of scrobbles:
    - Plex.v: [plexhooks] and the extraction of a webhook from its request;
    - Sessions.v, Webhooks.v: deduplication, OAuth states; the webhook endpoint,
      token refresh, family broadcast;
    - Trakt.v: [lib/trakt] main.go and structs.go; Health.v: health.go;
    - Drain.v: the drain of [main.go] as functions, against the interface
      [DrainStore]; DrainSystem.v: its goroutines, the listener and the health
      checker in any interleaving; PgDrain.v: the PostgreSQL store implements
      both interfaces; PgRequests.v: the drain system on the PostgreSQL store
      with requests in between; Delivery.v: client, PostgreSQL store and drain
      together;
      Outage.v: the same for any store that implements the abstract queue, Redis
      and disk among them; Concurrent.v: webhooks that are handled at once, under
      the keyed lock;
    - Worker.v: [lib/queue] worker.go, postgres_repo.go and [lib/notify],
      against the interface [RetryStore] that PgFamily.v implements.

    Web server:
    - Request.v: external address, host check, middlewares; Server.v:
      configuration, logging, [main], routes, background tasks; Assets.v:
      assets_manifest.go;
    - OAuth.v: the four authorization handlers; Families.v, FamilyFlow.v,
      UserFlow.v: what they do to sessions and stores; PgWeb.v: the PostgreSQL
      store implements their interface;
    - Wizard.v: the data of the landing page; Pages.v: the handlers that render
      pages, over an interface for [html/template], and the health page;
      Admin.v, AdminFlow.v: the admin, telemetry and monitoring handlers.

    ** Conventions

    A Go function is a Rocq function with the same name.  Methods that change
    their receiver return it; pointers are options where nil is possible.
    [(T, error)] is [result T] (or the value with an [option error] when both
    are used), a call that can panic is an [outcome].  Everything outside the
    program is explicit: clock readings and random bytes are arguments; SQL
    statements, files and Redis commands fail as the environment of the call
    says, for any set of failure points; Trakt, the network and a store that a
    client only knows through its interface act on a world [W] through a type
    class, with a class of laws where a theorem relies on promises.  The
    promises made to the worker, to the drain, to its goroutines and to the
    authorization handlers are proved of the PostgreSQL store, those of the
    abstract queue of the disk and Redis stores.  The contracts [FamilyLaws]
    and [UserLaws] of the authorization handlers hold of PostgreSQL only: the
    disk and Redis stores drop the tokens of members, the disk store can fail
    after a write, and its users panic when updated; the theorems that need the
    contracts are stated on PostgreSQL, or (C19) name the contract.  Log output is left out, the
    monitoring log excepted.  Integers are [Z] with the 64-bit wrap-around
    written where the code computes, times and durations are nanoseconds.

    ** Fuel

    [EnqueueScrobble] and [flushFallbackBuffer] call each other without a bound:
    fuel is the depth of the calls and [None] means it ran out; one call
    suffices when there is no fallback buffer, and with one no fuel suffices
    (both proved).  [drainBatches] takes fuel for its batches: one more than the
    number of queued events is enough (proved).  [scan_keys] takes fuel for the
    rounds of a Redis SCAN; the laws of the server name a number of rounds that
    is enough.  [Start] of the worker runs a given number of ticks.
    [first_unused] (the loop of [Create]) runs over the tokens generated.  The
    drain system is a step relation and needs no fuel; the number of steps of
    its goroutines is bounded by a measure (proved).

    ** Theorems

    - Delivery: an outage delays a scrobble that the store has room for, on
      PostgreSQL (C2), Redis (C7) and disk ([disk_scrobble_delivered]); a drain
      sends the queue in order (C6; to the whole second on Redis and disk); on
      PostgreSQL an event leaves the queue only by a drain that accounts for it
      or by a request that removes it, an eviction of a full queue among them
      (C8); drains that run at once on a working store empty the queue and come
      to an end (C9, C10), and a drain on its own does so whatever Trakt answers
      (C11); what each answer of Trakt leads to (C14);
      the single-user and the family path agree (C13).
    - Webhooks: every form of a webhook is understood (C12); a repeated one of a
      single user is handled once, whatever comes in between (C17), as an
      unbounded memory would have it (C16); a family
      webhook accounts for every member (C18).
    - Stores: every reachable PostgreSQL database is well-formed, whatever the
      arguments of the operations (C1); what
      [ListDueRetryItems] returns and marks (C5); cascading deletion (C30); the
      fallback (C31) and its ring buffer (C15); the Redis and disk queues refine
      the abstract queue, up to the order within a second (C24, C25); what a
      member on disk keeps (C27).
    - Retry queue: what one pass does with an item, for each answer of Trakt
      (C3); an outage ends after five attempts with one notification (C4).
    - Health checker: what it reports (C28).
    - Keyed lock: apart from one race, which C40 exhibits, writers exclude each
      other and readers and no unlock fails, in every interleaving of any number
      of threads (C39); webhooks that are handled at once are then handled as if
      one after the other (C29).
    - Authorization: sessions agree with the store (C19); members, families and
      users are authorized, created or refused as a whole on PostgreSQL (C20,
      C21, C22).
    - Web server: the host check (C23), the admin API (C32), asset paths (C33),
      the steps of the landing page (C34).
    - Behaviour that departs from what the code means to do, each with a
      concrete or general proof: users loaded from disk panic when updated
      (C26), the flush that never ends (C35), the queue that keeps one event per
      item (C36), ratings that are refused (C37), events that are sent twice
      (C38), the lock that does not exclude (C40), and, among the lemmas, the
      drain that never ends ([drain_diverges_without_delete]).

    ** Not modelled

    The text of log output, and [NotifyAuthorizationExpired], which only logs
    and which nothing calls.  Libraries that the sources only call are
    parameters: the SQL driver and server, Redis, diskv, the multipart reader,
    the router, the rewriting of proxy headers, the package of the health page;
    so is the language of [html/template], on whose templates nothing is proved.
    Requests are processed one at a time, except for [Handle] under the keyed
    lock, which any number of threads run at once, and the goroutines of the
    drain.  So the shared flight of [api], which only matters for requests that
    run at once, always calls its function.  The expiry of the playback cache
    on Redis is modelled in Redis.v but outside the promises of C29.  Cancellation of contexts, which
    only the end of the program causes, is left out. *)

From Stdlib Require Export Ascii String.
From stdpp Require Export prelude gmap strings sorting numbers list_basics list_relations list_monad list_misc list_numbers list.

#[export] Set Default Goal Selector "!".
#[export] Set Warnings "-register-all".

(** ** Errors and results of Go functions *)

(** A Go [error] value.  [Sentinel] is a package-level [errors.New] variable,
    compared by identity in the source (no two sentinels of the program share
    a message); [Errorf] is an error built on the spot; [Wrapf pre e post] is
    [fmt.Errorf] with one [%w] verb between [pre] and [post]. *)
Inductive error :=
| Sentinel (msg : string)
| Errorf (msg : string)
| Wrapf (pre : string) (e : error) (post : string).

#[export] Instance error_eq_dec : EqDecision error.
Proof. solve_decision. Defined.

(** The text [err.Error()] returns. *)
Fixpoint Error (e : error) : string :=
  match e with
  | Sentinel msg | Errorf msg => msg
  | Wrapf pre e post => pre +:+ Error e +:+ post
  end.

(** [errors.Is(e, target)]: the chain of wrapped errors contains [target]. *)
Fixpoint errors_Is (e target : error) : bool :=
  bool_decide (e = target) ||
  match e with Wrapf _ e' _ => errors_Is e' target | _ => false end.

(** A Go function returning [(T, error)]. *)
Inductive result (A : Type) :=
| Ok (a : A)
| Err (e : error).
Arguments Ok {A} a.
Arguments Err {A} e.

#[export] Instance result_ret : MRet result := λ A, Ok.
#[export] Instance result_bind : MBind result := λ A B f r,
  match r with Ok a => f a | Err e => Err e end.

(** A call that may panic. *)
Inductive outcome (A : Type) :=
| Ret (a : A)
| Panic (why : string).
Arguments Ret {A} a.
Arguments Panic {A} why.

#[export] Instance outcome_ret : MRet outcome := λ A, Ret.
#[export] Instance outcome_bind : MBind outcome := λ A B f r,
  match r with Ret a => f a | Panic w => Panic w end.

Definition nil_deref : string := "invalid memory address or nil pointer dereference".

(** ** Tactics *)

(** Split every [match]/[if] in the goal and simplify. *)
Ltac split_match :=
  repeat (case_match; simplify_eq/=; try done).

(** Case analysis on the [match]es of one hypothesis. *)
Ltac split_match_in H :=
  repeat match type of H with
  | context [match ?x with _ => _ end] =>
      let E := fresh "E" in destruct x eqn:E; simplify_eq/=; try done
  end.

Create HintDb plaxt.

(** ** Lists *)

Lemma fmap_rev {A B} (f : A → B) (l : list A) : f <$> rev l = rev (f <$> l).
Proof. induction l as [|a l IH]; simpl; [done|]. by rewrite fmap_app, IH. Qed.

Lemma filter_sublist {A} (f : A → bool) (l : list A) : List.filter f l `sublist_of` l.
Proof.
  induction l as [|x l IH]; simpl; [constructor|].
  destruct (f x); [by apply sublist_skip|by apply sublist_cons].
Qed.
