(* ===== verification/GoLib.v ===== *)
(** * The part of the Go language and standard library the program uses

    Byte strings ([strings.TrimSpace], [ToLower], [EqualFold], [HasPrefix],
    [HasSuffix], [Contains], [Split], [Join], slicing), [strconv.Atoi],
    decimal printing, 64-bit integers with wrap-around, [time.Time] and
    [time.Duration] with Go's saturating subtraction.  A Go string is a
    sequence of bytes, here a [string] of 8-bit [ascii]. *)

From S2P Require Import Prelude.

Open Scope Z_scope.

(** ** Machine integers *)

Definition int64_min : Z := - 2 ^ 63.
Definition int64_max : Z := 2 ^ 63 - 1.

(** Two's-complement wrap-around of a 64-bit signed result. *)
Definition wrap64 (z : Z) : Z := (z + 2 ^ 63) `mod` 2 ^ 64 - 2 ^ 63.

(** [1 << uint(n)] at type [int64], for a shift count of type [uint] (a
    negative [n] converts to a huge count); counts of 64 and more give 0. *)
Definition shl1 (n : Z) : Z :=
  let k := n `mod` 2 ^ 64 in
  if k <? 64 then wrap64 (2 ^ k) else 0.

(** ** Time

    [time.Time] is a count of nanoseconds from the Unix epoch; the zero value
    of the type is 1 January of year 1 UTC.  [time.Duration] is an [int64]
    count of nanoseconds. *)
Abbreviation Time := Z (only parsing).
Abbreviation Duration := Z (only parsing).

Definition Nanosecond : Duration := 1.
Definition Second : Duration := 10 ^ 9.
Definition Minute : Duration := 60 * Second.
Definition Hour : Duration := 60 * Minute.

Definition zeroTime : Time := -62135596800 * Second.
Definition IsZero (t : Time) : bool := t =? zeroTime.

(** [t.Add(d)] *)
Definition time_Add (t : Time) (d : Duration) : Time := t + d.

(** [t.Sub(u)], saturating at the ends of [time.Duration]; [time.Since(u)] and
    [time.Until(t)] are [time_Sub] with a clock reading. *)
Definition time_Sub (t u : Time) : Duration :=
  Z.max int64_min (Z.min int64_max (t - u)).

Definition Before (t u : Time) : bool := t <? u.
Definition After (t u : Time) : bool := u <? t.

(** [t.Unix()]: whole seconds, rounded towards minus infinity. *)
Definition Unix (t : Time) : Z := t `div` Second.

(** ** Strings *)

Abbreviation bytes := list_ascii_of_string.
Abbreviation of_bytes := string_of_list_ascii.

(** [len(s)] *)
Definition len (s : string) : Z := Z.of_nat (String.length s).

Definition is_ascii_byte (a : ascii) : bool := (N_of_ascii a <? 128)%N.
Definition is_ascii (s : string) : bool := forallb is_ascii_byte (bytes s).

(** The Unicode tables of Go's [unicode] package, used by [strings.ToLower],
    [strings.EqualFold] and the verb [%q] only on strings that hold a byte of
    128 or more. *)
Class UnicodeTables := {
  unicode_ToLower : string → string;
  unicode_EqualFold : string → string → bool;
  unicode_Quote : string → string;
}.

Definition lower_byte (a : ascii) : ascii :=
  let n := N_of_ascii a in
  if ((65 <=? n) && (n <=? 90))%N then ascii_of_N (n + 32) else a.

Definition ToLower `{UnicodeTables} (s : string) : string :=
  if is_ascii s then of_bytes (lower_byte <$> bytes s) else unicode_ToLower s.

Definition EqualFold `{UnicodeTables} (s t : string) : bool :=
  if is_ascii s && is_ascii t then bool_decide (ToLower s = ToLower t)
  else unicode_EqualFold s t.

Definition hex_digit (d : Z) : ascii :=
  ascii_of_N (Z.to_N (if d <? 10 then 48 + d else 87 + d)).

(** [strconv.Quote] of one ASCII byte. *)
Definition quote_byte (a : ascii) : list ascii :=
  let n := N_of_ascii a in
  let esc c := ["\"%char; c] in
  if (n =? 34)%N || (n =? 92)%N then esc a
  else if (n =? 7)%N then esc "a"%char else if (n =? 8)%N then esc "b"%char
  else if (n =? 9)%N then esc "t"%char else if (n =? 10)%N then esc "n"%char
  else if (n =? 11)%N then esc "v"%char else if (n =? 12)%N then esc "f"%char
  else if (n =? 13)%N then esc "r"%char
  else if (n <? 32)%N || (n =? 127)%N
  then ["\"%char; "x"%char; hex_digit (Z.of_N n `div` 16); hex_digit (Z.of_N n `mod` 16)]
  else [a].

(** [fmt.Sprintf("%q", s)] *)
Definition Quote `{UnicodeTables} (s : string) : string :=
  if is_ascii s then of_bytes (ascii_of_N 34 :: (bytes s ≫= quote_byte) ++ [ascii_of_N 34])
  else unicode_Quote s.

(** The UTF-8 encodings of the code points [unicode.IsSpace] accepts: the
    ASCII ones, U+0085 and U+00A0 on two bytes, and U+1680, U+2000-200A,
    U+2028, U+2029, U+202F, U+205F, U+3000 on three. *)
Definition space1 (a : ascii) : bool :=
  let n := N_of_ascii a in ((9 <=? n) && (n <=? 13) || (n =? 32))%N.
Definition space2 (a b : ascii) : bool :=
  ((N_of_ascii a =? 0xC2) && ((N_of_ascii b =? 0x85) || (N_of_ascii b =? 0xA0)))%N.
Definition space3 (a b c : ascii) : bool :=
  let '(x, y, z) := (N_of_ascii a, N_of_ascii b, N_of_ascii c) in
  ((x =? 0xE1) && (y =? 0x9A) && (z =? 0x80)
   || (x =? 0xE2) && (y =? 0x80) && (0x80 <=? z) && (z <=? 0x8A)
   || (x =? 0xE2) && (y =? 0x80) && ((z =? 0xA8) || (z =? 0xA9) || (z =? 0xAF))
   || (x =? 0xE2) && (y =? 0x81) && (z =? 0x9F)
   || (x =? 0xE3) && (y =? 0x80) && (z =? 0x80))%N.

(** [strip s2 s3 l] removes the longest run of whitespace encodings at the
    head of [l]; read from the right the multi-byte encodings are reversed. *)
Fixpoint strip (s2 : ascii → ascii → bool) (s3 : ascii → ascii → ascii → bool)
    (l : list ascii) : list ascii :=
  match l with
  | [] => []
  | a :: l1 =>
      if space1 a then strip s2 s3 l1 else
      match l1 with
      | [] => l
      | b :: l2 =>
          if s2 a b then strip s2 s3 l2 else
          match l2 with
          | [] => l
          | c :: l3 => if s3 a b c then strip s2 s3 l3 else l
          end
      end
  end.

Definition trim_left (l : list ascii) : list ascii := strip space2 space3 l.
Definition trim_right (l : list ascii) : list ascii :=
  rev (strip (λ b a, space2 a b) (λ c b a, space3 a b c) (rev l)).

(** [strings.TrimSpace] *)
Definition TrimSpace (s : string) : string :=
  of_bytes (trim_right (trim_left (bytes s))).

(** [s[:n]] and [s[n:]] for [n] within the string. *)
Definition slice_to (n : nat) (s : string) : string := of_bytes (take n (bytes s)).
Definition slice_from (n : nat) (s : string) : string := of_bytes (drop n (bytes s)).

Fixpoint prefix_b (p l : list ascii) : bool :=
  match p, l with
  | [], _ => true
  | a :: p, b :: l => Ascii.eqb a b && prefix_b p l
  | _, _ => false
  end.

Fixpoint contains_b (l p : list ascii) : bool :=
  prefix_b p l || match l with [] => false | _ :: l => contains_b l p end.

(** [strings.HasPrefix], [HasSuffix], [Contains], [TrimPrefix], [TrimSuffix] *)
Definition HasPrefix (s p : string) : bool := prefix_b (bytes p) (bytes s).
Definition HasSuffix (s p : string) : bool := prefix_b (rev (bytes p)) (rev (bytes s)).
Definition Contains (s p : string) : bool := contains_b (bytes s) (bytes p).
Definition TrimPrefix (s p : string) : string :=
  if HasPrefix s p then slice_from (String.length p) s else s.
Definition TrimSuffix (s p : string) : string :=
  if HasSuffix s p then slice_to (String.length s - String.length p) s else s.

(** [strings.Split(s, sep)] for a one-byte separator: always at least one part. *)
Fixpoint split_b (sep : ascii) (l : list ascii) : list (list ascii) :=
  match l with
  | [] => [[]]
  | a :: l =>
      if Ascii.eqb a sep then [] :: split_b sep l
      else match split_b sep l with
           | [] => [[a]]
           | p :: ps => (a :: p) :: ps
           end
  end.
Definition Split (s : string) (sep : ascii) : list string :=
  of_bytes <$> split_b sep (bytes s).

(** [strings.Join(l, sep)] *)
Fixpoint Join (l : list string) (sep : string) : string :=
  match l with
  | [] => ""
  | [s] => s
  | s :: l => s +:+ sep +:+ Join l sep
  end.

(** Index of the first, and of the last, occurrence of a byte. *)
Fixpoint index_b (a : ascii) (l : list ascii) : option nat :=
  match l with
  | [] => None
  | b :: l => if Ascii.eqb a b then Some 0%nat else S <$> index_b a l
  end.
Definition IndexByte (s : string) (a : ascii) : option nat := index_b a (bytes s).
Definition LastIndexByte (s : string) (a : ascii) : option nat :=
  i ← index_b a (rev (bytes s)); Some (String.length s - S i)%nat.

(** ** Decimal numbers *)

Definition digit (a : ascii) : option Z :=
  let n := N_of_ascii a in
  if ((48 <=? n) && (n <=? 57))%N then Some (Z.of_N n - 48) else None.
Definition is_digit (a : ascii) : bool := bool_decide (is_Some (digit a)).

Fixpoint digits_value (acc : Z) (l : list ascii) : option Z :=
  match l with
  | [] => Some acc
  | a :: l => d ← digit a; digits_value (10 * acc + d) l
  end.

(** [strconv.Atoi]: an optional sign, at least one digit, value within [int64];
    [None] is the error case. *)
Definition Atoi (s : string) : option Z :=
  let num (neg : bool) (l : list ascii) :=
    match l with
    | [] => None
    | _ => v ← digits_value 0 l;
           let v := if neg then - v else v in
           if (int64_min <=? v) && (v <=? int64_max) then Some v else None
    end in
  match bytes s with
  | "+"%char :: l => num false l
  | "-"%char :: l => num true l
  | l => num false l
  end.

(** [fmt.Sprintf("%d", n)] *)
Definition digit_char (d : Z) : ascii := ascii_of_N (48 + Z.to_N d).
Fixpoint digits_of (fuel : nat) (n : Z) (acc : list ascii) : list ascii :=
  match fuel with
  | O => acc
  | S fuel =>
      let acc := digit_char (n `mod` 10) :: acc in
      if n `div` 10 =? 0 then acc else digits_of fuel (n `div` 10) acc
  end.
(** A non-negative [n] has at most [log2 n + 1] decimal digits. *)
Definition nat_digits (n : Z) : list ascii := digits_of (S (Z.to_nat (Z.log2 n))) n [].
Definition Itoa (n : Z) : string :=
  of_bytes (if n <? 0 then "-"%char :: nat_digits (- n) else nat_digits n).

(** [fmt.Sprintf("%02d", n)]: padded with zeros to width two, after the sign. *)
Definition Itoa02 (n : Z) : string :=
  let pad w l := if (List.length l <? w)%nat then replicate (w - List.length l) "0"%char ++ l else l in
  of_bytes (if n <? 0 then "-"%char :: pad 1%nat (nat_digits (- n)) else pad 2%nat (nat_digits n)).

(** ** Lemmas: integers and time *)

Lemma wrap64_small z : int64_min ≤ z ≤ int64_max → wrap64 z = z.
Proof.
  unfold wrap64, int64_min, int64_max. intros ?.
  rewrite Z.mod_small; lia.
Qed.

Lemma wrap64_range z : int64_min ≤ wrap64 z ≤ int64_max.
Proof.
  unfold wrap64, int64_min, int64_max.
  pose proof (Z.mod_pos_bound (z + 2 ^ 63) (2 ^ 64) ltac:(lia)). lia.
Qed.

Lemma shl1_small n : 0 ≤ n < 63 → shl1 n = 2 ^ n.
Proof.
  intros [??]. unfold shl1.
  rewrite Z.mod_small by lia.
  rewrite (proj2 (Z.ltb_lt _ _)) by lia.
  apply wrap64_small. unfold int64_min, int64_max.
  pose proof (Z.pow_pos_nonneg 2 n ltac:(lia) ltac:(lia)).
  pose proof (Z.pow_le_mono_r 2 n 62 ltac:(lia) ltac:(lia)). lia.
Qed.

Lemma time_Sub_exact t u :
  int64_min ≤ t - u ≤ int64_max → time_Sub t u = t - u.
Proof. unfold time_Sub. lia. Qed.

(** Saturation never turns an elapsed time below a representable bound. *)
Lemma time_Sub_lt t u d : int64_min < d ≤ int64_max → time_Sub t u < d ↔ t - u < d.
Proof. unfold time_Sub, int64_min, int64_max. lia. Qed.

Lemma time_Sub_gt t u d : int64_min ≤ d < int64_max → d < time_Sub t u ↔ d < t - u.
Proof. unfold time_Sub, int64_min, int64_max. lia. Qed.

(** ** Lemmas: strings *)

Lemma bytes_of_bytes l : bytes (of_bytes l) = l.
Proof. apply list_ascii_of_string_of_list_ascii. Qed.

Lemma of_bytes_bytes s : of_bytes (bytes s) = s.
Proof. apply string_of_list_ascii_of_string. Qed.

#[export] Instance bytes_inj : Inj (=) (=) bytes.
Proof. intros s t E. by rewrite <-(of_bytes_bytes s), E, of_bytes_bytes. Qed.

Lemma length_bytes s : List.length (bytes s) = String.length s.
Proof. induction s; simpl; congruence. Qed.

Lemma length_of_bytes l : String.length (of_bytes l) = List.length l.
Proof. induction l; simpl; congruence. Qed.

Lemma bytes_app s t : bytes (s +:+ t) = bytes s ++ bytes t.
Proof.
  induction s as [|a s IH]; [done|].
  change (String a s +:+ t) with (String a (s +:+ t)). simpl. by rewrite IH.
Qed.

Lemma of_bytes_app l k : of_bytes (l ++ k) = of_bytes l +:+ of_bytes k.
Proof. apply (inj bytes). by rewrite bytes_app, !bytes_of_bytes. Qed.

Create Rewrite HintDb gostr.
#[export] Hint Rewrite bytes_of_bytes of_bytes_bytes length_bytes length_of_bytes bytes_app
  : gostr.

Lemma string_app_assoc (s t u : string) : s +:+ (t +:+ u) = (s +:+ t) +:+ u.
Proof. apply (inj bytes). by rewrite !bytes_app, app_assoc. Qed.

#[export] Instance string_app_inj s : Inj (=) (=) (String.app s).
Proof. intros t u E. apply (f_equal bytes) in E. rewrite !bytes_app in E.
  by apply (inj bytes), (inj (app (bytes s))). Qed.

Section Strip.
Context (s2 : ascii → ascii → bool) (s3 : ascii → ascii → ascii → bool).

(** A list [strip] leaves alone. *)
Definition starts_space (l : list ascii) : bool :=
  match l with
  | [] => false
  | a :: l1 =>
      space1 a ||
      match l1 with
      | [] => false
      | b :: l2 => s2 a b || match l2 with [] => false | c :: _ => s3 a b c end
      end
  end.

Lemma strip_id l : starts_space l = false → strip s2 s3 l = l.
Proof.
  destruct l as [|a [|b [|c l]]]; simpl; [done|..];
    intros H; repeat (apply orb_false_iff in H as [-> H]); by rewrite ?H.
Qed.

Lemma strip_suffix l : strip s2 s3 l `suffix_of` l.
Proof.
  induction l as [l IH] using (induction_ltof1 _ (@List.length ascii)).
  unfold ltof in IH.
  destruct l as [|a [|b [|c l]]]; simpl; [done|..].
  - destruct (space1 a); [apply suffix_nil|done].
  - destruct (space1 a).
    { apply suffix_cons_r. destruct (space1 b); [apply suffix_nil|done]. }
    destruct (s2 a b); [apply suffix_nil|done].
  - destruct (space1 a).
    { apply suffix_cons_r, (IH (b :: c :: l)). simpl. lia. }
    destruct (s2 a b).
    { do 2 apply suffix_cons_r. apply (IH (c :: l)). simpl. lia. }
    destruct (s3 a b c); [|done].
    do 3 apply suffix_cons_r. apply (IH l). simpl. lia.
Qed.

Lemma strip_starts l : starts_space (strip s2 s3 l) = false.
Proof.
  induction l as [l IH] using (induction_ltof1 _ (@List.length ascii)).
  unfold ltof in IH.
  destruct l as [|a [|b [|c l]]]; simpl; [done|..].
  - destruct (space1 a) eqn:E; simpl; [done|by rewrite E].
  - destruct (space1 a) eqn:E.
    { destruct (space1 b) eqn:E2; simpl; [done|by rewrite E2]. }
    destruct (s2 a b) eqn:E2; simpl; [done|]. by rewrite E, E2.
  - destruct (space1 a) eqn:E.
    { apply (IH (b :: c :: l)). simpl. lia. }
    destruct (s2 a b) eqn:E2.
    { apply (IH (c :: l)). simpl. lia. }
    destruct (s3 a b c) eqn:E3.
    { apply (IH l). simpl. lia. }
    simpl. by rewrite E, E2, E3.
Qed.

Lemma starts_space_prefix l k :
  l `prefix_of` k → starts_space k = false → starts_space l = false.
Proof.
  intros [m ->]. destruct l as [|a [|b [|c l]]]; simpl; [done|..];
    intros H; apply orb_false_iff in H as [-> H]; [done|..];
    apply orb_false_iff in H as [-> H]; simpl; done.
Qed.
End Strip.

Lemma trim_right_prefix l : trim_right l `prefix_of` l.
Proof.
  unfold trim_right.
  destruct (strip_suffix (λ b a, space2 a b) (λ c b a, space3 a b c) (rev l)) as [k Hk].
  exists (rev k). rewrite <-rev_app_distr, <-Hk. by rewrite rev_involutive.
Qed.

Lemma trim_left_suffix l : trim_left l `suffix_of` l.
Proof. apply strip_suffix. Qed.

Lemma trim_right_idem l : trim_right (trim_right l) = trim_right l.
Proof.
  unfold trim_right. rewrite rev_involutive. f_equal.
  apply strip_id, strip_starts.
Qed.

(** [strings.TrimSpace] is idempotent. *)
Lemma TrimSpace_idem s : TrimSpace (TrimSpace s) = TrimSpace s.
Proof.
  unfold TrimSpace. rewrite bytes_of_bytes. f_equal.
  set (m := trim_left (bytes s)).
  assert (trim_left (trim_right m) = trim_right m) as ->.
  { apply strip_id. eapply starts_space_prefix; [apply trim_right_prefix|].
    apply strip_starts. }
  apply trim_right_idem.
Qed.

Lemma TrimSpace_length s : (String.length (TrimSpace s) ≤ String.length s)%nat.
Proof.
  unfold TrimSpace. rewrite length_of_bytes.
  etrans; [apply prefix_length, trim_right_prefix|].
  etrans; [apply suffix_length, trim_left_suffix|]. by rewrite length_bytes.
Qed.

Lemma TrimSpace_infix s : ∃ k1 k2, bytes s = k1 ++ bytes (TrimSpace s) ++ k2.
Proof.
  unfold TrimSpace. rewrite bytes_of_bytes.
  destruct (trim_left_suffix (bytes s)) as [k1 Hk1].
  destruct (trim_right_prefix (trim_left (bytes s))) as [k2 Hk2].
  exists k1, k2. by rewrite <-Hk2.
Qed.

(** *** Prefixes and substrings *)

Lemma prefix_b_spec p l : prefix_b p l = true ↔ p `prefix_of` l.
Proof.
  revert l; induction p as [|a p IH]; intros l; simpl.
  { split; [intros _; apply prefix_nil|done]. }
  destruct l as [|b l].
  { split; [done|]. intros H. by apply prefix_nil_inv in H. }
  rewrite andb_true_iff, Ascii.eqb_eq, IH. split.
  - intros [-> ?]. by apply prefix_cons.
  - intros H. split; [by eapply prefix_cons_inv_1|by eapply prefix_cons_inv_2].
Qed.

Lemma contains_b_spec l p : contains_b l p = true ↔ ∃ k1 k2, l = k1 ++ p ++ k2.
Proof.
  induction l as [|a l IH]; simpl.
  - rewrite orb_false_r, prefix_b_spec. split.
    + intros [k Hk]. by exists [], k.
    + intros (k1 & k2 & E). symmetry in E. apply app_nil in E as [-> E].
      apply app_nil in E as [-> ->]. apply prefix_nil.
  - rewrite orb_true_iff, prefix_b_spec, IH. split.
    + intros [[k ->]|(k1 & k2 & ->)]; [by exists [], k|by exists (a :: k1), k2].
    + intros ([|b k1] & k2 & E); simplify_eq/=; [left; by exists k2|right; eauto].
Qed.

(** [strings.Contains] finds exactly the substrings. *)
Lemma Contains_spec s p : Contains s p = true ↔ ∃ u v, s = u +:+ (p +:+ v).
Proof.
  unfold Contains. rewrite contains_b_spec. split.
  - intros (k1 & k2 & E). exists (of_bytes k1), (of_bytes k2). apply (inj bytes).
    by autorewrite with gostr.
  - intros (u & v & ->). exists (bytes u), (bytes v). by autorewrite with gostr.
Qed.

Lemma HasPrefix_app p s : HasPrefix (p +:+ s) p = true.
Proof. unfold HasPrefix. rewrite bytes_app, prefix_b_spec. by apply prefix_app_r. Qed.

Lemma slice_to_app p s : slice_to (String.length p) (p +:+ s) = p.
Proof.
  unfold slice_to. rewrite bytes_app, <-length_bytes, take_app_length. apply of_bytes_bytes.
Qed.

Lemma slice_from_app p s : slice_from (String.length p) (p +:+ s) = s.
Proof.
  unfold slice_from. rewrite bytes_app, <-length_bytes, drop_app_length. apply of_bytes_bytes.
Qed.

Lemma TrimPrefix_app p s : TrimPrefix (p +:+ s) p = s.
Proof. unfold TrimPrefix. by rewrite HasPrefix_app, slice_from_app. Qed.

(** *** Lower case on ASCII strings *)

Lemma is_ascii_lower_byte a : is_ascii_byte (lower_byte a) = is_ascii_byte a.
Proof. by destruct a as [[] [] [] [] [] [] [] []]. Qed.

Lemma lower_byte_idem a : lower_byte (lower_byte a) = lower_byte a.
Proof. by destruct a as [[] [] [] [] [] [] [] []]. Qed.

Lemma space1_lower a : space1 (lower_byte a) = space1 a.
Proof. by destruct a as [[] [] [] [] [] [] [] []]. Qed.

Lemma is_ascii_Forall s : is_ascii s = true ↔ Forall (λ a, is_ascii_byte a = true) (bytes s).
Proof. unfold is_ascii. by rewrite forallb_forall, List.Forall_forall. Qed.

Section AsciiLower.
Context `{UnicodeTables}.

Lemma ToLower_bytes s : is_ascii s = true → bytes (ToLower s) = lower_byte <$> bytes s.
Proof. unfold ToLower. intros ->. apply bytes_of_bytes. Qed.

Lemma ToLower_ascii s : is_ascii s = true → is_ascii (ToLower s) = true.
Proof.
  intros Hs. rewrite is_ascii_Forall, ToLower_bytes, Forall_fmap by done.
  apply is_ascii_Forall in Hs. eapply Forall_impl; [exact Hs|]. intros a Ha; simpl.
  by rewrite is_ascii_lower_byte.
Qed.

Lemma ToLower_idem s : is_ascii s = true → ToLower (ToLower s) = ToLower s.
Proof.
  intros Hs. apply (inj bytes).
  rewrite ToLower_bytes by (by apply ToLower_ascii). rewrite !ToLower_bytes by done.
  rewrite <-list_fmap_compose. apply list_fmap_ext; intros ?? _. apply lower_byte_idem.
Qed.

Lemma ToLower_empty : ToLower "" = "".
Proof. done. Qed.

Lemma EqualFold_ascii s t :
  is_ascii s = true → is_ascii t = true → EqualFold s t = bool_decide (ToLower s = ToLower t).
Proof. unfold EqualFold. by intros -> ->. Qed.
End AsciiLower.

Lemma is_ascii_TrimSpace s : is_ascii s = true → is_ascii (TrimSpace s) = true.
Proof.
  rewrite !is_ascii_Forall. destruct (TrimSpace_infix s) as (k1 & k2 & E).
  rewrite E, !Forall_app. tauto.
Qed.

Lemma space2_ascii a b : is_ascii_byte a = true ∨ is_ascii_byte b = true → space2 a b = false.
Proof.
  unfold is_ascii_byte, space2. rewrite !N.ltb_lt. intros H.
  destruct (N.eqb_spec (N_of_ascii a) 0xC2); [|done].
  destruct (N.eqb_spec (N_of_ascii b) 0x85); [lia|].
  destruct (N.eqb_spec (N_of_ascii b) 0xA0); [lia|done].
Qed.

Lemma space3_ascii a b c : is_ascii_byte a = true ∨ is_ascii_byte c = true → space3 a b c = false.
Proof.
  unfold is_ascii_byte, space3. rewrite !N.ltb_lt. intros H.
  apply Bool.not_true_is_false. intros E.
  repeat rewrite ?orb_true_iff, ?andb_true_iff, ?N.eqb_eq, ?N.leb_le in E. lia.
Qed.

Lemma strip_lower s2 s3 l :
  (∀ a b, is_ascii_byte a = true → s2 a b = false) →
  (∀ a b c, is_ascii_byte a = true → s3 a b c = false) →
  Forall (λ a, is_ascii_byte a = true) l →
  strip s2 s3 (lower_byte <$> l) = lower_byte <$> strip s2 s3 l.
Proof.
  intros H2 H3. induction 1 as [|a l Ha Hl IH]; [done|]. simpl.
  rewrite space1_lower. destruct (space1 a); [done|].
  assert (Ha' : is_ascii_byte (lower_byte a) = true) by by rewrite is_ascii_lower_byte.
  destruct l as [|b [|c l]]; simpl; rewrite ?H2, ?H3 by done; done.
Qed.

Lemma TrimSpace_ToLower `{UnicodeTables} s :
  is_ascii s = true → TrimSpace (ToLower s) = ToLower (TrimSpace s).
Proof.
  intros Hs. apply (inj bytes).
  rewrite ToLower_bytes by by apply is_ascii_TrimSpace.
  unfold TrimSpace, trim_left, trim_right. rewrite !bytes_of_bytes.
  rewrite ToLower_bytes by done. rewrite is_ascii_Forall in Hs.
  rewrite strip_lower; [|intros; apply space2_ascii; auto|intros; apply space3_ascii; auto|done].
  rewrite <-fmap_rev, strip_lower.
  - symmetry. apply fmap_rev.
  - intros; apply space2_ascii; auto.
  - intros; apply space3_ascii; auto.
  - apply Forall_rev. destruct (strip_suffix space2 space3 (bytes s)) as [k Hk].
    rewrite Hk, Forall_app in Hs. tauto.
Qed.

(** *** Decimal printing and parsing *)

Lemma digit_digit_char d : 0 ≤ d < 10 → digit (digit_char d) = Some d.
Proof.
  intros ?. assert (∃ n : nat, (n < 10)%nat ∧ d = Z.of_nat n) as (n & ? & ->).
  { exists (Z.to_nat d). lia. }
  do 10 (destruct n as [|n]; [done|]). lia.
Qed.

Lemma digits_of_value fuel n acc :
  0 ≤ n < 2 ^ Z.of_nat fuel →
  digits_value 0 (digits_of fuel n acc) = digits_value n acc.
Proof.
  revert n acc. induction fuel as [|fuel IH]; intros n acc Hn.
  { simpl. by replace n with 0 by (simpl in Hn; lia). }
  rewrite Nat2Z.inj_succ, Z.pow_succ_r in Hn by lia. simpl.
  pose proof (Z.mod_pos_bound n 10 ltac:(lia)).
  pose proof (Z.div_mod n 10 ltac:(lia)).
  destruct (Z.eqb_spec (n `div` 10) 0) as [E|E].
  - simpl. rewrite digit_digit_char by lia. simpl. f_equal. lia.
  - rewrite IH by (split; [apply Z.div_pos; lia|apply Z.div_lt_upper_bound; lia]).
    simpl. rewrite digit_digit_char by lia. simpl. f_equal. lia.
Qed.

Lemma digits_of_digits fuel n acc :
  0 ≤ n → Forall is_digit acc → Forall is_digit (digits_of fuel n acc).
Proof.
  revert n acc. induction fuel as [|fuel IH]; intros n acc Hn Hacc; [done|]. simpl.
  assert (is_digit (digit_char (n `mod` 10))).
  { unfold is_digit. rewrite digit_digit_char by (apply Z.mod_pos_bound; lia).
    apply bool_decide_pack. eauto. }
  case_match; [by constructor|].
  apply IH; [apply Z.div_pos; lia|by constructor].
Qed.

Lemma digits_of_nonempty fuel n acc : fuel ≠ O ∨ acc ≠ [] → digits_of fuel n acc ≠ [].
Proof.
  revert n acc. induction fuel as [|fuel IH]; intros n acc H; simpl; [by destruct H|].
  case_match; [done|]. apply IH. by right.
Qed.

Lemma nat_digits_spec n :
  0 ≤ n → ∃ a l, nat_digits n = a :: l ∧ is_digit a ∧ digits_value 0 (a :: l) = Some n.
Proof.
  intros Hn. unfold nat_digits.
  set (fuel := S (Z.to_nat (Z.log2 n))).
  assert (0 ≤ n < 2 ^ Z.of_nat fuel) as Hb.
  { split; [done|]. unfold fuel. pose proof (Z.log2_nonneg n).
    rewrite Nat2Z.inj_succ, Z2Nat.id by done.
    destruct (decide (n = 0)) as [->|]; [done|]. apply Z.log2_spec. lia. }
  pose proof (digits_of_value fuel n [] Hb) as Hv.
  pose proof (digits_of_digits fuel n [] Hn ltac:(constructor)) as Hd.
  pose proof (digits_of_nonempty fuel n [] ltac:(by left)) as He.
  destruct (digits_of fuel n []) as [|a l]; [done|].
  exists a, l. split_and!; [done|by inversion Hd|by rewrite Hv].
Qed.

Lemma nat_digits_digits n : 0 ≤ n → Forall is_digit (nat_digits n).
Proof. intros. apply digits_of_digits; [done|constructor]. Qed.

(** [strconv.Atoi] reads back every [int64] printed with [%d]. *)
Lemma digit_word a : is_digit a → is_ascii_byte a = true ∧ space1 a = false.
Proof. by destruct a as [[] [] [] [] [] [] [] []]. Qed.

Lemma Itoa_bytes n : Forall (λ a, is_ascii_byte a = true ∧ space1 a = false) (bytes (Itoa n)).
Proof.
  unfold Itoa. rewrite bytes_of_bytes. destruct (Z.ltb_spec n 0); [constructor; [done|]|];
    (eapply Forall_impl; [apply nat_digits_digits; lia|apply digit_word]).
Qed.

Lemma Atoi_Itoa n : int64_min ≤ n ≤ int64_max → Atoi (Itoa n) = Some n.
Proof.
  intros Hn. unfold Atoi, Itoa. rewrite bytes_of_bytes.
  destruct (Z.ltb_spec n 0).
  - destruct (nat_digits_spec (- n) ltac:(lia)) as (a & l & -> & _ & ->). simpl.
    rewrite Z.opp_involutive, !(proj2 (Z.leb_le _ _)) by lia. done.
  - destruct (nat_digits_spec n ltac:(lia)) as (a & l & -> & Ha & Hv). simpl in Hv.
    assert (a ≠ "+"%char ∧ a ≠ "-"%char) as [??] by (split; by intros ->).
    destruct a as [[] [] [] [] [] [] [] []]; try done; simpl in *;
      rewrite Hv; simpl; by rewrite !(proj2 (Z.leb_le _ _)) by lia.
Qed.
