(* ===== verification/Text.v ===== *)
(** * Words and lists of words

    Trimming, splitting and prefixes of ASCII text without white space: ids,
    host names, header values. *)

From S2P Require Import Prelude GoLib.

Open Scope Z_scope.

(** Ids as the program makes them, names of hosts: ASCII without white space. *)
Definition word (s : string) : Prop :=
  s ≠ "" ∧ Forall (λ a, is_ascii_byte a = true ∧ space1 a = false) (bytes s).

Lemma strip_ascii (s2 : ascii → ascii → bool) (s3 : ascii → ascii → ascii → bool) a l :
  (∀ b, s2 a b = false) → (∀ b c, s3 a b c = false) → space1 a = false →
  strip s2 s3 (a :: l) = a :: l.
Proof. intros H2 H3 H1. apply strip_id. simpl. rewrite H1. by destruct l as [|b [|c l]]; rewrite ?H2, ?H3. Qed.

Lemma TrimSpace_ascii a b (l k : list ascii) :
  a :: l = k ++ [b] → is_ascii_byte a = true → space1 a = false → is_ascii_byte b = true → space1 b = false →
  TrimSpace (of_bytes (a :: l)) = of_bytes (a :: l).
Proof.
  intros E Ha Sa Hb Sb. unfold TrimSpace, trim_left, trim_right. rewrite bytes_of_bytes.
  rewrite strip_ascii; [|intros; apply space2_ascii; auto|intros; apply space3_ascii; auto|done].
  rewrite E, rev_app_distr. change (rev [b] ++ rev k) with (b :: rev k).
  rewrite strip_ascii; [|intros; apply space2_ascii; auto|intros; apply space3_ascii; auto|done].
  cbn [rev]. by rewrite rev_involutive.
Qed.

(** Text that starts and ends with words. *)
Lemma TrimSpace_words a l :
  Forall (λ a, is_ascii_byte a = true) (a :: l) → space1 a = false →
  (∀ b, last (a :: l) = Some b → space1 b = false) →
  TrimSpace (of_bytes (a :: l)) = of_bytes (a :: l).
Proof.
  intros Hf Ha Hl. destruct (last (a :: l)) as [b|] eqn:E; [|by apply last_None in E].
  pose proof (Hl b eq_refl) as Sb. apply last_Some in E as [k E].
  assert (is_ascii_byte b = true) as Hb.
  { rewrite E, Forall_app, Forall_singleton in Hf. tauto. }
  apply Forall_cons in Hf as [? _]. by eapply TrimSpace_ascii.
Qed.

Lemma TrimSpace_word s : word s → TrimSpace s = s.
Proof.
  intros [Hne Hs]. rewrite <-(of_bytes_bytes s). destruct (bytes s) as [|a l] eqn:E.
  { destruct Hne. by rewrite <-(of_bytes_bytes s), E. }
  apply TrimSpace_words.
  - eapply Forall_impl; [exact Hs|]. by intros ? [].
  - by apply Forall_cons in Hs as [[] _].
  - intros b Hb. apply last_Some in Hb as [k Hk]. rewrite Hk, Forall_app, Forall_singleton in Hs. tauto.
Qed.

(** ** Splitting *)

Lemma split_none sep l : Forall (λ a, a ≠ sep) l → split_b sep l = [l].
Proof.
  induction 1 as [|a l Ha _ IH]; [done|]. simpl.
  rewrite (proj2 (Ascii.eqb_neq _ _) Ha). by rewrite IH.
Qed.

Lemma split_app sep l k :
  Forall (λ a, a ≠ sep) l → split_b sep (l ++ sep :: k) = l :: split_b sep k.
Proof.
  induction 1 as [|a l Ha _ IH]; simpl; [by rewrite Ascii.eqb_refl|].
  by rewrite (proj2 (Ascii.eqb_neq _ _) Ha), IH.
Qed.

(** Splitting undoes joining when no part has the separator. *)
Lemma Split_Join sep l :
  l ≠ [] → Forall (λ s, Forall (λ a, a ≠ sep) (bytes s)) l → Split (Join l (String sep "")) sep = l.
Proof.
  intros Hne Hl. induction Hl as [|s l Hs Hl IH]; [done|]. destruct l as [|t l].
  - unfold Split. simpl. rewrite split_none by done. simpl. by rewrite of_bytes_bytes.
  - change (Join (s :: t :: l) (String sep "")) with (s +:+ String sep "" +:+ Join (t :: l) (String sep "")).
    unfold Split. rewrite !bytes_app. change (bytes (String sep "")) with [sep]. simpl app.
    rewrite split_app by done. rewrite fmap_cons, of_bytes_bytes. f_equal. by apply IH.
Qed.

(** ** Prefixes *)

Lemma HasPrefix_spec s p : HasPrefix s p = true ↔ ∃ t, s = p +:+ t.
Proof.
  split; [|intros [t ->]; apply HasPrefix_app].
  unfold HasPrefix. rewrite prefix_b_spec. intros [k Hk]. exists (of_bytes k).
  apply (inj bytes). by autorewrite with gostr.
Qed.
