(* ===== verification/Float.v ===== *)
(** * IEEE 754 binary64

    Go's [float64] as the [spec_float] of the Standard Library at precision 53
    and maximal exponent 1024: conversions from and to [int], division,
    multiplication, [math.Round] and [strconv.ParseFloat] on JSON number
    literals.  All of it computes on integers, with Go's rounding. *)

From S2P Require Import Prelude GoLib.
From Corelib Require Export SpecFloat.

Open Scope Z_scope.

Abbreviation float64 := spec_float (only parsing).

Definition float_of_int (z : Z) : float64 := binary_normalize 53 1024 z 0 false.
Definition fdiv (x y : float64) : float64 := SFdiv 53 1024 x y.
Definition fmul (x y : float64) : float64 := SFmul 53 1024 x y.

(** The value [±m·2^e] as an integer, with a rounding of the magnitude. *)
Definition with_sign (s : bool) (z : Z) : Z := if s then - z else z.

(** [int(x)] of an integral or fractional [x]: truncation towards zero.  A
    value [int] cannot hold (and NaN, infinities) gives the smallest [int64],
    as on amd64. *)
Definition int_of_float (x : float64) : Z :=
  match x with
  | S754_zero _ => 0
  | S754_finite s m e =>
      let v := with_sign s (if 0 <=? e then Z.pos m * 2 ^ e else Z.pos m `div` 2 ^ (- e)) in
      if (int64_min <=? v) && (v <=? int64_max) then v else int64_min
  | _ => int64_min
  end.

(** [int(math.Round(x))]: nearest integer, halves away from zero. *)
Definition round_to_int (x : float64) : Z :=
  match x with
  | S754_zero _ => 0
  | S754_finite s m e =>
      let v := with_sign s
        (if 0 <=? e then Z.pos m * 2 ^ e
         else (2 * Z.pos m + 2 ^ (- e)) `div` (2 * 2 ^ (- e))) in
      if (int64_min <=? v) && (v <=? int64_max) then v else int64_min
  | _ => int64_min
  end.

(** The float of precision [prec] and maximal exponent [emax] nearest to [±m·10^e]. *)
Definition float_of_decimal (prec emax : Z) (neg : bool) (m e : Z) : spec_float :=
  match m with
  | Z.pos p =>
      if 0 <=? e then binary_normalize prec emax (with_sign neg (m * 10 ^ e)) 0 neg
      else match 10 ^ (- e) with
           | Z.pos q => SFdiv prec emax (S754_finite neg p 0) (S754_finite false q 0)
           | _ => S754_nan
           end
  | _ => S754_zero neg
  end.

(** The longest run of digits at the head of a list. *)
Fixpoint span_digits (l : list ascii) : list ascii * list ascii :=
  match l with
  | a :: l' => if is_digit a then let '(d, r) := span_digits l' in (a :: d, r) else ([], l)
  | [] => ([], [])
  end.

(** The digits of an exponent, which stops growing at 10000. *)
Fixpoint exponent_value (e : Z) (l : list ascii) : option Z :=
  match l with
  | [] => Some e
  | a :: l => d ← digit a; exponent_value (if e <? 10000 then 10 * e + d else e) l
  end.
Definition exponent (l : list ascii) : option Z :=
  let '(neg, l) := match l with
                   | "-"%char :: l => (true, l)
                   | "+"%char :: l => (false, l)
                   | l => (false, l)
                   end in
  match l with [] => None | _ => with_sign neg <$> exponent_value 0 l end.

(** [strconv.ParseFloat] on the literals of the JSON grammar
    ([-]digits[.digits][e[+-]digits]); [None] is an error, a syntax error or a
    magnitude out of range. *)
Definition ParseFloat_at (prec emax : Z) (lit : string) : option spec_float :=
  let '(neg, l) := match bytes lit with
                   | "-"%char :: l => (true, l)
                   | l => (false, l)
                   end in
  let '(ip, l) := span_digits l in
  let '(fp, l) := match l with
                  | "."%char :: l => span_digits l
                  | _ => ([], l)
                  end in
  match ip, fp with
  | [], [] => None
  | _, _ =>
      m ← digits_value 0 (ip ++ fp);
      ex ← match l with
           | [] => Some 0
           | c :: l =>
               if bool_decide (c = "e"%char ∨ c = "E"%char) then exponent l else None
           end;
      let x := float_of_decimal prec emax neg m (ex - Z.of_nat (List.length fp)) in
      match x with S754_infinity _ => None | _ => Some x end
  end.

(** [strconv.ParseFloat(lit, 64)] and [strconv.ParseFloat(lit, 32)] *)
Definition ParseFloat (lit : string) : option float64 := ParseFloat_at 53 1024 lit.
Definition ParseFloat32 (lit : string) : option spec_float := ParseFloat_at 24 128 lit.

(** Integers printed in decimal and read back as a float, on a range that can
    be checked by computation. *)
Lemma ParseFloat_Itoa_percent n :
  0 ≤ n ≤ 100 → int_of_float <$> ParseFloat (Itoa n) = Some n.
Proof.
  intros Hn.
  assert (Forall (λ n, int_of_float <$> ParseFloat (Itoa n) = Some n) (seqZ 0 101)) as H.
  { apply (bool_decide_unpack _). vm_compute. exact I. }
  rewrite Forall_forall in H. apply H, elem_of_seqZ. lia.
Qed.

(** ** Integers as floats *)

Lemma digits2_pos_spec p : 2 ^ (Z.pos (digits2_pos p) - 1) ≤ Z.pos p < 2 ^ Z.pos (digits2_pos p).
Proof.
  assert (∀ p, 2 ^ Z.pos p = 2 * 2 ^ (Z.pos p - 1)) as D.
  { intros q. rewrite <-(Z.pow_succ_r 2) by lia. f_equal. lia. }
  induction p as [p IH|p IH|]; cbn [digits2_pos]; [..|simpl; lia];
    rewrite Pos2Z.inj_succ, Z.sub_1_r, Z.pred_succ, Z.pow_succ_r by lia; rewrite D in *; lia.
Qed.

Lemma digits2_pos_shift p d : digits2_pos (Pos.iter xO p d) = (digits2_pos p + d)%positive.
Proof.
  induction d as [|d IH] using Pos.peano_ind; [simpl; by rewrite Pos.add_1_r|].
  rewrite Pos.iter_succ. cbn [digits2_pos]. rewrite IH. lia.
Qed.

Lemma shift_value p d : Z.pos (Pos.iter xO p d) = Z.pos p * 2 ^ Z.pos d.
Proof.
  induction d as [|d IH] using Pos.peano_ind; [simpl; lia|].
  rewrite Pos.iter_succ, Pos2Z.inj_succ, Z.pow_succ_r by lia. lia.
Qed.

Lemma fexp64 d : -1021 ≤ d → fexp 53 1024 d = d - 53.
Proof. unfold fexp, emin. lia. Qed.

Lemma round_aux_exact s m e :
  digits2_pos m = 53%positive → -1000 ≤ e ≤ 971 →
  binary_round_aux 53 1024 s (Z.pos m) e loc_Exact = S754_finite s m e.
Proof.
  intros Hd He. unfold binary_round_aux, shr_fexp. cbn [Zdigits2]. rewrite Hd, fexp64 by lia.
  replace (53 + e - 53 - e) with 0 by lia. cbn [shr shr_record_of_loc loc_of_shr_record shr_m round_nearest_even].
  unfold shr_fexp. cbn [Zdigits2]. rewrite Hd, fexp64 by lia.
  replace (53 + e - 53 - e) with 0 by lia. cbn.
  by rewrite (proj2 (Z.leb_le _ _)) by lia.
Qed.

Lemma binary_round_int s p :
  Z.pos p < 2 ^ 53 → ∃ m k, 0 ≤ k ∧ binary_round 53 1024 s p 0 = S754_finite s m (- k) ∧ Z.pos m = Z.pos p * 2 ^ k.
Proof.
  intros Hp. pose proof (digits2_pos_spec p) as [Hd _].
  assert (Z.pos (digits2_pos p) ≤ 53) as H53.
  { destruct (Z.le_gt_cases (Z.pos (digits2_pos p)) 53); [done|].
    pose proof (Z.pow_le_mono_r 2 53 (Z.pos (digits2_pos p) - 1)). lia. }
  unfold binary_round, shl_align. rewrite fexp64 by lia.
  destruct (_ - _ - _) as [|q|q] eqn:E; [|lia|]; cbv iota beta zeta.
  - exists p, 0. split_and!; [done| |lia]. apply round_aux_exact; lia.
  - exists (Pos.iter xO p q), (Z.pos q). split; [lia|]. split; [|apply shift_value].
    rewrite round_aux_exact; [f_equal; lia| |lia]. rewrite digits2_pos_shift. lia.
Qed.

(** Integers below 2^53 are floats. *)
Lemma float_of_int_small z :
  Z.abs z < 2 ^ 53 →
  int_of_float (float_of_int z) = z ∧ ∀ s, float_of_int z ≠ S754_infinity s.
Proof.
  intros Hz. assert (∀ s p, Z.abs z = Z.pos p → float_of_int z = binary_round 53 1024 s p 0 → z = with_sign s (Z.pos p) →
    int_of_float (float_of_int z) = z ∧ ∀ s, float_of_int z ≠ S754_infinity s) as K.
  { intros s p Hp -> Hs. destruct (binary_round_int s p) as (m & k & Hk & -> & Hm); [lia|]. split; [|done].
    cbn [int_of_float].
    assert ((if 0 <=? - k then Z.pos m * 2 ^ - k else Z.pos m `div` 2 ^ (- - k)) = Z.pos p) as ->.
    { rewrite Hm. destruct (Z.leb_spec 0 (- k)).
      - assert (k = 0) as -> by lia. lia.
      - rewrite Z.opp_involutive. apply Z.div_mul. pose proof (Z.pow_pos_nonneg 2 k). lia. }
    rewrite <-Hs. unfold int64_min, int64_max. rewrite !(proj2 (Z.leb_le _ _)) by lia. done. }
  destruct z as [|p|p]; [done| |]; [apply (K false p)|apply (K true p)]; done.
Qed.

Lemma span_digits_all l : Forall (λ a, is_digit a = true) l → span_digits l = (l, []).
Proof. induction 1 as [|a l Ha _ IH]; [done|]. simpl. by rewrite Ha, IH. Qed.

(** What [ParseFloat] does after the sign, on the digits of a number. *)
Lemma decimal_of_int neg n : 0 < n ∨ neg = false ∧ n = 0 →
  float_of_decimal 53 1024 neg n 0 = float_of_int (with_sign neg n).
Proof.
  intros [Hn|[-> ->]]; [|done]. destruct n as [|p|p]; [lia| |lia].
  unfold float_of_decimal, float_of_int. cbn [Z.leb Z.compare]. rewrite Z.pow_0_r, Z.mul_1_r.
  by destruct neg.
Qed.

(** Integers below 2^53 survive printing and parsing. *)
Lemma ParseFloat_Itoa z : Z.abs z < 2 ^ 53 → ParseFloat (Itoa z) = Some (float_of_int z).
Proof.
  intros Hz. pose proof (float_of_int_small z Hz) as [_ Hinf].
  assert (∀ neg n, 0 ≤ n → (0 < n ∨ neg = false ∧ n = 0) → z = with_sign neg n →
    match bytes (Itoa z) with "-"%char :: l => (true, l) | l => (false, l) end = (neg, nat_digits n) →
    ParseFloat (Itoa z) = Some (float_of_int z)) as K.
  { intros neg n Hn Hneg Hs E. unfold ParseFloat, ParseFloat_at. rewrite E.
    rewrite span_digits_all; cycle 1.
    { eapply Forall_impl; [by apply nat_digits_digits|]. intros a Ha. by apply Is_true_true. }
    destruct (nat_digits_spec n Hn) as (a & l & E' & _ & Hv). rewrite E', app_nil_r, Hv. cbn -[float_of_decimal]. change (0 - Z.of_nat 0) with 0.
    rewrite (decimal_of_int neg n) by done. rewrite <-Hs. by destruct (float_of_int z) eqn:?; try done; edestruct Hinf. }
  destruct (Z.ltb_spec z 0).
  - apply (K true (- z)); [lia|lia|simpl; lia|]. unfold Itoa. rewrite (proj2 (Z.ltb_lt _ _)) by lia.
    by rewrite bytes_of_bytes.
  - apply (K false z); [lia|lia|done|]. unfold Itoa. rewrite (proj2 (Z.ltb_ge _ _)) by lia. rewrite bytes_of_bytes.
    destruct (nat_digits_spec z) as (a & l & -> & Ha & _); [lia|]. by destruct a as [[] [] [] [] [] [] [] []].
Qed.
