(* ===== verification/Json.v ===== *)
(** * JSON values, as [encoding/json] encodes and decodes them

    The tree of a JSON text, and decoding into an existing Go value: [null]
    clears a pointer and leaves other targets alone, an object updates the
    fields it names (keys match case-insensitively), an integer field takes
    integer literals only.  Concrete syntax (text to tree and back) is the
    class [JsonText]. *)

From S2P Require Import Prelude GoLib Float.

(** A number keeps its literal: Go parses it at the type of the target. *)
Inductive json :=
| JNull
| JBool (b : bool)
| JNum (lit : string)
| JStr (s : string)
| JArr (l : list json)
| JObj (fs : list (string * json)).

(** Text of [encoding/json]: [json_print] is [json.Marshal]'s output for a
    tree, [json_indent] that of [json.MarshalIndent] with the prefix and indent
    of the program, [json_parse] the tree [json.Unmarshal] reads ([None]: syntax error),
    [json_parse_first] the first value [json.Decoder] reads. *)
Class JsonText := {
  json_print : json → string;
  json_indent : json → string;
  json_parse : string → option json;
  json_parse_first : string → option json;
}.

(** Valid UTF-8: no truncated, overlong or surrogate encoding.  Other bytes
    [json.Marshal] replaces by U+FFFD. *)
Definition continuation (a : ascii) : bool := (128 <=? N_of_ascii a)%N && (N_of_ascii a <? 192)%N.
Definition second_byte (a b : ascii) : bool :=
  let '(a, b) := (N_of_ascii a, N_of_ascii b) in
  (if a =? 224 then 160 <=? b else if a =? 240 then 144 <=? b else 128 <=? b)%N &&
  (if a =? 237 then b <? 160 else if a =? 244 then b <? 144 else b <? 192)%N.
Fixpoint utf8 (l : list ascii) : bool :=
  match l with
  | [] => true
  | a :: l =>
      if is_ascii_byte a then utf8 l else
      match l with
      | [] => false
      | b :: l =>
          second_byte a b &&
          if (194 <=? N_of_ascii a)%N && (N_of_ascii a <? 224)%N then utf8 l else
          match l with
          | [] => false
          | c :: l =>
              continuation c &&
              if (224 <=? N_of_ascii a)%N && (N_of_ascii a <? 240)%N then utf8 l else
              match l with
              | [] => false
              | d :: l => (240 <=? N_of_ascii a)%N && (N_of_ascii a <? 245)%N && continuation d && utf8 l
              end
          end
      end
  end.
Definition valid_utf8 (s : string) : bool := utf8 (bytes s).

(** The trees whose text keeps them: texts of valid UTF-8, and the numbers of
    the program's encoders, integers in decimal. *)
Fixpoint json_wf (j : json) : bool :=
  match j with
  | JNull | JBool _ => true
  | JNum lit => match Atoi lit with Some z => bool_decide (lit = Itoa z) | None => false end
  | JStr s => valid_utf8 s
  | JArr l => forallb json_wf l
  | JObj fs => forallb (λ kv, valid_utf8 kv.1 && json_wf kv.2) fs
  end.

(** Printing then parsing gives such a tree back. *)
Class JsonTextLaws (J : JsonText) : Prop := {
  json_parse_print j : json_wf j = true → json_parse (json_print j) = Some j;
  json_parse_indent j : json_wf j = true → json_parse (json_indent j) = Some j;
  json_parse_first_print j : json_wf j = true → json_parse_first (json_print j) = Some j;
  json_print_nonempty j : json_print j ≠ "";
}.

(** [time.Time] in JSON: RFC 3339 text with nanoseconds.  Formatting and
    parsing are the standard library's; a year outside 0-9999 is an error. *)
Class TimeText := {
  time_text : Time → string;
  parse_time : string → option Time;
}.
Definition time_in_range (t : Time) : bool :=
  ((-62167219200 * Second <=? t) && (t <? 253402300800 * Second))%Z.
Class TimeTextLaws (T : TimeText) : Prop := {
  parse_time_text t : time_in_range t = true → parse_time (time_text t) = Some t;
  time_text_nonempty t : time_text t ≠ "";
  time_text_ascii t : is_ascii (time_text t) = true;
}.

(** Numbers: [number_text] is what [encoding/json] prints for a finite
    [float64], the shortest decimal that reads back; [parse_number] is
    [strconv.ParseFloat(s, 64)] on text that need not be a JSON literal
    ([None]: an error). *)
Class NumberText := {
  number_text : float64 → string;
  parse_number : string → option float64;
}.
Class NumberTextLaws (N : NumberText) : Prop := {
  number_text_int z : (Z.abs z < 2 ^ 53)%Z → number_text (float_of_int z) = Itoa z;
  parse_number_NaN : parse_number "NaN" = Some S754_nan;
}.

(** ** Decoding *)

(** The result of decoding: a value, an error, or a panic inside a custom
    [UnmarshalJSON] method. *)
Inductive dres (A : Type) :=
| DOk (a : A)
| DErr
| DPanic (why : string).
Arguments DOk {A} a.
Arguments DErr {A}.
Arguments DPanic {A} why.

#[export] Instance dres_ret : MRet dres := λ A, DOk.
#[export] Instance dres_bind : MBind dres := λ A B f r,
  match r with DOk a => f a | DErr => DErr | DPanic w => DPanic w end.
Definition dres_of_option {A} (o : option A) : dres A :=
  match o with Some a => DOk a | None => DErr end.

(** [decoder A]: decode a tree into a target that holds a value of [A].  On
    an error the partly filled target is not modelled. *)
Definition decoder (A : Type) : Type := json → A → dres A.

Definition dec_string : decoder string := λ j old,
  match j with JNull => DOk old | JStr s => DOk s | _ => DErr end.
Definition dec_bool : decoder bool := λ j old,
  match j with JNull => DOk old | JBool b => DOk b | _ => DErr end.
Definition dec_int : decoder Z := λ j old,
  match j with JNull => DOk old | JNum lit => dres_of_option (Atoi lit) | _ => DErr end.

(** A pointer target: [null] sets it to nil, otherwise the pointed value (a
    fresh zero value for a nil pointer) is decoded in place. *)
Definition dec_ptr {A} (zero : A) (d : decoder A) : decoder (option A) := λ j old,
  match j with
  | JNull => DOk None
  | _ => a ← d j (default zero old); DOk (Some a)
  end.

(** A struct target: the members of the object are decoded in order, those
    without a field are skipped. *)
Definition dec_fields {A} (field : string → option (decoder A))
    (fs : list (string * json)) (a : A) : dres A :=
  foldl (λ acc kv, a ← acc; match field kv.1 with None => DOk a | Some d => d kv.2 a end)
        (DOk a) fs.
Definition dec_struct {A} (field : string → option (decoder A)) : decoder A := λ j a,
  match j with
  | JNull => DOk a
  | JObj fs => dec_fields field fs a
  | _ => DErr
  end.

(** A slice target: elements are decoded into fresh zero values; [null] is the
    nil slice. *)
Definition dec_slice {A} (zero : A) (d : decoder A) : decoder (list A) := λ j old,
  match j with
  | JNull => DOk []
  | JArr l =>
      foldr (λ j acc, a ← d j zero; l ← acc; DOk (a :: l)) (DOk []) l
  | _ => DErr
  end.

(** Lift a decoder along a field. *)
Definition dec_at {A B} (get : A → B) (set : B → A → A) (d : decoder B) : decoder A :=
  λ j a, b ← d j (get a); DOk (set b a).

Section Fields.
Context `{UnicodeTables} {A : Type}.

(** The field a key selects. *)
Fixpoint find_field (tbl : list (string * decoder A)) (key : string) : option (decoder A) :=
  match tbl with
  | [] => None
  | (name, d) :: tbl => if EqualFold key name then Some d else find_field tbl key
  end.
End Fields.

(** ** Encoding *)

Definition enc_int (z : Z) : json := JNum (Itoa z).

(** A struct: its members in order, those tagged [omitempty] left out when
    [None]. *)
Definition present (members : list (option (string * json))) : list (string * json) :=
  omap id members.
Arguments present : simpl never.
Definition enc_struct (members : list (option (string * json))) : json :=
  JObj (present members).
Definition omit_nil {A} (key : string) (enc : A → json) (p : option A)
    : option (string * json) := (λ a, (key, enc a)) <$> p.
Definition always (key : string) (j : json) : option (string * json) := Some (key, j).

(** ** Lemmas *)

Lemma valid_utf8_ascii s : is_ascii s = true → valid_utf8 s = true.
Proof.
  unfold is_ascii, valid_utf8. induction (bytes s) as [|a l IH]; [done|].
  cbn [forallb utf8]. intros [-> Hl]%andb_true_iff. by apply IH.
Qed.

Lemma json_wf_int z : (int64_min ≤ z ≤ int64_max)%Z → json_wf (enc_int z) = true.
Proof. intros Hz. simpl. rewrite Atoi_Itoa by done. by apply bool_decide_eq_true. Qed.

Lemma dec_int_enc z old : (int64_min ≤ z ≤ int64_max)%Z → dec_int (enc_int z) old = DOk z.
Proof. intros. simpl. by rewrite Atoi_Itoa. Qed.

Lemma dec_fields_cons {A} field k j d fs (a b : A) :
  field k = Some d → d j a = DOk b →
  dec_fields field ((k, j) :: fs) a = dec_fields field fs b.
Proof. intros E1 E2. unfold dec_fields. simpl. by rewrite E1, E2. Qed.

Lemma dec_at_ok {A B} (get : A → B) set (d : decoder B) j a b :
  d j (get a) = DOk b → dec_at get set d j a = DOk (set b a).
Proof. unfold dec_at. by intros ->. Qed.

(** A member that is always there. *)
Lemma dec_always {A} (field : string → option (decoder A)) k j d fs (a b : A) :
  field k = Some d → d j a = DOk b →
  dec_fields field (present (always k j :: fs)) a = dec_fields field (present fs) b.
Proof. apply dec_fields_cons. Qed.

(** One member of an object, present or omitted, whose field is at its zero
    value before. *)
Lemma dec_member {A B} (field : string → option (decoder A)) k (enc : B → json) (p : option B)
    (get : A → option B) set z (d : decoder B) fs a :
  field k = Some (dec_at get set (dec_ptr z d)) →
  get a = None → set None a = a →
  (∀ b, p = Some b → enc b ≠ JNull ∧ d (enc b) z = DOk b) →
  dec_fields field (present (omit_nil k enc p :: fs)) a =
  dec_fields field (present fs) (set p a).
Proof.
  intros Hf Hg Hs Hd. destruct p as [b|]; cycle 1.
  { change (present (omit_nil k enc None :: fs)) with (present fs). by rewrite Hs. }
  change (present (omit_nil k enc (Some b) :: fs)) with ((k, enc b) :: present fs).
  destruct (Hd b eq_refl) as [Hn Hb].
  erewrite dec_fields_cons; [done|done|]. unfold dec_at, dec_ptr. rewrite Hg. simpl.
  rewrite Hb. destruct (enc b); done.
Qed.

(** Decode the next member of a printed struct. *)
Ltac json_member :=
  erewrite dec_member; [cbv beta | reflexivity | reflexivity | reflexivity |].
Ltac json_always := erewrite dec_always; [cbv beta | reflexivity |].
