(* ===== verification/Instances.v ===== *)
(** * Concrete text encodings

    The classes [UnicodeTables], [JsonText], [TimeText] and [NumberText] stand for parts of
    the Go standard library that are not translated here.  This file has one
    executable instance of each, with a proof of the laws, so that the theorems
    that assume the laws can be evaluated on examples. *)

From S2P Require Import Prelude GoLib Float Json.

(** ** Unicode: the tables that treat every byte of 128 or more as caseless *)

Definition ascii_tables : UnicodeTables := {|
  unicode_ToLower s := of_bytes (lower_byte <$> bytes s);
  unicode_EqualFold s t := bool_decide (lower_byte <$> bytes s = lower_byte <$> bytes t);
  unicode_Quote s := of_bytes (ascii_of_N 34 :: (bytes s ≫= quote_byte) ++ [ascii_of_N 34]);
|}.

(** ** JSON trees through stdpp's generic trees *)

Fixpoint tree_of_json (j : json) : gen_tree string :=
  match j with
  | JNull => GenNode 0 []
  | JBool b => GenNode (if b then 2 else 1) []
  | JNum lit => GenNode 3 [GenLeaf lit]
  | JStr s => GenNode 4 [GenLeaf s]
  | JArr l => GenNode 5 (tree_of_json <$> l)
  | JObj fs => GenNode 6 ((λ kv, GenNode 7 [GenLeaf kv.1; tree_of_json kv.2]) <$> fs)
  end.

Fixpoint json_of_tree (t : gen_tree string) : json :=
  match t with
  | GenNode 1 _ => JBool false
  | GenNode 2 _ => JBool true
  | GenNode 3 [GenLeaf lit] => JNum lit
  | GenNode 4 [GenLeaf s] => JStr s
  | GenNode 5 l => JArr (json_of_tree <$> l)
  | GenNode 6 l =>
      JObj (omap (λ t, match t with
                       | GenNode 7 [GenLeaf k; t] => Some (k, json_of_tree t)
                       | _ => None
                       end) l)
  | _ => JNull
  end.

Fixpoint digits_of_pos (p : positive) : string :=
  match p with
  | xH => "1"
  | xO p => String "0" (digits_of_pos p)
  | xI p => String "2" (digits_of_pos p)
  end.

Fixpoint pos_of_digits (s : string) : positive :=
  match s with
  | String "0" s => xO (pos_of_digits s)
  | String "2" s => xI (pos_of_digits s)
  | _ => xH
  end.

Definition tree_text : JsonText := {|
  json_print j := digits_of_pos (encode (tree_of_json j));
  json_indent j := digits_of_pos (encode (tree_of_json j));
  json_parse s := json_of_tree <$> decode (pos_of_digits s);
  json_parse_first s := json_of_tree <$> decode (pos_of_digits s);
|}.

(** ** Times as decimal nanoseconds *)

Definition decimal_time : TimeText := {|
  time_text t := Itoa t;
  parse_time s :=
    match bytes s with
    | "-"%char :: l => Z.opp <$> digits_value 0 l
    | l => digits_value 0 l
    end;
|}.

(** ** Numbers as exact decimals *)

(** The decimal expansion of a finite float, which is finite. *)
Definition exact_decimal (x : float64) : string :=
  match x with
  | S754_finite s m e =>
      (if s then "-" else "") +:+
      (if (0 <=? e)%Z then Itoa (Z.pos m * 2 ^ e)
       else let places := Z.to_nat (- e) in
            let l := nat_digits (Z.pos m * 5 ^ (- e)) in
            let l := replicate (S places - List.length l) "0"%char ++ l in
            of_bytes (take (List.length l - places) l) +:+ "." +:+ of_bytes (drop (List.length l - places) l))
  | S754_zero true => "-0"
  | _ => "0"
  end.

Definition decimal_numbers : NumberText := {|
  number_text x := let z := int_of_float x in
                   if (Z.abs z <? 2 ^ 53)%Z && SFeqb x (float_of_int z) then Itoa z else exact_decimal x;
  parse_number s := if bool_decide (s = "NaN") then Some S754_nan else ParseFloat s;
|}.

(** ** The laws *)

Section JsonInd.
Context (P : json → Prop).
Hypothesis (Hnull : P JNull) (Hbool : ∀ b, P (JBool b)) (Hnum : ∀ s, P (JNum s))
  (Hstr : ∀ s, P (JStr s)) (Harr : ∀ l, Forall P l → P (JArr l))
  (Hobj : ∀ fs, Forall (λ kv, P kv.2) fs → P (JObj fs)).

(** Induction through the nested lists. *)
Fixpoint json_ind' (j : json) : P j :=
  match j with
  | JNull => Hnull
  | JBool b => Hbool b
  | JNum s => Hnum s
  | JStr s => Hstr s
  | JArr l => Harr l ((fix go l : Forall P l :=
      match l with [] => Forall_nil_2 _ | j :: l => Forall_cons_2 _ _ _ (json_ind' j) (go l) end) l)
  | JObj fs => Hobj fs ((fix go fs : Forall (λ kv : string * json, P kv.2) fs :=
      match fs with [] => Forall_nil_2 _ | kv :: fs => Forall_cons_2 _ _ _ (json_ind' kv.2) (go fs) end) fs)
  end.
End JsonInd.

Lemma json_of_tree_of_json j : json_of_tree (tree_of_json j) = j.
Proof.
  induction j as [|[]| | |l IH|fs IH] using json_ind'; simpl; try done.
  - f_equal. induction IH as [|j l Hj _ IH]; [done|]. simpl. rewrite Hj. f_equal. exact IH.
  - f_equal. induction IH as [|[k j] fs Hj _ IH]; [done|]. simpl in *. rewrite Hj. f_equal. exact IH.
Qed.

Lemma pos_of_digits_of_pos p : pos_of_digits (digits_of_pos p) = p.
Proof. induction p as [p IH|p IH|]; simpl; by rewrite ?IH. Qed.

Lemma tree_text_laws : JsonTextLaws tree_text.
Proof.
  split; intros j; [intros _..|]; simpl.
  1,2,3: by rewrite pos_of_digits_of_pos, decode_encode; simpl; rewrite json_of_tree_of_json.
  by destruct (encode (tree_of_json j)).
Qed.

Lemma decimal_time_laws : TimeTextLaws decimal_time.
Proof.
  split; simpl.
  - unfold Itoa. intros t _. destruct (Z.ltb_spec t 0) as [Hneg|Hpos]; rewrite bytes_of_bytes.
    + destruct (nat_digits_spec (- t)) as (a & l & -> & _ & E); [lia|].
      rewrite E. simpl. f_equal. lia.
    + destruct (nat_digits_spec t) as (a & l & -> & Ha & E); [lia|].
      by destruct a as [[] [] [] [] [] [] [] []].
  - unfold Itoa. intros t. destruct (Z.ltb_spec t 0) as [Hneg|Hpos]; [done|].
    by destruct (nat_digits_spec t) as (a & l & -> & _); [lia|].
  - intros t. apply is_ascii_Forall. eapply Forall_impl; [apply Itoa_bytes|]. by intros a [].
Qed.

Lemma SFeqb_refl x : x ≠ S754_nan → SFeqb x x = true.
Proof.
  intros Hx. destruct x as [[]|[]| |[] m e]; try done; unfold SFeqb, SFcompare;
    rewrite Z.compare_refl; rewrite Pos.compare_cont_refl; done.
Qed.

Lemma decimal_numbers_laws : NumberTextLaws decimal_numbers.
Proof.
  split; [|done]. intros z Hz. cbn [number_text decimal_numbers].
  destruct (float_of_int_small z Hz) as [-> _]. rewrite (proj2 (Z.ltb_lt _ _)) by done.
  rewrite SFeqb_refl; [done|]. intros E. pose proof (float_of_int_small z Hz) as [Hi _].
  rewrite E in Hi. unfold int_of_float, int64_min in Hi. lia.
Qed.
