(* ===== verification/Common.v ===== *)
(** * Package [lib/common]

    The media structures sent to Trakt ([structs.go]), their JSON form with the
    custom treatment of [progress], the human-readable label ([main.go]) and
    the normalisation of display names ([displayname.go]).  Pointers to
    scalars and structs are [option]s. *)

From S2P Require Import Prelude GoLib Float Json.

Open Scope Z_scope.

(** ** Structures *)

Record Ids := mkIds {
  Ids_Trakt : option Z;
  Ids_Tvdb : option Z;
  Ids_Imdb : option string;
  Ids_Tmdb : option Z;
  Ids_Slug : option string;
}.

Record Show := mkShow {
  Show_Title : option string;
  Show_Year : option Z;
  Show_Ids : Ids;
}.

Record Episode := mkEpisode {
  Episode_Season : option Z;
  Episode_Number : option Z;
  Episode_Title : option string;
  Episode_Ids : option Ids;
}.

Record Movie := mkMovie {
  Movie_Title : option string;
  Movie_Year : option Z;
  Movie_Ids : Ids;
}.

Record ScrobbleBody := mkBody {
  Progress : Z;
  Body_Movie : option Movie;
  Body_Show : option Show;
  Body_Episode : option Episode;
}.

Record CacheItem := mkCacheItem {
  PlayerUuid : string;
  ServerUuid : string;
  RatingKey : string;
  Trigger : string;
  Body : ScrobbleBody;
  LastAction : string;
}.

Record QueueStatus := mkQueueStatus {
  QS_UserID : string;
  QS_QueueSize : Z;
  QS_OldestEventAge : Duration;
  QS_Mode : string;
}.

#[export] Instance Ids_eq_dec : EqDecision Ids.
Proof. solve_decision. Defined.
#[export] Instance Show_eq_dec : EqDecision Show.
Proof. solve_decision. Defined.
#[export] Instance Episode_eq_dec : EqDecision Episode.
Proof. solve_decision. Defined.
#[export] Instance Movie_eq_dec : EqDecision Movie.
Proof. solve_decision. Defined.
#[export] Instance ScrobbleBody_eq_dec : EqDecision ScrobbleBody.
Proof. solve_decision. Defined.
#[export] Instance CacheItem_eq_dec : EqDecision CacheItem.
Proof. solve_decision. Defined.

Definition emptyIds : Ids := mkIds None None None None None.
Definition emptyShow : Show := mkShow None None emptyIds.
Definition emptyEpisode : Episode := mkEpisode None None None None.
Definition emptyMovie : Movie := mkMovie None None emptyIds.
Definition emptyBody : ScrobbleBody := mkBody 0 None None None.
Definition emptyCacheItem : CacheItem := mkCacheItem "" "" "" "" emptyBody "".

Definition set_Progress (p : Z) (b : ScrobbleBody) : ScrobbleBody :=
  mkBody p (Body_Movie b) (Body_Show b) (Body_Episode b).
Definition set_Body (b : ScrobbleBody) (c : CacheItem) : CacheItem :=
  mkCacheItem (PlayerUuid c) (ServerUuid c) (RatingKey c) (Trigger c) b (LastAction c).
Definition set_LastAction (a : string) (c : CacheItem) : CacheItem :=
  mkCacheItem (PlayerUuid c) (ServerUuid c) (RatingKey c) (Trigger c) (Body c) a.

(** ** Display names *)

Definition MaxTraktDisplayNameLength : nat := 50.

Definition NormalizeDisplayName (name : string) : string * bool :=
  let normalized := TrimSpace name in
  if (MaxTraktDisplayNameLength <? String.length normalized)%nat
  then (slice_to MaxTraktDisplayNameLength normalized, true)
  else (normalized, false).

(** ** The label of a scrobble body; dereferences pointers without checks. *)

Definition deref {A} (p : option A) : outcome A :=
  match p with Some a => Ret a | None => Panic nil_deref end.

Definition ScrobbleBody_String (body : ScrobbleBody) : outcome string :=
  title ←
    match Body_Movie body, Body_Show body with
    | Some m, _ =>
        t ← deref (Movie_Title m);
        y ← deref (Movie_Year m);
        Ret (t +:+ " (" +:+ Itoa y +:+ ")")
    | None, Some s =>
        t ← deref (Show_Title s);
        e ← deref (Body_Episode body);
        sn ← deref (Episode_Season e);
        nb ← deref (Episode_Number e);
        Ret (t +:+ " - S" +:+ Itoa02 sn +:+ "E" +:+ Itoa02 nb)
    | None, None => Ret ""
    end;
  Ret (title +:+ " " +:+ Itoa (Progress body) +:+ "%").

(** ** JSON *)

Definition json_of_Ids (i : Ids) : json := enc_struct
  [omit_nil "trakt" enc_int (Ids_Trakt i); omit_nil "tvdb" enc_int (Ids_Tvdb i);
   omit_nil "imdb" JStr (Ids_Imdb i); omit_nil "tmdb" enc_int (Ids_Tmdb i);
   omit_nil "slug" JStr (Ids_Slug i)].
Definition json_of_Show (s : Show) : json := enc_struct
  [omit_nil "title" JStr (Show_Title s); omit_nil "year" enc_int (Show_Year s);
   always "ids" (json_of_Ids (Show_Ids s))].
Definition json_of_Episode (e : Episode) : json := enc_struct
  [omit_nil "season" enc_int (Episode_Season e); omit_nil "number" enc_int (Episode_Number e);
   omit_nil "title" JStr (Episode_Title e); omit_nil "ids" json_of_Ids (Episode_Ids e)].
Definition json_of_Movie (m : Movie) : json := enc_struct
  [omit_nil "title" JStr (Movie_Title m); omit_nil "year" enc_int (Movie_Year m);
   always "ids" (json_of_Ids (Movie_Ids m))].

(** [ScrobbleBody.MarshalJSON]: [progress] first, then the embedded fields. *)
Definition ScrobbleBody_MarshalJSON (b : ScrobbleBody) : json := enc_struct
  [always "progress" (enc_int (Progress b));
   omit_nil "movie" json_of_Movie (Body_Movie b);
   omit_nil "show" json_of_Show (Body_Show b);
   omit_nil "episode" json_of_Episode (Body_Episode b)].

Section Decode.
Context `{UnicodeTables}.

Definition dec_Ids : decoder Ids := dec_struct (find_field
  [("trakt", dec_at Ids_Trakt (λ v i, mkIds v (Ids_Tvdb i) (Ids_Imdb i) (Ids_Tmdb i) (Ids_Slug i))
      (dec_ptr 0 dec_int));
   ("tvdb", dec_at Ids_Tvdb (λ v i, mkIds (Ids_Trakt i) v (Ids_Imdb i) (Ids_Tmdb i) (Ids_Slug i))
      (dec_ptr 0 dec_int));
   ("imdb", dec_at Ids_Imdb (λ v i, mkIds (Ids_Trakt i) (Ids_Tvdb i) v (Ids_Tmdb i) (Ids_Slug i))
      (dec_ptr "" dec_string));
   ("tmdb", dec_at Ids_Tmdb (λ v i, mkIds (Ids_Trakt i) (Ids_Tvdb i) (Ids_Imdb i) v (Ids_Slug i))
      (dec_ptr 0 dec_int));
   ("slug", dec_at Ids_Slug (λ v i, mkIds (Ids_Trakt i) (Ids_Tvdb i) (Ids_Imdb i) (Ids_Tmdb i) v)
      (dec_ptr "" dec_string))]).

Definition dec_Show : decoder Show := dec_struct (find_field
  [("title", dec_at Show_Title (λ v s, mkShow v (Show_Year s) (Show_Ids s)) (dec_ptr "" dec_string));
   ("year", dec_at Show_Year (λ v s, mkShow (Show_Title s) v (Show_Ids s)) (dec_ptr 0 dec_int));
   ("ids", dec_at Show_Ids (λ v s, mkShow (Show_Title s) (Show_Year s) v) dec_Ids)]).

Definition dec_Episode : decoder Episode := dec_struct (find_field
  [("season", dec_at Episode_Season
      (λ v e, mkEpisode v (Episode_Number e) (Episode_Title e) (Episode_Ids e)) (dec_ptr 0 dec_int));
   ("number", dec_at Episode_Number
      (λ v e, mkEpisode (Episode_Season e) v (Episode_Title e) (Episode_Ids e)) (dec_ptr 0 dec_int));
   ("title", dec_at Episode_Title
      (λ v e, mkEpisode (Episode_Season e) (Episode_Number e) v (Episode_Ids e))
      (dec_ptr "" dec_string));
   ("ids", dec_at Episode_Ids
      (λ v e, mkEpisode (Episode_Season e) (Episode_Number e) (Episode_Title e) v)
      (dec_ptr emptyIds dec_Ids))]).

Definition dec_Movie : decoder Movie := dec_struct (find_field
  [("title", dec_at Movie_Title (λ v s, mkMovie v (Movie_Year s) (Movie_Ids s)) (dec_ptr "" dec_string));
   ("year", dec_at Movie_Year (λ v s, mkMovie (Movie_Title s) v (Movie_Ids s)) (dec_ptr 0 dec_int));
   ("ids", dec_at Movie_Ids (λ v s, mkMovie (Movie_Title s) (Movie_Year s) v) dec_Ids)]).

(** The anonymous struct of [UnmarshalJSON]: [progress] at type [interface{}]
    next to the embedded body. *)
Record BodyAux := mkAux { aux_Progress : json; aux_Alias : ScrobbleBody }.

(** Decoding into an [interface{}] keeps the tree; a number must fit a
    [float64]. *)
Definition dec_any : decoder json := λ j _,
  match j with JNum lit => _ ← dres_of_option (ParseFloat lit); DOk j | _ => DOk j end.

Definition dec_BodyAux : decoder BodyAux := dec_struct (find_field
  [("progress", dec_at aux_Progress (λ v a, mkAux v (aux_Alias a)) dec_any);
   ("movie", dec_at (λ a, Body_Movie (aux_Alias a))
      (λ v a, mkAux (aux_Progress a)
        (mkBody (Progress (aux_Alias a)) v (Body_Show (aux_Alias a)) (Body_Episode (aux_Alias a))))
      (dec_ptr emptyMovie dec_Movie));
   ("show", dec_at (λ a, Body_Show (aux_Alias a))
      (λ v a, mkAux (aux_Progress a)
        (mkBody (Progress (aux_Alias a)) (Body_Movie (aux_Alias a)) v (Body_Episode (aux_Alias a))))
      (dec_ptr emptyShow dec_Show));
   ("episode", dec_at (λ a, Body_Episode (aux_Alias a))
      (λ v a, mkAux (aux_Progress a)
        (mkBody (Progress (aux_Alias a)) (Body_Movie (aux_Alias a)) (Body_Show (aux_Alias a)) v))
      (dec_ptr emptyEpisode dec_Episode))]).

(** [ScrobbleBody.UnmarshalJSON] into a body [s].  The text [null] makes the
    decoder clear the local pointer [aux], which is then dereferenced.  A
    [progress] that is neither a number nor null leaves the field as it was. *)
Definition ScrobbleBody_UnmarshalJSON : decoder ScrobbleBody := λ j s,
  match j with
  | JNull => DPanic nil_deref
  | _ =>
      aux ← dec_BodyAux j (mkAux JNull s);
      let s := aux_Alias aux in
      match aux_Progress aux with
      | JNum lit => v ← dres_of_option (ParseFloat lit); DOk (set_Progress (int_of_float v) s)
      | JNull => DOk (set_Progress 0 s)
      | _ => DOk s
      end
  end.
End Decode.

(** ** Properties *)

(** *** NormalizeDisplayName *)

Lemma NormalizeDisplayName_cases name :
  let t := TrimSpace name in
  NormalizeDisplayName name =
    (if decide (String.length t ≤ 50)%nat then (t, false) else (slice_to 50 t, true)).
Proof.
  unfold NormalizeDisplayName, MaxTraktDisplayNameLength.
  destruct (Nat.ltb_spec 50 (String.length (TrimSpace name))); case_decide; done || lia.
Qed.

Lemma slice_to_length n s : (n ≤ String.length s)%nat → String.length (slice_to n s) = n.
Proof.
  intros. unfold slice_to. rewrite length_of_bytes, length_take, length_bytes. lia.
Qed.

(** *** Round trip *)

Definition int64_opt (p : option Z) : Prop :=
  match p with Some z => int64_min ≤ z ≤ int64_max | None => True end.
Definition Ids_int (i : Ids) : Prop :=
  int64_opt (Ids_Trakt i) ∧ int64_opt (Ids_Tvdb i) ∧ int64_opt (Ids_Tmdb i).
Definition Body_int (b : ScrobbleBody) : Prop :=
  (∀ m, Body_Movie b = Some m → int64_opt (Movie_Year m) ∧ Ids_int (Movie_Ids m)) ∧
  (∀ s, Body_Show b = Some s → int64_opt (Show_Year s) ∧ Ids_int (Show_Ids s)) ∧
  (∀ e, Body_Episode b = Some e → int64_opt (Episode_Season e) ∧ int64_opt (Episode_Number e) ∧
     ∀ i, Episode_Ids e = Some i → Ids_int i).

Section RoundTrip.
Context `{UnicodeTables}.

Lemma dec_Ids_enc i : Ids_int i → dec_Ids (json_of_Ids i) emptyIds = DOk i.
Proof.
  intros (?&?&?). destruct i as [a b c d e]; simpl in *.
  unfold dec_Ids, dec_struct, json_of_Ids, enc_struct. cbv beta iota.
  json_member. 1: json_member. 1: json_member. 1: json_member. 1: json_member. 1: done.
  all: intros ? ->; split; [done|]; done || (by apply dec_int_enc).
Qed.

Lemma json_of_Ids_obj i : ∃ fs, json_of_Ids i = JObj fs.
Proof. by eexists. Qed.

Lemma dec_Movie_enc m :
  int64_opt (Movie_Year m) → Ids_int (Movie_Ids m) →
  dec_Movie (json_of_Movie m) emptyMovie = DOk m.
Proof.
  intros ? Hi. destruct m as [a b i]; simpl in *.
  unfold dec_Movie, dec_struct, json_of_Movie, enc_struct. cbv beta iota.
  json_member. 1: json_member.
  - erewrite dec_always; [done|done|]. etrans; [by apply dec_at_ok, dec_Ids_enc|done].
  - intros ? ->; split; [done|]. by apply dec_int_enc.
  - intros ? ->; done.
Qed.

Lemma dec_Show_enc m :
  int64_opt (Show_Year m) → Ids_int (Show_Ids m) →
  dec_Show (json_of_Show m) emptyShow = DOk m.
Proof.
  intros ? Hi. destruct m as [a b i]; simpl in *.
  unfold dec_Show, dec_struct, json_of_Show, enc_struct. cbv beta iota.
  json_member. 1: json_member.
  - erewrite dec_always; [done|done|]. etrans; [by apply dec_at_ok, dec_Ids_enc|done].
  - intros ? ->; split; [done|]. by apply dec_int_enc.
  - intros ? ->; done.
Qed.

Lemma dec_Episode_enc e :
  int64_opt (Episode_Season e) → int64_opt (Episode_Number e) →
  (∀ i, Episode_Ids e = Some i → Ids_int i) →
  dec_Episode (json_of_Episode e) emptyEpisode = DOk e.
Proof.
  intros ?? Hi. destruct e as [a b c i]; simpl in *.
  unfold dec_Episode, dec_struct, json_of_Episode, enc_struct. cbv beta iota.
  json_member. 1: json_member. 1: json_member. 1: json_member. 1: done.
  all: intros ? ->; split; [done|]; done || (by apply dec_int_enc) || (apply dec_Ids_enc; auto).
Qed.

Lemma dec_BodyAux_enc b :
  Body_int b → 0 ≤ Progress b ≤ 100 →
  dec_BodyAux (ScrobbleBody_MarshalJSON b) (mkAux JNull emptyBody) =
    DOk (mkAux (JNum (Itoa (Progress b))) (set_Progress 0 b)).
Proof.
  intros (Hm & Hs & He) Hp. destruct b as [p m s e]; simpl in *.
  unfold dec_BodyAux, dec_struct, ScrobbleBody_MarshalJSON, enc_struct. cbv beta iota.
  erewrite dec_always; [|done|]; cycle 1.
  { unfold dec_at, dec_any, enc_int. simpl.
    pose proof (ParseFloat_Itoa_percent p Hp) as E. by destruct (ParseFloat (Itoa p)). }
  json_member. 1: json_member. 1: json_member. 1: done.
  - intros e' ->. split; [done|]. destruct (He e') as (?&?&?); [done|]. by apply dec_Episode_enc.
  - intros s' ->. split; [done|]. destruct (Hs s'); [done|]. by apply dec_Show_enc.
  - intros m' ->. split; [done|]. destruct (Hm m'); [done|]. by apply dec_Movie_enc.
Qed.

Lemma ScrobbleBody_roundtrip_lemma b :
  Body_int b → 0 ≤ Progress b ≤ 100 →
  ScrobbleBody_UnmarshalJSON (ScrobbleBody_MarshalJSON b) emptyBody = DOk b.
Proof.
  intros Hi Hp. unfold ScrobbleBody_UnmarshalJSON.
  destruct (ScrobbleBody_MarshalJSON b) eqn:E0; try done. rewrite <-E0.
  rewrite dec_BodyAux_enc by done. simpl.
  pose proof (ParseFloat_Itoa_percent (Progress b) Hp) as E.
  destruct (ParseFloat (Itoa (Progress b))) as [v|]; simplify_eq/=.
  rewrite E. by destruct b.
Qed.
End RoundTrip.

(** [NormalizeDisplayName] returns a prefix of the trimmed name of at most
    50 bytes; the flag says exactly whether the trimmed name was longer, and
    without truncation the result is the trimmed name, which the function
    leaves alone. *)
Lemma NormalizeDisplayName_spec (name : string) :
  let '(r, truncated) := NormalizeDisplayName name in
  (String.length r ≤ 50)%nat ∧
  (∃ rest, TrimSpace name = r +:+ rest) ∧
  (truncated = true ↔ (50 < String.length (TrimSpace name))%nat) ∧
  (truncated = false → r = TrimSpace name ∧ NormalizeDisplayName r = (r, false)).
Proof.
  rewrite NormalizeDisplayName_cases. case_decide as Hl; split_and!.
  - done.
  - exists "". apply (inj bytes). rewrite bytes_app. by rewrite app_nil_r.
  - split; [done|lia].
  - intros _. split; [done|]. rewrite NormalizeDisplayName_cases, TrimSpace_idem.
    by rewrite decide_True.
  - rewrite slice_to_length; lia.
  - exists (slice_from 50 (TrimSpace name)). unfold slice_to, slice_from.
    by rewrite <-of_bytes_app, take_drop, of_bytes_bytes.
  - split; [lia|done].
  - done.
Qed.
