(* ===== verification/Entities.v ===== *)
(** * Entities of package [lib/store]

    [FamilyGroup], [GroupMember], [RetryQueueItem], [Notification] and [User]
    with their [Normalize] and [Validate] methods, the retry schedule of a
    queue item, and the generation of identifiers.  A pointer receiver is an
    [option] (nil checks included) and a method that updates its receiver
    returns it. *)

From S2P Require Import Prelude GoLib Common.

Open Scope Z_scope.

(** ** Sentinel errors ([main.go] and the entity files) *)

Definition ErrNotSupported := Sentinel "store: operation not supported".
Definition ErrFamilyGroupNotFound := Sentinel "store: family group not found".
Definition ErrGroupMemberNotFound := Sentinel "store: group member not found".
Definition ErrDuplicateFamilyGroup := Sentinel "store: family group already exists".
Definition ErrDuplicateGroupMember := Sentinel "store: group member already exists".
Definition ErrRetryItemNotFound := Sentinel "store: retry queue item not found".
Definition ErrInvalidNotification := Sentinel "store: invalid notification".
Definition ErrNotificationNotFound := Sentinel "store: notification not found".
Definition ErrInvalidFamilyGroup := Sentinel "store: family group is invalid".
Definition ErrEmptyPlexUsername := Sentinel "store: plex username cannot be empty".
Definition ErrInvalidGroupMember := Sentinel "store: group member is invalid".
Definition ErrInvalidMemberStatus := Sentinel "store: group member status is invalid".
Definition ErrEmptyMemberLabel := Sentinel "store: member label cannot be empty".
Definition ErrInvalidRetryItem := Sentinel "store: retry queue item is invalid".
Definition ErrRetryAttemptsExceeded := Sentinel "store: retry attempts exceeded".

(** ** Family groups *)

Record FamilyGroup := mkFG {
  FG_ID : string;
  FG_PlexUsername : string;
  FG_CreatedAt : Time;
  FG_UpdatedAt : Time;
}.

(** ** Group members *)

Definition GroupMemberStatusPending := "pending".
Definition GroupMemberStatusAuthorized := "authorized".
Definition GroupMemberStatusExpired := "expired".
Definition GroupMemberStatusFailed := "failed".

Record GroupMember := mkGM {
  GM_ID : string;
  GM_FamilyGroupID : string;
  GM_TempLabel : string;
  GM_TraktUsername : string;
  GM_AccessToken : string;
  GM_RefreshToken : string;
  GM_TokenExpiry : option Time;
  GM_AuthorizationStatus : string;
  GM_CreatedAt : Time;
}.

Definition isValidGroupMemberStatus (status : string) : bool :=
  bool_decide (status ∈ [GroupMemberStatusPending; GroupMemberStatusAuthorized;
                         GroupMemberStatusExpired; GroupMemberStatusFailed]).

(** ** Retry queue items *)

Definition MaxRetryAttempts : Z := 5.
Definition RetryQueueStatusQueued := "queued".
Definition RetryQueueStatusRetrying := "retrying".
Definition RetryQueueStatusPermanentFailure := "permanent_failure".

Record RetryQueueItem := mkRQ {
  RQ_ID : string;
  RQ_FamilyGroupID : string;
  RQ_GroupMemberID : string;
  RQ_Payload : string;
  RQ_AttemptCount : Z;
  RQ_NextAttemptAt : Time;
  RQ_LastError : string;
  RQ_Status : string;
  RQ_CreatedAt : Time;
  RQ_UpdatedAt : Time;
}.

Definition isValidRetryStatus (status : string) : bool :=
  bool_decide (status ∈ [RetryQueueStatusQueued; RetryQueueStatusRetrying;
                         RetryQueueStatusPermanentFailure]).

(** Delay before the retry after [attempt] attempts; [int64] arithmetic. *)
Definition nextRetryDelay (attempt : Z) (baseDelay : Duration) : Duration :=
  let baseDelay := if baseDelay <=? 0 then 30 * Second else baseDelay in
  let attempt := if attempt <? 0 then 0 else attempt in
  let maxBackoff := 30 * Minute in
  let delay := wrap64 (baseDelay * shl1 attempt) in
  if maxBackoff <? delay then maxBackoff else delay.

(** ** Notifications *)

Record Notification := mkNotif {
  N_ID : string;
  N_FamilyGroupID : string;
  N_GroupMemberID : option string;
  N_Type : string;
  N_Message : string;
  N_Metadata : string;
  N_Dismissed : bool;
  N_CreatedAt : Time;
}.

Definition NotificationTypePermanentFailure := "permanent_failure".
Definition NotificationTypeAuthorizationExpired := "authorization_expired".
Definition NotificationTypeMemberAdded := "member_added".
Definition NotificationTypeMemberRemoved := "member_removed".

Definition Notification_Validate (n : Notification) : option error :=
  if bool_decide (N_ID n = "") then Some ErrInvalidNotification else
  if bool_decide (N_FamilyGroupID n = "") then Some ErrInvalidNotification else
  if bool_decide (N_Message n = "") then Some ErrInvalidNotification else
  if bool_decide (N_Type n ∈ [NotificationTypePermanentFailure;
       NotificationTypeAuthorizationExpired; NotificationTypeMemberAdded;
       NotificationTypeMemberRemoved])
  then None else Some ErrInvalidNotification.

#[export] Instance FamilyGroup_eq_dec : EqDecision FamilyGroup.
Proof. solve_decision. Defined.
#[export] Instance GroupMember_eq_dec : EqDecision GroupMember.
Proof. solve_decision. Defined.
#[export] Instance RetryQueueItem_eq_dec : EqDecision RetryQueueItem.
Proof. solve_decision. Defined.
#[export] Instance Notification_eq_dec : EqDecision Notification.
Proof. solve_decision. Defined.

Section Validation.
Context `{UnicodeTables}.

Definition FamilyGroup_Normalize (fg : option FamilyGroup) : option FamilyGroup :=
  match fg with
  | None => None
  | Some g => Some (mkFG (FG_ID g) (ToLower (TrimSpace (FG_PlexUsername g)))
                         (FG_CreatedAt g) (FG_UpdatedAt g))
  end.

Definition FamilyGroup_Validate (fg : option FamilyGroup) : option FamilyGroup * option error :=
  match FamilyGroup_Normalize fg with
  | None => (None, Some ErrInvalidFamilyGroup)
  | Some g =>
      (Some g, if bool_decide (FG_PlexUsername g = "") then Some ErrEmptyPlexUsername else None)
  end.

Definition GroupMember_Normalize (gm : option GroupMember) : option GroupMember :=
  match gm with
  | None => None
  | Some m => Some (mkGM (GM_ID m) (TrimSpace (GM_FamilyGroupID m)) (TrimSpace (GM_TempLabel m))
      (TrimSpace (GM_TraktUsername m)) (GM_AccessToken m) (GM_RefreshToken m) (GM_TokenExpiry m)
      (TrimSpace (ToLower (GM_AuthorizationStatus m))) (GM_CreatedAt m))
  end.

Definition GroupMember_Validate (gm : option GroupMember) : option GroupMember * option error :=
  match GroupMember_Normalize gm with
  | None => (None, Some ErrInvalidGroupMember)
  | Some m =>
      (Some m,
       if bool_decide (GM_FamilyGroupID m = "")
       then Some (Wrapf "" ErrInvalidGroupMember ": family group id is required") else
       if bool_decide (GM_TempLabel m = "") then Some ErrEmptyMemberLabel else
       if 100 <? len (GM_TempLabel m)
       then Some (Wrapf "" ErrInvalidGroupMember ": temp label exceeds 100 characters") else
       if negb (isValidGroupMemberStatus (GM_AuthorizationStatus m))
       then Some ErrInvalidMemberStatus else
       if bool_decide (GM_AuthorizationStatus m = GroupMemberStatusAuthorized) &&
          bool_decide (GM_TraktUsername m = "")
       then Some (Wrapf "" ErrInvalidGroupMember ": authorized members require trakt username")
       else None)
  end.

Definition RetryQueueItem_Normalize (item : option RetryQueueItem) : option RetryQueueItem :=
  match item with
  | None => None
  | Some i => Some (mkRQ (RQ_ID i) (RQ_FamilyGroupID i) (RQ_GroupMemberID i) (RQ_Payload i)
      (RQ_AttemptCount i) (RQ_NextAttemptAt i) (RQ_LastError i)
      (TrimSpace (ToLower (RQ_Status i))) (RQ_CreatedAt i) (RQ_UpdatedAt i))
  end.

Definition RetryQueueItem_Validate (item : option RetryQueueItem)
    : option RetryQueueItem * option error :=
  match RetryQueueItem_Normalize item with
  | None => (None, Some ErrInvalidRetryItem)
  | Some i =>
      (Some i,
       if bool_decide (RQ_FamilyGroupID i = "")
       then Some (Wrapf "" ErrInvalidRetryItem ": family group id is required") else
       if bool_decide (RQ_GroupMemberID i = "")
       then Some (Wrapf "" ErrInvalidRetryItem ": group member id is required") else
       if len (RQ_Payload i) =? 0
       then Some (Wrapf "" ErrInvalidRetryItem ": payload cannot be empty") else
       if (RQ_AttemptCount i <? 0) || (MaxRetryAttempts <? RQ_AttemptCount i)
       then Some (Wrapf "" ErrInvalidRetryItem
              (": attempt count " +:+ Itoa (RQ_AttemptCount i) +:+ " outside 0-" +:+
               Itoa MaxRetryAttempts)) else
       if IsZero (RQ_NextAttemptAt i)
       then Some (Wrapf "" ErrInvalidRetryItem ": next attempt timestamp required") else
       if negb (isValidRetryStatus (RQ_Status i))
       then Some (Wrapf "" ErrInvalidRetryItem (": unknown status " +:+ Quote (RQ_Status i))) else
       if bool_decide (RQ_Status i = RetryQueueStatusPermanentFailure) &&
          (RQ_AttemptCount i <? MaxRetryAttempts)
       then Some (Wrapf "" ErrInvalidRetryItem
              (": permanent failure requires attempt count " +:+ Itoa MaxRetryAttempts))
       else None)
  end.
End Validation.

Definition ScheduleNextAttempt (item : option RetryQueueItem) (now : Time) (baseDelay : Duration)
    : option RetryQueueItem * option error :=
  match item with
  | None => (None, Some ErrInvalidRetryItem)
  | Some i =>
      if MaxRetryAttempts <=? RQ_AttemptCount i then (Some i, Some ErrRetryAttemptsExceeded) else
      let delay := nextRetryDelay (RQ_AttemptCount i) baseDelay in
      (Some (mkRQ (RQ_ID i) (RQ_FamilyGroupID i) (RQ_GroupMemberID i) (RQ_Payload i)
          (wrap64 (RQ_AttemptCount i + 1)) (time_Add now delay) (RQ_LastError i)
          RetryQueueStatusQueued (RQ_CreatedAt i) (RQ_UpdatedAt i)), None)
  end.

(** ** Identifiers *)

(** The sixteen random bytes, with the version and variant bits of a UUID v4
    forced ([uuid], [generateEventID] and [generateCorrelationID] share it). *)
Definition set_uuid_bits (b : list Z) : list Z :=
  imap (λ i x, if decide (i = 6%nat) then Z.lor (Z.land x 0x0f) 0x40
               else if decide (i = 8%nat) then Z.lor (Z.land x 0x3f) 0x80 else x) b.

(** [hex.EncodeToString], also the verb [%x] on a byte slice. *)
Definition hex_bytes (b : list Z) : list ascii :=
  b ≫= λ x, [hex_digit (x `div` 16); hex_digit (x `mod` 16)].
Definition hex (b : list Z) : string := of_bytes (hex_bytes b).

(** [uuid()]: [rnd] is what [rand.Read] delivered ([None]: it failed), and
    [stamp] the formatted clock the fallback encodes. *)
Definition uuid (rnd : option (list Z)) (stamp : list Z) : string :=
  match rnd with
  | None => hex stamp
  | Some b => hex (set_uuid_bits b)
  end.

(** [generateEventID()] *)
Definition generateEventID (rnd : result (list Z)) : result string :=
  match rnd with
  | Err e => Err (Wrapf "failed to generate UUID: " e "")
  | Ok b =>
      let u := set_uuid_bits b in
      Ok (hex (take 4 u) +:+ "-" +:+ hex (take 2 (drop 4 u)) +:+ "-" +:+
          hex (take 2 (drop 6 u)) +:+ "-" +:+ hex (take 2 (drop 8 u)) +:+ "-" +:+
          hex (take 6 (drop 10 u)))
  end.

(** ** Users *)

(** [U_store] says whether the unexported [store] field holds a store; the
    program has a single store, so its identity carries no information. *)
Record User := mkUser {
  U_ID : string;
  U_Username : string;
  U_AccessToken : string;
  U_RefreshToken : string;
  U_TraktDisplayName : string;
  U_Updated : Time;
  U_TokenExpiry : Time;
  U_store : bool;
}.

#[export] Instance User_eq_dec : EqDecision User.
Proof. solve_decision. Defined.

Section Users.
Context `{UnicodeTables} {S : Type} (WriteUser : User → S → outcome S).

(** [user.save()]: a call through a nil interface panics. *)
Definition save (user : User) (st : S) : outcome S :=
  if U_store user then WriteUser user st else Panic nil_deref.

Definition NewUser (id username accessToken refreshToken : string)
    (displayName : option string) (tokenExpiry now : Time) (st : S) : outcome (User * S) :=
  let normalizedName :=
    match displayName with Some d => (NormalizeDisplayName d).1 | None => "" end in
  let user := mkUser id username accessToken refreshToken normalizedName now tokenExpiry true in
  st ← save user st; Ret (user, st).

Definition UpdateUser (user : User) (accessToken refreshToken : string)
    (displayName : option string) (tokenExpiry now : Time) (st : S) : outcome (User * S) :=
  let name := match displayName with
              | Some d => (NormalizeDisplayName d).1
              | None => U_TraktDisplayName user
              end in
  let user := mkUser (U_ID user) (U_Username user) accessToken refreshToken name now tokenExpiry
                     (U_store user) in
  st ← save user st; Ret (user, st).

Definition UpdateDisplayName (user : User) (displayName : option string) (st : S)
    : outcome (User * bool * S) :=
  let '(name, truncated) :=
    match displayName with Some d => NormalizeDisplayName d | None => ("", false) end in
  let user := mkUser (U_ID user) (U_Username user) (U_AccessToken user) (U_RefreshToken user) name
                     (U_Updated user) (U_TokenExpiry user) (U_store user) in
  st ← save user st; Ret (user, truncated, st).

Definition UpdateUsername (user : User) (newUsername : string) (st : S) : outcome (User * S) :=
  let user := mkUser (U_ID user) (ToLower (TrimSpace newUsername)) (U_AccessToken user)
                     (U_RefreshToken user) (U_TraktDisplayName user) (U_Updated user)
                     (U_TokenExpiry user) (U_store user) in
  st ← save user st; Ret (user, st).
End Users.

(** ** Lemmas: validation *)

Definition GroupMember_wf (m : GroupMember) : Prop :=
  GM_FamilyGroupID m ≠ "" ∧ GM_TempLabel m ≠ "" ∧ len (GM_TempLabel m) ≤ 100 ∧
  GM_AuthorizationStatus m ∈ ["pending"; "authorized"; "expired"; "failed"] ∧
  (GM_AuthorizationStatus m = "authorized" → GM_TraktUsername m ≠ "").

Definition RetryItem_wf (i : RetryQueueItem) : Prop :=
  RQ_FamilyGroupID i ≠ "" ∧ RQ_GroupMemberID i ≠ "" ∧ RQ_Payload i ≠ "" ∧
  0 ≤ RQ_AttemptCount i ≤ 5 ∧ RQ_NextAttemptAt i ≠ zeroTime ∧
  RQ_Status i ∈ ["queued"; "retrying"; "permanent_failure"] ∧
  (RQ_Status i = "permanent_failure" → RQ_AttemptCount i = 5).

Lemma len_zero s : (len s =? 0) = bool_decide (s = "").
Proof. unfold len. by destruct s. Qed.

Section ValidationLemmas.
Context `{UnicodeTables}.

Lemma GroupMember_Validate_wf m m' :
  GroupMember_Validate (Some m) = (Some m', None) ↔
  GroupMember_Normalize (Some m) = Some m' ∧ GroupMember_wf m'.
Proof.
  unfold GroupMember_Validate.
  destruct (GroupMember_Normalize (Some m)) as [n|] eqn:E; [|done].
  unfold GroupMember_wf, isValidGroupMemberStatus. split.
  - intros [= -> Hv]. split; [done|].
    repeat case_bool_decide; try done;
      destruct (Z.ltb_spec 100 (len (GM_TempLabel m'))); try done; simpl in *; try done.
    all: split_and!; try done; intros Ha; done.
  - intros [[= ->] (?&?&?&?&?)]. f_equal.
    rewrite !bool_decide_eq_false_2 by done.
    destruct (Z.ltb_spec 100 (len (GM_TempLabel m'))); [lia|].
    rewrite bool_decide_eq_true_2 by done. simpl.
    case_bool_decide; [|done]. rewrite bool_decide_eq_false_2; auto.
Qed.

Lemma RetryQueueItem_Validate_wf i i' :
  RetryQueueItem_Validate (Some i) = (Some i', None) ↔
  RetryQueueItem_Normalize (Some i) = Some i' ∧ RetryItem_wf i'.
Proof.
  unfold RetryQueueItem_Validate.
  destruct (RetryQueueItem_Normalize (Some i)) as [n|] eqn:E; [|done].
  unfold RetryItem_wf, isValidRetryStatus, MaxRetryAttempts, IsZero. rewrite len_zero. split.
  - intros [= -> Hv]. split; [done|].
    do 3 (case_bool_decide; [done|]).
    destruct (Z.ltb_spec (RQ_AttemptCount i') 0), (Z.ltb_spec 5 (RQ_AttemptCount i')); try done.
    simpl in Hv. destruct (Z.eqb_spec (RQ_NextAttemptAt i') zeroTime); [done|].
    case_bool_decide; [|done]. simpl in Hv.
    split_and!; try done. intros Hp. rewrite bool_decide_eq_true_2 in Hv by done.
    destruct (Z.ltb_spec (RQ_AttemptCount i') 5); [done|lia].
  - intros [[= ->] (?&?&?&?&?&?&Hp)]. f_equal.
    rewrite !bool_decide_eq_false_2 by done.
    destruct (Z.ltb_spec (RQ_AttemptCount i') 0), (Z.ltb_spec 5 (RQ_AttemptCount i')); try lia.
    destruct (Z.eqb_spec (RQ_NextAttemptAt i') zeroTime); [done|]. simpl.
    rewrite bool_decide_eq_true_2 by done. simpl.
    case_bool_decide as Hs; [|done]. rewrite Hp by done. done.
Qed.

(** An accepted member (or item) is in normal form: validating it again
    changes nothing. *)
Lemma GroupMember_Normalize_wf m m' :
  GroupMember_Normalize (Some m) = Some m' → GroupMember_wf m' →
  GroupMember_Normalize (Some m') = Some m'.
Proof.
  unfold GroupMember_wf. intros [= <-] (_&_&_&Hs&_). simpl in *.
  rewrite !TrimSpace_idem.
  generalize dependent (TrimSpace (ToLower (GM_AuthorizationStatus m))); intros st Hs.
  rewrite !elem_of_cons, elem_of_nil in Hs. by destruct Hs as [->|[->|[->|[->|[]]]]].
Qed.

Lemma RetryQueueItem_Normalize_wf i i' :
  RetryQueueItem_Normalize (Some i) = Some i' → RetryItem_wf i' →
  RetryQueueItem_Normalize (Some i') = Some i'.
Proof.
  unfold RetryItem_wf. intros [= <-] (_&_&_&_&_&Hs&_). simpl in *.
  generalize dependent (TrimSpace (ToLower (RQ_Status i))); intros st Hs.
  rewrite !elem_of_cons, elem_of_nil in Hs. by destruct Hs as [->|[->|[->|[]]]].
Qed.
End ValidationLemmas.

(** ** Lemmas: retry schedule *)

Lemma nextRetryDelay_eq attempt base :
  0 ≤ attempt < 5 → 0 < base ≤ 2 ^ 58 →
  nextRetryDelay attempt base = Z.min (base * 2 ^ attempt) (30 * Minute).
Proof.
  intros ??. unfold nextRetryDelay.
  rewrite (proj2 (Z.leb_gt base 0)), (proj2 (Z.ltb_ge attempt 0)), shl1_small by lia.
  assert (1 ≤ 2 ^ attempt ≤ 2 ^ 4).
  { split; [change 1 with (2 ^ 0)|]; apply Z.pow_le_mono_r; lia. }
  rewrite wrap64_small by (unfold int64_min, int64_max; nia).
  destruct (Z.ltb_spec (30 * Minute) (base * 2 ^ attempt)); lia.
Qed.

(** ** Lemmas: identifiers *)

Definition is_hex (a : ascii) : bool :=
  let n := N_of_ascii a in
  ((48 <=? n) && (n <=? 57) || (97 <=? n) && (n <=? 102))%N.

Lemma hex_digit_cases (P : Z → Prop) d :
  0 ≤ d < 16 →
  P 0 → P 1 → P 2 → P 3 → P 4 → P 5 → P 6 → P 7 → P 8 → P 9 → P 10 → P 11 → P 12 → P 13 →
  P 14 → P 15 → P d.
Proof.
  intros Hd. assert (d ∈ seqZ 0 16) as Hin by (apply elem_of_seqZ; lia).
  compute in Hin. repeat (apply elem_of_cons in Hin as [->|Hin]; [done|]).
  by apply not_elem_of_nil in Hin.
Qed.

Lemma hex_digit_is_hex d : 0 ≤ d < 16 → is_hex (hex_digit d) = true.
Proof. intros Hd. by apply (hex_digit_cases (λ d, is_hex (hex_digit d) = true) d Hd). Qed.

Definition byte_range (x : Z) : Prop := 0 ≤ x < 256.

Lemma land_low x k : 0 ≤ k → Z.land x (2 ^ k - 1) = x `mod` 2 ^ k.
Proof. intros. rewrite <-(Z.land_ones x k) by done. by rewrite Z.ones_equiv, Z.sub_1_r. Qed.

(** Disjoint bits add up. *)
Lemma lor_high y k h : 0 ≤ k → 0 ≤ y < 2 ^ k → Z.lor y (h * 2 ^ k) = y + h * 2 ^ k.
Proof.
  intros Hk Hy. destruct (decide (y = 0)) as [->|]; [done|].
  assert (Z.land y (h * 2 ^ k) = 0) as Hd.
  { apply Z.bits_inj'. intros i Hi. rewrite Z.land_spec, Z.bits_0.
    destruct (decide (i < k)); [by rewrite Z.mul_pow2_bits_low, andb_false_r by lia|].
    rewrite Z.bits_above_log2; [done|lia|]. apply Z.log2_lt_pow2; [lia|].
    eapply Z.lt_le_trans; [apply Hy|]. apply Z.pow_le_mono_r; lia. }
  by rewrite Z.add_nocarry_lxor, Z.lxor_lor.
Qed.

Lemma version_byte x : Z.lor (Z.land x 0x0f) 0x40 = x `mod` 16 + 64.
Proof.
  change 0x0f with (2 ^ 4 - 1). change 0x40 with (4 * 2 ^ 4). rewrite land_low by lia.
  rewrite lor_high by (try apply Z.mod_pos_bound; lia). done.
Qed.

Lemma variant_byte x : Z.lor (Z.land x 0x3f) 0x80 = x `mod` 64 + 128.
Proof.
  change 0x3f with (2 ^ 6 - 1). change 0x80 with (2 * 2 ^ 6). rewrite land_low by lia.
  rewrite lor_high by (try apply Z.mod_pos_bound; lia). done.
Qed.

Lemma set_uuid_bits_range b : Forall byte_range b → Forall byte_range (set_uuid_bits b).
Proof.
  unfold set_uuid_bits. intros Hb. apply Forall_lookup_2. intros i y.
  rewrite list_lookup_imap. destruct (b !! i) as [x|] eqn:E; intros [= <-].
  pose proof (Forall_lookup_1 _ _ _ _ Hb E) as Hx. unfold byte_range in *.
  repeat case_decide; rewrite ?version_byte, ?variant_byte; [..|done].
  - pose proof (Z.mod_pos_bound x 16 ltac:(lia)). lia.
  - pose proof (Z.mod_pos_bound x 64 ltac:(lia)). lia.
Qed.

Lemma hex_bytes_is_hex b : Forall byte_range b → Forall (λ a, is_hex a = true) (hex_bytes b).
Proof.
  unfold hex_bytes, byte_range. induction 1 as [|x b Hx _ IH]; [done|]. simpl.
  pose proof (Z.mod_pos_bound x 16 ltac:(lia)).
  repeat constructor; [apply hex_digit_is_hex..|done].
  - split; [apply Z.div_pos; lia|apply Z.div_lt_upper_bound; lia].
  - done.
Qed.

Lemma length_hex_bytes b : List.length (hex_bytes b) = (2 * List.length b)%nat.
Proof. unfold hex_bytes. induction b as [|x b IH]; [done|]. rewrite bind_cons, length_app, IH. simpl. lia. Qed.

(** ** Properties *)

(** The text form 8-4-4-4-12 of a version 4 UUID. *)
Definition uuid_v4 (s : string) : Prop :=
  ∃ g1 g2 g3 g4 g5 : list ascii,
    s = of_bytes (g1 ++ ["-"%char] ++ g2 ++ ["-"%char] ++ g3 ++ ["-"%char] ++ g4 ++ ["-"%char] ++ g5) ∧
    (List.length <$> [g1; g2; g3; g4; g5]) = [8; 4; 4; 4; 12]%nat ∧
    Forall (Forall (λ a, is_hex a = true)) [g1; g2; g3; g4; g5] ∧
    head g3 = Some "4"%char ∧
    (∃ c, head g4 = Some c ∧ c ∈ ["8"%char; "9"%char; "a"%char; "b"%char]).

Lemma hex_group b i n :
  Forall byte_range b → (i + n ≤ List.length b)%nat →
  Forall (λ a, is_hex a = true) (hex_bytes (take n (drop i b))) ∧
  List.length (hex_bytes (take n (drop i b))) = (2 * n)%nat.
Proof.
  intros Hb Hl. split.
  - by apply hex_bytes_is_hex, Forall_take, Forall_drop.
  - rewrite length_hex_bytes, length_take, length_drop. lia.
Qed.

(** From sixteen random bytes [generateEventID] prints a well-formed
    version 4 UUID (8-4-4-4-12 lower-case hex digits, version digit 4, variant
    digit 8, 9, a or b), and it fails exactly when the random source fails. *)
Lemma generateEventID_uuid_v4 (rnd : result (list Z)) :
  (∀ b, rnd = Ok b → List.length b = 16%nat ∧ Forall byte_range b) →
  match generateEventID rnd with
  | Ok s => uuid_v4 s ∧ ∃ b, rnd = Ok b
  | Err e => ∃ e0, rnd = Err e0 ∧ errors_Is e e0
  end.
Proof.
  intros Hrnd. destruct rnd as [b|e]; simpl; cycle 1.
  { exists e. split; [done|]. apply orb_prop_intro. right.
    destruct e; simpl; rewrite bool_decide_eq_true_2; done. }
  split; [|by eexists]. destruct (Hrnd b eq_refl) as [Hlen Hb].
  pose proof (set_uuid_bits_range _ Hb) as Hu.
  assert (List.length (set_uuid_bits b) = 16%nat) as Hl by (unfold set_uuid_bits; by rewrite length_imap).
  destruct (hex_group _ 0 4 Hu) as [? L1]; [lia|]. destruct (hex_group _ 4 2 Hu) as [? L2]; [lia|].
  destruct (hex_group _ 6 2 Hu) as [? L3]; [lia|]. destruct (hex_group _ 8 2 Hu) as [? L4]; [lia|].
  destruct (hex_group _ 10 6 Hu) as [? L5]; [lia|]. rewrite drop_0 in *.
  set (u := set_uuid_bits b) in *.
  exists (hex_bytes (take 4 u)), (hex_bytes (take 2 (drop 4 u))), (hex_bytes (take 2 (drop 6 u))),
    (hex_bytes (take 2 (drop 8 u))), (hex_bytes (take 6 (drop 10 u))). split_and!.
  - unfold hex. by rewrite !of_bytes_app.
  - simpl. by rewrite L1, L2, L3, L4, L5.
  - by repeat constructor.
  - unfold u. clear -Hlen. do 16 (destruct b as [|? b]; [done|]). destruct b; [|done]. simpl.
    rewrite version_byte. do 2 f_equal.
    rewrite Z.add_comm, (Z.div_add_l 4 16) by lia.
    by rewrite Z.div_small by (apply Z.mod_pos_bound; lia).
  - unfold u. clear -Hlen. do 16 (destruct b as [|? b]; [done|]). destruct b; [|done]. simpl.
    eexists; split; [done|]. rewrite variant_byte, Z.add_comm, (Z.div_add_l 8 16) by lia.
    set (x := _ `div` 16). assert (0 ≤ x < 4).
    { unfold x. pose proof (Z.mod_pos_bound z7 64 ltac:(lia)).
      split; [apply Z.div_pos; lia|apply Z.div_lt_upper_bound; lia]. }
    assert (x = 0 ∨ x = 1 ∨ x = 2 ∨ x = 3) as [->|[->|[->| ->]]] by lia; vm_compute; repeat constructor.
Qed.

Lemma generateEventID_uuid_v4_witness :
  match generateEventID (Ok (replicate 16 255)) with
  | Ok s => uuid_v4 s ∧ ∃ b, @Ok (list Z) (replicate 16 255) = Ok b
  | Err e => ∃ e0, @Ok (list Z) (replicate 16 255) = Err e0 ∧ errors_Is e e0
  end.
Proof.
  apply (generateEventID_uuid_v4 (Ok (replicate 16 255))).
  intros b [= <-]. split; [done|]. apply (Forall_replicate byte_range 16 255). done.
Defined.

(** [RetryQueueItem.Validate] accepts exactly the items whose normal form
    has both ids, a payload, an attempt count in 0-5, a next-attempt time and a
    known status, a permanent failure having used all five attempts; the item
    it leaves is accepted again unchanged. *)
Lemma RetryQueueItem_Validate_spec `{UnicodeTables} (i : RetryQueueItem) :
  ∃ i', RetryQueueItem_Normalize (Some i) = Some i' ∧
    (RetryQueueItem_Validate (Some i) = (Some i', None) ↔ RetryItem_wf i') ∧
    (RetryItem_wf i' → RetryQueueItem_Validate (Some i') = (Some i', None)) ∧
    (¬ RetryItem_wf i' → ∃ e, RetryQueueItem_Validate (Some i) = (Some i', Some e) ∧
                              errors_Is e ErrInvalidRetryItem).
Proof.
  eexists; split; [done|]. set (i' := mkRQ _ _ _ _ _ _ _ _ _ _).
  assert (Hn : RetryQueueItem_Normalize (Some i) = Some i') by done.
  pose proof (RetryQueueItem_Validate_wf i i') as Hv. split_and!.
  - rewrite Hv. tauto.
  - intros Hw. apply RetryQueueItem_Validate_wf. split; [|done].
    by eapply RetryQueueItem_Normalize_wf.
  - intros Hw. destruct (RetryQueueItem_Validate (Some i)) as [o [e|]] eqn:E.
    + unfold RetryQueueItem_Validate in E. rewrite Hn in E. simplify_eq.
      exists e. split; [done|]. clear Hv Hw.
      repeat match goal with H : (if ?b then _ else _) = Some e |- _ => destruct b; simplify_eq/= end;
        done.
    + assert (o = Some i') as ->; [|tauto].
      unfold RetryQueueItem_Validate in E. rewrite Hn in E. by simplify_eq.
Qed.

(** [ScheduleNextAttempt] keeps a valid, unfinished item valid, counts one
    more attempt, queues it again and schedules it [base * 2^attempts] after
    [now], capped at 30 minutes; an item with five attempts is refused and left
    alone. *)
Lemma ScheduleNextAttempt_spec (i : RetryQueueItem) (now : Time) (base : Duration) :
  RetryItem_wf i → 0 < base ≤ 2 ^ 58 → 0 ≤ now →
  if decide (RQ_AttemptCount i = 5)
  then ScheduleNextAttempt (Some i) now base = (Some i, Some ErrRetryAttemptsExceeded)
  else ∃ i', ScheduleNextAttempt (Some i) now base = (Some i', None) ∧ RetryItem_wf i' ∧
         RQ_AttemptCount i' = RQ_AttemptCount i + 1 ∧ RQ_Status i' = RetryQueueStatusQueued ∧
         RQ_NextAttemptAt i' = now + Z.min (base * 2 ^ RQ_AttemptCount i) (30 * Minute).
Proof.
  intros (?&?&?&Ha&?&?&?) Hb Hnow. unfold ScheduleNextAttempt, MaxRetryAttempts.
  destruct (Z.leb_spec 5 (RQ_AttemptCount i)); case_decide; try (done || lia).
  rewrite nextRetryDelay_eq, wrap64_small by (unfold int64_min, int64_max; lia).
  eexists; split; [done|]. unfold RetryItem_wf, time_Add; simpl.
  assert (0 ≤ Z.min (base * 2 ^ RQ_AttemptCount i) (30 * Minute)).
  { pose proof (Z.pow_nonneg 2 (RQ_AttemptCount i)). unfold Minute, Second. nia. }
  split_and!; try done; try lia; [unfold zeroTime, Second; lia|apply elem_of_cons; by left].
Qed.

Definition sample_item : RetryQueueItem :=
  mkRQ "r1" "fg" "gm" "{}" 3 (1700000000 * Second) "" "retrying" 0 0.

Lemma sample_item_wf : RetryItem_wf sample_item.
Proof.
  unfold RetryItem_wf, sample_item; simpl. split_and!; try (done || lia).
  by apply elem_of_cons; right; apply elem_of_cons; left.
Defined.

Lemma ScheduleNextAttempt_spec_witness :
  ∃ i', ScheduleNextAttempt (Some sample_item) (1700000000 * Second) (30 * Second) = (Some i', None) ∧
    RetryItem_wf i' ∧ RQ_AttemptCount i' = 4 ∧ RQ_Status i' = RetryQueueStatusQueued ∧
    RQ_NextAttemptAt i' = 1700000240 * Second.
Proof.
  pose proof (ScheduleNextAttempt_spec sample_item (1700000000 * Second) (30 * Second)
                sample_item_wf ltac:(unfold Second; lia) ltac:(unfold Second; lia)) as H.
  rewrite decide_False in H by done. destruct H as (i' & H1 & H2 & H3 & H4 & H5).
  exists i'. split_and!; [exact H1|exact H2|exact H3|exact H4|]. by rewrite H5.
Defined.
