(* ===== verification/Buffers.v ===== *)
(** * Ring buffers of package [lib/store]: [queue.go] and [queue_event_log.go]

    [container/ring] as the list of its values read from the current element;
    the fallback buffer [InMemoryBuffer], the monitoring log [QueueEventLog]
    and the queued events with their validation and serialisation. *)

From S2P Require Import Prelude GoLib Float Json Instances Common Entities.

Open Scope Z_scope.

(** ** container/ring *)

(** A ring: the values met by following [Next] from the current element, nil
    values being [None]; the nil ring is the empty list. *)
Definition ring (A : Type) : Type := list (option A).

(** [ring.New(n)] *)
Definition ring_New {A} (n : Z) : ring A := replicate (Z.to_nat n) None.

(** [r.Value = v; r = r.Next()]: the written element becomes the last one. *)
Definition ring_Put {A} (v : A) (r : ring A) : outcome (ring A) :=
  match r with
  | [] => Panic nil_deref
  | _ :: r => Ret (r ++ [Some v])
  end.

(** [r.Do(f)], the closure's captured variables being the accumulator: [f]
    gets a copy of the value, so it cannot change the ring. *)
Definition ring_Do {A B} (f : option A → B → B) (r : ring A) (acc : B) : B :=
  foldl (λ acc v, f v acc) acc r.

(** ** Queued events *)

Record QueuedScrobbleEvent := mkEvent {
  E_ID : string;
  E_UserID : string;
  E_ScrobbleBody : ScrobbleBody;
  E_Action : string;
  E_Progress : Z;
  E_CreatedAt : Time;
  E_RetryCount : Z;
  E_LastAttempt : Time;
  E_PlayerUUID : string;
  E_RatingKey : string;
}.

#[export] Instance QueuedScrobbleEvent_eq_dec : EqDecision QueuedScrobbleEvent.
Proof. solve_decision. Defined.

Definition set_E_ID (id : string) (e : QueuedScrobbleEvent) : QueuedScrobbleEvent :=
  mkEvent id (E_UserID e) (E_ScrobbleBody e) (E_Action e) (E_Progress e) (E_CreatedAt e)
    (E_RetryCount e) (E_LastAttempt e) (E_PlayerUUID e) (E_RatingKey e).
Definition set_E_CreatedAt (t : Time) (e : QueuedScrobbleEvent) : QueuedScrobbleEvent :=
  mkEvent (E_ID e) (E_UserID e) (E_ScrobbleBody e) (E_Action e) (E_Progress e) t
    (E_RetryCount e) (E_LastAttempt e) (E_PlayerUUID e) (E_RatingKey e).
Definition set_E_Retry (n : Z) (t : Time) (e : QueuedScrobbleEvent) : QueuedScrobbleEvent :=
  mkEvent (E_ID e) (E_UserID e) (E_ScrobbleBody e) (E_Action e) (E_Progress e) (E_CreatedAt e)
    n t (E_PlayerUUID e) (E_RatingKey e).

Definition zeroEvent : QueuedScrobbleEvent :=
  mkEvent "" "" emptyBody "" 0 zeroTime 0 zeroTime "" "".

Definition validateEvent (event : QueuedScrobbleEvent) : option error :=
  if bool_decide (E_UserID event = "") then Some (Errorf "user_id is required") else
  if negb (bool_decide (E_Action event ∈ ["start"; "pause"; "stop"]))
  then Some (Errorf ("invalid action: " +:+ E_Action event +:+ " (must be start, pause, or stop)"))
  else
  if (E_Progress event <? 0) || (100 <? E_Progress event)
  then Some (Errorf ("invalid progress: " +:+ Itoa (E_Progress event) +:+ " (must be 0-100)")) else
  if bool_decide (E_PlayerUUID event = "") then Some (Errorf "player_uuid is required") else
  if bool_decide (E_RatingKey event = "") then Some (Errorf "rating_key is required") else
  None.

(** ** Fallback buffer *)

Record InMemoryBuffer := mkBuffer {
  B_ring : ring QueuedScrobbleEvent;
  B_capacity : Z;
}.

Definition NewInMemoryBuffer (capacity : Z) : InMemoryBuffer :=
  mkBuffer (ring_New capacity) capacity.

Definition Buffer_Push (event : QueuedScrobbleEvent) (b : InMemoryBuffer)
    : outcome InMemoryBuffer :=
  r ← ring_Put event (B_ring b); Ret (mkBuffer r (B_capacity b)).

Definition Buffer_GetAll (b : InMemoryBuffer) : list QueuedScrobbleEvent :=
  ring_Do (λ v events, match v with Some event => events ++ [event] | None => events end)
          (B_ring b) [].

(** The closure assigns nil to its own parameter. *)
Definition Buffer_Clear (b : InMemoryBuffer) : InMemoryBuffer :=
  let 'tt := ring_Do (λ v _, match v with Some _ => let v := @None QueuedScrobbleEvent in tt
                                       | None => tt end) (B_ring b) tt in
  b.

Definition Buffer_Size (b : InMemoryBuffer) : Z :=
  ring_Do (λ v count, match v with Some _ => count + 1 | None => count end) (B_ring b) 0.

(** ** Monitoring log *)

Record QueueLogEvent := mkLogEvent {
  L_Timestamp : Time;
  L_Operation : string;
  L_UserID : string;
  L_Username : string;
  L_EventID : string;
  L_QueueSize : Z;
  L_RetryCount : Z;
  L_Error : string;
  L_Details : string;
}.

Record QueueEventLog := mkLog {
  Log_events : ring QueueLogEvent;
  Log_capacity : Z;
}.

Definition NewQueueEventLog (capacity : Z) : QueueEventLog := mkLog (ring_New capacity) capacity.

Definition Log_Append (event : QueueLogEvent) (l : QueueEventLog) : outcome QueueEventLog :=
  r ← ring_Put event (Log_events l); Ret (mkLog r (Log_capacity l)).

(** The inner loop of [GetRecent]'s sort for a fixed [i]: [x] is the value at
    position [i], exchanged with every later value of a larger timestamp. *)
Fixpoint exchange (x : QueueLogEvent) (ys : list QueueLogEvent)
    : QueueLogEvent * list QueueLogEvent :=
  match ys with
  | [] => (x, [])
  | y :: ys =>
      if Before (L_Timestamp x) (L_Timestamp y)
      then let '(m, r) := exchange y ys in (m, x :: r)
      else let '(m, r) := exchange x ys in (m, y :: r)
  end.

(** The outer loop, [n] being the number of positions left to fill. *)
Fixpoint exchange_sort (n : nat) (events : list QueueLogEvent) : list QueueLogEvent :=
  match n, events with
  | S n, x :: ys => let '(m, r) := exchange x ys in m :: exchange_sort n r
  | _, _ => events
  end.

(** A negative [n] makes the allocation [make([]QueueLogEvent, 0, n)] panic. *)
Definition GetRecent (n : Z) (l : QueueEventLog) : outcome (list QueueLogEvent) :=
  let n := if Log_capacity l <? n then Log_capacity l else n in
  if n <? 0 then Panic "makeslice: cap out of range" else
  let events := ring_Do (λ v events, match v with Some e => events ++ [e] | None => events end)
                        (Log_events l) [] in
  let events := exchange_sort (List.length events) events in
  Ret (if n <? Z.of_nat (List.length events) then take (Z.to_nat n) events else events).

Definition Log_Clear (l : QueueEventLog) : QueueEventLog :=
  let 'tt := ring_Do (λ v _, match v with Some _ => let v := @None QueueLogEvent in tt
                                       | None => tt end) (Log_events l) tt in
  l.

Definition Log_Size (l : QueueEventLog) : Z :=
  ring_Do (λ v count, match v with Some _ => count + 1 | None => count end) (Log_events l) 0.

(** ** Serialisation *)

Section Serialisation.
Context `{UnicodeTables, TimeText, JsonText}.

Definition dec_time : decoder Time := λ j old,
  match j with
  | JNull => DOk old
  | JStr s => dres_of_option (parse_time s)
  | _ => DErr
  end.

Definition json_of_Event (e : QueuedScrobbleEvent) : json := enc_struct
  [always "id" (JStr (E_ID e)); always "user_id" (JStr (E_UserID e));
   always "scrobble_body" (ScrobbleBody_MarshalJSON (E_ScrobbleBody e));
   always "action" (JStr (E_Action e)); always "progress" (enc_int (E_Progress e));
   always "created_at" (JStr (time_text (E_CreatedAt e)));
   always "retry_count" (enc_int (E_RetryCount e));
   always "last_attempt" (JStr (time_text (E_LastAttempt e)));
   always "player_uuid" (JStr (E_PlayerUUID e)); always "rating_key" (JStr (E_RatingKey e))].

Definition dec_Event : decoder QueuedScrobbleEvent := dec_struct (find_field
  [("id", dec_at E_ID set_E_ID dec_string);
   ("user_id", dec_at E_UserID
      (λ v e, mkEvent (E_ID e) v (E_ScrobbleBody e) (E_Action e) (E_Progress e) (E_CreatedAt e)
         (E_RetryCount e) (E_LastAttempt e) (E_PlayerUUID e) (E_RatingKey e)) dec_string);
   ("scrobble_body", dec_at E_ScrobbleBody
      (λ v e, mkEvent (E_ID e) (E_UserID e) v (E_Action e) (E_Progress e) (E_CreatedAt e)
         (E_RetryCount e) (E_LastAttempt e) (E_PlayerUUID e) (E_RatingKey e))
      ScrobbleBody_UnmarshalJSON);
   ("action", dec_at E_Action
      (λ v e, mkEvent (E_ID e) (E_UserID e) (E_ScrobbleBody e) v (E_Progress e) (E_CreatedAt e)
         (E_RetryCount e) (E_LastAttempt e) (E_PlayerUUID e) (E_RatingKey e)) dec_string);
   ("progress", dec_at E_Progress
      (λ v e, mkEvent (E_ID e) (E_UserID e) (E_ScrobbleBody e) (E_Action e) v (E_CreatedAt e)
         (E_RetryCount e) (E_LastAttempt e) (E_PlayerUUID e) (E_RatingKey e)) dec_int);
   ("created_at", dec_at E_CreatedAt set_E_CreatedAt dec_time);
   ("retry_count", dec_at E_RetryCount (λ v e, set_E_Retry v (E_LastAttempt e) e) dec_int);
   ("last_attempt", dec_at E_LastAttempt (λ v e, set_E_Retry (E_RetryCount e) v e) dec_time);
   ("player_uuid", dec_at E_PlayerUUID
      (λ v e, mkEvent (E_ID e) (E_UserID e) (E_ScrobbleBody e) (E_Action e) (E_Progress e)
         (E_CreatedAt e) (E_RetryCount e) (E_LastAttempt e) v (E_RatingKey e)) dec_string);
   ("rating_key", dec_at E_RatingKey
      (λ v e, mkEvent (E_ID e) (E_UserID e) (E_ScrobbleBody e) (E_Action e) (E_Progress e)
         (E_CreatedAt e) (E_RetryCount e) (E_LastAttempt e) (E_PlayerUUID e) v) dec_string)]).

Definition serializeEvent (event : QueuedScrobbleEvent) : result string :=
  if time_in_range (E_CreatedAt event) && time_in_range (E_LastAttempt event)
  then Ok (json_print (json_of_Event event))
  else Err (Wrapf "failed to serialize event: "
         (Errorf "json: error calling MarshalJSON for type time.Time: year outside of range [0,9999]")
         "").

Definition deserializeEvent (data : string) : outcome (result QueuedScrobbleEvent) :=
  let fail := Ret (Err (Wrapf "failed to deserialize event: " (Errorf "json") "")) in
  match json_parse data with
  | None => fail
  | Some j =>
      match dec_Event j zeroEvent with
      | DOk e => Ret (Ok e)
      | DErr => fail
      | DPanic w => Panic w
      end
  end.
End Serialisation.

(** ** Lemmas: rings as bounded sequences *)

(** The last [c] elements of a sequence. *)
Definition last_n {A} (c : nat) (l : list A) : list A := drop (List.length l - c) l.

(** A ring of [c] slots that holds the values [l], oldest first: the empty
    slots come first, since the current element is the next one written. *)
Definition ring_rep {A} (c : nat) (r : ring A) (l : list A) : Prop :=
  (List.length l ≤ c)%nat ∧ r = replicate (c - List.length l) None ++ (Some <$> l).

Lemma ring_New_rep {A} n : ring_rep (Z.to_nat n) (@ring_New A n) [].
Proof. split; simpl; [lia|]. by rewrite Nat.sub_0_r, app_nil_r. Qed.

Lemma last_n_all {A} c (l : list A) : (List.length l ≤ c)%nat → last_n c l = l.
Proof. intros. unfold last_n. by replace (List.length l - c)%nat with 0%nat by lia. Qed.

Lemma length_last_n {A} c (l : list A) : List.length (last_n c l) = Nat.min c (List.length l).
Proof. unfold last_n. rewrite length_drop. lia. Qed.

Lemma last_n_snoc {A} c (l : list A) x : last_n c (last_n c l ++ [x]) = last_n c (l ++ [x]).
Proof.
  unfold last_n. rewrite !length_app, length_drop. simpl.
  destruct (decide (List.length l ≤ c)%nat).
  - replace (List.length l - c)%nat with 0%nat by lia. simpl. f_equal. lia.
  - destruct (decide (c = 0)%nat) as [->|].
    + rewrite !drop_ge; [done|..]; rewrite !length_app, ?length_drop; simpl; lia.
    + rewrite <-drop_app_le by lia. rewrite drop_drop. f_equal. lia.
Qed.

Lemma ring_Put_rep {A} c (r : ring A) l v :
  (0 < c)%nat → ring_rep c r l →
  ∃ r', ring_Put v r = Ret r' ∧ ring_rep c r' (last_n c (l ++ [v])).
Proof.
  intros Hc [Hl ->]. destruct (decide (List.length l < c)%nat) as [Hlt|].
  - replace (c - List.length l)%nat with (S (c - S (List.length l))) by lia. simpl.
    eexists; split; [done|]. rewrite last_n_all by (rewrite length_app; simpl; lia).
    split; rewrite length_app; simpl; [lia|].
    rewrite fmap_app, app_assoc. simpl. by rewrite Nat.add_1_r.
  - assert (List.length l = c) as Hlen by lia.
    replace (c - List.length l)%nat with 0%nat by lia.
    destruct l as [|x l]; simpl in *; [lia|].
    eexists; split; [done|].
    assert (last_n c (x :: l ++ [v]) = l ++ [v]) as ->.
    { unfold last_n. simpl. rewrite length_app. simpl.
      by replace (S (List.length l + 1) - c)%nat with 1%nat by lia. }
    split; rewrite length_app; simpl; [lia|].
    rewrite fmap_app. simpl. by replace (c - (List.length l + 1))%nat with 0%nat by lia.
Qed.

Lemma ring_Do_collect {A} (r : ring A) acc :
  ring_Do (λ v events, match v with Some e => events ++ [e] | None => events end) r acc =
  acc ++ omap id r.
Proof.
  revert acc. unfold ring_Do. induction r as [|[v|] r IH]; intros acc; simpl.
  - by rewrite app_nil_r.
  - rewrite IH. by rewrite <-app_assoc.
  - apply IH.
Qed.

Lemma ring_Do_count {A} (r : ring A) n :
  ring_Do (λ v count, match v with Some _ => count + 1 | None => count end) r n =
  n + Z.of_nat (List.length (omap id r)).
Proof.
  revert n. unfold ring_Do. induction r as [|[v|] r IH]; intros n; simpl; [lia|..].
  - rewrite IH. change (list_omap _ _ id r) with (omap id r). lia.
  - apply IH.
Qed.

Lemma ring_rep_omap {A} c (r : ring A) l : ring_rep c r l → omap id r = l.
Proof.
  intros [_ ->]. rewrite omap_app.
  assert (omap id (replicate (c - List.length l) (@None A)) = []) as ->.
  { by induction (c - List.length l)%nat. }
  induction l as [|x l IH]; [done|]. simpl in *. by f_equal.
Qed.

(** ** Lemmas: the exchange sort of [GetRecent] *)

Definition newer (x y : QueueLogEvent) : Prop := L_Timestamp y ≤ L_Timestamp x.

Lemma exchange_perm x ys m r : exchange x ys = (m, r) → m :: r ≡ₚ x :: ys.
Proof.
  revert x m r. induction ys as [|y ys IH]; intros x m r; simpl.
  { by intros [= <- <-]. }
  case_match; destruct (exchange _ ys) as [m' r'] eqn:E; intros [= <- <-];
    apply IH in E.
  - rewrite Permutation_swap, E. done.
  - rewrite Permutation_swap, E. apply Permutation_swap.
Qed.

Lemma exchange_max x ys m r : exchange x ys = (m, r) → newer m x ∧ Forall (newer m) r.
Proof.
  revert x m r. unfold newer, Before. induction ys as [|y ys IH]; intros x m r; simpl.
  { intros [= <- <-]. split; [lia|constructor]. }
  case_match eqn:Hb; destruct (exchange _ ys) as [m' r'] eqn:E; intros [= <- <-];
    apply IH in E as [Hx Hr]; apply Z.ltb_lt in Hb || apply Z.ltb_ge in Hb.
  - split; [lia|]. constructor; [lia|done].
  - split; [done|]. constructor; [lia|done].
Qed.

Lemma exchange_sort_spec n l :
  (List.length l ≤ n)%nat →
  exchange_sort n l ≡ₚ l ∧ StronglySorted newer (exchange_sort n l).
Proof.
  revert l. induction n as [|n IH]; intros [|x ys] Hn; simpl in *;
    [by split; [|constructor]|lia|by split; [|constructor]|].
  destruct (exchange x ys) as [m r] eqn:E.
  pose proof (exchange_perm _ _ _ _ E) as Hp.
  pose proof (exchange_max _ _ _ _ E) as [_ Hm].
  destruct (IH r) as [Hp' Hs].
  { apply Permutation_length in Hp. simpl in Hp. lia. }
  split; [by rewrite Hp'|]. constructor; [done|]. by rewrite Hp'.
Qed.

(** ** Properties *)

(** A client's use of a fallback buffer. *)
Inductive buffer_op := Push (e : QueuedScrobbleEvent) | Clear.
Definition pushed (ops : list buffer_op) : list QueuedScrobbleEvent :=
  omap (λ op, match op with Push e => Some e | Clear => None end) ops.
Definition run_buffer (ops : list buffer_op) (b : InMemoryBuffer) : outcome InMemoryBuffer :=
  foldl (λ acc op, b ← acc; match op with Push e => Buffer_Push e b | Clear => Ret (Buffer_Clear b) end)
        (Ret b) ops.

Lemma run_buffer_rep ops c r l :
  (0 < c)%nat → ring_rep c r (last_n c l) →
  ∃ r', run_buffer ops (mkBuffer r (Z.of_nat c)) = Ret (mkBuffer r' (Z.of_nat c)) ∧
        ring_rep c r' (last_n c (l ++ pushed ops)).
Proof.
  intros Hc. revert r l. unfold run_buffer. induction ops as [|[e|] ops IH]; intros r l Hr; simpl.
  - exists r. by rewrite app_nil_r.
  - destruct (ring_Put_rep c r _ e Hc Hr) as (r1 & Hp & Hr1).
    unfold Buffer_Push. simpl. rewrite Hp. simpl. rewrite last_n_snoc in Hr1.
    destruct (IH r1 (l ++ [e]) Hr1) as (r' & ? & ?). exists r'. split; [done|].
    by rewrite <-app_assoc in *.
  - unfold Buffer_Clear. simpl. by destruct (ring_Do _ _ _); apply IH.
Qed.

Lemma run_buffer_new c ops :
  0 < c →
  ∃ b, run_buffer ops (NewInMemoryBuffer c) = Ret b ∧
       ring_rep (Z.to_nat c) (B_ring b) (last_n (Z.to_nat c) (pushed ops)).
Proof.
  intros Hc. pose proof (ring_New_rep (A:=QueuedScrobbleEvent) c) as Hr.
  destruct (run_buffer_rep ops (Z.to_nat c) (ring_New c) []) as (r' & He & Hr'); [lia|done|].
  rewrite Z2Nat.id in He by lia. by exists (mkBuffer r' c).
Qed.

(** C15: the fallback buffer of capacity [c > 0] never panics, and after any
    sequence of pushes and clears [GetAll] returns the last [c] pushed events
    in push order and [Size] their number: the oldest events are evicted
    first, and [Clear] removes nothing. *)
Theorem Buffer_refines_last_n (c : Z) (ops : list buffer_op) :
  0 < c →
  ∃ b, run_buffer ops (NewInMemoryBuffer c) = Ret b ∧
    Buffer_GetAll b = last_n (Z.to_nat c) (pushed ops) ∧
    Buffer_Size b = Z.min c (Z.of_nat (List.length (pushed ops))).
Proof.
  intros Hc. destruct (run_buffer_new c ops Hc) as (b & Hb & Hr).
  exists b. split; [done|]. apply ring_rep_omap in Hr.
  unfold Buffer_GetAll, Buffer_Size. rewrite ring_Do_collect, ring_Do_count, Hr.
  rewrite length_last_n. split; [done|lia].
Qed.

(** [GetRecent n] on a log whose ring holds the events [l] returns the
    first [min n capacity] events of a permutation of [l] sorted by descending
    timestamp, so the newest events come first and none is missing or
    repeated. *)
Lemma GetRecent_newest (n : Z) (lg : QueueEventLog) (l : list QueueLogEvent) :
  0 ≤ n → ring_rep (Z.to_nat (Log_capacity lg)) (Log_events lg) l → 0 ≤ Log_capacity lg →
  ∃ sorted, sorted ≡ₚ l ∧ StronglySorted newer sorted ∧
    GetRecent n lg = Ret (take (Z.to_nat (Z.min n (Log_capacity lg))) sorted).
Proof.
  intros Hn Hr Hc. destruct (exchange_sort_spec (List.length l) l) as [Hp Hs]; [done|].
  exists (exchange_sort (List.length l) l). split_and!; [done..|].
  unfold GetRecent. rewrite ring_Do_collect, (ring_rep_omap _ _ _ Hr). simpl.
  set (m := if Log_capacity lg <? n then Log_capacity lg else n).
  assert (m = Z.min n (Log_capacity lg)) as ->.
  { unfold m. destruct (Z.ltb_spec (Log_capacity lg) n); lia. }
  destruct (Z.ltb_spec (Z.min n (Log_capacity lg)) 0); [lia|].
  destruct (Z.ltb_spec (Z.min n (Log_capacity lg))
              (Z.of_nat (List.length (exchange_sort (List.length l) l)))); [done|].
  rewrite take_ge by lia. done.
Qed.

Lemma validateEvent_progress e : validateEvent e = None → 0 ≤ E_Progress e ≤ 100.
Proof.
  unfold validateEvent. intros Hv.
  destruct (Z.ltb_spec (E_Progress e) 0), (Z.ltb_spec 100 (E_Progress e));
    repeat (case_bool_decide; simpl in Hv; try done); lia.
Qed.

Section EventRoundTrip.
Context `{UnicodeTables, TT : TimeText, TL : !TimeTextLaws TT, JT : JsonText, JL : !JsonTextLaws JT}.

Definition Event_int (e : QueuedScrobbleEvent) : Prop :=
  Body_int (E_ScrobbleBody e) ∧ 0 ≤ Progress (E_ScrobbleBody e) ≤ 100 ∧
  int64_min ≤ E_RetryCount e ≤ int64_max.

Ltac event_member :=
  json_always;
  [cbv [zeroEvent set_E_ID set_E_CreatedAt set_E_Retry E_ID E_UserID E_ScrobbleBody E_Action
        E_Progress E_CreatedAt E_RetryCount E_LastAttempt E_PlayerUUID E_RatingKey]|].

Lemma dec_Event_enc e :
  Event_int e → 0 ≤ E_Progress e ≤ 100 →
  time_in_range (E_CreatedAt e) = true → time_in_range (E_LastAttempt e) = true →
  dec_Event (json_of_Event e) zeroEvent = DOk e.
Proof using TL.
  intros (Hb & Hp & Hr) Hp' H1 H2. destruct e; simpl in *.
  unfold dec_Event, dec_struct, json_of_Event, enc_struct. cbv beta iota.
  event_member; [|done]. event_member; [|done].
  event_member; [|by apply dec_at_ok, ScrobbleBody_roundtrip_lemma].
  event_member; [|done].
  event_member; [|apply dec_at_ok, dec_int_enc; unfold int64_min, int64_max; lia].
  event_member; [|apply dec_at_ok; simpl; rewrite parse_time_text by done; done].
  event_member; [|by apply dec_at_ok, dec_int_enc].
  event_member; [|apply dec_at_ok; simpl; rewrite parse_time_text by done; done].
  event_member; [|done]. event_member; [|done]. done.
Qed.
End EventRoundTrip.

(** An event that [validateEvent] accepts, with integers of the program's
    widths, timestamps of years 0-9999 and texts of valid UTF-8, survives [serializeEvent] then
    [deserializeEvent] unchanged. *)
Lemma serialize_deserialize_event
    `{UnicodeTables, TT : TimeText, TL : !TimeTextLaws TT, JT : JsonText, JL : !JsonTextLaws JT}
    (e : QueuedScrobbleEvent) :
  validateEvent e = None → Event_int e → json_wf (json_of_Event e) = true →
  time_in_range (E_CreatedAt e) = true → time_in_range (E_LastAttempt e) = true →
  ∃ data, serializeEvent e = Ok data ∧ deserializeEvent data = Ret (Ok e).
Proof.
  intros Hv Hi Hj H1 H2. unfold serializeEvent. rewrite H1, H2. eexists; split; [done|].
  unfold deserializeEvent. rewrite json_parse_print by done.
  by rewrite dec_Event_enc by (done || by apply validateEvent_progress).
Qed.

(** ** Examples *)

Definition sample_event (rk : string) : QueuedScrobbleEvent :=
  mkEvent ("e" +:+ rk) "user" (mkBody 42 (Some (mkMovie (Some "Heat") (Some 1995) emptyIds)) None None)
    "stop" 42 (1700000000 * Second) 0 (1700000000 * Second) "player" rk.

Lemma Buffer_refines_last_n_witness :
  ∃ b, run_buffer [Push (sample_event "1"); Push (sample_event "2"); Clear; Push (sample_event "3")]
         (NewInMemoryBuffer 2) = Ret b ∧
    Buffer_GetAll b = [sample_event "2"; sample_event "3"] ∧ Buffer_Size b = 2.
Proof. exact (Buffer_refines_last_n 2
  [Push (sample_event "1"); Push (sample_event "2"); Clear; Push (sample_event "3")] eq_refl).
Defined.

Definition sample_log_event (t : Time) : QueueLogEvent :=
  mkLogEvent t "queue_enqueue" "user" "" "" 0 0 "" "".

Lemma GetRecent_newest_witness :
  ∃ sorted, sorted ≡ₚ [sample_log_event 5; sample_log_event 9] ∧ StronglySorted newer sorted ∧
    GetRecent 2 (mkLog [None; Some (sample_log_event 5); Some (sample_log_event 9)] 3) =
      Ret (take 2 sorted).
Proof.
  apply (GetRecent_newest 2 (mkLog [None; Some (sample_log_event 5); Some (sample_log_event 9)] 3)
           [sample_log_event 5; sample_log_event 9]).
  - done.
  - split; [simpl; lia|done].
  - done.
Defined.

Lemma serialize_deserialize_event_witness :
  ∃ data, serializeEvent (H0:=decimal_time) (H1:=tree_text) (sample_event "1") = Ok data ∧
    deserializeEvent (H:=ascii_tables) (H0:=decimal_time) (H1:=tree_text) data =
      Ret (Ok (sample_event "1")).
Proof.
  apply (serialize_deserialize_event (H:=ascii_tables) (TL:=decimal_time_laws) (JL:=tree_text_laws)).
  - reflexivity.
  - unfold Event_int, Body_int, Ids_int, int64_opt, int64_min, int64_max. simpl.
    split; [|lia]. split; [|done]. intros m [= <-]. simpl. lia.
  - vm_compute. reflexivity.
  - reflexivity.
  - reflexivity.
Defined.
