(* ===== verification/Codec.v ===== *)
(** * Text forms of the entities: JSON records and calendar dates

    The JSON of [FamilyGroup], [GroupMember] ([lib/store]) and [CacheItem]
    ([lib/common]) as the disk and Redis stores write them, and the two textual
    forms of a user's times: [time.Format] and [time.Parse] with the layout
    ["01-02-2006"], computed on the proleptic Gregorian calendar, and with
    [time.RFC3339].  A time is taken in UTC. *)

From S2P Require Import Prelude GoLib Float Json Instances Common Entities Buffers.

Open Scope Z_scope.

(** ** Calendar dates *)

Definition Day : Duration := 24 * Hour.

(** Days since 1 January 1970, rounded towards the past, and midnight. *)
Definition day_of (t : Time) : Z := t `div` Day.
Definition midnight (t : Time) : Time := day_of t * Day.

(** Year, month and day of a day number; years start in March so that the leap
    day is the last one. *)
Definition civil_of_day (n : Z) : Z * Z * Z :=
  let z := n + 719468 in
  let era := z `div` 146097 in
  let doe := z `mod` 146097 in
  let yoe := (doe - doe `div` 1460 + doe `div` 36524 - doe `div` 146096) `div` 365 in
  let doy := doe - (365 * yoe + yoe `div` 4 - yoe `div` 100) in
  let mp := (5 * doy + 2) `div` 153 in
  let m := if mp <? 10 then mp + 3 else mp - 9 in
  (yoe + era * 400 + (if m <=? 2 then 1 else 0), m, doy - (153 * mp + 2) `div` 5 + 1).

Definition day_of_civil (y m d : Z) : Z :=
  let y := if m <=? 2 then y - 1 else y in
  let yoe := y `mod` 400 in
  let doy := (153 * (if 2 <? m then m - 3 else m + 9) + 2) `div` 5 + d - 1 in
  y `div` 400 * 146097 + (yoe * 365 + yoe `div` 4 - yoe `div` 100 + doy) - 719468.

Definition is_leap (y : Z) : bool :=
  (y `mod` 4 =? 0) && (negb (y `mod` 100 =? 0) || (y `mod` 400 =? 0)).
Definition days_in (m y : Z) : Z :=
  if m =? 2 then if is_leap y then 29 else 28
  else if (m =? 4) || (m =? 6) || (m =? 9) || (m =? 11) then 30 else 31.

(** A number padded with zeros to a width. *)
Definition pad_int (w : nat) (n : Z) : list ascii :=
  let l := nat_digits (Z.abs n) in
  (if n <? 0 then ["-"%char] else []) ++ replicate (w - List.length l) "0"%char ++ l.

(** [t.Format("01-02-2006")] *)
Definition format_date (t : Time) : string :=
  let '(y, m, d) := civil_of_day (day_of t) in
  of_bytes (pad_int 2 m ++ ["-"%char] ++ pad_int 2 d ++ ["-"%char] ++ pad_int 4 y).

(** [time.Parse("01-02-2006", s)]: two, two and four digits between dashes, a
    month of the year and a day of the month; [None] is the error case. *)
Definition parse_date (s : string) : option Time :=
  match bytes s with
  | [m1; m2; s1; d1; d2; s2; y1; y2; y3; y4] =>
      if Ascii.eqb s1 "-"%char && Ascii.eqb s2 "-"%char then
        m ← digits_value 0 [m1; m2];
        d ← digits_value 0 [d1; d2];
        y ← digits_value 0 [y1; y2; y3; y4];
        if (1 <=? m) && (m <=? 12) && (1 <=? d) && (d <=? days_in m y)
        then Some (day_of_civil y m d * Day) else None
      else None
  | _ => None
  end.

(** ** RFC 3339 without fraction *)

Section Text.
Context `{TimeText}.

Definition whole_second (t : Time) : Time := t `div` Second * Second.

(** [t.Format(time.RFC3339)]: the text of a time without its fraction of a
    second; [time.Parse(time.RFC3339, s)] is [parse_time]. *)
Definition format_rfc3339 (t : Time) : string := time_text (whole_second t).
End Text.

(** ** Records *)

Section Records.
Context `{UnicodeTables, TimeText}.

Definition json_of_FamilyGroup (g : FamilyGroup) : json := enc_struct
  [always "id" (JStr (FG_ID g)); always "plex_username" (JStr (FG_PlexUsername g));
   always "created_at" (JStr (time_text (FG_CreatedAt g)));
   always "updated_at" (JStr (time_text (FG_UpdatedAt g)))].

Definition zeroGroup : FamilyGroup := mkFG "" "" zeroTime zeroTime.

Definition dec_FamilyGroup : decoder FamilyGroup := dec_struct (find_field
  [("id", dec_at FG_ID (λ v g, mkFG v (FG_PlexUsername g) (FG_CreatedAt g) (FG_UpdatedAt g)) dec_string);
   ("plex_username", dec_at FG_PlexUsername
      (λ v g, mkFG (FG_ID g) v (FG_CreatedAt g) (FG_UpdatedAt g)) dec_string);
   ("created_at", dec_at FG_CreatedAt
      (λ v g, mkFG (FG_ID g) (FG_PlexUsername g) v (FG_UpdatedAt g)) dec_time);
   ("updated_at", dec_at FG_UpdatedAt
      (λ v g, mkFG (FG_ID g) (FG_PlexUsername g) (FG_CreatedAt g) v) dec_time)]).

(** A string tagged [omitempty]. *)
Definition omit_empty (s : string) : option string := if bool_decide (s = "") then None else Some s.

(** The tokens are tagged ["-"]: they are not part of the JSON form. *)
Definition json_of_GroupMember (m : GroupMember) : json := enc_struct
  [always "id" (JStr (GM_ID m)); always "family_group_id" (JStr (GM_FamilyGroupID m));
   always "temp_label" (JStr (GM_TempLabel m));
   omit_nil "trakt_username" JStr (omit_empty (GM_TraktUsername m));
   omit_nil "token_expiry" (λ t, JStr (time_text t)) (GM_TokenExpiry m);
   always "authorization_status" (JStr (GM_AuthorizationStatus m));
   always "created_at" (JStr (time_text (GM_CreatedAt m)))].

Definition zeroMember : GroupMember := mkGM "" "" "" "" "" "" None "" zeroTime.

Definition dec_GroupMember : decoder GroupMember := dec_struct (find_field
  [("id", dec_at GM_ID (λ v m, mkGM v (GM_FamilyGroupID m) (GM_TempLabel m) (GM_TraktUsername m)
      (GM_AccessToken m) (GM_RefreshToken m) (GM_TokenExpiry m) (GM_AuthorizationStatus m)
      (GM_CreatedAt m)) dec_string);
   ("family_group_id", dec_at GM_FamilyGroupID (λ v m, mkGM (GM_ID m) v (GM_TempLabel m)
      (GM_TraktUsername m) (GM_AccessToken m) (GM_RefreshToken m) (GM_TokenExpiry m)
      (GM_AuthorizationStatus m) (GM_CreatedAt m)) dec_string);
   ("temp_label", dec_at GM_TempLabel (λ v m, mkGM (GM_ID m) (GM_FamilyGroupID m) v
      (GM_TraktUsername m) (GM_AccessToken m) (GM_RefreshToken m) (GM_TokenExpiry m)
      (GM_AuthorizationStatus m) (GM_CreatedAt m)) dec_string);
   ("trakt_username", dec_at GM_TraktUsername (λ v m, mkGM (GM_ID m) (GM_FamilyGroupID m)
      (GM_TempLabel m) v (GM_AccessToken m) (GM_RefreshToken m) (GM_TokenExpiry m)
      (GM_AuthorizationStatus m) (GM_CreatedAt m)) dec_string);
   ("token_expiry", dec_at GM_TokenExpiry (λ v m, mkGM (GM_ID m) (GM_FamilyGroupID m)
      (GM_TempLabel m) (GM_TraktUsername m) (GM_AccessToken m) (GM_RefreshToken m) v
      (GM_AuthorizationStatus m) (GM_CreatedAt m)) (dec_ptr zeroTime dec_time));
   ("authorization_status", dec_at GM_AuthorizationStatus (λ v m, mkGM (GM_ID m)
      (GM_FamilyGroupID m) (GM_TempLabel m) (GM_TraktUsername m) (GM_AccessToken m)
      (GM_RefreshToken m) (GM_TokenExpiry m) v (GM_CreatedAt m)) dec_string);
   ("created_at", dec_at GM_CreatedAt (λ v m, mkGM (GM_ID m) (GM_FamilyGroupID m) (GM_TempLabel m)
      (GM_TraktUsername m) (GM_AccessToken m) (GM_RefreshToken m) (GM_TokenExpiry m)
      (GM_AuthorizationStatus m) v) dec_time)]).

Definition json_of_CacheItem (c : CacheItem) : json := enc_struct
  [always "player_uuid" (JStr (PlayerUuid c)); always "server_uuid" (JStr (ServerUuid c));
   always "rating_key" (JStr (RatingKey c)); always "trigger" (JStr (Trigger c));
   always "body" (ScrobbleBody_MarshalJSON (Body c)); always "last_action" (JStr (LastAction c))].

Definition dec_CacheItem : decoder CacheItem := dec_struct (find_field
  [("player_uuid", dec_at PlayerUuid (λ v c, mkCacheItem v (ServerUuid c) (RatingKey c) (Trigger c)
      (Body c) (LastAction c)) dec_string);
   ("server_uuid", dec_at ServerUuid (λ v c, mkCacheItem (PlayerUuid c) v (RatingKey c) (Trigger c)
      (Body c) (LastAction c)) dec_string);
   ("rating_key", dec_at RatingKey (λ v c, mkCacheItem (PlayerUuid c) (ServerUuid c) v (Trigger c)
      (Body c) (LastAction c)) dec_string);
   ("trigger", dec_at Trigger (λ v c, mkCacheItem (PlayerUuid c) (ServerUuid c) (RatingKey c) v
      (Body c) (LastAction c)) dec_string);
   ("body", dec_at Body set_Body ScrobbleBody_UnmarshalJSON);
   ("last_action", dec_at LastAction set_LastAction dec_string)]).

(** [json.Marshal] of a record: an error when one of its times has a year
    outside 0-9999. *)
Definition year_error : error :=
  Errorf "json: error calling MarshalJSON for type time.Time: year outside of range [0,9999]".
Definition group_times (g : FamilyGroup) : bool :=
  time_in_range (FG_CreatedAt g) && time_in_range (FG_UpdatedAt g).
Definition member_times (m : GroupMember) : bool :=
  match GM_TokenExpiry m with Some t => time_in_range t | None => true end &&
  time_in_range (GM_CreatedAt m).

(** [json.Unmarshal] into a fresh record; these records have no custom decoder
    that could panic. *)
Definition unmarshal `{JsonText} {A} (d : decoder A) (zero : A) (data : string) : result A :=
  match json_parse data with
  | None => Err (Errorf "json: syntax error")
  | Some j => match d j zero with DOk a => Ok a | _ => Err (Errorf "json: cannot unmarshal") end
  end.
End Records.

(** ** Lemmas: dates *)

Lemma year_of_era doe :
  0 ≤ doe < 146097 →
  let yoe := (doe - doe `div` 1460 + doe `div` 36524 - doe `div` 146096) `div` 365 in
  0 ≤ yoe < 400 ∧ 0 ≤ doe - (365 * yoe + yoe `div` 4 - yoe `div` 100) ≤ 365.
Proof.
  intros Hd yoe. assert (0 ≤ yoe < 400) by (unfold yoe; Z.div_mod_to_equations; lia).
  split; [done|]. unfold yoe in *. Z.div_mod_to_equations. lia.
Qed.

(** Month and day from the day of the (March) year. *)
Lemma month_of_year doy :
  0 ≤ doy ≤ 365 →
  let mp := (5 * doy + 2) `div` 153 in
  let m := if mp <? 10 then mp + 3 else mp - 9 in
  let d := doy - (153 * mp + 2) `div` 5 + 1 in
  1 ≤ m ≤ 12 ∧ 1 ≤ d ≤ 31 ∧ (if 2 <? m then m - 3 else m + 9) = mp.
Proof.
  intros Hd mp m d. assert (0 ≤ mp ≤ 11) by (unfold mp; Z.div_mod_to_equations; lia).
  unfold m. destruct (Z.ltb_spec mp 10).
  - rewrite (proj2 (Z.ltb_lt _ _)) by lia. unfold d, mp in *. Z.div_mod_to_equations. lia.
  - rewrite (proj2 (Z.ltb_ge _ _)) by lia. unfold d, mp in *. Z.div_mod_to_equations. lia.
Qed.

(** A day number is recovered from its date. *)
Lemma day_of_civil_of_day n :
  let '(y, m, d) := civil_of_day n in
  day_of_civil y m d = n ∧ 1 ≤ m ≤ 12 ∧ 1 ≤ d ≤ 31.
Proof.
  unfold civil_of_day. set (z := n + 719468). set (doe := z `mod` 146097).
  destruct (year_of_era doe) as [Hy Hdoy]; [apply Z.mod_pos_bound; lia|].
  set (yoe := (doe - _ + _ - _) `div` 365) in *.
  set (doy := doe - (365 * yoe + _ - _)) in *.
  destruct (month_of_year doy Hdoy) as (Hm & Hd & Hmp).
  set (mp := (5 * doy + 2) `div` 153) in *. set (m := if mp <? 10 then _ else _) in *.
  split; [|done]. unfold day_of_civil.
  assert ((if m <=? 2 then yoe + z `div` 146097 * 400 + (if m <=? 2 then 1 else 0) - 1
           else yoe + z `div` 146097 * 400 + (if m <=? 2 then 1 else 0))
          = yoe + z `div` 146097 * 400) as -> by (destruct (m <=? 2); lia).
  rewrite Hmp, Z.mod_add, Z.div_add, Z.mod_small, Z.div_small by lia.
  pose proof (Z.div_mod z 146097 ltac:(lia)). unfold doy, doe, z in *. lia.
Qed.

(** A day 365 (counted from 0, from March) only occurs before a leap year. *)
Lemma leap_day_of_era doe :
  0 ≤ doe < 146097 →
  let yoe := (doe - doe `div` 1460 + doe `div` 36524 - doe `div` 146096) `div` 365 in
  doe - (365 * yoe + yoe `div` 4 - yoe `div` 100) = 365 →
  (yoe + 1) `mod` 4 = 0 ∧ ((yoe + 1) `mod` 100 ≠ 0 ∨ (yoe + 1) `mod` 400 = 0).
Proof.
  intros Hr yoe E. destruct (year_of_era doe Hr) as [Hy _]. fold yoe in Hy.
  assert (365 * yoe ≤ doe - doe `div` 1460 + doe `div` 36524 - doe `div` 146096 < 365 * yoe + 365)
    by (unfold yoe; Z.div_mod_to_equations; lia).
  clearbody yoe. split; [Z.div_mod_to_equations; lia|].
  destruct (decide ((yoe + 1) `mod` 100 = 0)) as [Hc|]; [right|by left].
  assert (∃ k, yoe = 100 * k + 99 ∧ 0 ≤ k < 4) as (k & -> & Hk).
  { exists (yoe `div` 100). Z.div_mod_to_equations; lia. }
  assert (k = 0 ∨ k = 1 ∨ k = 2 ∨ k = 3) as [->|[->|[->| ->]]] by lia; try done;
    exfalso; Z.div_mod_to_equations; lia.
Qed.

Lemma is_leap_cycle y k : is_leap (y + k * 400) = is_leap y.
Proof.
  assert (∀ a b, 0 < a → b * a = 400 → (y + k * 400) `mod` a = y `mod` a) as Hm.
  { intros a b Ha <-. rewrite Z.mul_assoc. apply Z.mod_add. lia. }
  unfold is_leap. by rewrite (Hm 4 100), (Hm 100 4), (Hm 400 1).
Qed.

(** The day of a date exists in its month. *)
Lemma civil_of_day_in_month n :
  let '(y, m, d) := civil_of_day n in d ≤ days_in m y.
Proof.
  unfold civil_of_day. set (z := n + 719468). set (doe := z `mod` 146097).
  assert (0 ≤ doe < 146097) as Hr by (apply Z.mod_pos_bound; lia).
  set (era := z `div` 146097). clearbody doe era. clear z n.
  destruct (year_of_era doe Hr) as [Hy Hdoy]. pose proof (leap_day_of_era doe Hr) as Hl. simpl in Hl.
  set (yoe := (doe - _ + _ - _) `div` 365) in *.
  set (doy := doe - (365 * yoe + _ - _)) in *. clearbody doy.
  set (mp := (5 * doy + 2) `div` 153) in *.
  assert (153 * mp ≤ 5 * doy + 2 < 153 * mp + 153 ∧ 0 ≤ mp ≤ 11) as [Hmp Hmp']
    by (unfold mp; Z.div_mod_to_equations; lia).
  clearbody mp yoe.
  destruct (decide (mp = 11)) as [->|]; cycle 1.
  { assert (mp = 0 ∨ mp = 1 ∨ mp = 2 ∨ mp = 3 ∨ mp = 4 ∨ mp = 5 ∨ mp = 6 ∨ mp = 7 ∨ mp = 8 ∨
      mp = 9 ∨ mp = 10) as Hc by lia.
    unfold days_in. clear Hl.
    destruct Hc as [->|[->|[->|[->|[->|[->|[->|[->|[->|[->| ->]]]]]]]]]]; simpl;
      repeat match goal with |- context [?a =? ?b] => destruct (Z.eqb_spec a b); try lia end;
      simpl; Z.div_mod_to_equations; lia. }
  simpl. unfold days_in. change (11 - 9 =? 2) with true. cbv iota.
  replace (yoe + era * 400 + 1) with (yoe + 1 + era * 400) by lia. rewrite is_leap_cycle.
  change ((153 * 11 + 2) `div` 5) with 337. destruct (is_leap (yoe + 1)) eqn:E; [lia|].
  destruct (decide (doy = 365)) as [->|]; [|lia]. exfalso.
  destruct (Hl eq_refl) as [H4 H100]. unfold is_leap in E. rewrite (proj2 (Z.eqb_eq _ _) H4) in E.
  simpl in E. apply orb_false_iff in E as [E1 E2]. apply negb_false_iff, Z.eqb_eq in E1.
  apply Z.eqb_neq in E2. lia.
Qed.

(** Numbers of a fixed width read back. *)
Lemma length_digits_of fuel w n acc :
  0 ≤ n < 10 ^ Z.of_nat (S w) →
  (List.length (digits_of fuel n acc) ≤ List.length acc + S w)%nat.
Proof.
  revert w n acc. induction fuel as [|fuel IH]; intros w n acc Hn; [simpl; lia|]. cbn [digits_of].
  destruct (Z.eqb_spec (n `div` 10) 0) as [E|E]; [simpl; lia|].
  destruct w as [|w].
  { exfalso. apply E. apply Z.div_small. simpl in Hn. lia. }
  etrans; [apply (IH w)|simpl; lia].
  rewrite Nat2Z.inj_succ, Z.pow_succ_r in Hn by lia.
  split; [apply Z.div_pos; lia|apply Z.div_lt_upper_bound; lia].
Qed.

Lemma digits_value_zeros k l : digits_value 0 (replicate k "0"%char ++ l) = digits_value 0 l.
Proof. induction k; [done|]. done. Qed.

Lemma pad_int_spec w n :
  0 ≤ n < 10 ^ Z.of_nat (S w) →
  List.length (pad_int (S w) n) = S w ∧ digits_value 0 (pad_int (S w) n) = Some n.
Proof.
  intros Hn. unfold pad_int. rewrite (proj2 (Z.ltb_ge n 0)) by lia. rewrite Z.abs_eq by lia.
  rewrite app_nil_l, digits_value_zeros, length_app, length_replicate. split.
  - pose proof (length_digits_of (S (Z.to_nat (Z.log2 n))) w n [] Hn). unfold nat_digits in *.
    simpl List.length in *. lia.
  - destruct (nat_digits_spec n) as (a & l & -> & _ & ?); [lia|done].
Qed.

(** A date written by [format_date] is read by [parse_date] as midnight of its
    day, for the years the layout can hold. *)
Lemma parse_format_date t :
  0 ≤ (civil_of_day (day_of t)).1.1 < 10000 → parse_date (format_date t) = Some (midnight t).
Proof.
  intros Hy. unfold format_date, midnight.
  pose proof (day_of_civil_of_day (day_of t)) as Hc.
  pose proof (civil_of_day_in_month (day_of t)) as Hd.
  destruct (civil_of_day (day_of t)) as [[y m] d]. simpl in Hy. destruct Hc as (Hc & Hm & Hd').
  destruct (pad_int_spec 1 m ltac:(simpl; lia)) as [Lm Vm].
  destruct (pad_int_spec 1 d ltac:(simpl; lia)) as [Ld Vd].
  destruct (pad_int_spec 3 y ltac:(simpl; lia)) as [Ly Vy].
  destruct (pad_int 2 m) as [|m1 [|m2 [|]]]; try done.
  destruct (pad_int 2 d) as [|d1 [|d2 [|]]]; try done.
  destruct (pad_int 4 y) as [|y1 [|y2 [|y3 [|y4 [|]]]]]; try done.
  unfold parse_date. rewrite bytes_of_bytes. simpl app. cbv iota beta.
  rewrite !Ascii.eqb_refl. cbn [andb]. rewrite Vm, Vd, Vy. simpl.
  rewrite !(proj2 (Z.leb_le _ _)) by lia. simpl. by rewrite Hc.
Qed.

(** ** Lemmas: records *)

Section RecordLemmas.
Context `{UnicodeTables, TT : TimeText, TL : !TimeTextLaws TT}.

Lemma dec_time_text t old : time_in_range t = true → dec_time (JStr (time_text t)) old = DOk t.
Proof using TL. intros Ht. simpl. by rewrite parse_time_text. Qed.

(** A family group survives its JSON form. *)
Lemma dec_FamilyGroup_enc g :
  group_times g = true → dec_FamilyGroup (json_of_FamilyGroup g) zeroGroup = DOk g.
Proof using TL.
  unfold group_times. rewrite andb_true_iff. intros [H1 H2]. destruct g; simpl in *.
  unfold dec_FamilyGroup, dec_struct, json_of_FamilyGroup, enc_struct. cbv beta iota.
  json_always; [|done]. json_always; [|done].
  json_always; [|by apply dec_at_ok, dec_time_text]. json_always; [|by apply dec_at_ok, dec_time_text].
  done.
Qed.

(** A member tagged [omitempty] that holds a string. *)
Lemma dec_omit_empty {A} (field : string → option (decoder A)) k s (get : A → string) set fs a :
  field k = Some (dec_at get set dec_string) → set "" a = a →
  dec_fields field (present (omit_nil k JStr (omit_empty s) :: fs)) a =
  dec_fields field (present fs) (set s a).
Proof.
  intros Hf Hs. unfold omit_empty. case_bool_decide as E; simpl.
  - subst s. by rewrite Hs.
  - by erewrite (dec_always field k (JStr s)).
Qed.

(** A group member loses its tokens in its JSON form, and nothing else. *)
Definition without_tokens (m : GroupMember) : GroupMember :=
  mkGM (GM_ID m) (GM_FamilyGroupID m) (GM_TempLabel m) (GM_TraktUsername m) "" ""
    (GM_TokenExpiry m) (GM_AuthorizationStatus m) (GM_CreatedAt m).

Ltac member_fields := cbv [zeroMember GM_ID GM_FamilyGroupID GM_TempLabel GM_TraktUsername
  GM_AccessToken GM_RefreshToken GM_TokenExpiry GM_AuthorizationStatus GM_CreatedAt].

Lemma dec_GroupMember_enc m :
  member_times m = true → dec_GroupMember (json_of_GroupMember m) zeroMember = DOk (without_tokens m).
Proof using TL.
  unfold member_times. rewrite andb_true_iff. intros [H1 H2].
  destruct m as [id fg label tu acc ref expiry st created]; simpl in *.
  unfold dec_GroupMember, dec_struct, json_of_GroupMember, enc_struct, omit_empty, without_tokens.
  cbv beta iota zeta. cbn [GM_ID GM_FamilyGroupID GM_TempLabel GM_TraktUsername GM_TokenExpiry
    GM_AuthorizationStatus GM_CreatedAt].
  do 3 (json_always; [member_fields|done]).
  set (rest := omit_nil "token_expiry" _ _ :: _).
  erewrite (dec_omit_empty _ "trakt_username" tu GM_TraktUsername); [member_fields|reflexivity|done].
  subst rest. json_member; [member_fields|intros t ->; split; [done|by apply dec_time_text]].
  json_always; [member_fields|done].
  json_always; [member_fields|by apply dec_at_ok, dec_time_text]. done.
Qed.

(** A cached item survives its JSON form. *)
Lemma dec_CacheItem_enc c :
  Body_int (Body c) → 0 ≤ Progress (Body c) ≤ 100 →
  dec_CacheItem (json_of_CacheItem c) emptyCacheItem = DOk c.
Proof.
  intros Hb Hp. destruct c; simpl in *.
  unfold dec_CacheItem, dec_struct, json_of_CacheItem, enc_struct. cbv beta iota.
  json_always; [|done]. json_always; [|done]. json_always; [|done]. json_always; [|done].
  json_always; [|by apply dec_at_ok, ScrobbleBody_roundtrip_lemma]. json_always; [|done]. done.
Qed.
End RecordLemmas.

Section Unmarshal.
Context `{UnicodeTables, TT : TimeText, TL : !TimeTextLaws TT, JT : JsonText, JL : !JsonTextLaws JT}.

Lemma unmarshal_group g data :
  group_times g = true → json_wf (json_of_FamilyGroup g) = true →
  data = json_print (json_of_FamilyGroup g) ∨ data = json_indent (json_of_FamilyGroup g) →
  unmarshal dec_FamilyGroup zeroGroup data = Ok g.
Proof using TL JL.
  intros Ht Hj Hd. unfold unmarshal.
  assert (json_parse data = Some (json_of_FamilyGroup g)) as ->.
  { destruct Hd as [-> | ->]; [by apply json_parse_print|by apply json_parse_indent]. }
  by rewrite dec_FamilyGroup_enc.
Qed.

Lemma unmarshal_member m data :
  member_times m = true → json_wf (json_of_GroupMember m) = true →
  data = json_print (json_of_GroupMember m) ∨ data = json_indent (json_of_GroupMember m) →
  unmarshal dec_GroupMember zeroMember data = Ok (without_tokens m).
Proof using TL JL.
  intros Ht Hj Hd. unfold unmarshal.
  assert (json_parse data = Some (json_of_GroupMember m)) as ->.
  { destruct Hd as [-> | ->]; [by apply json_parse_print|by apply json_parse_indent]. }
  by rewrite dec_GroupMember_enc.
Qed.

Lemma parse_format_rfc3339 t :
  time_in_range (whole_second t) = true → parse_time (format_rfc3339 t) = Some (whole_second t).
Proof using TL. apply parse_time_text. Qed.
End Unmarshal.
