(* ===== verification/Fallback.v ===== *)
(** * The in-memory fallback of a store

    [PostgresqlStore], [DiskStore] and [RedisStore] of [lib/store] keep the same
    map of fallback buffers next to their storage, and enqueue an event in the
    same way: prepare it, try to store it, push it to the buffer of its user
    when the storage is unavailable, and flush that buffer, through the same
    enqueue operation, when the event was stored.  This file has that part, for
    any storage [S] and any attempt to store one event; the mutex [bufferMu]
    only guards the map of buffers (each buffer operation is one step). *)

From S2P Require Import Prelude GoLib Float Json Instances Common Entities Buffers.

Open Scope Z_scope.

(** Constants of [disk.go], shared by the stores. *)
Definition maxQueuePerUser : Z := 1000.
Definition fallbackBufferSize : Z := 100.

(** What a call draws from its process: random bytes and the clock. *)
Record Sources := mkSources { src_rnd : result (list Z); src_now : Time }.

(** ** The store *)

Record Buffered (S : Type) := mkBuffered {
  storage : S;
  fallbackBuffers : gmap string InMemoryBuffer;
}.
Arguments mkBuffered {S} storage fallbackBuffers.
Arguments storage {S} b.
Arguments fallbackBuffers {S} b.

Definition set_storage {S} (x : S) (s : Buffered S) : Buffered S := mkBuffered x (fallbackBuffers s).

(** Id, validation and creation time of an event, before anything is stored;
    [rnd] is what the random source delivers and [now] the clock. *)
Definition prepare (rnd : result (list Z)) (now : Time) (event : QueuedScrobbleEvent)
    : result QueuedScrobbleEvent :=
  event ← (if bool_decide (E_ID event = "") then
             match generateEventID rnd with
             | Err err => Err (Wrapf "failed to generate event ID: " err "")
             | Ok id => Ok (set_E_ID id event)
             end
           else Ok event);
  match validateEvent event with
  | Some err => Err (Wrapf "invalid event: " err "")
  | None => Ok (if IsZero (E_CreatedAt event) then set_E_CreatedAt now event else event)
  end.

(** What became of an event: stored; refused before the storage was used;
    prepared, with the storage unavailable; or the attempt panicked. *)
Inductive attempt :=
| Stored (event : QueuedScrobbleEvent)
| Refused (err : error)
| Panicked (why : string)
| Unavailable (event : QueuedScrobbleEvent) (err : error).

Section Fallback.
Context {S : Type}.

Definition push_fallback (userID : string) (event : QueuedScrobbleEvent) (s : Buffered S)
    : outcome (Buffered S) :=
  let buffer := match fallbackBuffers s !! userID with
                | Some b => b
                | None => NewInMemoryBuffer fallbackBufferSize
                end in
  b ← Buffer_Push event buffer;
  Ret (mkBuffered (storage s) (<[userID := b]> (fallbackBuffers s))).

(** The state of the calls: how many there were so far, and the store. *)
Definition enqueue_state : Type := nat * Buffered S.
Definition enqueuer : Type :=
  QueuedScrobbleEvent → enqueue_state → option (outcome (option error * enqueue_state)).

(** The loop of [flushFallbackBuffer]: stop at the first error. *)
Fixpoint flush_events (enqueue : enqueuer) (events : list QueuedScrobbleEvent) (st : enqueue_state)
    : option (outcome (bool * enqueue_state)) :=
  match events with
  | [] => Some (Ret (true, st))
  | event :: events =>
      match enqueue event st with
      | None => None
      | Some (Panic w) => Some (Panic w)
      | Some (Ret (Some _, st)) => Some (Ret (false, st))
      | Some (Ret (None, st)) => flush_events enqueue events st
      end
  end.

Definition flushWith (enqueue : enqueuer) (userID : string) (st : enqueue_state)
    : option (outcome enqueue_state) :=
  match fallbackBuffers st.2 !! userID with
  | None => Some (Ret st)
  | Some buffer =>
      let events := Buffer_GetAll buffer in
      if bool_decide (events = []) then Some (Ret st) else
      match flush_events enqueue events st with
      | None => None
      | Some (Panic w) => Some (Panic w)
      | Some (Ret (false, st)) => Some (Ret st)
      | Some (Ret (true, (k, s))) =>
          Some (Ret (k, mkBuffered (storage s) (delete userID (fallbackBuffers s))))
      end
  end.

(** [EnqueueScrobble] and [flushFallbackBuffer] call each other: [fuel] bounds
    the depth of the calls, [None] meaning that it did not suffice.  [try k] is
    what the [k]-th call does with the storage. *)
Fixpoint enqueueWith (try : nat → QueuedScrobbleEvent → S → attempt * S) (fuel : nat)
    (event : QueuedScrobbleEvent) (st : enqueue_state)
    : option (outcome (option error * enqueue_state)) :=
  match fuel with
  | O => None
  | Datatypes.S fuel =>
      let '(k, s) := st in
      match try k event (storage s) with
      | (Panicked why, _) => Some (Panic why)
      | (Refused err, x) => Some (Ret (Some err, (Datatypes.S k, set_storage x s)))
      | (Unavailable event err, x) =>
          Some (s ← push_fallback (E_UserID event) event (set_storage x s);
                Ret (Some err, (Datatypes.S k, s)))
      | (Stored event, x) =>
          match flushWith (enqueueWith try fuel) (E_UserID event) (Datatypes.S k, set_storage x s) with
          | None => None
          | Some (Panic w) => Some (Panic w)
          | Some (Ret st) => Some (Ret (None, st))
          end
      end
  end.

(** ** Lemmas *)

(** Every buffer was made by [NewInMemoryBuffer(fallbackBufferSize)]. *)
Definition buffers_wf (s : Buffered S) : Prop :=
  map_Forall (λ _ b, ∃ l, ring_rep 100 (B_ring b) l) (fallbackBuffers s).
Definition buffered (s : Buffered S) (u : string) : list QueuedScrobbleEvent :=
  match fallbackBuffers s !! u with Some b => Buffer_GetAll b | None => [] end.

Lemma Buffer_GetAll_rep b l c : ring_rep c (B_ring b) l → Buffer_GetAll b = l.
Proof. intros Hr. unfold Buffer_GetAll. rewrite ring_Do_collect. by rewrite (ring_rep_omap _ _ _ Hr). Qed.

(** A push never panics, evicts the oldest event of the user beyond 100 and
    touches nothing else. *)
Lemma push_fallback_spec u e s :
  buffers_wf s →
  ∃ s', push_fallback u e s = Ret s' ∧ storage s' = storage s ∧ buffers_wf s' ∧
    buffered s' u = last_n 100 (buffered s u ++ [e]) ∧
    ∀ v, v ≠ u → buffered s' v = buffered s v.
Proof.
  intros Hwf. unfold push_fallback.
  set (b := match fallbackBuffers s !! u with Some b => b | None => _ end).
  assert (ring_rep 100 (B_ring b) (buffered s u)) as Hb.
  { unfold b, buffered. destruct (fallbackBuffers s !! u) as [b0|] eqn:E.
    - destruct (Hwf _ _ E) as [l Hl]. by rewrite (Buffer_GetAll_rep _ _ _ Hl).
    - apply (ring_New_rep 100). }
  destruct (ring_Put_rep 100 (B_ring b) _ e ltac:(lia) Hb) as (r & Hr & Hrep).
  unfold Buffer_Push. rewrite Hr. simpl. eexists; split; [done|]. split_and!; simpl.
  - done.
  - apply map_Forall_insert_2; [by eexists|done].
  - unfold buffered at 1. simpl. rewrite lookup_insert_eq. by eapply Buffer_GetAll_rep.
  - intros v Hv. unfold buffered. simpl. by rewrite lookup_insert_ne.
Qed.

Section Enqueue.
Context (try : nat → QueuedScrobbleEvent → S → attempt * S).

(** What one call does: it does not recurse when the event is refused, goes to
    the buffer, or is stored for a user without a buffer. *)
Lemma enqueueWith_outcome fuel k event s :
  buffers_wf s →
  match try k event (storage s) with
  | (Panicked why, _) => enqueueWith try (Datatypes.S fuel) event (k, s) = Some (Panic why)
  | (Refused err, x) =>
      enqueueWith try (Datatypes.S fuel) event (k, s) =
        Some (Ret (Some err, (Datatypes.S k, set_storage x s)))
  | (Unavailable e err, x) =>
      ∃ s', enqueueWith try (Datatypes.S fuel) event (k, s) = Some (Ret (Some err, (Datatypes.S k, s'))) ∧
        storage s' = x ∧ buffers_wf s' ∧
        buffered s' (E_UserID e) = last_n 100 (buffered s (E_UserID e) ++ [e]) ∧
        ∀ v, v ≠ E_UserID e → buffered s' v = buffered s v
  | (Stored e, x) =>
      fallbackBuffers s !! E_UserID e = None →
      enqueueWith try (Datatypes.S fuel) event (k, s) =
        Some (Ret (None, (Datatypes.S k, set_storage x s)))
  end.
Proof.
  intros Hwf. destruct (try k event (storage s)) as [[e|err|why|e err] x] eqn:Hs.
  - intros Hb. simpl. rewrite Hs. unfold flushWith. simpl. by rewrite Hb.
  - simpl. by rewrite Hs.
  - simpl. by rewrite Hs.
  - simpl. rewrite Hs.
    destruct (push_fallback_spec (E_UserID e) e (set_storage x s) Hwf) as (s' & -> & ?).
    exists s'. done.
Qed.

(** An event that every later call stores again, the storage keeping [ready]. *)
Context (ready : QueuedScrobbleEvent → S → Prop).
Hypothesis ready_stored : ∀ k e x, ready e x → ∃ x', try k e x = (Stored e, x') ∧ ready e x'.

Lemma flush_diverges u e rest b fuel : ∀ k s,
  fallbackBuffers s !! u = Some b → Buffer_GetAll b = e :: rest → E_UserID e = u →
  ready e (storage s) → flushWith (enqueueWith try fuel) u (k, s) = None.
Proof using ready_stored.
  induction fuel as [|fuel IH]; intros k s Hb Hg Hu Hr;
    unfold flushWith; simpl; rewrite Hb, Hg;
    rewrite bool_decide_eq_false_2 by done; simpl; [done|].
  destruct (ready_stored k e (storage s) Hr) as (x' & -> & Hr').
  rewrite Hu. by rewrite IH.
Qed.

(** Once a buffer holds an event that can be stored, the next successful call
    for its user never returns. *)
Lemma enqueueWith_diverges fuel k event event' x e rest b s :
  try k event (storage s) = (Stored event', x) →
  fallbackBuffers s !! E_UserID event' = Some b → Buffer_GetAll b = e :: rest →
  E_UserID e = E_UserID event' → ready e x →
  enqueueWith try fuel event (k, s) = None.
Proof using ready_stored.
  intros Hs Hb Hg Hu Hr. destruct fuel as [|fuel]; [done|]. simpl. rewrite Hs.
  by rewrite (flush_diverges (E_UserID event') e rest b).
Qed.
End Enqueue.
End Fallback.

(** Preparing an event that has an id and a creation time only validates it. *)
Lemma prepare_complete rnd now e :
  E_ID e ≠ "" → validateEvent e = None → IsZero (E_CreatedAt e) = false → prepare rnd now e = Ok e.
Proof.
  intros Hid Hv Hz. unfold prepare. rewrite bool_decide_eq_false_2 by done. simpl. by rewrite Hv, Hz.
Qed.

(** A prepared event is valid, has an id, and differs from the given one in its
    id and creation time only. *)
Lemma prepare_spec rnd now event e :
  prepare rnd now event = Ok e →
  validateEvent e = None ∧ E_UserID e = E_UserID event ∧
  e = set_E_CreatedAt (E_CreatedAt e) (set_E_ID (E_ID e) event) ∧
  E_CreatedAt e = (if IsZero (E_CreatedAt event) then now else E_CreatedAt event) ∧
  (E_ID event ≠ "" → E_ID e = E_ID event) ∧
  (E_ID event = "" → generateEventID rnd = Ok (E_ID e)).
Proof.
  unfold prepare. intros Hp.
  set (r := if bool_decide (E_ID event = "") then _ else _) in Hp.
  destruct r as [e1|] eqn:E; simpl in Hp; [|done].
  destruct (validateEvent e1) eqn:Hv; [done|].
  assert (e1 = set_E_ID (E_ID e1) event ∧ (E_ID event ≠ "" → E_ID e1 = E_ID event) ∧
    (E_ID event = "" → generateEventID rnd = Ok (E_ID e1))) as (He1 & Hid & Hgen).
  { subst r. case_bool_decide.
    - destruct (generateEventID rnd) as [id|]; simplify_eq. done.
    - simplify_eq. split_and!; [by destruct e1|done|done]. }
  clear E r. injection Hp as <-. rewrite He1 in Hv |- *.
  destruct event. simpl in *. destruct (IsZero _); simpl; done.
Qed.
