(* ===== verification/Fs.v ===== *)
(** * Files: the part of packages [os] and [path/filepath] the disk store uses

    A path is the list of its components, relative to the working directory,
    as [filepath.Join] leaves it: no empty or "." component, ".." only at the
    front.  The file system maps paths to directories and files; what lies
    outside the working directory is not part of it.  Every call can fail, as the environment [faults] says for the number of the call, and
    a failing call may leave part of its work done. *)

From S2P Require Import Prelude GoLib Text.

(** ** Paths *)

Abbreviation path := (list string).

(** [filepath.Clean] on components, the result being kept in reverse. *)
Definition clean_step (acc : list string) (c : string) : list string :=
  if bool_decide (c = "") || bool_decide (c = ".") then acc
  else if bool_decide (c = "..") then
    match acc with
    | x :: acc' => if bool_decide (x = "..") then c :: acc else acc'
    | [] => [c]
    end
  else c :: acc.
Definition clean (cs : list string) : path := rev (foldl clean_step [] cs).

(** [filepath.Join(p, name)]: a name may hold separators. *)
Definition join (p : path) (name : string) : path := clean (p ++ Split name "/"%char).

(** [filepath.Join(p, name, ...)] *)
Definition joins (p : path) (names : list string) : path :=
  clean (p ++ (names ≫= λ name, Split name "/"%char)).

(** [filepath.Dir] *)
Definition parent (p : path) : path := take (List.length p - 1) p.

Definition path_string (p : path) : string :=
  match p with [] => "." | _ => Join p "/" end.

(** The working directory and its ancestors always exist. *)
Definition at_root (p : path) : bool := forallb (λ c, bool_decide (c = "..")) p.

(** Order of [filepath.WalkDir]: names in byte order, a directory before what
    it holds. *)
Fixpoint path_leb (p q : path) : bool :=
  match p, q with
  | [], _ => true
  | _ :: _, [] => false
  | a :: p, b :: q =>
      match String.compare a b with Lt => true | Eq => path_leb p q | Gt => false end
  end.
Definition path_le (p q : path) : Prop := path_leb p q = true.
#[export] Instance path_le_dec : RelDecision path_le.
Proof. intros p q. unfold path_le. apply _. Defined.

(** ** File system *)

Inductive node := NDir | NFile (data : string).
Definition is_dir (n : node) : bool := match n with NDir => true | NFile _ => false end.

Abbreviation FS := (gmap path node).

Inductive errno := ENOENT | ENOTDIR | EISDIR | ENOTEMPTY | EINVAL.
Definition errno_text (e : errno) : string :=
  match e with
  | ENOENT => "no such file or directory"
  | ENOTDIR => "not a directory"
  | EISDIR => "is a directory"
  | ENOTEMPTY => "directory not empty"
  | EINVAL => "invalid argument"
  end.

(** [&fs.PathError{Op: op, Path: p, Err: e}] *)
Definition PathError (op : string) (p : path) (e : errno) : error :=
  Wrapf (op +:+ " " +:+ path_string p +:+ ": ") (Sentinel (errno_text e)) "".

(** [os.IsNotExist], on an error of package [os]. *)
Definition IsNotExist (err : error) : bool :=
  match err with
  | Wrapf _ (Sentinel m) "" => bool_decide (m = errno_text ENOENT)
  | _ => false
  end.

Definition entry (fs : FS) (p : path) : option node :=
  if at_root p then Some NDir else fs !! p.

(** Follow [rest] from the directory [pre]. *)
Fixpoint resolve_from (fs : FS) (pre rest : list string) : errno + node :=
  match entry fs pre with
  | None => inl ENOENT
  | Some n =>
      match rest with
      | [] => inr n
      | c :: rest => if is_dir n then resolve_from fs (pre ++ [c]) rest else inl ENOTDIR
      end
  end.
Definition resolve (fs : FS) (p : path) : errno + node := resolve_from fs [] p.

(** The missing directories from [pre] down to the end of [rest]. *)
Fixpoint make_dirs (pre rest : list string) (fs : FS) : option errno * FS :=
  match entry fs pre with
  | Some (NFile _) => (Some ENOTDIR, fs)
  | e =>
      let fs := match e with None => <[pre := NDir]> fs | _ => fs end in
      match rest with
      | [] => (None, fs)
      | c :: rest => make_dirs (pre ++ [c]) rest fs
      end
  end.

Definition write_file (p : path) (data : string) (fs : FS) : option errno * FS :=
  match resolve fs p with
  | inr NDir => (Some EISDIR, fs)
  | inr (NFile _) => (None, <[p := NFile data]> fs)
  | inl ENOENT =>
      match resolve fs (parent p) with
      | inr NDir => (None, <[p := NFile data]> fs)
      | inr (NFile _) => (Some ENOTDIR, fs)
      | inl e => (Some e, fs)
      end
  | inl e => (Some e, fs)
  end.

(** The name of [q] in the directory [p], when it is directly in it. *)
Definition name_in (p q : path) : option string :=
  if bool_decide (parent q = p) then last q else None.

Abbreviation DirEntry := (string * bool)%type.
Definition name_le (a b : DirEntry) : Prop := String.le a.1 b.1.
#[export] Instance name_le_dec : RelDecision name_le.
Proof. intros a b. apply String.le_dec. Defined.

(** The entries of a directory, in order of name. *)
Definition children (fs : FS) (p : path) : list DirEntry :=
  merge_sort name_le
    (omap (λ qn, c ← name_in p qn.1; Some (c, is_dir qn.2)) (map_to_list fs)).

Definition below (p q : path) : bool := bool_decide (p `prefix_of` q).

Definition walk_le (a b : path * node) : Prop := path_le a.1 b.1.
#[export] Instance walk_le_dec : RelDecision walk_le.
Proof. intros a b. apply path_le_dec. Defined.

(** ** Calls *)

(** How a call fails: its error, what a failed write leaves in the file ([None]:
    the file is untouched), how many components of a path were made, and which
    entries a failed removal removed or a failed listing did not deliver. *)
Record os_fault := mkFault {
  f_err : error;
  f_left : option string;
  f_made : nat;
  f_gone : path → bool;
}.

Record Disk := mkDisk { d_fs : FS; d_calls : nat }.

Section Os.
Context (faults : nat → option os_fault).

Definition os_call {A} (run : FS → A * FS) (fail : os_fault → FS → A * FS) (d : Disk) : A * Disk :=
  let '(a, fs) := match faults (d_calls d) with
                  | None => run (d_fs d)
                  | Some f => fail f (d_fs d)
                  end in
  (a, mkDisk fs (S (d_calls d))).

Definition errno_error (op : string) (p : path) (r : option errno) : option error :=
  PathError op p <$> r.

Definition os_Stat (p : path) : Disk → result node * Disk := os_call
  (λ fs, (match resolve fs p with inr n => Ok n | inl e => Err (PathError "stat" p e) end, fs))
  (λ f fs, (Err (f_err f), fs)).

Definition os_MkdirAll (p : path) : Disk → option error * Disk := os_call
  (λ fs, let '(e, fs) := make_dirs [] p fs in (errno_error "mkdir" p e, fs))
  (λ f fs, (Some (f_err f), (make_dirs [] (take (f_made f) p) fs).2)).

Definition os_WriteFile (p : path) (data : string) : Disk → option error * Disk := os_call
  (λ fs, let '(e, fs) := write_file p data fs in (errno_error "open" p e, fs))
  (λ f fs, (Some (f_err f), match f_left f with None => fs | Some s => (write_file p s fs).2 end)).

Definition os_ReadFile (p : path) : Disk → result string * Disk := os_call
  (λ fs, (match resolve fs p with
          | inr (NFile data) => Ok data
          | inr NDir => Err (PathError "read" p EISDIR)
          | inl e => Err (PathError "open" p e)
          end, fs))
  (λ f fs, (Err (f_err f), fs)).

Definition os_Remove (p : path) : Disk → option error * Disk := os_call
  (λ fs, match resolve fs p with
         | inl e => (Some (PathError "remove" p e), fs)
         | inr n =>
             if is_dir n && negb (bool_decide (children fs p = []))
             then (Some (PathError "remove" p ENOTEMPTY), fs)
             else (None, delete p fs)
         end)
  (λ f fs, (Some (f_err f), fs)).

(** A directory goes only after everything in it went. *)
Definition emptied (gone : path → bool) (fs : FS) (q : path) : bool :=
  forallb (λ r, negb (below q r.1) || gone r.1) (map_to_list fs).

(** The working directory itself is refused. *)
Definition os_RemoveAll (p : path) : Disk → option error * Disk := os_call
  (λ fs, if bool_decide (p = []) then (Some (PathError "RemoveAll" p EINVAL), fs) else
         match resolve fs p with
         | inl ENOENT => (None, fs)
         | inl e => (Some (PathError "unlinkat" p e), fs)
         | inr _ => (None, filter (λ qn, below p qn.1 = false) fs)
         end)
  (λ f fs, (Some (f_err f), filter (λ qn, below p qn.1 && emptied (f_gone f) fs qn.1 = false) fs)).

(** The entries read so far come with an error. *)
Definition os_ReadDir (p : path) : Disk → (list DirEntry * option error) * Disk := os_call
  (λ fs, (match resolve fs p with
          | inr NDir => (children fs p, None)
          | inr (NFile _) => ([], Some (PathError "readdirent" p ENOTDIR))
          | inl e => ([], Some (PathError "open" p e))
          end, fs))
  (λ f fs, ((filter (λ e, f_gone f (p ++ [e.1]) = false) (children fs p), Some (f_err f)), fs)).

(** The entries [filepath.WalkDir] calls its function on without an error, for
    a function that answers errors with nil; a directory that cannot be read
    hides entries. *)
Definition walk_order (root : path) (fs : FS) : list (path * node) :=
  merge_sort walk_le (filter (λ qn, below root qn.1 = true) (map_to_list fs)).

Definition filepath_WalkDir (root : path) : Disk → list (path * node) * Disk := os_call
  (λ fs, (match resolve fs root with inr _ => walk_order root fs | inl _ => [] end, fs))
  (λ f fs, (filter (λ qn, f_gone f qn.1 = false) (walk_order root fs), fs)).
End Os.

(** No call fails. *)
Definition no_faults : nat → option os_fault := λ _, None.

#[global] Arguments no_faults : simpl never.
#[global] Arguments os_call : simpl never.
#[global] Arguments os_Stat : simpl never.
#[global] Arguments os_MkdirAll : simpl never.
#[global] Arguments os_WriteFile : simpl never.
#[global] Arguments os_ReadFile : simpl never.
#[global] Arguments os_Remove : simpl never.
#[global] Arguments os_RemoveAll : simpl never.
#[global] Arguments os_ReadDir : simpl never.
#[global] Arguments filepath_WalkDir : simpl never.

Lemma os_call_quiet {A} (run : FS → A * FS) fail d :
  os_call no_faults run fail d = ((run (d_fs d)).1, mkDisk (run (d_fs d)).2 (S (d_calls d))).
Proof. unfold os_call, no_faults. by destruct (run (d_fs d)). Qed.

(** ** Lemmas: paths *)

Lemma parent_snoc (p : path) c : parent (p ++ [c]) = p.
Proof. unfold parent. rewrite length_app. simpl. rewrite Nat.add_sub. apply take_app_length. Qed.

Lemma path_snoc (p : path) : p ≠ [] → ∃ q c, p = q ++ [c].
Proof. destruct p as [|c q _] using rev_ind; [done|eauto]. Qed.

Lemma prefix_snoc (q p : path) c : q `prefix_of` p ++ [c] → q `prefix_of` p ∨ q = p ++ [c].
Proof.
  intros [k Hk]. destruct k as [|x k _] using rev_ind.
  - right. by rewrite app_nil_r in Hk.
  - left. rewrite app_assoc in Hk. apply app_inj_tail in Hk as [-> _]. by apply prefix_app_r.
Qed.

Lemma at_root_app p q : at_root (p ++ q) = at_root p && at_root q.
Proof. apply forallb_app. Qed.

(** A component that [Clean] keeps as it is. *)
Definition plain (c : string) : Prop := c ≠ "" ∧ c ≠ "." ∧ c ≠ ".." ∧ Split c "/"%char = [c].

#[export] Instance plain_dec c : Decision (plain c).
Proof. unfold plain. apply _. Defined.

Lemma plain_name c :
  (3 ≤ List.length (bytes c))%nat → Forall (λ a, a ≠ "/"%char) (bytes c) → plain c.
Proof.
  intros Hl Hs. split_and!; try (intros ->; simpl in Hl; lia).
  unfold Split. rewrite split_none by done. simpl. by rewrite of_bytes_bytes.
Qed.

Lemma clean_plain cs acc :
  Forall (λ c, c ≠ "" ∧ c ≠ "." ∧ c ≠ "..") cs → foldl clean_step acc cs = rev cs ++ acc.
Proof.
  intros Hf. revert acc. induction Hf as [|c cs (H1 & H2 & H3) _ IH]; intros acc; [done|].
  simpl. rewrite IH. unfold clean_step. rewrite !bool_decide_eq_false_2 by done. simpl.
  by rewrite <-app_assoc.
Qed.

Lemma join_plain p c :
  Forall (λ c, c ≠ "" ∧ c ≠ "." ∧ c ≠ "..") p → plain c → join p c = p ++ [c].
Proof.
  intros Hp (H1 & H2 & H3 & Hs). unfold join, clean. rewrite Hs, clean_plain.
  - by rewrite app_nil_r, rev_involutive.
  - apply Forall_app. by split; [|constructor].
Qed.

Lemma joins_plain p cs :
  Forall (λ c, c ≠ "" ∧ c ≠ "." ∧ c ≠ "..") p → Forall plain cs → joins p cs = p ++ cs.
Proof.
  intros Hp Hcs. unfold joins, clean.
  assert ((cs ≫= λ name, Split name "/"%char) = cs) as ->.
  { induction Hcs as [|c cs (_ & _ & _ & Hs) _ IH]; [done|]. rewrite bind_cons, Hs, IH. done. }
  rewrite clean_plain; [by rewrite app_nil_r, rev_involutive|]. apply Forall_app. split; [done|].
  eapply Forall_impl; [exact Hcs|]. by intros c (? & ? & ? & _).
Qed.

Lemma name_in_spec p q c : name_in p q = Some c ↔ q = p ++ [c].
Proof.
  unfold name_in. split.
  - case_bool_decide as Hp; [|done]. intros Hl. apply last_Some in Hl as [r ->].
    by rewrite parent_snoc in Hp; subst.
  - intros ->. rewrite parent_snoc, bool_decide_eq_true_2 by done. apply last_snoc.
Qed.

(** ** Lemmas: directories *)

Lemma elem_of_children fs p c b :
  (c, b) ∈ children fs p ↔ ∃ n, fs !! (p ++ [c]) = Some n ∧ b = is_dir n.
Proof.
  unfold children. rewrite merge_sort_Permutation, list_elem_of_omap. split.
  - intros ([q n] & Hin & E). simpl in E. destruct (name_in p q) as [c'|] eqn:Hn; [|done].
    simplify_eq/=. apply name_in_spec in Hn as ->. exists n.
    by apply elem_of_map_to_list in Hin.
  - intros (n & Hn & ->). exists (p ++ [c], n). split; [by apply elem_of_map_to_list|]. simpl.
    by rewrite (proj2 (name_in_spec p (p ++ [c]) c)).
Qed.

#[export] Instance name_le_trans : Transitive name_le.
Proof. intros a b c. unfold name_le. by transitivity b.1. Qed.
#[export] Instance name_le_total : Total name_le.
Proof. intros a b. apply (total String.le). Qed.

Lemma children_sorted fs p : StronglySorted name_le (children fs p).
Proof. apply (StronglySorted_merge_sort _). Qed.

Lemma children_NoDup fs p : NoDup (children fs p).*1.
Proof.
  unfold children. rewrite merge_sort_Permutation.
  assert (∀ l, NoDup l.*1 → NoDup (omap (λ qn : path * node, c ← name_in p qn.1; Some (c, is_dir qn.2)) l).*1) as Hg.
  { induction l as [|[q n] l IH]; intros Hd; [constructor|]. apply NoDup_cons in Hd as [Hq Hd].
    simpl. destruct (name_in p q) as [c|] eqn:Hn; simpl; [|by apply IH].
    constructor; [|by apply IH]. intros Hin. apply Hq.
    apply list_elem_of_fmap in Hin as ([c' b] & -> & Hin).
    apply list_elem_of_omap in Hin as ([q' n'] & Hin & E). simpl in E.
    destruct (name_in p q') as [c2|] eqn:Hn'; [|done]. simplify_eq/=.
    apply name_in_spec in Hn as ->. apply name_in_spec in Hn' as ->.
    apply list_elem_of_fmap. eexists (_, n'). split; [|exact Hin]. done. }
  apply Hg, NoDup_fst_map_to_list.
Qed.

Lemma elem_of_walk_order root fs q n :
  (q, n) ∈ walk_order root fs ↔ fs !! q = Some n ∧ root `prefix_of` q.
Proof.
  unfold walk_order. rewrite merge_sort_Permutation, list_elem_of_filter, elem_of_map_to_list.
  unfold below. simpl. rewrite bool_decide_eq_true. tauto.
Qed.

(** ** Lemmas: well-formed file systems *)

(** Everything lies in a directory. *)
Definition fs_wf (fs : FS) : Prop :=
  map_Forall (λ p _, at_root p = false ∧ entry fs (parent p) = Some NDir) fs.

Lemma fs_wf_empty : fs_wf ∅.
Proof. apply map_Forall_empty. Qed.

Lemma entry_parent fs p c n : fs_wf fs → entry fs (p ++ [c]) = Some n → entry fs p = Some NDir.
Proof.
  intros Hwf. unfold entry at 1. destruct (at_root (p ++ [c])) eqn:Hr.
  - intros _. rewrite at_root_app in Hr. apply andb_true_iff in Hr as [Hr _]. unfold entry. by rewrite Hr.
  - intros E. destruct (Hwf _ _ E) as [_ Hp]. by rewrite parent_snoc in Hp.
Qed.

Lemma entry_prefix fs p q c n : fs_wf fs → entry fs (p ++ c :: q) = Some n → entry fs p = Some NDir.
Proof.
  intros Hwf. revert n. induction q as [|d q IH] using rev_ind; intros n.
  - by apply entry_parent.
  - rewrite app_comm_cons, app_assoc. intros E. apply entry_parent in E; [|done]. by eapply IH.
Qed.

Lemma resolve_from_entry fs pre rest n :
  fs_wf fs → entry fs (pre ++ rest) = Some n → resolve_from fs pre rest = inr n.
Proof.
  intros Hwf. revert pre. induction rest as [|c rest IH]; intros pre E; simpl.
  - rewrite app_nil_r in E. by rewrite E.
  - rewrite (entry_prefix fs pre rest c n) by done. simpl. apply IH. by rewrite <-app_assoc.
Qed.

(** What exists is found. *)
Lemma resolve_entry fs p n : fs_wf fs → entry fs p = Some n → resolve fs p = inr n.
Proof. intros. by apply resolve_from_entry. Qed.

Lemma resolve_from_inr fs pre rest n :
  resolve_from fs pre rest = inr n → entry fs (pre ++ rest) = Some n.
Proof.
  revert pre. induction rest as [|c rest IH]; intros pre; simpl.
  - rewrite app_nil_r. destruct (entry fs pre); [|done]. by intros [= ->].
  - destruct (entry fs pre) as [[]|]; simpl; [|done..]. intros E. apply IH in E.
    by rewrite <-app_assoc in E.
Qed.

(** What is found exists. *)
Lemma resolve_inr fs p n : resolve fs p = inr n → entry fs p = Some n.
Proof. apply resolve_from_inr. Qed.

Lemma resolve_from_snoc fs pre rest c :
  entry fs (pre ++ rest) = Some NDir → fs_wf fs → entry fs (pre ++ rest ++ [c]) = None →
  resolve_from fs pre (rest ++ [c]) = inl ENOENT.
Proof.
  intros Hd Hwf Hn. revert pre Hd Hn. induction rest as [|x rest IH]; intros pre Hd Hn; simpl.
  - rewrite app_nil_r in Hd. rewrite Hd. simpl in *. by rewrite Hn.
  - rewrite (entry_prefix fs pre rest x NDir) by done. simpl. apply IH; by rewrite <-app_assoc.
Qed.

(** A missing name in a directory. *)
Lemma resolve_missing fs p c :
  fs_wf fs → entry fs p = Some NDir → entry fs (p ++ [c]) = None → resolve fs (p ++ [c]) = inl ENOENT.
Proof. intros. by apply resolve_from_snoc. Qed.

(** On a way clear of files there is a directory or nothing. *)
Lemma resolve_clear fs p :
  fs_wf fs → (∀ q data, q `prefix_of` p → entry fs q ≠ Some (NFile data)) →
  resolve fs p = inr NDir ∨ (resolve fs p = inl ENOENT ∧ ∀ c, fs !! (p ++ [c]) = None).
Proof.
  intros Hwf Hno. destruct (entry fs p) as [[|data]|] eqn:E.
  - left. by apply resolve_entry.
  - by destruct (Hno p data).
  - right. split.
    + assert (∀ rest pre, pre ++ rest = p → resolve_from fs pre rest = inl ENOENT) as Hr.
      { induction rest as [|c rest IH]; intros pre Hp; simpl.
        - rewrite app_nil_r in Hp. subst. by rewrite E.
        - destruct (entry fs pre) as [[|data]|] eqn:Ep; [|by destruct (Hno pre data); [rewrite <-Hp; by apply prefix_app_r|]|done].
          simpl. apply IH. by rewrite <-app_assoc. }
      by apply Hr.
    + intros c. destruct (fs !! (p ++ [c])) as [n|] eqn:Ec; [|done]. destruct (Hwf _ _ Ec) as [_ Hp].
      rewrite parent_snoc in Hp. congruence.
Qed.

Lemma entry_insert fs p n : at_root p = false → entry (<[p := n]> fs) p = Some n.
Proof. unfold entry. intros ->. apply lookup_insert_eq. Qed.

Lemma entry_insert_ne fs p q n : p ≠ q → entry (<[p := n]> fs) q = entry fs q.
Proof. intros. unfold entry. by rewrite lookup_insert_ne. Qed.

(** Writing a file in a directory. *)
Lemma write_file_ok fs p c data :
  fs_wf fs → entry fs p = Some NDir → at_root (p ++ [c]) = false →
  entry fs (p ++ [c]) ≠ Some NDir →
  write_file (p ++ [c]) data fs = (None, <[p ++ [c] := NFile data]> fs).
Proof.
  intros Hwf Hd Hr Hn. unfold write_file.
  destruct (entry fs (p ++ [c])) as [n|] eqn:E.
  - rewrite (resolve_entry _ _ n) by done. by destruct n.
  - rewrite resolve_missing by done. rewrite parent_snoc. by rewrite (resolve_entry _ _ NDir).
Qed.

Lemma entry_not_root fs p n : entry fs p = Some n → n ≠ NDir → at_root p = false ∧ fs !! p = Some n.
Proof. unfold entry. destruct (at_root p); [congruence|done]. Qed.

Lemma entry_None fs p : entry fs p = None ↔ at_root p = false ∧ fs !! p = None.
Proof. unfold entry. destruct (at_root p); split; [done|by intros []|done|by intros []]. Qed.

(** A write changes nothing but its file, failed or not. *)
Lemma write_file_cases fs p data :
  fs_wf fs →
  (write_file p data fs).2 = fs ∨
  (write_file p data fs = (None, <[p := NFile data]> fs) ∧ entry fs p ≠ Some NDir ∧
   at_root p = false ∧ entry fs (parent p) = Some NDir).
Proof.
  intros Hwf. unfold write_file. destruct (resolve fs p) as [[]|[|data']] eqn:E; auto.
  - destruct (resolve fs (parent p)) as [|[]] eqn:E'; auto. right.
    destruct (entry fs p) as [n|] eqn:En.
    { rewrite (resolve_entry _ _ n) in E by done. done. }
    split_and!; [done..|by apply entry_None in En as [??]|by apply resolve_inr].
  - right. apply resolve_inr in E. rewrite E. split; [done|]. split; [done|].
    apply entry_not_root in E as [Hr E]; [|done]. split; [done|]. by destruct (Hwf _ _ E).
Qed.

Lemma fs_wf_insert fs p n :
  fs_wf fs → at_root p = false → entry fs (parent p) = Some NDir →
  (n = NDir ∨ entry fs p ≠ Some NDir) → fs_wf (<[p := n]> fs).
Proof.
  intros Hwf Hr Hp Hn. unfold fs_wf. apply map_Forall_lookup. intros q m Hq.
  assert (at_root q = false ∧ entry fs (parent q) = Some NDir) as [Hrq Hpq].
  { apply lookup_insert_Some in Hq as [[<- _]|[_ Hq]]; [done|by apply (Hwf q m)]. }
  split; [done|]. destruct (decide (parent q = p)) as [E|E].
  - destruct Hn as [->|Hn]; [rewrite E; by apply entry_insert|by rewrite E in Hpq].
  - by rewrite entry_insert_ne.
Qed.

Lemma write_file_wf fs p data : fs_wf fs → fs_wf (write_file p data fs).2.
Proof.
  intros Hwf. destruct (write_file_cases fs p data Hwf) as [->|(-> & Hd & Hr & Hp)]; [done|].
  apply fs_wf_insert; auto.
Qed.

(** [make_dirs] only adds directories, on the way to its path. *)
Lemma make_dirs_spec rest : ∀ pre fs e fs',
  make_dirs pre rest fs = (e, fs') → fs_wf fs →
  (at_root pre = false → entry fs (parent pre) = Some NDir) →
  fs_wf fs' ∧ (∀ q n, entry fs q = Some n → entry fs' q = Some n) ∧
  (∀ q n, entry fs' q = Some n → entry fs q = None → n = NDir ∧ q `prefix_of` pre ++ rest) ∧
  (e = None → entry fs' (pre ++ rest) = Some NDir) ∧
  ((∀ q data, q `prefix_of` pre ++ rest → entry fs q ≠ Some (NFile data)) → e = None).
Proof.
  induction rest as [|c rest IH]; intros pre fs e fs' Hm Hwf Hpar; simpl in Hm.
  all: destruct (entry fs pre) as [[|data]|] eqn:E.
  - simplify_eq. rewrite app_nil_r. split_and!; [done..| |done|done]. intros; congruence.
  - simplify_eq. split_and!; [done..| |done|].
    + intros; congruence.
    + intros Hno. destruct (Hno pre data); [by apply prefix_app_r|done].
  - simplify_eq. apply entry_None in E as [Hr E]. rewrite app_nil_r. split_and!.
    + apply fs_wf_insert; auto.
    + intros q n Hq. destruct (decide (pre = q)) as [<-|]; [|by rewrite entry_insert_ne].
      unfold entry in Hq. by rewrite Hr, E in Hq.
    + intros q n Hq Hn. destruct (decide (pre = q)) as [<-|]; [|rewrite entry_insert_ne in Hq by done; congruence].
      rewrite entry_insert in Hq by done. by simplify_eq.
    + intros _. by apply entry_insert.
    + done.
  - destruct (IH _ _ _ _ Hm Hwf) as (Hw & Hk & Ha & Hd & Hs).
    { intros _. by rewrite parent_snoc. }
    rewrite <-app_assoc in *. done.
  - simplify_eq. split_and!; [done..| |done|].
    + intros; congruence.
    + intros Hno. destruct (Hno pre data); [by apply prefix_app_r|done].
  - apply entry_None in E as [Hr E].
    assert (fs_wf (<[pre := NDir]> fs)) as Hwf1 by (apply fs_wf_insert; auto).
    assert (∀ q, entry (<[pre := NDir]> fs) q = if decide (q = pre) then Some NDir else entry fs q) as He1.
    { intros q. case_decide as Hq; [subst; by apply entry_insert|by rewrite entry_insert_ne]. }
    destruct (IH _ _ _ _ Hm Hwf1) as (Hw & Hk & Ha & Hd & Hs).
    { intros _. rewrite parent_snoc, He1. by rewrite decide_True. }
    rewrite <-app_assoc in *. split_and!; [done|..|done|].
    + intros q n Hq. apply Hk. rewrite He1. case_decide; [|done]. subst q.
      unfold entry in Hq. by rewrite Hr, E in Hq.
    + intros q n Hq Hn. specialize (Ha q n Hq). rewrite He1 in Ha. case_decide; [|by apply Ha].
      subst q. split; [|by apply prefix_app_r].
      assert (entry fs' pre = Some NDir) by (apply Hk; rewrite He1; by rewrite decide_True). congruence.
    + intros Hno. apply Hs. intros q data Hq. rewrite He1. case_decide; [done|]. by apply Hno.
Qed.

(** No file on the way to [p]. *)
Definition clear (fs : FS) (p : path) : Prop :=
  ∀ q data, q `prefix_of` p → entry fs q ≠ Some (NFile data).

(** Making a directory where no file is in the way. *)
Lemma make_dirs_clear fs p :
  fs_wf fs → clear fs p →
  ∃ fs', make_dirs [] p fs = (None, fs') ∧ fs_wf fs' ∧ entry fs' p = Some NDir ∧
    (∀ q s, fs' !! q = Some (NFile s) ↔ fs !! q = Some (NFile s)) ∧
    (∀ q, fs' !! q = Some NDir → fs !! q = Some NDir ∨ q `prefix_of` p).
Proof.
  intros Hwf Hc. destruct (make_dirs [] p fs) as [err fs'] eqn:E.
  destruct (make_dirs_spec _ _ _ _ _ E Hwf) as (Hw & Hk & Ha & Hd & Hs); [done|].
  assert (err = None) as -> by (by apply Hs). exists fs'. split_and!; [done|done|by apply Hd|..].
  - intros q s. split; intros Hq.
    + destruct (Hw _ _ Hq) as [Hr _]. destruct (fs !! q) as [n|] eqn:En.
      * assert (entry fs' q = Some n) as Hn by (apply Hk; unfold entry; by rewrite Hr).
        unfold entry in Hn. rewrite Hr in Hn. congruence.
      * destruct (Ha q (NFile s)); [unfold entry; by rewrite Hr..|done].
    + destruct (Hwf _ _ Hq) as [Hr _]. assert (entry fs' q = Some (NFile s)) as Hn
        by (apply Hk; unfold entry; by rewrite Hr).
      unfold entry in Hn. by rewrite Hr in Hn.
  - intros q Hq. destruct (Hw _ _ Hq) as [Hr _]. destruct (fs !! q) as [[|s]|] eqn:En; [by left| |right].
    + assert (entry fs' q = Some (NFile s)) as Hn by (apply Hk; unfold entry; by rewrite Hr).
      unfold entry in Hn. rewrite Hr in Hn. congruence.
    + apply (Ha q NDir); unfold entry; by rewrite Hr.
Qed.

Lemma clear_files fs fs' p :
  (∀ q s, fs' !! q = Some (NFile s) → fs !! q = Some (NFile s) ∨ ¬ q `prefix_of` p) →
  fs_wf fs' → clear fs p → clear fs' p.
Proof.
  intros Hf Hwf Hc q data Hp He. apply entry_not_root in He as [Hr He]; [|done].
  destruct (Hf q data He) as [Ho|]; [|done]. apply (Hc q data Hp). unfold entry. by rewrite Hr.
Qed.

Lemma fs_wf_filter (keep : path → bool) fs :
  fs_wf fs → (∀ q, is_Some (fs !! q) → is_Some (fs !! parent q) → keep q = true → keep (parent q) = true) →
  fs_wf (filter (λ qn, keep qn.1 = true) fs).
Proof.
  intros Hwf Hk q n. rewrite map_lookup_filter_Some. simpl. intros [Hq Hkq].
  destruct (Hwf q n Hq) as [Hr Hp]. split; [done|]. unfold entry in *.
  destruct (at_root (parent q)); [done|]. apply map_lookup_filter_Some. split; [done|].
  apply Hk; eauto.
Qed.

Lemma parent_prefix (q : path) : parent q `prefix_of` q.
Proof. exists (drop (List.length q - 1) q). unfold parent. by rewrite take_drop. Qed.

Lemma below_parent p q : below p (parent q) = true → below p q = true.
Proof.
  unfold below. rewrite !bool_decide_eq_true. intros. etrans; [done|apply parent_prefix].
Qed.

Lemma fs_wf_delete fs p :
  fs_wf fs → (∀ c, fs !! (p ++ [c]) = None) → fs_wf (delete p fs).
Proof.
  intros Hwf Hc q n [Hne Hq]%lookup_delete_Some. destruct (Hwf q n Hq) as [Hr Hp].
  split; [done|]. unfold entry in *. destruct (at_root (parent q)) eqn:Hrp; [done|].
  rewrite lookup_delete_ne; [done|]. intros E.
  destruct (path_snoc q) as (r & c & ->); [by intros ->|].
  rewrite parent_snoc in E. subst r. by rewrite Hc in Hq.
Qed.

(** *** The calls keep file systems well-formed, whatever fails *)

Section OsLemmas.
Context (faults : nat → option os_fault).

Lemma os_call_wf {A} (run : FS → A * FS) fail d :
  fs_wf (d_fs d) → fs_wf (run (d_fs d)).2 → (∀ f, fs_wf (fail f (d_fs d)).2) →
  fs_wf (d_fs (os_call faults run fail d).2).
Proof.
  intros Hwf Hr Hf. unfold os_call. destruct (faults (d_calls d)) as [f|].
  - specialize (Hf f). by destruct (fail f (d_fs d)).
  - by destruct (run (d_fs d)).
Qed.

Lemma make_dirs_wf p fs : fs_wf fs → fs_wf (make_dirs [] p fs).2.
Proof.
  intros Hwf. destruct (make_dirs [] p fs) as [e fs'] eqn:E.
  by destruct (make_dirs_spec _ _ _ _ _ E Hwf ltac:(done)).
Qed.

Lemma os_MkdirAll_wf p d : fs_wf (d_fs d) → fs_wf (d_fs (os_MkdirAll faults p d).2).
Proof.
  intros Hwf. apply os_call_wf; [done| |].
  - pose proof (make_dirs_wf p (d_fs d) Hwf). by destruct (make_dirs [] p (d_fs d)).
  - intros f. by apply make_dirs_wf.
Qed.

Lemma os_WriteFile_wf p data d : fs_wf (d_fs d) → fs_wf (d_fs (os_WriteFile faults p data d).2).
Proof.
  intros Hwf. apply os_call_wf; [done| |].
  - pose proof (write_file_wf (d_fs d) p data Hwf). by destruct (write_file p data (d_fs d)).
  - intros f. simpl. destruct (f_left f); [by apply write_file_wf|done].
Qed.

Lemma os_Remove_wf p d : fs_wf (d_fs d) → fs_wf (d_fs (os_Remove faults p d).2).
Proof.
  intros Hwf. apply os_call_wf; [done| |done]. destruct (resolve (d_fs d) p) as [|n] eqn:E; [done|].
  destruct (is_dir n && _) eqn:Hd; [done|]. simpl. apply fs_wf_delete; [done|]. intros c.
  destruct (d_fs d !! (p ++ [c])) as [m|] eqn:Hc; [|done]. exfalso.
  apply resolve_inr in E.
  assert (entry (d_fs d) (p ++ [c]) = Some m) as Hm.
  { unfold entry. destruct (Hwf _ _ Hc) as [-> _]. done. }
  rewrite (entry_parent _ _ _ _ Hwf Hm) in E. injection E as <-. simpl in Hd.
  apply negb_false_iff, bool_decide_eq_true in Hd.
  assert ((c, is_dir m) ∈ children (d_fs d) p) as Hin by (apply elem_of_children; eauto).
  rewrite Hd in Hin. by apply not_elem_of_nil in Hin.
Qed.

Lemma filter_ext_keep (P : path → bool) (fs : FS) :
  filter (λ qn, P qn.1 = false) fs = filter (λ qn, negb (P qn.1) = true) fs.
Proof. apply map_filter_ext. intros q n _. simpl. by rewrite negb_true_iff. Qed.

Lemma os_RemoveAll_wf p d : fs_wf (d_fs d) → fs_wf (d_fs (os_RemoveAll faults p d).2).
Proof.
  intros Hwf. apply os_call_wf; [done| |].
  - case_bool_decide; [done|].
    destruct (resolve (d_fs d) p) as [[]|n]; [done..|]. simpl.
    rewrite (filter_ext_keep (below p)). apply (fs_wf_filter (λ q, negb (below p q))); [done|]. intros q _ _.
    rewrite !negb_true_iff. intros Hq. destruct (below p (parent q)) eqn:E; [|done].
    apply below_parent in E. congruence.
  - intros f. simpl. rewrite (filter_ext_keep (λ q, below p q && emptied (f_gone f) (d_fs d) q)).
    apply (fs_wf_filter (λ q, negb (below p q && emptied (f_gone f) (d_fs d) q))); [done|].
    intros q [n Hq] _. rewrite !negb_true_iff, !andb_false_iff. intros Hk.
    destruct (below p (parent q)) eqn:E; [|by left]. right. apply below_parent in E.
    destruct Hk as [Hk|Hk]; [congruence|]. apply not_true_iff_false. intros Hall.
    apply not_true_iff_false in Hk. apply Hk. unfold emptied in *. rewrite forallb_forall in *.
    intros r Hr. specialize (Hall r Hr). apply orb_true_iff in Hall as [Hall|Hall];
      apply orb_true_iff; [left|by right].
    apply negb_true_iff in Hall. apply negb_true_iff. destruct (below q r.1) eqn:Eb; [|done].
    unfold below in Hall, Eb. rewrite bool_decide_eq_true in Eb.
    rewrite bool_decide_eq_false in Hall. destruct Hall. etrans; [apply parent_prefix|done].
Qed.
End OsLemmas.

(** *** Calls that do not fail *)

Lemma os_ReadFile_file d p s :
  fs_wf (d_fs d) → d_fs d !! p = Some (NFile s) →
  os_ReadFile no_faults p d = (Ok s, mkDisk (d_fs d) (S (d_calls d))).
Proof.
  intros Hwf Hp. unfold os_ReadFile. rewrite os_call_quiet. cbn [fst snd].
  rewrite (resolve_entry _ _ (NFile s)); [done|done|]. unfold entry. by destruct (Hwf _ _ Hp) as [-> _].
Qed.

Lemma os_MkdirAll_clear d p :
  fs_wf (d_fs d) → clear (d_fs d) p →
  ∃ d', os_MkdirAll no_faults p d = (None, d') ∧ fs_wf (d_fs d') ∧ entry (d_fs d') p = Some NDir ∧
    (∀ q s, d_fs d' !! q = Some (NFile s) ↔ d_fs d !! q = Some (NFile s)) ∧
    (∀ q, d_fs d' !! q = Some NDir → d_fs d !! q = Some NDir ∨ q `prefix_of` p).
Proof.
  intros Hwf Hc. unfold os_MkdirAll. rewrite os_call_quiet.
  destruct (make_dirs_clear _ _ Hwf Hc) as (fs' & -> & Hx). by eexists.
Qed.

Lemma os_WriteFile_new d p c data :
  fs_wf (d_fs d) → entry (d_fs d) p = Some NDir → at_root (p ++ [c]) = false →
  d_fs d !! (p ++ [c]) ≠ Some NDir →
  os_WriteFile no_faults (p ++ [c]) data d =
    (None, mkDisk (<[p ++ [c] := NFile data]> (d_fs d)) (S (d_calls d))) ∧
  fs_wf (<[p ++ [c] := NFile data]> (d_fs d)).
Proof.
  intros Hwf Hp Hr Hn. assert (entry (d_fs d) (p ++ [c]) ≠ Some NDir) by (unfold entry; by rewrite Hr).
  split.
  - unfold os_WriteFile. rewrite os_call_quiet. by rewrite write_file_ok.
  - apply fs_wf_insert; [done|done|by rewrite parent_snoc|by right].
Qed.

(** [fs'] is [fs] with the file [f] and the directories on its way. *)
Record put (f : path) (data : string) (fs fs' : FS) : Prop := {
  put_wf : fs_wf fs';
  put_file : fs' !! f = Some (NFile data);
  put_other q s : q ≠ f → fs' !! q = Some (NFile s) ↔ fs !! q = Some (NFile s);
  put_dir q : fs' !! q = Some NDir → fs !! q = Some NDir ∨ q `prefix_of` parent f;
}.

(** [os.MkdirAll] of the directory and [os.WriteFile] of the file. *)
Lemma os_put d p c data :
  fs_wf (d_fs d) → clear (d_fs d) p → at_root (p ++ [c]) = false → d_fs d !! (p ++ [c]) ≠ Some NDir →
  ∃ d1 d2, os_MkdirAll no_faults p d = (None, d1) ∧ os_WriteFile no_faults (p ++ [c]) data d1 = (None, d2) ∧
    put (p ++ [c]) data (d_fs d) (d_fs d2).
Proof.
  intros Hwf Hc Hr Hn. destruct (os_MkdirAll_clear d p Hwf Hc) as (d1 & E1 & W1 & Hp1 & F1 & D1).
  destruct (os_WriteFile_new d1 p c data W1 Hp1 Hr) as [E2 W2].
  { intros Hd. apply D1 in Hd as [Hd|Hd]; [done|]. apply prefix_length in Hd. rewrite length_app in Hd. simpl in Hd. lia. }
  eexists d1, _. split_and!; [done|exact E2|]. split; [done| | |]; cbn [d_fs].
  - apply lookup_insert_eq.
  - intros q s Hq. by rewrite lookup_insert_ne.
  - intros q Hq. rewrite parent_snoc. apply D1. apply lookup_insert_Some in Hq as [[_ ?]|[_ ?]]; done.
Qed.

Lemma put_clear f data fs fs' r : put f data fs fs' → ¬ f `prefix_of` r → clear fs r → clear fs' r.
Proof.
  intros Hp Hf. apply clear_files; [|apply Hp]. intros q s Hq.
  destruct (decide (q = f)) as [->|Hne]; [by right|left]. by apply (put_other _ _ _ _ Hp).
Qed.

Lemma put_no_dir f data fs fs' r :
  put f data fs fs' → ¬ r `prefix_of` parent f → fs !! r ≠ Some NDir → fs' !! r ≠ Some NDir.
Proof. intros Hp Hr Hn Hd. by destruct (put_dir _ _ _ _ Hp r Hd). Qed.
