(* ===== verification/Disk.v ===== *)
(** * [DiskStore]: users and scrobble queue on disk ([lib/store/disk.go])

    Users are kept by the third-party key-value store [diskv], one file per
    field, here the class [Diskv]; the queue has a directory per user and a
    file per event, through package [os] (Fs.v); the fallback buffers are those
    of Fallback.v.  The [diskv] files lie in the directory [keystore] next to
    the directories of the queue and of the groups, under other names. *)

From S2P Require Import Prelude GoLib Float Json Instances Common Entities Buffers Codec Fallback Fs.

Open Scope Z_scope.

(** ** The key-value store *)

(** [diskv.New] with an empty cache per call: operations on a world [K]. *)
Class Diskv (K : Type) := {
  kv_Write : string → string → K → option error * K;
  kv_Read : string → K → result string * K;
  kv_Erase : string → K → option error * K;
  kv_Keys : K → list string * K;
}.

(** A key that is one file name. *)
Definition valid_key (k : string) : Prop := plain k.

(** What [diskv] promises: [kv_view] is what it holds, [kv_up] says that the
    disk works.  A read never returns anything but what was written; an erase of
    a missing key is an error and changes nothing; listing gives at least the
    keys that can be read. *)
Class DiskvLaws (K : Type) `{DV : Diskv K} (kv_view : K → gmap string string) (kv_up : K → Prop)
    : Prop := {
  kv_Write_law k v w : valid_key k →
    let '(r, w') := kv_Write k v w in
    (r = None → kv_view w' = <[k := v]> (kv_view w)) ∧
    (∀ j, j ≠ k → kv_view w' !! j = kv_view w !! j) ∧ (kv_up w → r = None ∧ kv_up w');
  kv_Read_law k w : valid_key k →
    let '(r, w') := kv_Read k w in
    kv_view w' = kv_view w ∧ (∀ v, r = Ok v → kv_view w !! k = Some v) ∧
    (kv_up w → kv_up w' ∧ ∀ v, kv_view w !! k = Some v → r = Ok v);
  kv_Erase_law k w : valid_key k →
    let '(r, w') := kv_Erase k w in
    (r = None → kv_view w' = delete k (kv_view w)) ∧ (r ≠ None → kv_view w' = kv_view w) ∧
    (kv_up w → kv_up w' ∧ (is_Some (kv_view w !! k) → r = None));
  kv_Keys_law w :
    let '(l, w') := kv_Keys w in
    kv_view w' = kv_view w ∧ (kv_up w → kv_up w' ∧ ∀ k, is_Some (kv_view w !! k) → k ∈ l);
}.

(** ** Users *)

Section Users.
Context {K : Type} `{UnicodeTables, TimeText, Diskv K}.
(** The order in which Go ranges over a set; sorting is stable here, so every
    order of users with equal dates is that of some [map_order]. *)
Context (map_order : gset string → list string).

(** [fmt.Sprintf("%s.%s", id, field)] *)
Definition field_key (id field : string) : string := id +:+ "." +:+ field.

Definition Ping : option error := None.

Definition write (key value : string) (w : K) : option error * K := kv_Write key value w.
Definition read (key : string) (w : K) : result string * K := kv_Read key w.

(** A write that fails panics; what earlier writes stored stays. *)
Definition writeField (id field value : string) (w : K) : outcome unit * K :=
  let '(err, w) := write (field_key id field) value w in
  (match err with Some e => Panic (Error e) | None => Ret tt end, w).
Definition readField (id field : string) (w : K) : result string * K := read (field_key id field) w.
Definition eraseField (id field : string) (w : K) : option error * K := kv_Erase (field_key id field) w.

(** The fields in order, until a write panics. *)
Fixpoint writeFields (id : string) (fields : list (string * string)) (w : K) : outcome unit * K :=
  match fields with
  | [] => (Ret tt, w)
  | (field, value) :: fields =>
      match writeField id field value w with
      | (Panic why, w) => (Panic why, w)
      | (Ret _, w) => writeFields id fields w
      end
  end.

Definition WriteUser (user : User) (w : K) : outcome unit * K :=
  writeFields (U_ID user)
    [("username", U_Username user); ("access", U_AccessToken user); ("refresh", U_RefreshToken user);
     ("updated", format_date (U_Updated user)); ("trakt_display_name", U_TraktDisplayName user);
     ("token_expiry", format_rfc3339 (U_TokenExpiry user))] w.

Definition GetUser (id : string) (w : K) : option User * K :=
  let '(un, w) := readField id "username" w in
  match un with Err _ => (None, w) | Ok un =>
  let '(ud, w) := readField id "updated" w in
  match ud with Err _ => (None, w) | Ok ud =>
  let '(ac, w) := readField id "access" w in
  match ac with Err _ => (None, w) | Ok ac =>
  let '(re, w) := readField id "refresh" w in
  match re with Err _ => (None, w) | Ok re =>
  let '(dn, w) := readField id "trakt_display_name" w in
  let displayName := match dn with Ok s => s | Err _ => "" end in
  let updated := default zeroTime (parse_date ud) in
  let '(ex, w) := readField id "token_expiry" w in
  let tokenExpiry :=
    match ex with
    | Ok s => if bool_decide (s = "") then time_Add updated (90 * 24 * Hour)
              else default (time_Add updated (90 * 24 * Hour)) (parse_time s)
    | Err _ => time_Add updated (90 * 24 * Hour)
    end in
  (Some (mkUser id (ToLower un) ac re displayName updated tokenExpiry false), w)
  end end end end.

Fixpoint get_users (ids : list string) (w : K) : list User * K :=
  match ids with
  | [] => ([], w)
  | id :: ids =>
      let '(user, w) := GetUser id w in
      let '(users, w) := get_users ids w in
      (match user with Some u => u :: users | None => users end, w)
  end.

Definition newer_user (a b : User) : Prop := U_Updated b ≤ U_Updated a.
#[global] Instance newer_user_dec : RelDecision newer_user.
Proof. intros a b. apply Z.le_dec. Defined.

Definition ListUsers (w : K) : list User * K :=
  let '(keys, w) := kv_Keys w in
  let ids : gset string := list_to_set (omap (λ key,
    if HasSuffix key ".username" then Some (TrimSuffix key ".username") else None) keys) in
  let '(users, w) := get_users (map_order ids) w in
  (merge_sort newer_user users, w).

Definition GetUserByName (username : string) (w : K) : option User * K :=
  let username := ToLower (TrimSpace username) in
  if bool_decide (username = "") then (None, w) else
  let '(users, w) := ListUsers w in
  match List.find (λ u, bool_decide (ToLower (U_Username u) = username)) users with
  | Some u => GetUser (U_ID u) w
  | None => (None, w)
  end.

Definition DeleteUser (id username : string) (w : K) : bool * K :=
  let w := foldl (λ w field, (eraseField id field w).2) w
    ["username"; "updated"; "access"; "refresh"; "trakt_display_name"; "token_expiry"] in
  (true, w).

Definition GetScrobbleBody (playerUuid ratingKey : string) : CacheItem := emptyCacheItem.
Definition WriteScrobbleBody (item : CacheItem) (w : K) : K := w.
End Users.

(** ** Scrobble queue *)

Definition queueBasePath : path := ["keystore"; "queue"].

Definition DiskStore : Type := Buffered Disk.
Definition NewDiskStore (d : Disk) : DiskStore := mkBuffered d ∅.

Section Queue.
Context `{UnicodeTables, TimeText, JsonText} (faults : nat → option os_fault).

Definition userQueueDir (userID : string) : path := join queueBasePath userID.

Definition is_json (e : DirEntry) : bool := negb e.2 && HasSuffix e.1 ".json".

(** [os.Stat(dir)] says that the directory does not exist. *)
Definition absent (p : path) (d : Disk) : bool * Disk :=
  let '(r, d) := os_Stat faults p d in
  (match r with Err err => IsNotExist err | Ok _ => false end, d).

Definition GetQueueSize (userID : string) (d : Disk) : result Z * Disk :=
  let dir := userQueueDir userID in
  let '(no, d) := absent dir d in
  if no then (Ok 0, d) else
  let '((files, err), d) := os_ReadDir faults dir d in
  match err with
  | Some err => (Err (Wrapf "failed to read queue directory: " err ""), d)
  | None => (Ok (Z.of_nat (List.length (List.filter is_json files))), d)
  end.

(** The loop over the files of a batch: files that cannot be read or decoded
    are skipped. *)
Fixpoint read_events (dir : path) (files : list DirEntry) (d : Disk)
    : outcome (list QueuedScrobbleEvent) * Disk :=
  match files with
  | [] => (Ret [], d)
  | file :: files =>
      let '(data, d) := os_ReadFile faults (join dir file.1) d in
      match data with
      | Err _ => read_events dir files d
      | Ok data =>
          match deserializeEvent data with
          | Panic why => (Panic why, d)
          | Ret (Err _) => read_events dir files d
          | Ret (Ok event) =>
              let '(events, d) := read_events dir files d in
              (events ← events; Ret (event :: events), d)
          end
      end
  end.

Definition DequeueScrobbles (userID : string) (limit : Z) (d : Disk)
    : outcome (result (list QueuedScrobbleEvent)) * Disk :=
  let dir := userQueueDir userID in
  let '(no, d) := absent dir d in
  if no then (Ret (Ok []), d) else
  let '((files, err), d) := os_ReadDir faults dir d in
  match err with
  | Some err => (Ret (Err (Wrapf "failed to read queue directory: " err "")), d)
  | None =>
      let jsonFiles := merge_sort name_le (List.filter is_json files) in
      let '(events, d) := read_events dir (take (Z.to_nat limit) jsonFiles) d in
      (events ← events; Ret (Ok events), d)
  end.

(** The first file of the queue, in the order of [WalkDir], whose name contains
    the id. *)
Definition find_event (eventID : string) (d : Disk) : option path * Disk :=
  let '(entries, d) := filepath_WalkDir faults queueBasePath d in
  (fst <$> List.find (λ e, negb (is_dir e.2) &&
                        match last e.1 with Some name => Contains name eventID | None => false end)
             entries, d).

Definition DeleteQueuedScrobble (eventID : string) (d : Disk) : option error * Disk :=
  let '(found, d) := find_event eventID d in
  match found with
  | None => (None, d)
  | Some foundPath =>
      let '(err, d) := os_Remove faults foundPath d in
      ((λ err, Wrapf "failed to delete event file: " err "") <$> err, d)
  end.

Definition UpdateQueuedScrobbleRetry (now : Time) (eventID : string) (retryCount : Z) (d : Disk)
    : outcome (option error) * Disk :=
  let '(found, d) := find_event eventID d in
  match found with
  | None => (Ret (Some (Errorf ("event not found: " +:+ eventID))), d)
  | Some foundPath =>
      let '(data, d) := os_ReadFile faults foundPath d in
      match data with
      | Err err => (Ret (Some (Wrapf "failed to read event file: " err "")), d)
      | Ok data =>
          match deserializeEvent data with
          | Panic why => (Panic why, d)
          | Ret (Err err) => (Ret (Some (Wrapf "failed to deserialize event: " err "")), d)
          | Ret (Ok event) =>
              match serializeEvent (set_E_Retry retryCount now event) with
              | Err err => (Ret (Some (Wrapf "failed to serialize event: " err "")), d)
              | Ok data =>
                  let '(err, d) := os_WriteFile faults foundPath data d in
                  (Ret ((λ err, Wrapf "failed to write event file: " err "") <$> err), d)
              end
          end
      end
  end.

Definition evictOldestEvent (userID : string) (d : Disk) : outcome (option error) * Disk :=
  match DequeueScrobbles userID 1 d with
  | (Panic why, d) => (Panic why, d)
  | (Ret (Err err), d) => (Ret (Some err), d)
  | (Ret (Ok []), d) => (Ret None, d)
  | (Ret (Ok (event :: _)), d) =>
      let '(err, d) := DeleteQueuedScrobble (E_ID event) d in (Ret err, d)
  end.

(** [{timestamp}-{uuid}.json] *)
Definition event_filename (e : QueuedScrobbleEvent) : string :=
  Itoa (Unix (E_CreatedAt e)) +:+ "-" +:+ E_ID e +:+ ".json".

(** One attempt to enqueue an event. *)
Definition tryStore (src : Sources) (event : QueuedScrobbleEvent) (d : Disk) : attempt * Disk :=
  match prepare (src_rnd src) (src_now src) event with
  | Err err => (Refused err, d)
  | Ok event =>
  match serializeEvent event with
  | Err err => (Refused (Wrapf "failed to serialize event: " err ""), d)
  | Ok data =>
  let dir := userQueueDir (E_UserID event) in
  match os_MkdirAll faults dir d with
  | (Some err, d) => (Unavailable event (Wrapf "storage unavailable: " err ""), d)
  | (None, d) =>
  let '(queueSize, d) := GetQueueSize (E_UserID event) d in
  let queueSize := match queueSize with Ok n => n | Err _ => 0 end in
  let '(evicted, d) := if maxQueuePerUser <=? queueSize then evictOldestEvent (E_UserID event) d
                       else (Ret None, d) in
  match evicted with
  | Panic why => (Panicked why, d)
  | Ret _ =>
  match os_WriteFile faults (join dir (event_filename event)) data d with
  | (Some err, d) => (Unavailable event (Wrapf "failed to write event: " err ""), d)
  | (None, d) => (Stored event, d)
  end end end end end.

(** [srcs k] is what the [k]-th call draws from its process. *)
Definition EnqueueScrobble (srcs : nat → Sources) (fuel : nat) (event : QueuedScrobbleEvent)
    (st : nat * DiskStore) : option (outcome (option error * (nat * DiskStore))) :=
  enqueueWith (λ k, tryStore (srcs k)) fuel event st.

Definition addToFallbackBuffer (userID : string) (event : QueuedScrobbleEvent) (s : DiskStore)
    : outcome DiskStore := push_fallback userID event s.

Definition flushFallbackBuffer (srcs : nat → Sources) (fuel : nat) (userID : string)
    (st : nat * DiskStore) : option (outcome (nat * DiskStore)) :=
  flushWith (EnqueueScrobble srcs fuel) userID st.

Definition GetQueueStatus (now : Time) (userID : string) (d : Disk)
    : outcome (QueueStatus * option error) * Disk :=
  match GetQueueSize userID d with
  | (Err err, d) => (Ret (mkQueueStatus userID 0 0 "live", Some err), d)
  | (Ok queueSize, d) =>
      if 0 <? queueSize then
        match DequeueScrobbles userID 1 d with
        | (Panic why, d) => (Panic why, d)
        | (Ret (Ok (event :: _)), d) =>
            (Ret (mkQueueStatus userID queueSize (time_Sub now (E_CreatedAt event)) "live", None), d)
        | (Ret _, d) => (Ret (mkQueueStatus userID queueSize 0 "live", None), d)
        end
      else (Ret (mkQueueStatus userID queueSize 0 "live", None), d)
  end.

(** The loop over the directories of the queue. *)
Fixpoint users_with_events (entries : list DirEntry) (d : Disk) : list string * Disk :=
  match entries with
  | [] => ([], d)
  | (name, dir) :: entries =>
      if dir && negb (bool_decide (name = ".gitkeep")) then
        let '(queueSize, d) := GetQueueSize name d in
        let '(userIDs, d) := users_with_events entries d in
        (match queueSize with Ok n => if 0 <? n then name :: userIDs else userIDs | Err _ => userIDs end, d)
      else users_with_events entries d
  end.

Definition ListUsersWithQueuedEvents (d : Disk) : result (list string) * Disk :=
  let '(no, d) := absent queueBasePath d in
  if no then (Ok [], d) else
  let '((entries, err), d) := os_ReadDir faults queueBasePath d in
  match err with
  | Some err => (Err (Wrapf "failed to read queue base directory: " err ""), d)
  | None => let '(userIDs, d) := users_with_events entries d in (Ok userIDs, d)
  end.

Definition PurgeQueueForUser (userID : string) (d : Disk) : result Z * Disk :=
  let dir := userQueueDir userID in
  let '(no, d) := absent dir d in
  if no then (Ok 0, d) else
  match GetQueueSize userID d with
  | (Err err, d) => (Err err, d)
  | (Ok queueSize, d) =>
      match os_RemoveAll faults dir d with
      | (Some err, d) => (Err (Wrapf "failed to purge queue directory: " err ""), d)
      | (None, d) => (Ok queueSize, d)
      end
  end.

(** ** Retry queue and notifications: not supported by this store *)

Definition EnqueueRetryItem (item : RetryQueueItem) : option error := Some ErrNotSupported.
Definition ListDueRetryItems (now : Time) (limit : Z) : result (list RetryQueueItem) := Err ErrNotSupported.
Definition MarkRetrySuccess (id : string) : option error := Some ErrNotSupported.
Definition MarkRetryFailure (id : string) (n : Z) (next : Time) (lastErr : string) (permanent : bool)
    : option error := Some ErrNotSupported.
Definition CreateNotification (n : Notification) : option error := Some ErrNotSupported.
Definition GetNotifications (familyGroupID : string) (includeDismissed : bool)
    : result (list Notification) := Err ErrNotSupported.
Definition DismissNotification (id : string) : option error := Some ErrNotSupported.
Definition DeleteNotification (id : string) : option error := Some ErrNotSupported.
End Queue.
