(* ===== verification/DiskUsers.v ===== *)
(** * Users on disk: what [WriteUser], [GetUser] and [DeleteUser] do

    The six fields of a user are six keys of [diskv] (Disk.v); no two users
    share a key.  [user_in] is the user a set of keys describes. *)

From S2P Require Import Prelude GoLib Float Json Instances Common Entities Buffers Codec Fallback Fs Disk.

Open Scope Z_scope.

(** ** Keys *)

Definition fields : list string :=
  ["username"; "access"; "refresh"; "updated"; "trakt_display_name"; "token_expiry"].

(** An id without a path separator. *)
Definition no_slash (id : string) : Prop := Forall (λ a, a ≠ "/"%char) (bytes id).

Lemma app_sep_inj {A} (sep : A) (l1 l2 f1 f2 : list A) :
  Forall (λ a, a ≠ sep) f1 → Forall (λ a, a ≠ sep) f2 →
  l1 ++ sep :: f1 = l2 ++ sep :: f2 → l1 = l2 ∧ f1 = f2.
Proof.
  intros H1 H2. revert l2. induction l1 as [|a l1 IH]; intros [|b l2] E; simplify_eq/=.
  - done.
  - apply Forall_app in H1 as [_ H1]. by apply Forall_cons in H1 as [? _].
  - apply Forall_app in H2 as [_ H2]. by apply Forall_cons in H2 as [? _].
  - destruct (IH l2) as [-> ->]; done.
Qed.

Lemma field_dotless f : f ∈ fields → Forall (λ a, a ≠ "."%char) (bytes f) ∧ no_slash f ∧ (3 ≤ List.length (bytes f))%nat.
Proof.
  intros Hf. revert f Hf. apply Forall_forall. repeat constructor; done || (simpl; lia).
Qed.

Lemma bytes_field_key id f : bytes (field_key id f) = bytes id ++ "."%char :: bytes f.
Proof. unfold field_key. by rewrite !bytes_app. Qed.

(** A key names its user and its field. *)
Lemma field_key_inj id id' f f' :
  f ∈ fields → f' ∈ fields → field_key id f = field_key id' f' → id = id' ∧ f = f'.
Proof.
  intros Hf Hf' E. apply (f_equal bytes) in E. rewrite !bytes_field_key in E.
  apply app_sep_inj in E as [E1 E2]; [|by apply field_dotless..]. by split; apply (inj bytes).
Qed.

Lemma field_key_valid id f : no_slash id → f ∈ fields → valid_key (field_key id f).
Proof.
  intros Hid Hf. destruct (field_dotless f Hf) as (_ & Hs & Hl). apply plain_name; rewrite bytes_field_key.
  - rewrite length_app. simpl. lia.
  - apply Forall_app. split; [done|]. by constructor.
Qed.

Section Users.
Context {K : Type} `{UnicodeTables, TT : TimeText, TL : !TimeTextLaws TT, DV : Diskv K}.
Context (kv_view : K → gmap string string) (kv_up : K → Prop) {DL : DiskvLaws K kv_view kv_up}.

(** ** The user a set of keys describes *)

Definition user_in (v : gmap string string) (id : string) : option User :=
  un ← v !! field_key id "username";
  ud ← v !! field_key id "updated";
  ac ← v !! field_key id "access";
  re ← v !! field_key id "refresh";
  let updated := default zeroTime (parse_date ud) in
  let later := time_Add updated (90 * 24 * Hour) in
  Some (mkUser id (ToLower un) ac re (default "" (v !! field_key id "trakt_display_name")) updated
          (match v !! field_key id "token_expiry" with
           | Some s => if bool_decide (s = "") then later else default later (parse_time s)
           | None => later
           end) false).

(** A read of a field on a disk that works. *)
Lemma readField_up id f v w :
  no_slash id → f ∈ fields → kv_up w → kv_view w = v →
  ∃ r w', readField id f w = (r, w') ∧ kv_up w' ∧ kv_view w' = v ∧
    match v !! field_key id f with Some x => r = Ok x | None => ∃ e, r = Err e end.
Proof using DL.
  intros Hid Hf Hup <-. unfold readField, read.
  pose proof (kv_Read_law (field_key id f) w (field_key_valid id f Hid Hf)) as Hr.
  destruct (kv_Read (field_key id f) w) as [r w']. destruct Hr as (Hv & Hok & Hu).
  destruct (Hu Hup) as [Hup' Hsome]. exists r, w'. split_and!; [done..|].
  destruct (kv_view w !! field_key id f) as [x|] eqn:E; [by apply Hsome|].
  destruct r as [x|e]; [|by exists e]. specialize (Hok x eq_refl). congruence.
Qed.

Ltac read_field :=
  match goal with
  | Hup : kv_up ?w, Hv : kv_view ?w = ?v, Hid : no_slash ?id |- context [readField ?id ?f ?w] =>
      let r := fresh "r" in let w' := fresh "w" in let Hr := fresh "Hr" in
      let Hup' := fresh "Hup" in let Hv' := fresh "Hv" in
      destruct (readField_up id f v w Hid ltac:(by repeat constructor) Hup Hv) as (r & w' & -> & Hup' & Hv' & Hr);
      clear Hup Hv
  end.

Lemma GetUser_up id v w :
  no_slash id → kv_up w → kv_view w = v →
  ∃ w', GetUser id w = (user_in v id, w') ∧ kv_up w' ∧ kv_view w' = v.
Proof using DL.
  intros Hid Hup Hv. unfold GetUser, user_in.
  read_field. destruct (v !! field_key id "username") as [un|]; simpl; [subst r|destruct Hr as [e ->]; eauto].
  read_field. destruct (v !! field_key id "updated") as [ud|]; simpl; [subst r|destruct Hr as [e ->]; eauto].
  read_field. destruct (v !! field_key id "access") as [ac|]; simpl; [subst r|destruct Hr as [e ->]; eauto].
  read_field. destruct (v !! field_key id "refresh") as [re|]; simpl; [subst r|destruct Hr as [e ->]; eauto].
  read_field. read_field. eexists; split; [|done]. do 3 f_equal.
  - destruct (v !! field_key id "trakt_display_name"); [by subst|by destruct Hr as [e ->]].
  - destruct (v !! field_key id "token_expiry"); [by subst|by destruct Hr0 as [e ->]].
Qed.

(** ** Writing and erasing *)

Definition set_fields (id : string) (fs : list (string * string)) (v : gmap string string) : gmap string string :=
  foldl (λ v fv, <[field_key id fv.1 := fv.2]> v) v fs.

Lemma writeFields_up id fs : ∀ w,
  no_slash id → Forall (λ fv, fv.1 ∈ fields) fs → kv_up w →
  ∃ w', writeFields id fs w = (Ret tt, w') ∧ kv_up w' ∧ kv_view w' = set_fields id fs (kv_view w).
Proof using DL.
  induction fs as [|[f x] fs IH]; intros w Hid Hf Hup; [by exists w|]. apply Forall_cons in Hf as [Hf Hfs].
  cbn [writeFields]. unfold writeField, write.
  pose proof (kv_Write_law (field_key id f) x w (field_key_valid id f Hid Hf)) as Hw.
  destruct (kv_Write (field_key id f) x w) as [r w1]. destruct Hw as (Hv & _ & Hu).
  destruct (Hu Hup) as [-> Hup1]. destruct (IH w1 Hid Hfs Hup1) as (w' & -> & Hup' & Hv').
  exists w'. split_and!; [done..|]. rewrite Hv', Hv by done. done.
Qed.

Lemma set_fields_other id fs v k :
  (∀ f x, (f, x) ∈ fs → k ≠ field_key id f) → set_fields id fs v !! k = v !! k.
Proof.
  revert v. induction fs as [|[f x] fs IH]; intros v Hk; [done|].
  change (set_fields id ((f, x) :: fs) v) with (set_fields id fs (<[field_key id f := x]> v)). rewrite IH.
  - rewrite lookup_insert_ne; [done|]. intros E. by apply (Hk f x); [left|].
  - intros f' x' Hin. apply (Hk f' x'). by right.
Qed.

(** The user at an id depends on its own keys only. *)
Lemma user_in_ext v v' id :
  (∀ f, f ∈ fields → v' !! field_key id f = v !! field_key id f) → user_in v' id = user_in v id.
Proof. intros Hv. unfold user_in. rewrite !Hv by (by repeat constructor). done. Qed.

Lemma erase_up id f w :
  no_slash id → f ∈ fields → kv_up w →
  kv_up (eraseField id f w).2 ∧ ∀ k, kv_view (eraseField id f w).2 !! k =
    if decide (k = field_key id f) then None else kv_view w !! k.
Proof using DL.
  intros Hid Hf Hup. unfold eraseField.
  pose proof (kv_Erase_law (field_key id f) w (field_key_valid id f Hid Hf)) as He.
  destruct (kv_Erase (field_key id f) w) as [r w']. destruct He as (Hok & Herr & Hu). simpl.
  destruct (Hu Hup) as [Hup' Hsome]. split; [done|]. intros k. destruct r as [e|].
  - rewrite Herr by done. case_decide as Hk; [subst k|done].
    destruct (kv_view w !! field_key id f) eqn:E; [|done]. by specialize (Hsome ltac:(by eexists)).
  - rewrite Hok, lookup_delete by done. repeat case_decide; congruence.
Qed.

Lemma DeleteUser_up id username w :
  no_slash id → kv_up w →
  kv_up (DeleteUser id username w).2 ∧ kv_view (DeleteUser id username w).2 !! field_key id "username" = None.
Proof using DL.
  intros Hid Hup. unfold DeleteUser. cbn [snd].
  assert (∀ fs w, Forall (λ f, f ∈ fields) fs → kv_up w →
    kv_up (foldl (λ w f, (eraseField id f w).2) w fs) ∧
    (kv_view w !! field_key id "username" = None →
     kv_view (foldl (λ w f, (eraseField id f w).2) w fs) !! field_key id "username" = None)) as Hfold.
  { induction fs as [|f fs IH]; intros w0 Hf Hup0; [done|]. apply Forall_cons in Hf as [Hf Hfs].
    destruct (erase_up id f w0 Hid Hf Hup0) as [Hup1 Hv1]. cbn [foldl].
    destruct (IH _ Hfs Hup1) as [Hup2 Hv2]. split; [done|]. intros Hn. apply Hv2. rewrite Hv1.
    by case_decide. }
  destruct (erase_up id "username" w Hid ltac:(by repeat constructor) Hup) as [Hup1 Hv1].
  destruct (Hfold ["updated"; "access"; "refresh"; "trakt_display_name"; "token_expiry"] _
    ltac:(by repeat constructor) Hup1) as [Hup2 Hv2]. split; [exact Hup2|]. apply Hv2.
  rewrite Hv1. by rewrite decide_True.
Qed.

(** ** Properties *)

(** on a disk that works, a user written by [WriteUser] is read back by
    [GetUser] with the username in lower case, the day of its last update, the
    expiry without its fraction of a second, and no store attached; every other
    user reads as before; and after [DeleteUser] there is no such user. *)
Lemma disk_user_roundtrip (u : User) (w : K) :
  no_slash (U_ID u) → 0 ≤ (civil_of_day (day_of (U_Updated u))).1.1 < 10000 →
  time_in_range (whole_second (U_TokenExpiry u)) = true → kv_up w →
  ∃ w', WriteUser u w = (Ret tt, w') ∧
    (GetUser (U_ID u) w').1 =
      Some (mkUser (U_ID u) (ToLower (U_Username u)) (U_AccessToken u) (U_RefreshToken u)
              (U_TraktDisplayName u) (midnight (U_Updated u)) (whole_second (U_TokenExpiry u)) false) ∧
    (∀ id, no_slash id → id ≠ U_ID u → (GetUser id w').1 = (GetUser id w).1) ∧
    (GetUser (U_ID u) (DeleteUser (U_ID u) (U_Username u) w').2).1 = None.
Proof using DL TL.
  intros Hid Hy Ht Hup.
  destruct (writeFields_up (U_ID u) [("username", U_Username u); ("access", U_AccessToken u);
    ("refresh", U_RefreshToken u); ("updated", format_date (U_Updated u));
    ("trakt_display_name", U_TraktDisplayName u); ("token_expiry", format_rfc3339 (U_TokenExpiry u))] w)
    as (w' & Hw & Hup' & Hv'); [done|by repeat constructor|done|].
  exists w'. split; [exact Hw|]. split_and!.
  - destruct (GetUser_up (U_ID u) _ w' Hid Hup' Hv') as (w2 & -> & _). cbn [fst].
    unfold user_in, set_fields. cbn [foldl fst snd].
    assert (∀ f g x v, f ≠ g → f ∈ fields → g ∈ fields →
      <[field_key (U_ID u) g := x]> v !! field_key (U_ID u) f = (v : gmap string string) !! field_key (U_ID u) f) as Hne.
    { intros f g x v Hfg Hf Hg. apply lookup_insert_ne. intros E. apply field_key_inj in E as [_ ->]; done. }
    repeat (rewrite lookup_insert_eq || rewrite Hne by (done || by repeat constructor)). simpl.
    rewrite parse_format_date by done. simpl. rewrite bool_decide_eq_false_2 by apply time_text_nonempty.
    by rewrite parse_format_rfc3339.
  - intros id Hid' Hne. destruct (GetUser_up id _ w' Hid' Hup' Hv') as (w2 & -> & _).
    destruct (GetUser_up id _ w Hid' Hup eq_refl) as (w3 & -> & _). cbn [fst]. apply user_in_ext.
    intros f Hf. apply set_fields_other. intros g x Hin E. apply Hne.
    apply field_key_inj in E as [-> _]; [done|done|].
    apply list_elem_of_In in Hin. simpl in Hin.
    repeat (destruct Hin as [[= <- _]|Hin]; [by repeat constructor|]). done.
  - destruct (DeleteUser_up (U_ID u) (U_Username u) w' Hid Hup') as [Hup2 Hn].
    destruct (GetUser_up (U_ID u) _ _ Hid Hup2 eq_refl) as (w3 & -> & _). cbn [fst]. unfold user_in. by rewrite Hn.
Qed.

(** C26: no user that [DiskStore] loads can be updated: the store of the loaded
    user is nil, so [UpdateUser], [UpdateDisplayName] and [UpdateUsername] all
    panic, for example when its token is refreshed. *)
Theorem disk_user_update_panics {S : Type} (save_user : User → S → outcome S) (id : string) (w w' : K)
    (u : User) (accessToken refreshToken name : string) (displayName : option string)
    (tokenExpiry now : Time) (st : S) :
  GetUser id w = (Some u, w') →
  UpdateUser save_user u accessToken refreshToken displayName tokenExpiry now st = Panic nil_deref ∧
  UpdateDisplayName save_user u displayName st = Panic nil_deref ∧
  UpdateUsername save_user u name st = Panic nil_deref.
Proof.
  intros Hg. assert (U_store u = false) as Hs.
  { revert Hg. unfold GetUser.
    repeat match goal with
    | |- context [readField ?i ?f ?w] => destruct (readField i f w) as [[?|?] ?]; try done
    end; intros [= <- _]; done. }
  unfold UpdateUser, UpdateDisplayName, UpdateUsername, save. simpl. rewrite Hs.
  split_and!; [done| |done]. destruct displayName as [n|]; [by destruct (NormalizeDisplayName n)|done].
Qed.
End Users.

(** ** Examples *)

(** A key-value store in memory. *)
#[local] Instance memory_kv : Diskv (gmap string string) := {
  kv_Write k v w := (None, <[k := v]> w);
  kv_Read k w := (match w !! k with Some v => Ok v | None => Err (Errorf "not found") end, w);
  kv_Erase k w := (if bool_decide (is_Some (w !! k)) then None else Some (Errorf "not found"), delete k w);
  kv_Keys w := ((map_to_list w).*1, w);
}.

Lemma memory_kv_laws : DiskvLaws (gmap string string) id (λ _, True).
Proof.
  split; unfold id; simpl.
  - intros k v w _. split_and!; [done|intros; by rewrite lookup_insert_ne|done].
  - intros k w _. destruct (w !! k) as [x|]; split_and!; try done.
    + by intros v [= ->].
    + intros _. split; [done|]. by intros v [= ->].
  - intros k w _. case_bool_decide as E; split_and!; try done.
    intros _. apply delete_id. by apply eq_None_not_Some.
  - intros w. split_and!; [done|]. intros _. split; [done|]. intros k [v Hv].
    apply list_elem_of_fmap. exists (k, v). split; [done|]. by apply elem_of_map_to_list.
Qed.

#[local] Existing Instances ascii_tables decimal_time.

Definition disk_sample_user : User :=
  mkUser "u1" "Sam" "acc" "ref" "Sam S." (1700000000 * Second) (1700000000 * Second + 5) true.

Lemma disk_user_roundtrip_witness :
  ∃ w', WriteUser disk_sample_user (∅ : gmap string string) = (Ret tt, w') ∧
    (GetUser "u1" w').1 =
      Some (mkUser "u1" "sam" "acc" "ref" "Sam S." (19675 * Day) (1700000000 * Second) false).
Proof.
  destruct (disk_user_roundtrip (TL:=decimal_time_laws) id (λ _, True) (DL:=memory_kv_laws) disk_sample_user ∅)
    as (w' & H1 & H2 & _).
  - repeat constructor; discriminate.
  - vm_compute. split; [discriminate|reflexivity].
  - reflexivity.
  - exact I.
  - exists w'. split; [exact H1|exact H2].
Defined.

Definition disk_users : gmap string string := (WriteUser disk_sample_user ∅).2.

Lemma disk_user_update_panics_witness :
  UpdateUser (λ _ (st : unit), Ret st)
    (mkUser "u1" "sam" "acc" "ref" "Sam S." (19675 * Day) (1700000000 * Second) false)
    "new" "newer" None 0 0 tt = Panic nil_deref.
Proof.
  assert ((GetUser "u1" disk_users).1 =
    Some (mkUser "u1" "sam" "acc" "ref" "Sam S." (19675 * Day) (1700000000 * Second) false)) as E
    by (vm_compute; reflexivity).
  destruct (GetUser "u1" disk_users) as [o w'] eqn:E'. cbn [fst] in E. subst o.
  exact (proj1 (disk_user_update_panics (λ _ st, Ret st) "u1" disk_users w' _ "new" "newer" "" None 0 0 tt E')).
Defined.
