(* ===== verification/DiskFamily.v ===== *)
(** * [DiskStore], family groups ([lib/store/disk.go], lines 524-845)

    A group is the file [family_groups/<id>/group.json], the list of its member
    ids is [members.txt] next to it, [family_groups/by_plex/<name>] holds the
    id of the group of a Plex account, and a member is the file
    [group_members/<id>/member.json]. *)

From S2P Require Import Prelude GoLib Text Float Json Instances Common Entities Buffers Codec Fallback Fs Disk.

Open Scope Z_scope.

Definition familyGroupBasePath : path := ["keystore"; "family_groups"].
Definition groupMemberBasePath : path := ["keystore"; "group_members"].
Definition plexMappingBasePath : path := ["keystore"; "family_groups"; "by_plex"].

Section Family.
Context `{UnicodeTables, TimeText, JsonText} (faults : nat → option os_fault).

(** Errors that go up with a prefix. *)
Definition wrap (pre : string) (err : error) : error := Wrapf pre err "".

(** ** Groups *)

(** [os.ReadFile] and [json.Unmarshal]; a missing file is no record. *)
Definition read_record {A} (dec : decoder A) (zero : A) (readErr jsonErr : string) (file : path) (d : Disk)
    : result (option A) * Disk :=
  let '(data, d) := os_ReadFile faults file d in
  (match data with
   | Err err => if IsNotExist err then Ok None else Err (wrap readErr err)
   | Ok data => match unmarshal dec zero data with
                | Err err => Err (wrap jsonErr err)
                | Ok a => Ok (Some a)
                end
   end, d).

Definition GetFamilyGroup (groupID : string) : Disk → result (option FamilyGroup) * Disk :=
  read_record dec_FamilyGroup zeroGroup "failed to read family group file: "
    "failed to unmarshal family group: " (joins familyGroupBasePath [groupID; "group.json"]).

Definition GetFamilyGroupByPlex (plexUsername : string) (d : Disk) : result (option FamilyGroup) * Disk :=
  let '(data, d) := os_ReadFile faults (join plexMappingBasePath plexUsername) d in
  match data with
  | Err err => (if IsNotExist err then Ok None else Err (wrap "failed to read plex mapping: " err), d)
  | Ok groupID => GetFamilyGroup (TrimSpace groupID) d
  end.

Definition CreateFamilyGroup (group : FamilyGroup) (d : Disk) : option error * Disk :=
  match GetFamilyGroupByPlex (FG_PlexUsername group) d with
  | (Err err, d) => (Some (wrap "failed to check plex username uniqueness: " err), d)
  | (Ok (Some _), d) => (Some (Errorf ("plex username " +:+ FG_PlexUsername group +:+ " already exists")), d)
  | (Ok None, d) =>
  let groupDir := join familyGroupBasePath (FG_ID group) in
  match os_MkdirAll faults groupDir d with
  | (Some err, d) => (Some (wrap "failed to create family group directory: " err), d)
  | (None, d) =>
  if negb (group_times group) then (Some (wrap "failed to marshal family group: " year_error), d) else
  match os_WriteFile faults (join groupDir "group.json") (json_indent (json_of_FamilyGroup group)) d with
  | (Some err, d) => (Some (wrap "failed to write family group file: " err), d)
  | (None, d) =>
  let plexMappingFile := join plexMappingBasePath (FG_PlexUsername group) in
  match os_MkdirAll faults (parent plexMappingFile) d with
  | (Some err, d) => (Some (wrap "failed to create plex mapping directory: " err), d)
  | (None, d) =>
  match os_WriteFile faults plexMappingFile (FG_ID group) d with
  | (Some err, d) => (Some (wrap "failed to write plex mapping: " err), d)
  | (None, d) => (None, d)
  end end end end end.

Fixpoint load_groups (entries : list DirEntry) (d : Disk) : list FamilyGroup * Disk :=
  match entries with
  | [] => ([], d)
  | (name, dir) :: entries =>
      if negb dir then load_groups entries d else
      let '(group, d) := GetFamilyGroup name d in
      let '(groups, d) := load_groups entries d in
      (match group with Ok (Some g) => g :: groups | _ => groups end, d)
  end.

Definition ListFamilyGroups (d : Disk) : result (list FamilyGroup) * Disk :=
  let '((entries, err), d) := os_ReadDir faults familyGroupBasePath d in
  match err with
  | Some err => (if IsNotExist err then Ok [] else Err (wrap "failed to list family groups: " err), d)
  | None => let '(groups, d) := load_groups entries d in (Ok groups, d)
  end.

(** ** Members *)

Definition readMembersList (filePath : path) (d : Disk) : result (list string) * Disk :=
  let '(data, d) := os_ReadFile faults filePath d in
  (match data with
   | Err err => if IsNotExist err then Ok [] else Err err
   | Ok data =>
       let lines := Split (TrimSpace data) "010"%char in
       Ok (List.filter (λ line, negb (bool_decide (line = ""))) (TrimSpace <$> lines))
   end, d).

Definition writeMembersList (filePath : path) (members : list string) (d : Disk) : option error * Disk :=
  match os_MkdirAll faults (parent filePath) d with
  | (Some err, d) => (Some err, d)
  | (None, d) => os_WriteFile faults filePath (Join members (String "010" "")) d
  end.

Definition GetGroupMember (memberID : string) : Disk → result (option GroupMember) * Disk :=
  read_record dec_GroupMember zeroMember "failed to read group member file: "
    "failed to unmarshal group member: " (joins groupMemberBasePath [memberID; "member.json"]).

Fixpoint load_members (memberIDs : list string) (d : Disk) : list GroupMember * Disk :=
  match memberIDs with
  | [] => ([], d)
  | memberID :: memberIDs =>
      let '(member, d) := GetGroupMember memberID d in
      let '(members, d) := load_members memberIDs d in
      (match member with Ok (Some m) => m :: members | _ => members end, d)
  end.

Definition membersListFile (groupID : string) : path := joins familyGroupBasePath [groupID; "members.txt"].

Definition ListGroupMembers (groupID : string) (d : Disk) : result (list GroupMember) * Disk :=
  match readMembersList (membersListFile groupID) d with
  | (Err err, d) => (Err (wrap "failed to read members list: " err), d)
  | (Ok memberIDs, d) => let '(members, d) := load_members memberIDs d in (Ok members, d)
  end.

Definition GetGroupMemberByTrakt (groupID traktUsername : string) (d : Disk)
    : result (option GroupMember) * Disk :=
  match ListGroupMembers groupID d with
  | (Err err, d) => (Err (wrap "failed to list group members: " err), d)
  | (Ok members, d) =>
      (Ok (List.find (λ m, bool_decide (GM_TraktUsername m = traktUsername)) members), d)
  end.

Definition AddGroupMember (member : GroupMember) (d : Disk) : option error * Disk :=
  let '(dup, d) :=
    if bool_decide (GM_TraktUsername member = "") then (None, d) else
    match GetGroupMemberByTrakt (GM_FamilyGroupID member) (GM_TraktUsername member) d with
    | (Err err, d) => (Some (wrap "failed to check for duplicate trakt username: " err), d)
    | (Ok (Some _), d) =>
        (Some (Errorf ("trakt username " +:+ GM_TraktUsername member +:+ " already exists in this group")), d)
    | (Ok None, d) => (None, d)
    end in
  match dup with
  | Some err => (Some err, d)
  | None =>
  let memberDir := join groupMemberBasePath (GM_ID member) in
  match os_MkdirAll faults memberDir d with
  | (Some err, d) => (Some (wrap "failed to create group member directory: " err), d)
  | (None, d) =>
  if negb (member_times member) then (Some (wrap "failed to marshal group member: " year_error), d) else
  match os_WriteFile faults (join memberDir "member.json") (json_indent (json_of_GroupMember member)) d with
  | (Some err, d) => (Some (wrap "failed to write group member file: " err), d)
  | (None, d) =>
  let file := membersListFile (GM_FamilyGroupID member) in
  match readMembersList file d with
  | (Err err, d) => (Some (wrap "failed to read members list: " err), d)
  | (Ok membersList, d) =>
  match writeMembersList file (membersList ++ [GM_ID member]) d with
  | (Some err, d) => (Some (wrap "failed to write members list: " err), d)
  | (None, d) => (None, d)
  end end end end end.

Definition UpdateGroupMember (member : GroupMember) (d : Disk) : option error * Disk :=
  if negb (member_times member) then (Some (wrap "failed to marshal group member: " year_error), d) else
  match os_WriteFile faults (joins groupMemberBasePath [GM_ID member; "member.json"])
          (json_indent (json_of_GroupMember member)) d with
  | (Some err, d) => (Some (wrap "failed to update group member file: " err), d)
  | (None, d) => (None, d)
  end.

Definition RemoveGroupMember (groupID memberID : string) (d : Disk) : option error * Disk :=
  let file := membersListFile groupID in
  match readMembersList file d with
  | (Err err, d) => (Some (wrap "failed to read members list: " err), d)
  | (Ok membersList, d) =>
  match writeMembersList file (List.filter (λ id, negb (bool_decide (id = memberID))) membersList) d with
  | (Some err, d) => (Some (wrap "failed to write updated members list: " err), d)
  | (None, d) =>
  match os_RemoveAll faults (join groupMemberBasePath memberID) d with
  | (Some err, d) => (Some (wrap "failed to delete group member directory: " err), d)
  | (None, d) => (None, d)
  end end end.

Definition DeleteFamilyGroup (groupID : string) (d : Disk) : option error * Disk :=
  match GetFamilyGroup groupID d with
  | (Err err, d) => (Some (wrap "failed to get family group for deletion: " err), d)
  | (Ok None, d) => (None, d)
  | (Ok (Some group), d) =>
  match ListGroupMembers groupID d with
  | (Err err, d) => (Some (wrap "failed to list group members for deletion: " err), d)
  | (Ok members, d) =>
  let d := foldl (λ d m, (RemoveGroupMember groupID (GM_ID m) d).2) d members in
  match os_RemoveAll faults (join familyGroupBasePath groupID) d with
  | (Some err, d) => (Some (wrap "failed to delete family group directory: " err), d)
  | (None, d) =>
  match os_Remove faults (join plexMappingBasePath (FG_PlexUsername group)) d with
  | (Some err, d) => (if IsNotExist err then None else Some (wrap "failed to delete plex mapping: " err), d)
  | (None, d) => (None, d)
  end end end end.
End Family.

(** ** Lemmas: the list of members *)

Definition newline : ascii := "010"%char.

Lemma word_no_newline s : word s → Forall (λ a, a ≠ newline) (bytes s).
Proof. intros [_ Hs]. eapply Forall_impl; [exact Hs|]. by intros a [_ Ha] ->. Qed.

Definition lines (l : list string) : string := Join l (String newline "").

Lemma bytes_lines_cons s t l : bytes (lines (s :: t :: l)) = bytes s ++ newline :: bytes (lines (t :: l)).
Proof. unfold lines. cbn [Join]. by rewrite !bytes_app. Qed.

Lemma Split_lines s l : Forall word (s :: l) → Split (lines (s :: l)) newline = s :: l.
Proof.
  intros Hw. apply Split_Join; [done|]. eapply Forall_impl; [exact Hw|]. intros t. apply word_no_newline.
Qed.

Lemma lines_ends s l :
  Forall word (s :: l) →
  Forall (λ a, is_ascii_byte a = true) (bytes (lines (s :: l))) ∧
  (∃ a k, bytes (lines (s :: l)) = a :: k ∧ space1 a = false) ∧
  ∀ b, last (bytes (lines (s :: l))) = Some b → space1 b = false.
Proof.
  assert (∀ s, word s → Forall (λ a, is_ascii_byte a = true) (bytes s) ∧
    (∃ a k, bytes s = a :: k ∧ space1 a = false) ∧ ∀ b, last (bytes s) = Some b → space1 b = false) as Hword.
  { intros s0 [Hne Hs]. split_and!.
    - eapply Forall_impl; [exact Hs|]. by intros ? [].
    - destruct (bytes s0) as [|a k] eqn:E; [destruct Hne; by rewrite <-(of_bytes_bytes s0), E|].
      exists a, k. by apply Forall_cons in Hs as [[] _].
    - intros b [k Hk]%last_Some. rewrite Hk, Forall_app, Forall_singleton in Hs. tauto. }
  revert s. induction l as [|t l IH]; intros s Hw; apply Forall_cons in Hw as [Hs Hw].
  { unfold lines. simpl. by apply Hword. }
  destruct (IH t Hw) as (H1 & (a & k & E & _) & H3). destruct (Hword s Hs) as (G1 & (a' & k' & E' & S') & _).
  rewrite bytes_lines_cons. split_and!.
  - apply Forall_app. split; [done|]. by constructor.
  - rewrite E'. by eexists a', _.
  - intros b. rewrite last_app_cons, last_cons. intros Hb.
    destruct (last (bytes (lines (t :: l)))) as [b'|] eqn:El; [simplify_eq; by apply H3|].
    apply last_None in El. by rewrite E in El.
Qed.

(** Reading what [writeMembersList] wrote gives the list back. *)
Lemma members_lines l :
  Forall word l →
  List.filter (λ line, negb (bool_decide (line = ""))) (TrimSpace <$> Split (TrimSpace (lines l)) newline) = l.
Proof.
  intros Hw. destruct l as [|s l]; [done|].
  destruct (lines_ends s l Hw) as (H1 & (a & k & E & Sa) & H3).
  assert (TrimSpace (lines (s :: l)) = lines (s :: l)) as ->.
  { rewrite <-(of_bytes_bytes (lines (s :: l))), E. apply TrimSpace_words; rewrite <-?E; done. }
  rewrite Split_lines by done.
  assert (TrimSpace <$> (s :: l) = s :: l) as ->.
  { rewrite <-(list_fmap_id (s :: l)) at 2. apply list_fmap_ext. intros i t Ht. apply TrimSpace_word.
    by eapply Forall_lookup_1 in Hw. }
  apply forallb_filter_id, forallb_forall. intros t Ht. rewrite Forall_forall in Hw.
  apply list_elem_of_In, Hw in Ht as [Ht _]. by apply negb_true_iff, bool_decide_eq_false.
Qed.

(** ** Properties *)

Section Properties.
Context `{UnicodeTables, TT : TimeText, TL : !TimeTextLaws TT, JT : JsonText, JL : !JsonTextLaws JT}.

Definition group_file (id : string) : path := familyGroupBasePath ++ [id; "group.json"].
Definition plex_file (name : string) : path := plexMappingBasePath ++ [name].
Definition member_file (id : string) : path := groupMemberBasePath ++ [id; "member.json"].
Definition list_file (id : string) : path := familyGroupBasePath ++ [id; "members.txt"].

Lemma base_plain (p : path) :
  p ∈ [familyGroupBasePath; groupMemberBasePath; plexMappingBasePath] →
  Forall (λ c, c ≠ "" ∧ c ≠ "." ∧ c ≠ "..") p.
Proof. rewrite !elem_of_cons. intros [->|[->|[->|Hp]]]; [by repeat constructor..|by apply not_elem_of_nil in Hp]. Qed.

Lemma plain_words c : plain c → c ≠ "" ∧ c ≠ "." ∧ c ≠ "..".
Proof. by intros (? & ? & ? & _). Qed.

Lemma plain_json : plain "group.json" ∧ plain "member.json" ∧ plain "members.txt".
Proof. split_and!; apply (bool_decide_unpack _); vm_compute; exact I. Qed.

Lemma joins_two p a b :
  p ∈ [familyGroupBasePath; groupMemberBasePath; plexMappingBasePath] → plain a → plain b →
  joins p [a; b] = p ++ [a; b].
Proof.
  intros Hp Ha Hb. apply joins_plain; [by apply base_plain|].
  apply Forall_cons. split; [done|]. by apply Forall_singleton.
Qed.

Lemma group_file_join id : plain id → joins familyGroupBasePath [id; "group.json"] = group_file id.
Proof. intros Hi. apply joins_two; [left|done|apply plain_json]. Qed.

Lemma plex_file_join n : plain n → join plexMappingBasePath n = plex_file n.
Proof. intros Hn. apply join_plain; [apply base_plain; right; right; left|done]. Qed.

Lemma member_file_join id : plain id → joins groupMemberBasePath [id; "member.json"] = member_file id.
Proof. intros Hi. apply joins_two; [right; left|done|apply plain_json]. Qed.

Lemma list_file_join id : plain id → membersListFile id = list_file id.
Proof. intros Hi. apply joins_two; [left|done|apply plain_json]. Qed.

(** Reading a record that is there. *)
Lemma read_record_file {A} (dec : decoder A) zero e1 e2 p d data a :
  fs_wf (d_fs d) → d_fs d !! p = Some (NFile data) → unmarshal dec zero data = Ok a →
  read_record no_faults dec zero e1 e2 p d = (Ok (Some a), mkDisk (d_fs d) (S (d_calls d))).
Proof. intros Hwf Hp Hu. unfold read_record. rewrite (os_ReadFile_file d p data) by done. by rewrite Hu. Qed.

(** Reading changes no file. *)
Lemma os_ReadFile_fs faults p d : d_fs (os_ReadFile faults p d).2 = d_fs d.
Proof. unfold os_ReadFile, os_call. by destruct (faults (d_calls d)). Qed.

Lemma read_record_fs {A} faults (dec : decoder A) zero e1 e2 p d :
  d_fs (read_record faults dec zero e1 e2 p d).2 = d_fs d.
Proof.
  unfold read_record. pose proof (os_ReadFile_fs faults p d) as Hr.
  by destruct (os_ReadFile faults p d).
Qed.

Lemma GetFamilyGroupByPlex_fs faults n d : d_fs (GetFamilyGroupByPlex faults n d).2 = d_fs d.
Proof.
  unfold GetFamilyGroupByPlex. pose proof (os_ReadFile_fs faults (join plexMappingBasePath n) d) as Hr.
  destruct (os_ReadFile faults _ d) as [[data|err] d1]; simpl in *; [|by rewrite <-Hr].
  rewrite <-Hr. apply read_record_fs.
Qed.

(** The places a group goes to are free: no file where a directory has to be,
    no directory where a file has to be. *)
Record room (fs : FS) (g : FamilyGroup) : Prop := {
  room_wf : fs_wf fs;
  room_group : clear fs (familyGroupBasePath ++ [FG_ID g]);
  room_plex : clear fs plexMappingBasePath;
  room_file : fs !! group_file (FG_ID g) ≠ Some NDir;
  room_map : fs !! plex_file (FG_PlexUsername g) ≠ Some NDir;
}.

Lemma not_prefix_longer (p q : path) : (List.length q < List.length p)%nat → ¬ p `prefix_of` q.
Proof. intros Hl Hp%prefix_length. lia. Qed.

(** The two files a new group leaves. *)
Lemma create_group_disk g d :
  room (d_fs d) g → plain (FG_ID g) → plain (FG_PlexUsername g) → FG_ID g ≠ "by_plex" →
  group_times g = true → (GetFamilyGroupByPlex no_faults (FG_PlexUsername g) d).1 = Ok None →
  ∃ d', CreateFamilyGroup no_faults g d = (None, d') ∧
    d_fs d' !! group_file (FG_ID g) = Some (NFile (json_indent (json_of_FamilyGroup g))) ∧
    d_fs d' !! plex_file (FG_PlexUsername g) = Some (NFile (FG_ID g)) ∧ fs_wf (d_fs d').
Proof.
  intros [Hwf Hcg Hcp Hnf Hnm] Hid Hplex Hby Ht Hnone. unfold CreateFamilyGroup.
  pose proof (GetFamilyGroupByPlex_fs no_faults (FG_PlexUsername g) d) as Hfs.
  destruct (GetFamilyGroupByPlex no_faults (FG_PlexUsername g) d) as [r d0]. simpl in Hnone, Hfs. subst r.
  rewrite (join_plain familyGroupBasePath (FG_ID g)) by (done || apply base_plain; left).
  destruct (os_put d0 (familyGroupBasePath ++ [FG_ID g]) "group.json" (json_indent (json_of_FamilyGroup g)))
    as (d1 & d2 & -> & Hw2 & P2); [by rewrite Hfs|by rewrite Hfs|done|by rewrite Hfs|]. rewrite Ht. cbn [negb].
  rewrite (join_plain (familyGroupBasePath ++ [FG_ID g]) "group.json"); [| |apply plain_json]; cycle 1.
  { apply Forall_app. split; [apply base_plain; left|]. apply Forall_singleton. by apply plain_words. }
  rewrite Hw2, plex_file_join by done. change (parent (plex_file (FG_PlexUsername g))) with plexMappingBasePath.
  destruct (os_put d2 plexMappingBasePath (FG_PlexUsername g) (FG_ID g)) as (d3 & d4 & -> & Hw4 & P4).
  { apply P2. }
  { eapply put_clear; [exact P2|apply not_prefix_longer; simpl; lia|by rewrite Hfs]. }
  { done. }
  { eapply put_no_dir; [exact P2|apply not_prefix_longer; simpl; lia|by rewrite Hfs]. }
  change (plexMappingBasePath ++ [FG_PlexUsername g]) with (plex_file (FG_PlexUsername g)) in *.
  rewrite Hw4. exists d4. split; [done|]. split_and!; [|apply P4..].
  apply (put_other _ _ _ _ P4); [by intros [= ?]|]. exact (put_file _ _ _ _ P2).
Qed.

Lemma read_group_disk g d :
  fs_wf (d_fs d) → d_fs d !! group_file (FG_ID g) = Some (NFile (json_indent (json_of_FamilyGroup g))) →
  plain (FG_ID g) → group_times g = true → json_wf (json_of_FamilyGroup g) = true →
  (GetFamilyGroup no_faults (FG_ID g) d).1 = Ok (Some g).
Proof using TL JL.
  intros Hwf Hf Hid Ht Hj. unfold GetFamilyGroup. rewrite group_file_join by done.
  erewrite read_record_file; [done|done|exact Hf|]. apply unmarshal_group; auto.
Qed.

(** On a disk that works, creating a family group for a Plex account that
    has none stores it: it is found by its id and by the Plex username, and a
    second group for the account is then refused. *)
Lemma disk_family_group (g g' : FamilyGroup) (d : Disk) :
  room (d_fs d) g → plain (FG_ID g) → plain (FG_PlexUsername g) → FG_ID g ≠ "by_plex" → word (FG_ID g) →
  group_times g = true → json_wf (json_of_FamilyGroup g) = true →
  (GetFamilyGroupByPlex no_faults (FG_PlexUsername g) d).1 = Ok None →
  FG_PlexUsername g' = FG_PlexUsername g →
  ∃ d', CreateFamilyGroup no_faults g d = (None, d') ∧
    (GetFamilyGroup no_faults (FG_ID g) d').1 = Ok (Some g) ∧
    (GetFamilyGroupByPlex no_faults (FG_PlexUsername g) d').1 = Ok (Some g) ∧
    (CreateFamilyGroup no_faults g' d').1 =
      Some (Errorf ("plex username " +:+ FG_PlexUsername g +:+ " already exists")).
Proof using TL JL.
  intros [Hwf Hcg Hcp Hnf Hnm] Hid Hplex Hby Hword Ht Hj Hnone Hsame.
  destruct (create_group_disk g d) as (d' & Hrun & Hgf & Hpf & Hwf'); [done..|].
  exists d'. split; [done|]. pose proof (read_group_disk g d' Hwf' Hgf Hid Ht Hj) as Hget.
  assert (Hplx : (GetFamilyGroupByPlex no_faults (FG_PlexUsername g) d').1 = Ok (Some g)).
  { unfold GetFamilyGroupByPlex. rewrite plex_file_join by done.
    rewrite (os_ReadFile_file d' _ (FG_ID g)) by done. rewrite TrimSpace_word by done.
    by apply (read_group_disk g (mkDisk (d_fs d') _)). }
  split_and!; [done..|]. unfold CreateFamilyGroup. rewrite Hsame.
  by destruct (GetFamilyGroupByPlex no_faults _ d') as [r d1]; simpl in Hplx; subst r.
Qed.

(** The member ids a file holds. *)
Definition ids_in (n : option node) : list string :=
  match n with
  | Some (NFile data) =>
      List.filter (λ line, negb (bool_decide (line = ""))) (TrimSpace <$> Split (TrimSpace data) newline)
  | _ => []
  end.

Lemma ids_in_files (fs fs' : FS) f :
  fs !! f ≠ Some NDir → fs' !! f ≠ Some NDir →
  (∀ s, fs' !! f = Some (NFile s) ↔ fs !! f = Some (NFile s)) → ids_in (fs' !! f) = ids_in (fs !! f).
Proof.
  intros H1 H2 Hs. destruct (fs !! f) as [[|s]|] eqn:E; [done|by rewrite (proj2 (Hs s) eq_refl)|].
  destruct (fs' !! f) as [[|s]|]; [done| |done]. by specialize (proj1 (Hs s) eq_refl).
Qed.

Lemma readMembersList_clear p c d :
  fs_wf (d_fs d) → clear (d_fs d) p → at_root (p ++ [c]) = false → d_fs d !! (p ++ [c]) ≠ Some NDir →
  readMembersList no_faults (p ++ [c]) d =
    (Ok (ids_in (d_fs d !! (p ++ [c]))), mkDisk (d_fs d) (S (d_calls d))).
Proof.
  intros Hwf Hc Hr Hn. unfold readMembersList.
  destruct (d_fs d !! (p ++ [c])) as [[|data]|] eqn:E; [done| |].
  - by rewrite (os_ReadFile_file d _ data).
  - unfold os_ReadFile. rewrite os_call_quiet. cbn [fst snd].
    assert (resolve (d_fs d) (p ++ [c]) = inl ENOENT) as ->; [|done].
    destruct (resolve_clear (d_fs d) (p ++ [c])) as [Hres|[Hres _]]; [done| | |done].
    + intros q data Hq. apply prefix_snoc in Hq as [Hq| ->]; [by apply Hc|].
      unfold entry. by rewrite Hr, E.
    + apply resolve_inr in Hres. unfold entry in Hres. by rewrite Hr, E in Hres.
Qed.

Lemma load_members_fs faults ids d : d_fs (load_members faults ids d).2 = d_fs d.
Proof.
  revert d. induction ids as [|id ids IH]; intros d; [done|]. cbn [load_members].
  pose proof (read_record_fs faults dec_GroupMember zeroMember "failed to read group member file: "
    "failed to unmarshal group member: " (joins groupMemberBasePath [id; "member.json"]) d) as Hr.
  unfold GetGroupMember. destruct (read_record faults dec_GroupMember _ _ _ _ d) as [r d1]. simpl in Hr.
  specialize (IH d1). destruct (load_members faults ids d1) as [l d2]. simpl in *. congruence.
Qed.

Lemma GetGroupMemberByTrakt_fs faults g n d : d_fs (GetGroupMemberByTrakt faults g n d).2 = d_fs d.
Proof.
  unfold GetGroupMemberByTrakt, ListGroupMembers, readMembersList.
  pose proof (os_ReadFile_fs faults (membersListFile g) d) as Hr.
  destruct (os_ReadFile faults _ d) as [[data|err] d1]; simpl in Hr |- *.
  - match goal with |- context [load_members faults ?l d1] =>
      pose proof (load_members_fs faults l d1); destruct (load_members faults l d1) end. simpl in *. congruence.
  - by destruct (IsNotExist err).
Qed.

(** The places a member goes to are free. *)
Record member_room (fs : FS) (m : GroupMember) : Prop := {
  mroom_wf : fs_wf fs;
  mroom_dir : clear fs (groupMemberBasePath ++ [GM_ID m]);
  mroom_group : clear fs (familyGroupBasePath ++ [GM_FamilyGroupID m]);
  mroom_file : fs !! member_file (GM_ID m) ≠ Some NDir;
  mroom_list : fs !! list_file (GM_FamilyGroupID m) ≠ Some NDir;
}.

(** C27: on a disk that works, adding a member whose Trakt name is new in its
    group appends its id to the members of the group and stores the member, but
    without its access and refresh tokens: reading it back gives a member with
    both tokens empty.  The id is the name of a file, the names are valid
    UTF-8, and the times lie in the years 0-9999. *)
Theorem disk_member_loses_tokens (m : GroupMember) (ids : list string) (d : Disk) :
  member_room (d_fs d) m → plain (GM_ID m) → word (GM_ID m) → plain (GM_FamilyGroupID m) →
  member_times m = true → json_wf (json_of_GroupMember m) = true → Forall word ids →
  (readMembersList no_faults (membersListFile (GM_FamilyGroupID m)) d).1 = Ok ids →
  GM_TraktUsername m = "" ∨
    (GetGroupMemberByTrakt no_faults (GM_FamilyGroupID m) (GM_TraktUsername m) d).1 = Ok None →
  ∃ d', AddGroupMember no_faults m d = (None, d') ∧
    (GetGroupMember no_faults (GM_ID m) d').1 =
      Ok (Some (mkGM (GM_ID m) (GM_FamilyGroupID m) (GM_TempLabel m) (GM_TraktUsername m) "" ""
                     (GM_TokenExpiry m) (GM_AuthorizationStatus m) (GM_CreatedAt m))) ∧
    (readMembersList no_faults (membersListFile (GM_FamilyGroupID m)) d').1 = Ok (ids ++ [GM_ID m]).
Proof using TL JL.
  intros [Hwf Hcm Hcg Hnf Hnl] Hid Hword Hfg Ht Hj Hids Hread Hdup.
  rewrite list_file_join in Hread |- * by done.
  change (list_file (GM_FamilyGroupID m)) with ((familyGroupBasePath ++ [GM_FamilyGroupID m]) ++ ["members.txt"]) in *.
  set (gdir := familyGroupBasePath ++ [GM_FamilyGroupID m]) in *.
  rewrite (readMembersList_clear gdir) in Hread by done. simpl in Hread. injection Hread as Hids_in.
  unfold AddGroupMember at 1. set (check := if bool_decide _ then _ else _).
  assert (∃ d0, check = (None, d0) ∧ d_fs d0 = d_fs d) as (d0 & -> & Hfs).
  { unfold check. case_bool_decide as Hempty; [by exists d|]. destruct Hdup as [|Hdup]; [done|].
    pose proof (GetGroupMemberByTrakt_fs no_faults (GM_FamilyGroupID m) (GM_TraktUsername m) d) as Hg.
    destruct (GetGroupMemberByTrakt no_faults _ _ d) as [r d1]. simpl in *. subst r. by exists d1. }
  rewrite (join_plain groupMemberBasePath) by (done || apply base_plain; right; left).
  set (mdir := groupMemberBasePath ++ [GM_ID m]) in *.
  destruct (os_put d0 mdir "member.json" (json_indent (json_of_GroupMember m))) as (d1 & d2 & -> & Hw2 & P2);
    [by rewrite Hfs|by rewrite Hfs|done|by rewrite Hfs|].
  rewrite Ht. cbn [negb]. rewrite (join_plain mdir "member.json"); [| |apply plain_json]; cycle 1.
  { apply Forall_app. split; [apply base_plain; right; left|]. apply Forall_singleton. by apply plain_words. }
  rewrite Hw2, list_file_join by done. change (list_file (GM_FamilyGroupID m)) with (gdir ++ ["members.txt"]).
  assert (Hn2 : d_fs d2 !! (gdir ++ ["members.txt"]) ≠ Some NDir).
  { eapply put_no_dir; [exact P2|apply not_prefix_longer; simpl; lia|by rewrite Hfs]. }
  assert (Hc2 : clear (d_fs d2) gdir).
  { eapply put_clear; [exact P2|apply not_prefix_longer; simpl; lia|by rewrite Hfs]. }
  rewrite (readMembersList_clear gdir "members.txt" d2) by (done || apply P2).
  assert (ids_in (d_fs d2 !! (gdir ++ ["members.txt"])) = ids) as ->.
  { rewrite <-Hids_in, <-Hfs. apply ids_in_files; [by rewrite Hfs|done|].
    intros s. by apply (put_other _ _ _ _ P2). }
  unfold writeMembersList. rewrite parent_snoc. set (d3 := mkDisk _ _).
  destruct (os_put d3 gdir "members.txt" (lines (ids ++ [GM_ID m]))) as (d4 & d5 & -> & Hw5 & P5);
    [apply P2|done..|].
  unfold lines in Hw5. change (String newline "") with (String "010" "") in Hw5. rewrite Hw5.
  exists d5. split; [done|]. split.
  - unfold GetGroupMember. rewrite member_file_join by done.
    rewrite (read_record_file _ _ _ _ _ d5 (json_indent (json_of_GroupMember m)) (without_tokens m));
      [done|apply P5| |apply unmarshal_member; auto].
    apply (put_other _ _ _ _ P5); [by intros [= ?]|]. exact (put_file _ _ _ _ P2).
  - rewrite readMembersList_clear; [|apply P5| |done|by rewrite (put_file _ _ _ _ P5)].
    + rewrite (put_file _ _ _ _ P5). simpl. f_equal.
      apply (members_lines (ids ++ [GM_ID m])). apply Forall_app. by split; [|constructor].
    + eapply put_clear; [exact P5|apply not_prefix_longer; simpl; lia|done].
Qed.
End Properties.

(** ** Examples *)

#[local] Existing Instances ascii_tables decimal_time tree_text.

Definition blank_disk : Disk := mkDisk ∅ 0.
Definition sample_group : FamilyGroup := mkFG "g1" "family" 0 0.
Definition sample_member : GroupMember :=
  mkGM "m1" "g1" "Kid" "" "access" "refresh" None "authorized" 0.

Lemma blank_clear p : clear (d_fs blank_disk) p.
Proof. intros q data _. unfold entry. by destruct (at_root q). Qed.

Lemma plain_word_sample (s : string) :
  bool_decide (plain s ∧ s ≠ "" ∧ Forall (λ a, is_ascii_byte a = true ∧ space1 a = false) (bytes s)) = true →
  plain s ∧ word s.
Proof. intros Hs. apply bool_decide_eq_true in Hs. exact Hs. Qed.

Lemma disk_family_group_witness :
  ∃ d', CreateFamilyGroup no_faults sample_group blank_disk = (None, d') ∧
    (GetFamilyGroupByPlex no_faults "family" d').1 = Ok (Some sample_group).
Proof.
  destruct (plain_word_sample "g1" eq_refl) as [Hp Hw].
  destruct (disk_family_group (TL:=decimal_time_laws) (JL:=tree_text_laws) sample_group sample_group blank_disk)
    as (d' & H1 & _ & H2 & _).
  - split; [apply fs_wf_empty|apply blank_clear|apply blank_clear|done|done].
  - exact Hp.
  - exact (proj1 (plain_word_sample "family" eq_refl)).
  - discriminate.
  - exact Hw.
  - reflexivity.
  - vm_compute. reflexivity.
  - reflexivity.
  - reflexivity.
  - exists d'. split; [exact H1|exact H2].
Defined.

Lemma disk_member_loses_tokens_witness :
  ∃ d', AddGroupMember no_faults sample_member blank_disk = (None, d') ∧
    (GetGroupMember no_faults "m1" d').1 =
      Ok (Some (mkGM "m1" "g1" "Kid" "" "" "" None "authorized" 0)).
Proof.
  destruct (plain_word_sample "m1" eq_refl) as [Hp Hw].
  destruct (disk_member_loses_tokens (TL:=decimal_time_laws) (JL:=tree_text_laws) sample_member [] blank_disk)
    as (d' & H1 & H2 & _).
  - split; [apply fs_wf_empty|apply blank_clear|apply blank_clear|done|done].
  - exact Hp.
  - exact Hw.
  - exact (proj1 (plain_word_sample "g1" eq_refl)).
  - reflexivity.
  - vm_compute. reflexivity.
  - constructor.
  - reflexivity.
  - left. reflexivity.
  - exists d'. split; [exact H1|exact H2].
Defined.
