(* ===== verification/Redis.v ===== *)
(** * [RedisStore] ([lib/store/redis.go])

    The store sends commands to a Redis server through the go-redis client; the
    server and the client library are the class [Redis]: a pipeline of commands
    gets a list of replies.  A single command is a pipeline of one.  The scores
    of the queue are whole seconds, which a float64 holds exactly for the years
    0-9999 that [serializeEvent] accepts, so they are integers here. *)

From S2P Require Import Prelude GoLib Float Json Instances Common Entities Buffers Codec Fallback.

Open Scope Z_scope.

(** ** Commands and replies *)

(** Patterns are a prefix followed by a star; [Scan] asks for about 100 keys. *)
Inductive cmd :=
| CPing
| CGet (key : string)
| CSet (key value : string) (ttl : Duration)
| CDel (keys : list string)
| CExists (key : string)
| CExpire (key : string) (ttl : Duration)
| CHSet (key field value : string)
| CHGetAll (key : string)
| CKeys (prefix : string)
| CScan (cursor : Z) (prefix : string)
| CZAdd (key : string) (score : Z) (member : string)
| CZRem (key member : string)
| CZCard (key : string)
| CZPopMin (key : string) (count : Z)
| CZRange (key : string) (start stop : Z)
| CSAdd (key member : string)
| CSRem (key member : string)
| CSMembers (key : string).

Inductive reply :=
| RErr (e : error)
| RNil
| RStatus
| RInt (n : Z)
| RBulk (s : string)
| RList (l : list string)
| RPairs (l : list (string * Z))
| RHash (h : gmap string string)
| RScan (keys : list string) (cursor : Z).

Class Redis (R : Type) := { r_do : list cmd → R → list reply * R }.

(** [redis.Nil], the error of a command whose key is missing. *)
Definition RedisNil : error := Sentinel "redis: nil".
Definition protocol_error : error := Errorf "redis: unexpected reply".

Section Client.
Context {R : Type} `{Redis R}.

Definition do1 (c : cmd) (r : R) : reply * R :=
  let '(l, r) := r_do [c] r in (match l with [rep] => rep | _ => RErr protocol_error end, r).

(** The error of a reply, and of a pipeline: that of its first failed command. *)
Definition reply_error (rep : reply) : option error :=
  match rep with RErr e => Some e | RNil => Some RedisNil | _ => None end.
Definition exec (cs : list cmd) (r : R) : option error * R :=
  let '(l, r) := r_do cs r in (head (omap reply_error l), r).

Definition as_string (rep : reply) : result string :=
  match rep with RBulk s => Ok s | RNil => Err RedisNil | RErr e => Err e | _ => Err protocol_error end.
Definition as_int (rep : reply) : result Z :=
  match rep with RInt n => Ok n | RNil => Err RedisNil | RErr e => Err e | _ => Err protocol_error end.
Definition as_list (rep : reply) : result (list string) :=
  match rep with RList l => Ok l | RNil => Err RedisNil | RErr e => Err e | _ => Err protocol_error end.
Definition as_pairs (rep : reply) : result (list (string * Z)) :=
  match rep with RPairs l => Ok l | RNil => Err RedisNil | RErr e => Err e | _ => Err protocol_error end.
Definition as_hash (rep : reply) : result (gmap string string) :=
  match rep with RHash h => Ok h | RNil => Err RedisNil | RErr e => Err e | _ => Err protocol_error end.
Definition as_scan (rep : reply) : result (list string * Z) :=
  match rep with RScan l c => Ok (l, c) | RNil => Err RedisNil | RErr e => Err e | _ => Err protocol_error end.
End Client.

Definition wrap (pre : string) (err : error) : error := Wrapf pre err "".

Definition userPrefix : string := "goplaxt:user:".
Definition userMapPrefix : string := "goplaxt:usermap:".
Definition accessTokenTimeout : Duration := 75 * 24 * Hour.
Definition scrobbleTimeout : Duration := 3 * Hour.
Definition scrobbleKey (playerUuid ratingKey : string) : string :=
  "goplaxt:scrobble:" +:+ playerUuid +:+ ":" +:+ ratingKey.
Definition queueKeyPrefix : string := "goplaxt:queue:".

Definition RedisStore (R : Type) : Type := Buffered R.
Definition NewRedisStore {R} (client : R) : RedisStore R := mkBuffered client ∅.

Section Store.
Context {R : Type} `{UnicodeTables, TimeText, JsonText, Redis R}.

(** [NewRedisClient] panics when the server does not answer. *)
Definition NewRedisClient (r : R) : outcome R :=
  match do1 CPing r with
  | (rep, r) => match reply_error rep with Some err => Panic (Error err) | None => Ret r end
  end.

(** [NewRedisClientWithUrl] also panics on an address it cannot parse; [client]
    is what [redis.ParseURL] and [redis.NewClient] make of it. *)
Definition NewRedisClientWithUrl (client : string → result R) (url : string) : outcome R :=
  match client url with
  | Err err => Panic (Error err)
  | Ok r => NewRedisClient r
  end.

Definition Ping (r : R) : option error * R := let '(rep, r) := do1 CPing r in (reply_error rep, r).

(** ** Users *)

Definition GetUser (id : string) (r : R) : option User * R :=
  let '(rep, r) := do1 (CHGetAll (userPrefix +:+ id)) r in
  match as_hash rep with
  | Err _ => (None, r)
  | Ok data =>
      let field f := default "" (data !! f) in
      match parse_date (field "updated") with
      | None => (None, r)
      | Some updated =>
          let later := time_Add updated (90 * 24 * Hour) in
          let tokenExpiry :=
            match data !! "token_expiry" with
            | Some s => if bool_decide (s = "") then later else default later (parse_time s)
            | None => later
            end in
          (Some (mkUser id (ToLower (field "username")) (field "access") (field "refresh")
                   (field "trakt_display_name") updated tokenExpiry true), r)
      end
  end.

Definition GetUserByName (username : string) (r : R) : option User * R :=
  let '(rep, r) := do1 (CGet (userMapPrefix +:+ username)) r in
  match as_string rep with
  | Err _ => (None, r)
  | Ok id => GetUser id r
  end.

Definition WriteUser (user : User) (r : R) : outcome unit * R :=
  let '(currentUser, r) := GetUserByName (U_Username user) r in
  let key := userPrefix +:+ U_ID user in
  let mapKey := userMapPrefix +:+ U_Username user in
  let pipe := [CHSet key "username" (U_Username user); CHSet key "access" (U_AccessToken user);
               CHSet key "refresh" (U_RefreshToken user); CHSet key "updated" (format_date (U_Updated user));
               CHSet key "trakt_display_name" (U_TraktDisplayName user);
               CHSet key "token_expiry" (format_rfc3339 (U_TokenExpiry user));
               CExpire key accessTokenTimeout] ++
              match currentUser with
              | None => [CSet mapKey (U_ID user) accessTokenTimeout]
              | Some c => if bool_decide (U_ID c = U_ID user) then [CExpire mapKey accessTokenTimeout] else []
              end in
  let '(err, r) := exec pipe r in
  (match err with Some e => Panic (Error e) | None => Ret tt end, r).

Definition DeleteUser (id username : string) (r : R) : bool * R :=
  let '(err, r) := exec [CDel [userPrefix +:+ id]; CDel [userMapPrefix +:+ username]] r in
  (match err with None => true | Some _ => false end, r).

Fixpoint load_users (keys : list string) (r : R) : list User * R :=
  match keys with
  | [] => ([], r)
  | key :: keys =>
      let id := TrimPrefix key userPrefix in
      if bool_decide (id = "") then load_users keys r else
      let '(user, r) := GetUser id r in
      let '(users, r) := load_users keys r in
      (match user with Some u => u :: users | None => users end, r)
  end.

Definition newer_user (a b : User) : Prop := U_Updated b ≤ U_Updated a.
#[global] Instance newer_user_dec : RelDecision newer_user.
Proof. intros a b. apply Z.le_dec. Defined.

Definition ListUsers (r : R) : outcome (list User) * R :=
  let '(rep, r) := do1 (CKeys userPrefix) r in
  match as_list rep with
  | Err err => (Panic (Error err), r)
  | Ok keys => let '(users, r) := load_users keys r in (Ret (merge_sort newer_user users), r)
  end.

(** ** Playback cache *)

(** [partial] is what a failed decoding leaves in the item. *)
Definition GetScrobbleBody (partial : json → CacheItem) (playerUuid ratingKey : string) (r : R)
    : outcome CacheItem * R :=
  let '(rep, r) := do1 (CGet (scrobbleKey playerUuid ratingKey)) r in
  match as_string rep with
  | Err _ => (Ret emptyCacheItem, r)
  | Ok cache =>
      (match json_parse cache with
       | None => Ret emptyCacheItem
       | Some j => match dec_CacheItem j emptyCacheItem with
                   | DOk item => Ret item
                   | DErr => Ret (partial j)
                   | DPanic why => Panic why
                   end
       end, r)
  end.

Definition WriteScrobbleBody (item : CacheItem) (r : R) : R :=
  (do1 (CSet (scrobbleKey (PlayerUuid item) (RatingKey item)) (json_print (json_of_CacheItem item))
          scrobbleTimeout) r).2.

(** ** Scrobble queue *)

Definition queueKey (userID : string) : string := queueKeyPrefix +:+ userID.

Definition GetQueueSize (userID : string) (r : R) : result Z * R :=
  let '(rep, r) := do1 (CZCard (queueKey userID)) r in
  (match as_int rep with
   | Err err => if bool_decide (err = RedisNil) then Ok 0
                else Err (wrap "failed to get queue size from redis: " err)
   | Ok count => Ok count
   end, r).

(** One attempt to enqueue an event. *)
Definition tryStore (src : Sources) (event : QueuedScrobbleEvent) (r : R) : attempt * R :=
  match prepare (src_rnd src) (src_now src) event with
  | Err err => (Refused err, r)
  | Ok event =>
  match serializeEvent event with
  | Err err => (Refused (wrap "failed to serialize event: " err), r)
  | Ok data =>
  let key := queueKey (E_UserID event) in
  let '(queueSize, r) := GetQueueSize (E_UserID event) r in
  let queueSize := match queueSize with Ok n => n | Err _ => 0 end in
  let r := if maxQueuePerUser <=? queueSize then (do1 (CZPopMin key 1) r).2 else r in
  let '(rep, r) := do1 (CZAdd key (Unix (E_CreatedAt event)) data) r in
  match reply_error rep with
  | Some err => (Unavailable event (wrap "failed to add event to redis queue: " err), r)
  | None => (Stored event, r)
  end end end.

Definition EnqueueScrobble (srcs : nat → Sources) (fuel : nat) (event : QueuedScrobbleEvent)
    (st : nat * RedisStore R) : option (outcome (option error * (nat * RedisStore R))) :=
  enqueueWith (λ k, tryStore (srcs k)) fuel event st.

Definition addToFallbackBuffer (userID : string) (event : QueuedScrobbleEvent) (s : RedisStore R)
    : outcome (RedisStore R) := push_fallback userID event s.

Definition flushFallbackBuffer (srcs : nat → Sources) (fuel : nat) (userID : string)
    (st : nat * RedisStore R) : option (outcome (nat * RedisStore R)) :=
  flushWith (EnqueueScrobble srcs fuel) userID st.

(** The members that decode; the others are skipped. *)
Fixpoint decode_events (members : list string) : outcome (list QueuedScrobbleEvent) :=
  match members with
  | [] => Ret []
  | member :: members =>
      e ← deserializeEvent member;
      events ← decode_events members;
      Ret (match e with Ok event => event :: events | Err _ => events end)
  end.

Definition DequeueScrobbles (userID : string) (limit : Z) (r : R)
    : outcome (result (list QueuedScrobbleEvent)) * R :=
  let '(rep, r) := do1 (CZRange (queueKey userID) 0 (wrap64 (limit - 1))) r in
  (match as_pairs rep with
   | Err err => Ret (if bool_decide (err = RedisNil) then Ok []
                     else Err (wrap "failed to read from redis queue: " err))
   | Ok results => events ← decode_events results.*1; Ret (Ok events)
   end, r).

(** The loop over [SCAN]: [fuel] bounds the number of rounds, [None] meaning
    that it did not suffice. *)
Fixpoint scan_keys (fuel : nat) (cursor : Z) (keys : list string) (r : R)
    : option (result (list string) * R) :=
  match fuel with
  | O => None
  | S fuel =>
      let '(rep, r) := do1 (CScan cursor queueKeyPrefix) r in
      match as_scan rep with
      | Err err => Some (Err (wrap "failed to scan redis keys: " err), r)
      | Ok (scanKeys, cursor) =>
          let keys := keys ++ scanKeys in
          if cursor =? 0 then Some (Ok keys, r) else scan_keys fuel cursor keys r
      end
  end.

(** The first member of a queue that decodes to the event. *)
Fixpoint find_member (eventID : string) (members : list (string * Z))
    : outcome (option (string * Z * QueuedScrobbleEvent)) :=
  match members with
  | [] => Ret None
  | (member, score) :: members =>
      e ← deserializeEvent member;
      match e with
      | Ok event => if bool_decide (E_ID event = eventID) then Ret (Some (member, score, event))
                    else find_member eventID members
      | Err _ => find_member eventID members
      end
  end.

(** The queues in the order of [keys], until one holds the event; one that
    cannot be read is skipped. *)
Fixpoint find_event (eventID : string) (keys : list string) (r : R)
    : outcome (option (string * (string * Z * QueuedScrobbleEvent))) * R :=
  match keys with
  | [] => (Ret None, r)
  | key :: keys =>
      let '(rep, r) := do1 (CZRange key 0 (-1)) r in
      match as_pairs rep with
      | Err _ => find_event eventID keys r
      | Ok members =>
          match find_member eventID members with
          | Panic why => (Panic why, r)
          | Ret (Some found) => (Ret (Some (key, found)), r)
          | Ret None => find_event eventID keys r
          end
      end
  end.

Definition DeleteQueuedScrobble (fuel : nat) (eventID : string) (r : R)
    : option (outcome (option error) * R) :=
  match scan_keys fuel 0 [] r with
  | None => None
  | Some (Err err, r) => Some (Ret (Some err), r)
  | Some (Ok keys, r) =>
      Some (match find_event eventID keys r with
            | (Panic why, r) => (Panic why, r)
            | (Ret None, r) => (Ret None, r)
            | (Ret (Some (key, (member, _, _))), r) =>
                let '(rep, r) := do1 (CZRem key member) r in
                (Ret (wrap "failed to delete event from redis: " <$> reply_error rep), r)
            end)
  end.

Definition UpdateQueuedScrobbleRetry (fuel : nat) (now : Time) (eventID : string) (retryCount : Z) (r : R)
    : option (outcome (option error) * R) :=
  match scan_keys fuel 0 [] r with
  | None => None
  | Some (Err err, r) => Some (Ret (Some err), r)
  | Some (Ok keys, r) =>
      Some (match find_event eventID keys r with
            | (Panic why, r) => (Panic why, r)
            | (Ret None, r) => (Ret (Some (Errorf ("event not found: " +:+ eventID))), r)
            | (Ret (Some (key, (member, score, event))), r) =>
                match serializeEvent (set_E_Retry retryCount now event) with
                | Err err => (Ret (Some (wrap "failed to serialize updated event: " err)), r)
                | Ok updatedData =>
                    let '(err, r) := exec [CZRem key member; CZAdd key score updatedData] r in
                    (Ret (wrap "failed to update event in redis: " <$> err), r)
                end
            end)
  end.

Definition GetQueueStatus (now : Time) (userID : string) (r : R)
    : outcome (QueueStatus * option error) * R :=
  match GetQueueSize userID r with
  | (Err err, r) => (Ret (mkQueueStatus userID 0 0 "live", Some err), r)
  | (Ok queueSize, r) =>
      if 0 <? queueSize then
        match DequeueScrobbles userID 1 r with
        | (Panic why, r) => (Panic why, r)
        | (Ret (Ok (event :: _)), r) =>
            (Ret (mkQueueStatus userID queueSize (time_Sub now (E_CreatedAt event)) "live", None), r)
        | (Ret _, r) => (Ret (mkQueueStatus userID queueSize 0 "live", None), r)
        end
      else (Ret (mkQueueStatus userID queueSize 0 "live", None), r)
  end.

Fixpoint users_with_events (keys : list string) (r : R) : list string * R :=
  match keys with
  | [] => ([], r)
  | key :: keys =>
      let userID := TrimPrefix key queueKeyPrefix in
      if bool_decide (userID = "") then users_with_events keys r else
      let '(queueSize, r) := GetQueueSize userID r in
      let '(userIDs, r) := users_with_events keys r in
      (match queueSize with Ok n => if 0 <? n then userID :: userIDs else userIDs | Err _ => userIDs end, r)
  end.

Definition ListUsersWithQueuedEvents (fuel : nat) (r : R) : option (result (list string) * R) :=
  match scan_keys fuel 0 [] r with
  | None => None
  | Some (Err err, r) => Some (Err err, r)
  | Some (Ok keys, r) => let '(userIDs, r) := users_with_events keys r in Some (Ok userIDs, r)
  end.

Definition PurgeQueueForUser (userID : string) (r : R) : result Z * R :=
  match GetQueueSize userID r with
  | (Err err, r) => (Err err, r)
  | (Ok queueSize, r) =>
      let '(rep, r) := do1 (CDel [queueKey userID]) r in
      match reply_error rep with
      | Some err => (Err (wrap "failed to purge redis queue: " err), r)
      | None => (Ok queueSize, r)
      end
  end.

(** ** Retry queue and notifications: not supported by this store *)

Definition EnqueueRetryItem (item : RetryQueueItem) : option error := Some ErrNotSupported.
Definition ListDueRetryItems (now : Time) (limit : Z) : result (list RetryQueueItem) := Err ErrNotSupported.
Definition MarkRetrySuccess (id : string) : option error := Some ErrNotSupported.
Definition MarkRetryFailure (id : string) (n : Z) (next : Time) (lastErr : string) (permanent : bool)
    : option error := Some ErrNotSupported.
Definition CreateNotification (n : Notification) : option error := Some ErrNotSupported.
Definition GetNotifications (familyGroupID : string) (includeDismissed : bool)
    : result (list Notification) := Err ErrNotSupported.
Definition DismissNotification (id : string) : option error := Some ErrNotSupported.
Definition DeleteNotification (id : string) : option error := Some ErrNotSupported.
End Store.
