(* ===== verification/RedisServer.v ===== *)
(** * What [RedisStore] relies on of the Redis server

    The documented behaviour of the commands the store sends: keys hold a
    string, a hash, a sorted set or a set, some with a deadline after which they
    are gone; an empty collection does not exist; a command on a key of another
    type is an error and changes nothing; sorted sets are ordered by score, then
    by the bytes of the member; the order of [KEYS] and [SMEMBERS] is not
    specified; a full iteration of [SCAN] returns every key that exists
    throughout, in any number of rounds and maybe more than once. *)

From S2P Require Import Prelude GoLib Text Float Json Instances Common Entities Buffers Codec Fallback Redis.

Open Scope Z_scope.

(** ** Keys and their values *)

Inductive value :=
| VStr (s : string)
| VHash (h : gmap string string)
| VZset (z : gmap string Z)
| VSet (m : gset string).

Abbreviation Keys := (gmap string (value * option Time)).

Definition alive (t : Time) (v : value * option Time) : bool :=
  match v.2 with Some deadline => t <? deadline | None => true end.
(** The keys that exist at [t]. *)
Definition live (t : Time) (db : Keys) : Keys := filter (λ kv, alive t kv.2 = true) db.

Definition zset_le (a b : string * Z) : Prop := a.2 < b.2 ∨ (a.2 = b.2 ∧ String.le a.1 b.1).
#[global] Instance zset_le_dec : RelDecision zset_le.
Proof. unfold RelDecision, zset_le. intros a b. apply _. Defined.
Definition zlist (z : gmap string Z) : list (string * Z) := merge_sort zset_le (map_to_list z).

(** The elements from [start] to [stop], negative indices counting from the end. *)
Definition zslice {A} (start stop : Z) (l : list A) : list A :=
  let n := Z.of_nat (List.length l) in
  let a := Z.max 0 (if start <? 0 then n + start else start) in
  let b := Z.min (n - 1) (if stop <? 0 then n + stop else stop) in
  take (Z.to_nat (b - a + 1)) (drop (Z.to_nat a) l).

Definition wrong_type : reply :=
  RErr (Errorf "WRONGTYPE Operation against a key holding the wrong kind of value").

Definition the_hash (v : value) : option (gmap string string) := match v with VHash h => Some h | _ => None end.
Definition the_zset (v : value) : option (gmap string Z) := match v with VZset z => Some z | _ => None end.
Definition the_set (v : value) : option (gset string) := match v with VSet m => Some m | _ => None end.

(** The collection under a key, empty when the key is missing; [None] when the
    key is of another type. *)
Definition collection {A} `{Empty A} (the : value → option A) (key : string) (db : Keys) : option A :=
  match db !! key with Some (v, _) => the v | None => Some ∅ end.

Definition answering {A} (c : option A) (f : A → reply) : reply :=
  match c with Some a => f a | None => wrong_type end.
Definition count (b : bool) : reply := RInt (if b then 1 else 0).

Definition keys_with (prefix : string) (db : Keys) : list string :=
  List.filter (λ k, HasPrefix k prefix) (map_to_list db).*1.

(** The answer to a command, with one of the possible orders. *)
Definition answer (c : cmd) (db : Keys) : reply :=
  match c with
  | CPing | CSet _ _ _ => RStatus
  | CGet k => match db !! k with None => RNil | Some (VStr s, _) => RBulk s | Some _ => wrong_type end
  | CDel ks => RInt (Z.of_nat (size (dom db ∩ list_to_set ks : gset string)))
  | CExists k | CExpire k _ => count (bool_decide (is_Some (db !! k)))
  | CHSet k f _ => answering (collection the_hash k db) (λ h, count (bool_decide (h !! f = None)))
  | CHGetAll k => answering (collection the_hash k db) RHash
  | CKeys prefix => RList (keys_with prefix db)
  | CScan _ prefix => RScan (keys_with prefix db) 0
  | CZAdd k _ m => answering (collection the_zset k db) (λ z, count (bool_decide (z !! m = None)))
  | CZRem k m => answering (collection the_zset k db) (λ z, count (bool_decide (is_Some (z !! m))))
  | CZCard k => answering (collection the_zset k db) (λ z, RInt (Z.of_nat (size z)))
  | CZPopMin k n => answering (collection the_zset k db) (λ z, RPairs (take (Z.to_nat n) (zlist z)))
  | CZRange k start stop => answering (collection the_zset k db) (λ z, RPairs (zslice start stop (zlist z)))
  | CSAdd k m => answering (collection the_set k db) (λ s, count (bool_decide (m ∉ s)))
  | CSRem k m => answering (collection the_set k db) (λ s, count (bool_decide (m ∈ s)))
  | CSMembers k => answering (collection the_set k db) (λ s, RList (elements s))
  end.

(** Storing a collection keeps the deadline of its key; an empty one is gone. *)
Definition store_at (k : string) (v : value) (db : Keys) : Keys := <[k := (v, db !! k ≫= snd)]> db.
Definition update_at {A} `{Empty A} (the : value → option A) (mk : A → value) (is_empty : A → bool)
    (k : string) (f : A → A) (db : Keys) : Keys :=
  match collection the k db with
  | None => db
  | Some a => if is_empty (f a) then delete k db else store_at k (mk (f a)) db
  end.
Definition update_hash := update_at the_hash VHash (λ h, bool_decide (h = ∅)).
Definition update_zset := update_at the_zset VZset (λ z, bool_decide (z = ∅)).
Definition update_set := update_at the_set VSet (λ s, bool_decide (s = ∅)).

(** What a command leaves at [t]. *)
Definition effect (t : Time) (c : cmd) (db : Keys) : Keys :=
  match c with
  | CSet k v ttl => <[k := (VStr v, if ttl =? 0 then None else Some (t + ttl))]> db
  | CDel ks => foldr delete db ks
  | CExpire k ttl => alter (λ v, (v.1, Some (t + ttl))) k db
  | CHSet k f v => update_hash k <[f := v]> db
  | CZAdd k score m => update_zset k <[m := score]> db
  | CZRem k m => update_zset k (delete m) db
  | CZPopMin k n => update_zset k (λ z, list_to_map (drop (Z.to_nat n) (zlist z))) db
  | CSAdd k m => update_set k (λ s, {[m]} ∪ s) db
  | CSRem k m => update_set k (λ s, s ∖ {[m]}) db
  | _ => db
  end.

Definition allowed (c : cmd) (db : Keys) (rep : reply) : Prop :=
  match c with
  | CKeys _ | CSMembers _ =>
      match answer c db with RList l => ∃ l', rep = RList l' ∧ l' ≡ₚ l | a => rep = a end
  | CScan _ prefix => ∃ ks cursor, rep = RScan ks cursor ∧ ks ⊆ keys_with prefix db
  | _ => rep = answer c db
  end.

(** A pipeline: the commands run in order, time passing between them. *)
Inductive serves : Time → Keys → list cmd → list reply → Time → Keys → Prop :=
| serves_nil t t' db : t ≤ t' → serves t db [] [] t' (live t' db)
| serves_cons t t1 t2 db c cs rep reps db2 :
    t ≤ t1 → allowed c (live t1 db) rep →
    serves t1 (effect t1 c (live t1 db)) cs reps t2 db2 →
    serves t db (c :: cs) (rep :: reps) t2 db2.

(** A full iteration of [SCAN] from a cursor, by the batches it returns. *)
Inductive full_scan {R} `{Redis R} (prefix : string) : R → Z → list (list string) → R → Prop :=
| scan_last r c ks r' :
    r_do [CScan c prefix] r = ([RScan ks 0], r') → full_scan prefix r c [ks] r'
| scan_more r c ks c' r1 batches r' :
    r_do [CScan c prefix] r = ([RScan ks c'], r1) → c' ≠ 0 → full_scan prefix r1 c' batches r' →
    full_scan prefix r c (ks :: batches) r'.

(** The states in which the server answers, its clock and its keys, and a bound
    on the rounds of a full iteration. *)
Class RedisLaws (R : Type) `{RE : Redis R} := {
  r_up : R → Prop;
  r_now : R → Time;
  r_keys : R → Keys;
  r_rounds : R → nat;
  r_serves cs r : r_up r → ∃ reps r', r_do cs r = (reps, r') ∧ r_up r' ∧
    serves (r_now r) (r_keys r) cs reps (r_now r') (r_keys r');
  r_scans prefix r : r_up r → ∃ batches r', full_scan prefix r 0 batches r' ∧
    (List.length batches ≤ r_rounds r)%nat ∧
    ∀ k v, r_keys r !! k = Some (v, None) → HasPrefix k prefix = true → k ∈ mjoin batches;
}.

(** ** Lemmas: keys and deadlines *)

Lemma lookup_live t db k e : live t db !! k = Some e ↔ db !! k = Some e ∧ alive t e = true.
Proof. apply map_lookup_filter_Some. Qed.

(** A key that has no deadline, if it exists. *)
Definition persistent (db : Keys) (k : string) : Prop := ∀ v d, db !! k = Some (v, d) → d = None.

Lemma live_persistent t db k : persistent db k → live t db !! k = db !! k.
Proof.
  intros Hp. apply option_eq. intros [v d]. rewrite lookup_live. split; [by intros []|].
  intros Hl. split; [done|]. by rewrite (Hp _ _ Hl).
Qed.

Lemma live_None t db k : db !! k = None → live t db !! k = None.
Proof. intros Hn. apply eq_None_not_Some. intros [e He]. apply lookup_live in He as [? _]. congruence. Qed.

Lemma live_live t t' db : t ≤ t' → live t' (live t db) = live t' db.
Proof.
  intros Ht. apply map_eq. intros k. apply option_eq. intros [v d]. rewrite !lookup_live.
  split; [tauto|]. intros [Hl Ha]. split_and!; [done| |done]. unfold alive in *. simpl in *.
  destruct d; [|done]. lia.
Qed.

(** Whether a key is there depends on its own entry only. *)
Lemma live_ext t db db' k : db' !! k = db !! k → live t db' !! k = live t db !! k.
Proof. intros E. apply option_eq. intros e. by rewrite !lookup_live, E. Qed.

Lemma elem_of_keys_with p db k : k ∈ keys_with p db ↔ is_Some (db !! k) ∧ HasPrefix k p = true.
Proof.
  unfold keys_with. rewrite list_elem_of_In, filter_In, <-list_elem_of_In, list_elem_of_fmap.
  split; intros [Hk Hp]; split; try done.
  - destruct Hk as ([k' v] & -> & Hin). apply elem_of_map_to_list in Hin. by eexists.
  - destruct Hk as [v Hv]. exists (k, v). split; [done|]. by apply elem_of_map_to_list.
Qed.

(** ** Lemmas: sorted sets *)

#[global] Instance zset_le_total : Total zset_le.
Proof.
  intros [a x] [b y]. unfold zset_le. simpl. destruct (Z.lt_trichotomy x y) as [?|[->|?]]; [auto| |auto].
  destruct (total String.le a b); auto.
Qed.

#[global] Instance zset_le_trans : Transitive zset_le.
Proof.
  intros [a x] [b y] [c z]. unfold zset_le. simpl.
  intros [?|[-> ?]] [?|[-> ?]]; [left; lia|left; lia|left; lia|right]. split; [done|by etrans].
Qed.

Lemma zlist_perm z : zlist z ≡ₚ map_to_list z.
Proof. apply merge_sort_Permutation. Qed.

Lemma zlist_sorted z : StronglySorted zset_le (zlist z).
Proof. apply (StronglySorted_merge_sort _). Qed.

Lemma zslice_all {A} (l : list A) : zslice 0 (-1) l = l.
Proof.
  unfold zslice. cbn [Z.ltb Z.compare]. rewrite Z.max_id. simpl (Z.to_nat 0). rewrite drop_0.
  apply take_ge. lia.
Qed.

Lemma zslice_first {A} limit (l : list A) : 0 < limit → zslice 0 (limit - 1) l = take (Z.to_nat limit) l.
Proof.
  intros Hl. unfold zslice. rewrite (proj2 (Z.ltb_ge (limit - 1) 0)) by lia.
  cbn [Z.ltb Z.compare]. rewrite Z.max_id. simpl (Z.to_nat 0). rewrite drop_0.
  destruct (decide (limit ≤ Z.of_nat (List.length l))) as [?|?].
  - f_equal. lia.
  - rewrite !take_ge by lia. done.
Qed.

(** ** Lemmas: updates *)

Section Updates.
Context {A : Type} `{Empty A} (the : value → option A) (mk : A → value) (is_empty : A → bool).

Lemma update_at_ne k k' f db : k ≠ k' → update_at the mk is_empty k f db !! k' = db !! k'.
Proof.
  intros Hk. unfold update_at. destruct (collection the k db); [|done]. destruct (is_empty _).
  - by apply lookup_delete_ne.
  - by apply lookup_insert_ne.
Qed.

Lemma update_at_eq k f a db :
  collection the k db = Some a →
  update_at the mk is_empty k f db !! k =
    if is_empty (f a) then None else Some (mk (f a), db !! k ≫= snd).
Proof.
  intros Hc. unfold update_at. rewrite Hc. destruct (is_empty _).
  - apply lookup_delete_eq.
  - apply lookup_insert_eq.
Qed.
End Updates.

Lemma delete_keys_lookup ks (db : Keys) k :
  foldr delete db ks !! k = if bool_decide (k ∈ ks) then None else db !! k.
Proof.
  induction ks as [|k' ks IH]; cbn [foldr].
  - by rewrite bool_decide_eq_false_2 by apply not_elem_of_nil.
  - destruct (decide (k' = k)) as [->|Hd].
    { rewrite lookup_delete_eq. by rewrite bool_decide_eq_true_2 by left. }
    rewrite lookup_delete_ne, IH by done. erewrite (bool_decide_ext (k ∈ k' :: ks) (k ∈ ks)); [done|].
    rewrite elem_of_cons. split; [by intros [->|]|by right].
Qed.

(** ** Lemmas: calls *)

Section Calls.
Context {R : Type} `{RE : Redis R, RL : !RedisLaws R}.

Lemma do1_serves c r :
  r_up r → ∃ t rep r', do1 c r = (rep, r') ∧ r_up r' ∧ r_now r ≤ t ≤ r_now r' ∧
    allowed c (live t (r_keys r)) rep ∧ r_keys r' = live (r_now r') (effect t c (live t (r_keys r))).
Proof.
  intros Hup. destruct (r_serves [c] r Hup) as (reps & r' & E & Hup' & Hs). unfold do1. rewrite E.
  inversion Hs as [|? t1 ? ? ? ? rep reps' db2 Ht Ha Hs']; subst.
  inversion Hs' as [? ? ? Ht'|]; subst. exists t1, rep, r'. done.
Qed.

Lemma exec_serves cs r :
  r_up r → ∃ reps r', exec cs r = (head (omap reply_error reps), r') ∧ r_up r' ∧
    serves (r_now r) (r_keys r) cs reps (r_now r') (r_keys r').
Proof.
  intros Hup. destruct (r_serves cs r Hup) as (reps & r' & E & Hup' & Hs). unfold exec. rewrite E.
  by exists reps, r'.
Qed.

Lemma serves_time t db cs reps t' db' : serves t db cs reps t' db' → t ≤ t'.
Proof. induction 1; lia. Qed.

(** A command that only reads. *)
Lemma do1_read c r :
  (∀ t db, effect t c db = db) → r_up r →
  ∃ t rep r', do1 c r = (rep, r') ∧ r_up r' ∧ r_now r ≤ t ≤ r_now r' ∧
    allowed c (live t (r_keys r)) rep ∧ r_keys r' = live (r_now r') (r_keys r).
Proof.
  intros Hc Hup. destruct (do1_serves c r Hup) as (t & rep & r' & E & Hup' & Ht & Ha & Hk).
  exists t, rep, r'. split_and!; [done..|lia|lia|done|]. rewrite Hk, Hc, live_live by lia. done.
Qed.

(** The replies to the two parts of a pipeline. *)
Lemma serves_app cs1 cs2 t db reps t' db' :
  serves t db (cs1 ++ cs2) reps t' db' →
  ∃ reps1 reps2 t1 db1, reps = reps1 ++ reps2 ∧ serves t db cs1 reps1 t1 db1 ∧ serves t1 db1 cs2 reps2 t' db'.
Proof.
  revert t db reps. induction cs1 as [|c cs1 IH]; intros t db reps Hs; simpl in Hs.
  - exists [], reps, t, (live t db). split_and!; [done|by constructor|].
    inversion Hs; subst.
    + rewrite <-(live_live t t' db) by done. by constructor.
    + eapply serves_cons; [done| |]; by rewrite live_live.
  - inversion Hs as [|? t1 ? ? ? ? rep reps' ? Ht Ha Hs']; subst.
    apply IH in Hs' as (reps1 & reps2 & t2 & db2 & -> & H1 & H2).
    exists (rep :: reps1), reps2, t2, db2. split_and!; [done| |done]. by eapply serves_cons.
Qed.

(** A key that no command of a pipeline writes. *)
Lemma serves_frame k t db cs reps t' db' :
  (∀ c, c ∈ cs → ∀ t db, effect t c db !! k = db !! k) →
  serves t db cs reps t' db' → db' !! k = live t' db !! k.
Proof.
  intros Hc Hs. induction Hs as [|t t1 t2 db c cs rep reps db2 Ht Ha Hs IH]; [done|].
  rewrite IH by (intros; apply Hc; by right). pose proof (serves_time _ _ _ _ _ _ Hs).
  rewrite (live_ext _ (live t1 db)) by (apply Hc; left). by rewrite live_live.
Qed.

(** A property of keys that survives the passing of time and every command of a
    pipeline. *)
Lemma serves_inv (P : Keys → Prop) t db cs reps t' db' :
  (∀ t db, P db → P (live t db)) → (∀ t c db, c ∈ cs → P db → P (effect t c db)) →
  serves t db cs reps t' db' → P db → P db'.
Proof.
  intros Hl Hc Hs. induction Hs as [|t t1 t2 db c cs rep reps db2 Ht Ha Hs IH]; intros HP; [by apply Hl|].
  apply IH; [intros; apply Hc; [by right|done]|]. apply Hc; [left|]. by apply Hl.
Qed.

(** The loop over [SCAN] with enough fuel returns the keys of a full iteration. *)
Lemma scan_keys_full prefix r c batches r' :
  full_scan prefix r c batches r' → prefix = queueKeyPrefix → ∀ fuel acc, (List.length batches ≤ fuel)%nat →
  scan_keys fuel c acc r = Some (Ok (acc ++ mjoin batches), r').
Proof.
  induction 1 as [r c ks r' E|r c ks c' r1 batches r' E Hc Hs IH]; intros -> fuel acc Hf;
    (destruct fuel as [|fuel]; simpl in Hf; [lia|]); simpl; unfold do1; rewrite E; simpl.
  - by rewrite app_nil_r.
  - rewrite (proj2 (Z.eqb_neq _ _) Hc), IH by (done || lia). by rewrite <-app_assoc.
Qed.

(** A scan changes nothing but the time, and returns keys that exist. *)
Lemma full_scan_inv (P : Keys → Prop) prefix r c batches r' :
  (∀ t db, P db → P (live t db)) →
  full_scan prefix r c batches r' → r_up r → P (r_keys r) →
  r_up r' ∧ P (r_keys r') ∧ ∀ k, k ∈ mjoin batches → HasPrefix k prefix = true ∧ ∃ db, P db ∧ is_Some (db !! k).
Proof using RL.
  intros Hl Hs. induction Hs as [r c ks r' E|r c ks c' r1 batches r' E Hc Hs IH]; intros Hup HP.
  all: destruct (do1_serves (CScan c prefix) r Hup) as (t & rep & r1' & E1 & Hup1 & _ & Ha & Hk);
    unfold do1 in E1; rewrite E in E1; injection E1 as <- <-;
    destruct Ha as (ks' & c'' & [= <- <-] & Hin); simpl in Hk.
  - split; [done|]. rewrite Hk. split; [by apply Hl, Hl|]. intros k Hkin. simpl in Hkin. rewrite app_nil_r in Hkin.
    apply Hin, elem_of_keys_with in Hkin as [? ?]. split; [done|]. exists (live t (r_keys r)). split; [by apply Hl|done].
  - destruct IH as (? & ? & Hks); [done|rewrite Hk; by apply Hl, Hl|]. split_and!; [done..|].
    intros k Hkin. simpl in Hkin. apply elem_of_app in Hkin as [Hkin|Hkin]; [|by apply Hks].
    apply Hin, elem_of_keys_with in Hkin as [? ?]. split; [done|]. exists (live t (r_keys r)). split; [by apply Hl|done].
Qed.
End Calls.

(** ** A server in memory *)

(** It answers at once, returns keys in the order of its map and scans in one
    round. *)
Definition memory : Type := Time * Keys.

Fixpoint memory_run (t : Time) (cs : list cmd) (db : Keys) : list reply * Keys :=
  match cs with
  | [] => ([], live t db)
  | c :: cs => let db := live t db in
               let '(reps, db') := memory_run t cs (effect t c db) in (answer c db :: reps, db')
  end.

#[global] Instance memory_redis : Redis memory := {
  r_do cs r := let '(reps, db) := memory_run r.1 cs r.2 in (reps, (r.1, db));
}.

Lemma answer_allowed c db : allowed c db (answer c db).
Proof.
  destruct c; try reflexivity.
  - by eexists.
  - by eexists _, _.
  - simpl. destruct (collection the_set key db); [|done]. simpl. by eexists.
Qed.

Lemma memory_serves t cs db reps db' : memory_run t cs db = (reps, db') → serves t db cs reps t db'.
Proof.
  revert db reps. induction cs as [|c cs IH]; intros db reps E; simpl in E.
  - simplify_eq. by constructor.
  - destruct (memory_run t cs _) as [reps' db1] eqn:E1. simplify_eq.
    eapply serves_cons; [reflexivity|apply answer_allowed|by apply IH].
Qed.

#[global] Program Instance memory_laws : RedisLaws memory := {
  r_up _ := True;
  r_now r := r.1;
  r_keys r := r.2;
  r_rounds _ := 1%nat;
}.
Next Obligation.
  intros cs [t db] _. simpl. destruct (memory_run t cs db) as [reps db'] eqn:E.
  exists reps, (t, db'). split_and!; [done..|]. by apply memory_serves.
Qed.
Next Obligation.
  intros prefix [t db] _. eexists [_], _. split; [by apply scan_last|]. split; [done|].
  intros k v Hl Hp. simpl in *. rewrite app_nil_r. apply elem_of_keys_with. split; [|done].
  exists (v, None). by apply lookup_live.
Qed.
