(* ===== verification/RedisUsers.v ===== *)
(** * Users in [RedisStore]: what is read back, and until when *)

From S2P Require Import Prelude GoLib Text Float Json Instances Common Entities Buffers Codec Fallback Redis RedisServer.

Open Scope Z_scope.

Section Users.
Context {R : Type} `{UT : UnicodeTables, TT : TimeText, TL : !TimeTextLaws TT, RE : Redis R, RL : !RedisLaws R}.

(** ** Reading *)

(** The user that a hash describes. *)
Definition user_of_hash (id : string) (data : gmap string string) : option User :=
  let field f := default "" (data !! f) in
  updated ← parse_date (field "updated");
  let later := time_Add updated (90 * 24 * Hour) in
  Some (mkUser id (ToLower (field "username")) (field "access") (field "refresh")
          (field "trakt_display_name") updated
          (match data !! "token_expiry" with
           | Some s => if bool_decide (s = "") then later else default later (parse_time s)
           | None => later
           end) true).

Lemma GetUser_hash id r :
  r_up r → ∃ t r', GetUser id r =
      (collection the_hash (userPrefix +:+ id) (live t (r_keys r)) ≫= user_of_hash id, r') ∧
    r_up r' ∧ r_now r ≤ t ≤ r_now r' ∧ r_keys r' = live (r_now r') (r_keys r).
Proof using RL.
  intros Hup. unfold GetUser.
  destruct (do1_read (CHGetAll (userPrefix +:+ id)) r) as (t & rep & r' & -> & Hup' & Ht & -> & Hk); [done..|].
  exists t, r'. split_and!; [|done|lia|lia|done]. cbn [allowed answer].
  destruct (collection the_hash _ _) as [h|]; [|done]. unfold user_of_hash. simpl.
  by destruct (parse_date _).
Qed.

Lemma GetUserByName_read name r :
  r_up r → r_up (GetUserByName name r).2 ∧ r_now r ≤ r_now (GetUserByName name r).2 ∧
    r_keys (GetUserByName name r).2 = live (r_now (GetUserByName name r).2) (r_keys r).
Proof using RL.
  intros Hup. unfold GetUserByName.
  destruct (do1_read (CGet (userMapPrefix +:+ name)) r) as (t & rep & r1 & -> & Hup1 & Ht & _ & Hk); [done..|].
  destruct (as_string rep) as [id|]; [|split_and!; [done|simpl; lia|done]].
  destruct (GetUser_hash id r1 Hup1) as (t' & r2 & -> & Hup2 & Ht2 & Hk2).
  split_and!; [done|simpl; lia|]. simpl. rewrite Hk2, Hk, live_live by lia. done.
Qed.

Lemma GetUserByName_missing name r :
  r_up r → r_keys r !! (userMapPrefix +:+ name) = None → (GetUserByName name r).1 = None.
Proof using RL.
  intros Hup Hn. unfold GetUserByName.
  destruct (do1_read (CGet (userMapPrefix +:+ name)) r) as (t & rep & r1 & -> & Hup1 & Ht & -> & Hk); [done..|].
  cbn [allowed answer]. by rewrite live_None.
Qed.

(** ** Writing *)

(** The hash under a key, with its deadline; a missing key is an empty hash. *)
Definition hash_at (k : string) (db : Keys) (h : gmap string string) (o : option Time) : Prop :=
  db !! k = Some (VHash h, o) ∨ (db !! k = None ∧ h = ∅ ∧ o = None).

Lemma hash_at_live k db h o t : hash_at k db h o → alive t (VHash h, o) = true → hash_at k (live t db) h o.
Proof. intros [Hl|(Hl & -> & ->)] Ha; [left; by apply lookup_live|right]. split_and!; [by apply live_None|done..]. Qed.

Lemma hash_at_collection k db h o : hash_at k db h o → collection the_hash k db = Some h.
Proof. unfold collection. by intros [->|(-> & -> & _)]. Qed.

Lemma alive_mono t t' e : t ≤ t' → alive t' e = true → alive t e = true.
Proof. unfold alive. destruct e.2; [|done]. lia. Qed.

Definition set_all (h : gmap string string) (fs : list (string * string)) : gmap string string :=
  foldl (λ h fv, <[fv.1 := fv.2]> h) h fs.

Lemma serves_hset k fs : ∀ t db reps t' db' h o,
  serves t db ((λ fv, CHSet k fv.1 fv.2) <$> fs) reps t' db' → hash_at k db h o →
  alive t' (VHash h, o) = true → omap reply_error reps = [] ∧ hash_at k db' (set_all h fs) o.
Proof.
  induction fs as [|[f v] fs IH]; intros t db reps t' db' h o Hs Hh Ha.
  - inversion Hs; subst. split; [done|]. by apply hash_at_live.
  - rewrite fmap_cons in Hs. inversion Hs as [|? t1 ? ? ? ? rep reps' ? Ht Hal Hs']; subst.
    pose proof (serves_time _ _ _ _ _ _ Hs') as Ht'.
    apply (hash_at_live _ _ _ _ t1) in Hh as Hh1; [|by eapply alive_mono].
    cbn [allowed answer] in Hal. rewrite (hash_at_collection _ _ _ _ Hh1) in Hal. subst rep.
    apply (IH _ _ _ _ _ (<[f := v]> h) o) in Hs' as [Hr Hh']; [by split| |exact Ha].
    left. cbn [effect fst snd]. unfold update_hash.
    rewrite (update_at_eq _ _ _ _ _ _ _ (hash_at_collection _ _ _ _ Hh1)).
    rewrite bool_decide_eq_false_2 by apply insert_non_empty. f_equal. f_equal.
    by destruct Hh1 as [->|(-> & _ & ->)].
Qed.

Definition user_fields (user : User) : list (string * string) :=
  [("username", U_Username user); ("access", U_AccessToken user); ("refresh", U_RefreshToken user);
   ("updated", format_date (U_Updated user)); ("trakt_display_name", U_TraktDisplayName user);
   ("token_expiry", format_rfc3339 (U_TokenExpiry user))].

(** The user as it is read back. *)
Definition stored_user (u : User) : User :=
  mkUser (U_ID u) (ToLower (U_Username u)) (U_AccessToken u) (U_RefreshToken u)
    (U_TraktDisplayName u) (midnight (U_Updated u)) (whole_second (U_TokenExpiry u)) true.

Lemma user_of_fields u h :
  0 ≤ (civil_of_day (day_of (U_Updated u))).1.1 < 10000 → time_in_range (whole_second (U_TokenExpiry u)) = true →
  user_of_hash (U_ID u) (set_all h (user_fields u)) = Some (stored_user u).
Proof using TL.
  intros Hy Ht. unfold user_of_hash, set_all, user_fields. cbn [foldl fst snd].
  repeat (rewrite lookup_insert_eq || rewrite lookup_insert_ne by done). simpl.
  rewrite parse_format_date by done. simpl.
  rewrite bool_decide_eq_false_2 by apply time_text_nonempty. by rewrite parse_format_rfc3339.
Qed.

Definition user_key (u : User) : string := userPrefix +:+ U_ID u.
Definition map_key (u : User) : string := userMapPrefix +:+ U_Username u.

Lemma user_map_keys u v : user_key u ≠ map_key v.
Proof. unfold user_key, map_key, userPrefix, userMapPrefix. simpl. by intros [=]. Qed.

(** What follows the expiry of the user in the pipeline: it concerns the key of
    the name only and cannot fail. *)
Definition name_commands (u : User) (currentUser : option User) : list cmd :=
  match currentUser with
  | None => [CSet (map_key u) (U_ID u) accessTokenTimeout]
  | Some c => if bool_decide (U_ID c = U_ID u) then [CExpire (map_key u) accessTokenTimeout] else []
  end.

Lemma name_commands_ok u c t db reps t' db' :
  serves t db (name_commands u c) reps t' db' →
  omap reply_error reps = [] ∧ db' !! user_key u = live t' db !! user_key u.
Proof.
  intros Hs. split.
  - unfold name_commands in Hs. destruct c as [c|]; [case_bool_decide|]; inversion Hs as [|? t1 ? ? ? ? rep ? ? _ A Hs']; subst.
    + inversion Hs'; subst. cbn [allowed answer] in A. subst rep. by case_bool_decide.
    + done.
    + inversion Hs'; subst. cbn [allowed answer] in A. by subst rep.
  - eapply serves_frame; [|exact Hs]. intros x Hx t0 db0. pose proof (user_map_keys u u) as Hne.
    unfold name_commands in Hx. destruct c as [c|]; [case_bool_decide|].
    + apply list_elem_of_singleton in Hx as ->. simpl. by rewrite lookup_alter_ne.
    + by apply not_elem_of_nil in Hx.
    + apply list_elem_of_singleton in Hx as ->. simpl. by rewrite lookup_insert_ne.
Qed.

(** The pipeline of [WriteUser]. *)
Lemma write_pipe u c r h o err r1 :
  r_up r → hash_at (user_key u) (r_keys r) h o →
  exec (((λ fv, CHSet (user_key u) fv.1 fv.2) <$> user_fields u) ++
        [CExpire (user_key u) accessTokenTimeout] ++ name_commands u c) r = (err, r1) →
  alive (r_now r1) (VHash h, o) = true →
  err = None ∧ r_up r1 ∧ ∃ tw, r_now r ≤ tw ≤ r_now r1 ∧
    ∀ e, r_keys r1 !! user_key u = Some e ↔
      e = (VHash (set_all h (user_fields u)), Some (tw + accessTokenTimeout)) ∧ alive (r_now r1) e = true.
Proof using RL.
  intros Hup Hh Hx Ha.
  destruct (exec_serves (((λ fv, CHSet (user_key u) fv.1 fv.2) <$> user_fields u) ++
    [CExpire (user_key u) accessTokenTimeout] ++ name_commands u c) r Hup) as (reps & r1' & E & Hup1 & Hs).
  rewrite E in Hx. injection Hx as <- ->.
  apply serves_app in Hs as (reps1 & reps2 & t1 & db1 & -> & Hs1 & Hs2).
  apply serves_app in Hs2 as (reps2' & reps3 & t2 & db2 & -> & Hs2 & Hs3).
  pose proof (serves_time _ _ _ _ _ _ Hs1) as T1. pose proof (serves_time _ _ _ _ _ _ Hs2) as T2.
  pose proof (serves_time _ _ _ _ _ _ Hs3) as T3.
  apply (serves_hset _ _ _ _ _ _ _ h o) in Hs1 as [Hr1 Hh1]; [|done|eapply alive_mono; [|exact Ha]; lia].
  destruct (name_commands_ok _ _ _ _ _ _ _ Hs3) as [Hr3 Hk3].
  inversion Hs2 as [|? tw ? ? ? ? rep ? ? Htw A Hs2']; subst. inversion Hs2' as [? ? ? Htw2|]; subst.
  apply (hash_at_live _ _ _ _ tw) in Hh1; [|eapply (alive_mono _ (r_now r1)); [lia|exact Ha]].
  assert (live tw db1 !! user_key u = Some (VHash (set_all h (user_fields u)), o)) as Hl.
  { destruct Hh1 as [?|(_ & Hempty & _)]; [done|]. exfalso. revert Hempty. apply insert_non_empty. }
  cbn [allowed answer] in A. rewrite Hl in A. subst rep. rewrite !omap_app, Hr1, Hr3. split; [done|]. split; [done|].
  exists tw. split; [lia|]. set (e := (_, Some _)).
  assert (effect tw (CExpire (user_key u) accessTokenTimeout) (live tw db1) !! user_key u = Some e) as He
    by (simpl; rewrite lookup_alter_eq, Hl; done).
  intros e'. rewrite Hk3, live_live, lookup_live, He by lia. split; intros [? ?]; split; congruence.
Qed.

(** On a server that answers, a user written by [WriteUser] is read back by
    [GetUser] for 75 days, with the username in lower case, the day of its last
    update and the expiry without its fraction of a second; after 75 days
    without another write there is no such user.  The previous record, if any,
    must not expire while it is being replaced. *)
Lemma redis_user_roundtrip (u : User) (r r1 r2 r3 : R) (res : outcome unit) (h : gmap string string)
    (o : option Time) (found : option User) :
  r_up r → hash_at (user_key u) (r_keys r) h o → alive (r_now r1) (VHash h, o) = true →
  0 ≤ (civil_of_day (day_of (U_Updated u))).1.1 < 10000 → time_in_range (whole_second (U_TokenExpiry u)) = true →
  WriteUser u r = (res, r1) →
  r_up r2 → r_keys r2 = r_keys r1 → r_now r1 ≤ r_now r2 → GetUser (U_ID u) r2 = (found, r3) →
  res = Ret tt ∧
  (r_now r3 < r_now r + accessTokenTimeout → found = Some (stored_user u)) ∧
  (r_now r1 + accessTokenTimeout ≤ r_now r2 → found = None).
Proof using TL RL.
  intros Hup Hh Ha Hy Ht Hw Hup2 Hk2 Ht2 Hg. unfold WriteUser in Hw.
  destruct (GetUserByName_read (U_Username u) r Hup) as (Hupa & Hta & Hka).
  destruct (GetUserByName (U_Username u) r) as [c ra]. simpl in Hupa, Hta, Hka.
  match type of Hw with (let '(_, _) := ?x in _) = _ => destruct x as [err r1'] eqn:Hx end.
  injection Hw as Hres ->.
  assert (r_now ra ≤ r_now r1) as Ht1.
  { match type of Hx with exec ?cs ra = _ => destruct (exec_serves cs ra Hupa) as (reps & r1' & Hx' & _ & Hs) end.
    rewrite Hx' in Hx. injection Hx as _ ->. by eapply serves_time. }
  destruct (write_pipe u c ra h o err r1) as (-> & Hup1 & tw & Htw & Hl); [done| |exact Hx|done|].
  { rewrite Hka. apply hash_at_live; [done|]. by eapply alive_mono. }
  split; [by rewrite <-Hres|].
  destruct (GetUser_hash (U_ID u) r2 Hup2) as (t & r3' & Hg' & _ & Ht3 & _). rewrite Hg in Hg'.
  injection Hg' as -> <-. set (e := (VHash (set_all h (user_fields u)), Some (tw + accessTokenTimeout))) in *.
  unfold collection. change (userPrefix +:+ U_ID u) with (user_key u). rewrite Hk2. split; intros Hlim.
  - assert (live t (r_keys r1) !! user_key u = Some e) as ->.
    { apply lookup_live. rewrite Hl. unfold e, alive. simpl. rewrite !Z.ltb_lt. split_and!; [done|lia..]. }
    simpl. by apply user_of_fields.
  - assert (live t (r_keys r1) !! user_key u = None) as ->; [|done].
    apply eq_None_not_Some. intros [e' [He' Ha']%lookup_live]. apply Hl in He' as [-> _].
    unfold e, alive in Ha'. simpl in Ha'. lia.
Qed.
End Users.

(** ** Examples *)

#[local] Existing Instances ascii_tables decimal_time.

Definition redis_sample_user : User :=
  mkUser "u1" "Sam" "acc" "ref" "Sam S." (1700000000 * Second) (1700000000 * Second + 5) true.
Definition sample_server : memory := (1700000000 * Second, ∅).
Definition after_write : memory := (WriteUser redis_sample_user sample_server).2.
(** The server after so many days. *)
Definition days_later (n : Z) : memory := (1700000000 * Second + n * Day, after_write.2).

Lemma redis_user_roundtrip_witness :
  (GetUser "u1" (days_later 74)).1 = Some (stored_user redis_sample_user) ∧ (GetUser "u1" (days_later 75)).1 = None.
Proof.
  pose proof (λ n, redis_user_roundtrip (TL:=decimal_time_laws) (RL:=memory_laws) redis_sample_user sample_server
    after_write (days_later n) (GetUser "u1" (days_later n)).2 (WriteUser redis_sample_user sample_server).1 ∅ None
    (GetUser "u1" (days_later n)).1 I
    (or_intror (conj eq_refl (conj eq_refl eq_refl))) eq_refl
    ltac:(vm_compute; split; [discriminate|reflexivity]) eq_refl ltac:(exact (surjective_pairing _)) I eq_refl) as Hp.
  split.
  - apply (Hp 74); [vm_compute; discriminate|exact (surjective_pairing _)|]. vm_compute. reflexivity.
  - apply (Hp 75); [vm_compute; discriminate|exact (surjective_pairing _)|]. vm_compute. discriminate.
Defined.
