(* ===== verification/RedisFamily.v ===== *)
(** * [RedisStore], family groups ([lib/store/redis.go], lines 533-790)

    A group is the JSON text under [goplaxt:family_group:<id>], the id of the
    group of a Plex account is under [goplaxt:family_group:plex:<name>], a
    member is under [goplaxt:group_member:<id>] and the ids of the members of a
    group are the set [goplaxt:group_members:<id>]. *)

From S2P Require Import Prelude GoLib Text Float Json Instances Common Entities Buffers Codec Fallback Redis RedisServer.

Open Scope Z_scope.

Definition familyGroupPrefix : string := "goplaxt:family_group:".
Definition familyGroupPlexPrefix : string := "goplaxt:family_group:plex:".
Definition groupMemberPrefix : string := "goplaxt:group_member:".
Definition groupMembersSetPrefix : string := "goplaxt:group_members:".

Section Family.
Context {R : Type} `{UnicodeTables, TimeText, JsonText, Redis R}.

(** [Get] and [json.Unmarshal]; a missing key is no record. *)
Definition get_record {A} (dec : decoder A) (zero : A) (getErr jsonErr : string) (key : string) (r : R)
    : result (option A) * R :=
  let '(rep, r) := do1 (CGet key) r in
  (match as_string rep with
   | Err err => if bool_decide (err = RedisNil) then Ok None else Err (wrap getErr err)
   | Ok data => match unmarshal dec zero data with
                | Err err => Err (wrap jsonErr err)
                | Ok a => Ok (Some a)
                end
   end, r).

Definition CreateFamilyGroup (group : FamilyGroup) (r : R) : option error * R :=
  let groupKey := familyGroupPrefix +:+ FG_ID group in
  let plexKey := familyGroupPlexPrefix +:+ FG_PlexUsername group in
  let '(rep, r) := do1 (CExists plexKey) r in
  match as_int rep with
  | Err err => (Some (wrap "failed to check plex username uniqueness: " err), r)
  | Ok exists_ =>
  if 0 <? exists_ then (Some (Errorf ("plex username " +:+ FG_PlexUsername group +:+ " already exists")), r)
  else if negb (group_times group) then (Some (wrap "failed to marshal family group: " year_error), r)
  else
    let '(err, r) := exec [CSet groupKey (json_print (json_of_FamilyGroup group)) 0;
                           CSet plexKey (FG_ID group) 0] r in
    (wrap "failed to create family group: " <$> err, r)
  end.

Definition GetFamilyGroup (groupID : string) : R → result (option FamilyGroup) * R :=
  get_record dec_FamilyGroup zeroGroup "failed to get family group: "
    "failed to unmarshal family group: " (familyGroupPrefix +:+ groupID).

Definition GetFamilyGroupByPlex (plexUsername : string) (r : R) : result (option FamilyGroup) * R :=
  let '(rep, r) := do1 (CGet (familyGroupPlexPrefix +:+ plexUsername)) r in
  match as_string rep with
  | Err err => (if bool_decide (err = RedisNil) then Ok None
                else Err (wrap "failed to get family group by plex username: " err), r)
  | Ok groupID => GetFamilyGroup groupID r
  end.

Fixpoint load_groups (keys : list string) (r : R) : list FamilyGroup * R :=
  match keys with
  | [] => ([], r)
  | key :: keys =>
      if HasPrefix key familyGroupPlexPrefix then load_groups keys r else
      let '(rep, r) := do1 (CGet key) r in
      let '(groups, r) := load_groups keys r in
      (match as_string rep with
       | Err _ => groups
       | Ok data => match unmarshal dec_FamilyGroup zeroGroup data with
                    | Err _ => groups
                    | Ok group => group :: groups
                    end
       end, r)
  end.

Definition ListFamilyGroups (r : R) : result (list FamilyGroup) * R :=
  let '(rep, r) := do1 (CKeys familyGroupPrefix) r in
  match as_list rep with
  | Err err => (Err (wrap "failed to list family group keys: " err), r)
  | Ok keys => let '(groups, r) := load_groups keys r in (Ok groups, r)
  end.

(** ** Members *)

Definition GetGroupMember (memberID : string) : R → result (option GroupMember) * R :=
  get_record dec_GroupMember zeroMember "failed to get group member: "
    "failed to unmarshal group member: " (groupMemberPrefix +:+ memberID).

Fixpoint load_members (memberIDs : list string) (r : R) : list GroupMember * R :=
  match memberIDs with
  | [] => ([], r)
  | memberID :: memberIDs =>
      let '(member, r) := GetGroupMember memberID r in
      let '(members, r) := load_members memberIDs r in
      (match member with Ok (Some m) => m :: members | _ => members end, r)
  end.

Definition ListGroupMembers (groupID : string) (r : R) : result (list GroupMember) * R :=
  let '(rep, r) := do1 (CSMembers (groupMembersSetPrefix +:+ groupID)) r in
  match as_list rep with
  | Err err => (Err (wrap "failed to get group member IDs: " err), r)
  | Ok memberIDs => let '(members, r) := load_members memberIDs r in (Ok members, r)
  end.

Definition GetGroupMemberByTrakt (groupID traktUsername : string) (r : R) : result (option GroupMember) * R :=
  match ListGroupMembers groupID r with
  | (Err err, r) => (Err (wrap "failed to list group members: " err), r)
  | (Ok members, r) =>
      (Ok (List.find (λ m, bool_decide (GM_TraktUsername m = traktUsername)) members), r)
  end.

Definition AddGroupMember (member : GroupMember) (r : R) : option error * R :=
  let '(dup, r) :=
    if bool_decide (GM_TraktUsername member = "") then (None, r) else
    match GetGroupMemberByTrakt (GM_FamilyGroupID member) (GM_TraktUsername member) r with
    | (Err err, r) => (Some (wrap "failed to check for duplicate trakt username: " err), r)
    | (Ok (Some _), r) =>
        (Some (Errorf ("trakt username " +:+ GM_TraktUsername member +:+ " already exists in this group")), r)
    | (Ok None, r) => (None, r)
    end in
  match dup with
  | Some err => (Some err, r)
  | None =>
      if negb (member_times member) then (Some (wrap "failed to marshal group member: " year_error), r) else
      let '(err, r) := exec [CSet (groupMemberPrefix +:+ GM_ID member) (json_print (json_of_GroupMember member)) 0;
                             CSAdd (groupMembersSetPrefix +:+ GM_FamilyGroupID member) (GM_ID member)] r in
      (wrap "failed to add group member: " <$> err, r)
  end.

Definition UpdateGroupMember (member : GroupMember) (r : R) : option error * R :=
  if negb (member_times member) then (Some (wrap "failed to marshal group member: " year_error), r) else
  let '(rep, r) := do1 (CSet (groupMemberPrefix +:+ GM_ID member) (json_print (json_of_GroupMember member)) 0) r in
  (wrap "failed to update group member: " <$> reply_error rep, r).

Definition RemoveGroupMember (groupID memberID : string) (r : R) : option error * R :=
  let '(err, r) := exec [CDel [groupMemberPrefix +:+ memberID];
                         CSRem (groupMembersSetPrefix +:+ groupID) memberID] r in
  (wrap "failed to remove group member: " <$> err, r).

Definition DeleteFamilyGroup (groupID : string) (r : R) : option error * R :=
  match GetFamilyGroup groupID r with
  | (Err err, r) => (Some (wrap "failed to get family group for deletion: " err), r)
  | (Ok None, r) => (None, r)
  | (Ok (Some group), r) =>
  match ListGroupMembers groupID r with
  | (Err err, r) => (Some (wrap "failed to list group members for deletion: " err), r)
  | (Ok members, r) =>
      let '(err, r) := exec
        ([CDel [familyGroupPrefix +:+ groupID; familyGroupPlexPrefix +:+ FG_PlexUsername group]] ++
         ((λ m, CDel [groupMemberPrefix +:+ GM_ID m]) <$> members) ++
         [CDel [groupMembersSetPrefix +:+ groupID]]) r in
      (wrap "failed to delete family group: " <$> err, r)
  end end.
End Family.

(** ** Lemmas *)

Section Properties.
Context {R : Type} `{UT : UnicodeTables, TT : TimeText, TL : !TimeTextLaws TT, JT : JsonText,
  JL : !JsonTextLaws JT, RE : Redis R, RL : !RedisLaws R}.

Definition group_key (id : string) : string := familyGroupPrefix +:+ id.
Definition plex_key (name : string) : string := familyGroupPlexPrefix +:+ name.
Definition member_key (id : string) : string := groupMemberPrefix +:+ id.
Definition members_key (id : string) : string := groupMembersSetPrefix +:+ id.

(** A string stored for good. *)
Definition text_at (db : Keys) (k s : string) : Prop := db !! k = Some (VStr s, None).

Lemma text_at_live t db k s : text_at db k s → text_at (live t db) k s.
Proof. intros Hk. by apply lookup_live. Qed.

Lemma get_text k s r :
  r_up r → text_at (r_keys r) k s →
  ∃ r', do1 (CGet k) r = (RBulk s, r') ∧ r_up r' ∧ r_keys r' = live (r_now r') (r_keys r).
Proof using RL.
  intros Hup Hk. destruct (do1_read (CGet k) r) as (t & rep & r' & -> & Hup' & _ & -> & Hk'); [done..|].
  exists r'. split_and!; [|done..]. cbn [allowed answer]. by rewrite (text_at_live t _ _ _ Hk).
Qed.

Lemma get_missing k r :
  r_up r → r_keys r !! k = None →
  ∃ r', do1 (CGet k) r = (RNil, r') ∧ r_up r' ∧ r_keys r' = live (r_now r') (r_keys r).
Proof using RL.
  intros Hup Hk. destruct (do1_read (CGet k) r) as (t & rep & r' & -> & Hup' & _ & -> & Hk'); [done..|].
  exists r'. split_and!; [|done..]. cbn [allowed answer]. by rewrite live_None.
Qed.

Lemma get_record_text {A} (dec : decoder A) zero e1 e2 k s a r :
  r_up r → text_at (r_keys r) k s → unmarshal dec zero s = Ok a →
  ∃ r', get_record dec zero e1 e2 k r = (Ok (Some a), r') ∧ r_up r' ∧ r_keys r' = live (r_now r') (r_keys r).
Proof using RL.
  intros Hup Hk Hu. unfold get_record. destruct (get_text k s r Hup Hk) as (r' & -> & Hup' & Hk').
  exists r'. cbn [as_string]. by rewrite Hu.
Qed.

Lemma get_record_missing {A} (dec : decoder A) zero e1 e2 k r :
  r_up r → r_keys r !! k = None → (get_record dec zero e1 e2 k r).1 = Ok None.
Proof using RL.
  intros Hup Hk. unfold get_record. destruct (get_missing k r Hup Hk) as (r' & -> & _). done.
Qed.

(** ** Groups *)

Lemma read_group g r :
  r_up r → text_at (r_keys r) (group_key (FG_ID g)) (json_print (json_of_FamilyGroup g)) →
  group_times g = true → json_wf (json_of_FamilyGroup g) = true →
  ∃ r', GetFamilyGroup (FG_ID g) r = (Ok (Some g), r') ∧ r_up r' ∧ r_keys r' = live (r_now r') (r_keys r).
Proof using TL JL RL. intros Hup Hk Ht Hj. eapply get_record_text; [done|exact Hk|]. apply unmarshal_group; auto. Qed.

(** An id that does not look like the key of a Plex account. *)
Lemma group_plex_keys id name : HasPrefix id "plex:" = false → group_key id ≠ plex_key name.
Proof.
  intros Hp E. change (plex_key name) with (familyGroupPrefix +:+ ("plex:" +:+ name)) in E.
  apply (inj (String.app familyGroupPrefix)) in E. subst id. by rewrite HasPrefix_app in Hp.
Qed.

Lemma create_group g r :
  r_up r → group_times g = true → r_keys r !! plex_key (FG_PlexUsername g) = None →
  HasPrefix (FG_ID g) "plex:" = false →
  ∃ r', CreateFamilyGroup g r = (None, r') ∧ r_up r' ∧
    text_at (r_keys r') (group_key (FG_ID g)) (json_print (json_of_FamilyGroup g)) ∧
    text_at (r_keys r') (plex_key (FG_PlexUsername g)) (FG_ID g).
Proof using RL.
  intros Hup Ht Hn Hid. pose proof (group_plex_keys (FG_ID g) (FG_PlexUsername g) Hid) as Hne. unfold CreateFamilyGroup.
  destruct (do1_read (CExists (plex_key (FG_PlexUsername g))) r) as (t & rep & r1 & E & Hup1 & _ & -> & Hk); [done..|].
  change (familyGroupPlexPrefix +:+ FG_PlexUsername g) with (plex_key (FG_PlexUsername g)).
  change (familyGroupPrefix +:+ FG_ID g) with (group_key (FG_ID g)).
  rewrite E. cbn [allowed answer]. rewrite live_None by done. cbn [count as_int]. rewrite Ht.
  rewrite bool_decide_eq_false_2 by apply is_Some_None. cbn [Z.ltb Z.compare negb].
  destruct (exec_serves [CSet (group_key (FG_ID g)) (json_print (json_of_FamilyGroup g)) 0;
    CSet (plex_key (FG_PlexUsername g)) (FG_ID g) 0] r1 Hup1) as (reps & r' & -> & Hup' & Hs).
  inversion Hs as [|? t1 ? ? ? ? rep1 ? ? _ A1 Hs2]; subst.
  inversion Hs2 as [|? t2 ? ? ? ? rep2 ? ? _ A2 Hs3]; subst.
  inversion Hs3; subst. cbn [allowed answer] in A1, A2. subst rep1 rep2.
  exists r'. split_and!; [done..| |];
    match goal with E' : _ = r_keys r' |- _ => rewrite <-E' end; apply text_at_live; unfold text_at; cbn [effect Z.eqb].
  - rewrite lookup_insert_ne by (by apply not_eq_sym). apply text_at_live. apply lookup_insert_eq.
  - apply lookup_insert_eq.
Qed.

(** On a server that answers, creating a family group for a Plex account that
    has none stores it: it is found by its id and by the Plex username, and a
    second group for the account is then refused. *)
Lemma redis_family_group (g g' : FamilyGroup) (r : R) :
  r_up r → group_times g = true → json_wf (json_of_FamilyGroup g) = true → r_keys r !! plex_key (FG_PlexUsername g) = None →
  HasPrefix (FG_ID g) "plex:" = false → FG_PlexUsername g' = FG_PlexUsername g →
  ∃ r', CreateFamilyGroup g r = (None, r') ∧
    (GetFamilyGroup (FG_ID g) r').1 = Ok (Some g) ∧
    (GetFamilyGroupByPlex (FG_PlexUsername g) r').1 = Ok (Some g) ∧
    (CreateFamilyGroup g' r').1 = Some (Errorf ("plex username " +:+ FG_PlexUsername g +:+ " already exists")).
Proof using TL JL RL.
  intros Hup Ht Hj Hn Hid Hsame. destruct (create_group g r Hup Ht Hn Hid) as (r' & E & Hup' & Hg & Hp).
  exists r'. split; [done|]. split_and!.
  - by destruct (read_group g r' Hup' Hg Ht Hj) as (r2 & -> & _).
  - unfold GetFamilyGroupByPlex. destruct (get_text _ _ r' Hup' Hp) as (r2 & E2 & Hup2 & Hk2).
    unfold plex_key in E2. rewrite E2. cbn [as_string].
    destruct (read_group g r2) as (r3 & -> & _); [done| |done|done|done]. rewrite Hk2. by apply text_at_live.
  - unfold CreateFamilyGroup. rewrite Hsame.
    destruct (do1_read (CExists (plex_key (FG_PlexUsername g))) r') as (t & rep & r2 & E2 & _ & _ & -> & _); [done..|].
    unfold plex_key in E2. rewrite E2. cbn [allowed answer].
    change (familyGroupPlexPrefix +:+ FG_PlexUsername g) with (plex_key (FG_PlexUsername g)).
    rewrite (text_at_live t _ _ _ Hp). done.
Qed.

(** ** Members *)

Definition member_at (db : Keys) (id : string) (m : GroupMember) : Prop :=
  text_at db (member_key id) (json_print (json_of_GroupMember m)) ∧ GM_ID m = id ∧
  member_times m = true ∧ json_wf (json_of_GroupMember m) = true.

Lemma member_at_live t db id m : member_at db id m → member_at (live t db) id m.
Proof. intros [Hk ?]. split; [by apply text_at_live|done]. Qed.

Lemma read_member id m r :
  r_up r → member_at (r_keys r) id m →
  ∃ r', GetGroupMember id r = (Ok (Some (without_tokens m)), r') ∧ r_up r' ∧ r_keys r' = live (r_now r') (r_keys r).
Proof using TL JL RL.
  intros Hup (Hk & _ & Ht & Hj). eapply get_record_text; [done|exact Hk|]. apply unmarshal_member; auto.
Qed.

(** Keys without a deadline stay as they are. *)
Definition steady (db db' : Keys) : Prop := ∀ k, persistent db k → db' !! k = db !! k.

#[local] Instance steady_refl : Reflexive steady.
Proof. by intros db k. Qed.
#[local] Instance steady_trans : Transitive steady.
Proof.
  intros db1 db2 db3 H12 H23 k Hk. rewrite H23; [by apply H12|]. intros v d. rewrite H12 by done. apply Hk.
Qed.

Lemma steady_live t db : steady db (live t db).
Proof. intros k. apply live_persistent. Qed.

Lemma text_persistent db k s : text_at db k s → persistent db k.
Proof. intros Hk v d. rewrite Hk. by intros [=]. Qed.

Lemma member_at_steady db db' id m : steady db db' → member_at db id m → member_at db' id m.
Proof. intros Hs [Hk ?]. split; [|done]. unfold text_at. rewrite Hs; [done|by eapply text_persistent]. Qed.

Lemma load_members_at ids : ∀ r,
  r_up r → (∀ id, id ∈ ids → ∃ m, member_at (r_keys r) id m) →
  ∃ ms r', load_members ids r = (ms, r') ∧ r_up r' ∧ steady (r_keys r) (r_keys r') ∧ GM_ID <$> ms = ids.
Proof using TL JL RL.
  induction ids as [|id ids IH]; intros r Hup Hm; [by exists [], r|]. cbn [load_members].
  destruct (Hm id ltac:(left)) as [m Hid]. destruct (read_member id m r Hup Hid) as (r1 & -> & Hup1 & Hk1).
  assert (steady (r_keys r) (r_keys r1)) as Hs1 by (rewrite Hk1; apply steady_live).
  destruct (IH r1 Hup1) as (ms & r2 & -> & Hup2 & Hs2 & <-).
  { intros id' Hin. destruct (Hm id' ltac:(by right)) as [m' Hm']. exists m'. by eapply member_at_steady. }
  exists (without_tokens m :: ms), r2. split_and!; [done..|by etrans|]. destruct Hid as (_ & <- & _). done.
Qed.

Lemma ListGroupMembers_at gid ids r :
  r_up r → persistent (r_keys r) (members_key gid) →
  collection the_set (members_key gid) (r_keys r) = Some ids →
  (∀ id, id ∈ ids → ∃ m, member_at (r_keys r) id m) →
  ∃ ms r', ListGroupMembers gid r = (Ok ms, r') ∧ r_up r' ∧ steady (r_keys r) (r_keys r') ∧
    (GM_ID <$> ms) ≡ₚ elements ids.
Proof using TL JL RL.
  intros Hup Hp Hc Hm. unfold ListGroupMembers.
  destruct (do1_read (CSMembers (members_key gid)) r) as (t & rep & r1 & E & Hup1 & _ & Ha & Hk1); [done..|].
  unfold members_key in E. rewrite E. cbn [allowed answer] in Ha. unfold collection in Ha, Hc.
  rewrite live_persistent, Hc in Ha by done. simpl in Ha. destruct Ha as (l & -> & Hl). cbn [as_list].
  assert (steady (r_keys r) (r_keys r1)) as Hs1 by (rewrite Hk1; apply steady_live).
  destruct (load_members_at l r1 Hup1) as (ms & r2 & -> & Hup2 & Hs2 & Hms).
  { intros id Hin. rewrite Hl, elem_of_elements in Hin. destruct (Hm id Hin) as [m Hid]. exists m.
    by eapply member_at_steady. }
  exists ms, r2. split_and!; [done..|by etrans|]. by rewrite Hms.
Qed.

Lemma serves_dels kss : ∀ t db reps t' db',
  serves t db (CDel <$> kss) reps t' db' →
  omap reply_error reps = [] ∧ (∀ k, k ∈ mjoin kss → db' !! k = None) ∧
  ∀ k, k ∉ mjoin kss → persistent db k → db' !! k = db !! k.
Proof.
  induction kss as [|ks kss IH]; intros t db reps t' db' Hs.
  { inversion Hs; subst. split_and!; [done|by intros k Hk%not_elem_of_nil|]. intros. by apply live_persistent. }
  rewrite fmap_cons in Hs. inversion Hs as [|? t1 ? ? ? ? rep reps' ? Ht A Hs']; subst.
  cbn [allowed answer] in A. subst rep. destruct (IH _ _ _ _ _ Hs') as (Hr & Hin & Hout).
  cbn [effect] in Hout. split; [done|]. cbn [mjoin list_join]. split; intros k; rewrite elem_of_app.
  - intros Hk. destruct (decide (k ∈ mjoin kss)) as [?|Hn]; [by apply Hin|]. destruct Hk as [Hk|]; [|done].
    rewrite Hout; [|done|]; [|intros v d]; rewrite delete_keys_lookup, bool_decide_eq_true_2 by done; done.
  - intros Hk Hp. assert (Hlk : foldr delete (live t1 db) ks !! k = db !! k).
    { rewrite delete_keys_lookup, bool_decide_eq_false_2 by tauto. by apply live_persistent. }
    rewrite Hout; [done|tauto|]. intros v d. rewrite Hlk. apply Hp.
Qed.

(** The keys of a group. *)
Definition group_keys (g : FamilyGroup) (ids : list string) : list string :=
  [group_key (FG_ID g); plex_key (FG_PlexUsername g)] ++ (member_key <$> ids) ++ [members_key (FG_ID g)].

(** On a server that answers, [DeleteFamilyGroup] of a group whose members
    are readable deletes the group, the entry of its Plex account, every member
    in its set and the set itself, and no other key that is stored for good;
    the group is then found neither by id nor by Plex username. *)
Lemma redis_delete_cascade (g : FamilyGroup) (ids : gset string) (r : R) :
  r_up r → text_at (r_keys r) (group_key (FG_ID g)) (json_print (json_of_FamilyGroup g)) →
  group_times g = true → json_wf (json_of_FamilyGroup g) = true → persistent (r_keys r) (members_key (FG_ID g)) →
  collection the_set (members_key (FG_ID g)) (r_keys r) = Some ids →
  (∀ id, id ∈ ids → ∃ m, member_at (r_keys r) id m) →
  ∃ r', DeleteFamilyGroup (FG_ID g) r = (None, r') ∧
    (∀ k, k ∈ group_keys g (elements ids) → r_keys r' !! k = None) ∧
    (∀ k, k ∉ group_keys g (elements ids) → persistent (r_keys r) k → r_keys r' !! k = r_keys r !! k) ∧
    (GetFamilyGroup (FG_ID g) r').1 = Ok None ∧ (GetFamilyGroupByPlex (FG_PlexUsername g) r').1 = Ok None.
Proof using TL JL RL.
  intros Hup Hg Ht Hj Hp Hc Hm. unfold DeleteFamilyGroup.
  destruct (read_group g r Hup Hg Ht Hj) as (r1 & -> & Hup1 & Hk1).
  assert (steady (r_keys r) (r_keys r1)) as Hs1 by (rewrite Hk1; apply steady_live).
  destruct (ListGroupMembers_at (FG_ID g) ids r1 Hup1) as (ms & r2 & -> & Hup2 & Hs2 & Hms).
  { intros v d. rewrite Hs1 by done. apply Hp. }
  { unfold collection in *. by rewrite Hs1. }
  { intros id Hin. destruct (Hm id Hin) as [m Hid]. exists m. by eapply member_at_steady. }
  set (kss := [[group_key (FG_ID g); plex_key (FG_PlexUsername g)]] ++
              ((λ m, [member_key (GM_ID m)]) <$> ms) ++ [[members_key (FG_ID g)]]).
  assert (∀ k, k ∈ mjoin kss ↔ k ∈ group_keys g (elements ids)) as Hkss.
  { intros k. unfold group_keys, kss. rewrite join_app, join_app. rewrite !elem_of_app.
    assert (k ∈ mjoin ((λ m, [member_key (GM_ID m)]) <$> ms) ↔ k ∈ member_key <$> elements ids) as ->; [|done].
    rewrite <-Hms, <-list_fmap_compose. clear. induction ms as [|m ms IH]; [done|].
    rewrite !fmap_cons. cbn [mjoin list_join app]. by rewrite !elem_of_cons, IH. }
  destruct (exec_serves (CDel <$> kss) r2 Hup2) as (reps & r' & E & Hup' & Hs).
  destruct (serves_dels _ _ _ _ _ _ Hs) as (Hr & Hin & Hout). rewrite Hr in E.
  exists r'. split; [|assert (Hnone : ∀ k, k ∈ group_keys g (elements ids) → r_keys r' !! k = None)
    by (intros k Hk; by apply Hin, Hkss); split; [done|]; split].
  - unfold kss in E. rewrite !fmap_app, <-list_fmap_compose in E. unfold compose in E.
    rewrite (E : exec ([CDel [familyGroupPrefix +:+ FG_ID g; familyGroupPlexPrefix +:+ FG_PlexUsername g]] ++
      ((λ m, CDel [groupMemberPrefix +:+ GM_ID m]) <$> ms) ++ [CDel [groupMembersSetPrefix +:+ FG_ID g]]) r2 = _).
    done.
  - assert (steady (r_keys r) (r_keys r2)) as Hs3 by (by etrans).
    intros k Hk Hpk. rewrite Hout; [by apply Hs3|by rewrite Hkss|]. intros v d. rewrite Hs3 by done. apply Hpk.
  - split; [apply get_record_missing; [done|]; apply Hnone; by left|]. unfold GetFamilyGroupByPlex.
    destruct (get_missing (plex_key (FG_PlexUsername g)) r' Hup') as (r3 & E3 & _); [apply Hnone; right; by left|].
    unfold plex_key in E3. by rewrite E3.
Qed.
(** Reading keeps what is stored for good, whatever it finds. *)
Lemma get_record_steady {A} (dec : decoder A) zero e1 e2 k r :
  r_up r → r_up (get_record dec zero e1 e2 k r).2 ∧ steady (r_keys r) (r_keys (get_record dec zero e1 e2 k r).2).
Proof using RL.
  intros Hup. unfold get_record.
  destruct (do1_read (CGet k) r) as (t & rep & r' & -> & Hup' & _ & _ & Hk); [done..|]. split; [done|].
  simpl. rewrite Hk. apply steady_live.
Qed.

Lemma load_members_steady ids r :
  r_up r → r_up (load_members ids r).2 ∧ steady (r_keys r) (r_keys (load_members ids r).2).
Proof using RL.
  revert r. induction ids as [|id ids IH]; intros r Hup; [done|]. cbn [load_members].
  destruct (get_record_steady dec_GroupMember zeroMember "failed to get group member: "
    "failed to unmarshal group member: " (groupMemberPrefix +:+ id) r Hup) as [Hup1 Hs1].
  unfold GetGroupMember. destruct (get_record _ _ _ _ _ r) as [o r1]. simpl in Hup1, Hs1.
  destruct (IH r1 Hup1) as [Hup2 Hs2]. destruct (load_members ids r1) as [ms r2]. simpl in *. split; [done|by etrans].
Qed.

Lemma GetGroupMemberByTrakt_steady gid name r :
  r_up r → r_up (GetGroupMemberByTrakt gid name r).2 ∧ steady (r_keys r) (r_keys (GetGroupMemberByTrakt gid name r).2).
Proof using RL.
  intros Hup. unfold GetGroupMemberByTrakt, ListGroupMembers.
  destruct (do1_read (CSMembers (groupMembersSetPrefix +:+ gid)) r) as (t & rep & r1 & -> & Hup1 & _ & _ & Hk1); [done..|].
  assert (steady (r_keys r) (r_keys r1)) as Hs1 by (rewrite Hk1; apply steady_live).
  destruct (as_list rep) as [ids|]; [|done]. destruct (load_members_steady ids r1 Hup1) as [Hup2 Hs2].
  destruct (load_members ids r1) as [ms r2]. simpl in *. split; [done|by etrans].
Qed.

Lemma member_set_keys m g : member_key m ≠ members_key g.
Proof. unfold member_key, members_key, groupMemberPrefix, groupMembersSetPrefix. simpl. by intros [=]. Qed.

(** On a server that answers, adding a member whose Trakt name is new in its
    group adds its id to the set of the group's members and stores the member,
    but without its access and refresh tokens: reading it back gives a member
    with both tokens empty. *)
Lemma redis_member_loses_tokens (m : GroupMember) (ids : gset string) (r : R) :
  r_up r → member_times m = true → json_wf (json_of_GroupMember m) = true →
  persistent (r_keys r) (members_key (GM_FamilyGroupID m)) →
  collection the_set (members_key (GM_FamilyGroupID m)) (r_keys r) = Some ids →
  GM_TraktUsername m = "" ∨ (GetGroupMemberByTrakt (GM_FamilyGroupID m) (GM_TraktUsername m) r).1 = Ok None →
  ∃ r', AddGroupMember m r = (None, r') ∧
    (GetGroupMember (GM_ID m) r').1 =
      Ok (Some (mkGM (GM_ID m) (GM_FamilyGroupID m) (GM_TempLabel m) (GM_TraktUsername m) "" ""
                     (GM_TokenExpiry m) (GM_AuthorizationStatus m) (GM_CreatedAt m))) ∧
    r_keys r' !! members_key (GM_FamilyGroupID m) = Some (VSet ({[GM_ID m]} ∪ ids), None).
Proof using TL JL RL.
  intros Hup Ht Hj Hp Hc Hdup. unfold AddGroupMember. set (check := if bool_decide _ then _ else _).
  assert (∃ r0, check = (None, r0) ∧ r_up r0 ∧ steady (r_keys r) (r_keys r0)) as (r0 & -> & Hup0 & Hs0).
  { unfold check. case_bool_decide as Hempty; [by exists r|]. destruct Hdup as [|Hdup]; [done|].
    destruct (GetGroupMemberByTrakt_steady (GM_FamilyGroupID m) (GM_TraktUsername m) r Hup) as [? ?].
    destruct (GetGroupMemberByTrakt _ _ r) as [res r1]. simpl in *. subst res. by exists r1. }
  rewrite Ht. cbn [negb]. pose proof (member_set_keys (GM_ID m) (GM_FamilyGroupID m)) as Hne.
  destruct (exec_serves [CSet (member_key (GM_ID m)) (json_print (json_of_GroupMember m)) 0;
    CSAdd (members_key (GM_FamilyGroupID m)) (GM_ID m)] r0 Hup0) as (reps & r' & E & Hup' & Hs).
  inversion Hs as [|? t1 ? ? ? ? rep1 ? ? _ A1 Hs2]; subst.
  inversion Hs2 as [|? t2 ? ? ? ? rep2 ? ? _ A2 Hs3]; subst. inversion Hs3; subst.
  set (db1 := live t2 (effect t1 _ _)) in *.
  assert (Hset : db1 !! members_key (GM_FamilyGroupID m) = r_keys r !! members_key (GM_FamilyGroupID m)).
  { unfold db1. cbn [effect].
    rewrite live_persistent; [|intros v d]; rewrite lookup_insert_ne by done;
      (rewrite live_persistent; [|intros v' d']; rewrite Hs0 by done); [done|apply Hp|apply Hp..]. }
  assert (Hc1 : collection the_set (members_key (GM_FamilyGroupID m)) db1 = Some ids)
    by (unfold collection in *; by rewrite Hset).
  assert (Hmem : text_at db1 (member_key (GM_ID m)) (json_print (json_of_GroupMember m)))
    by (apply text_at_live; apply lookup_insert_eq).
  cbn [allowed answer] in A1, A2. rewrite Hc1 in A2. subst rep1 rep2. cbn in E.
  exists r'. split; [by rewrite (E : exec [CSet (groupMemberPrefix +:+ GM_ID m) _ 0;
    CSAdd (groupMembersSetPrefix +:+ GM_FamilyGroupID m) (GM_ID m)] r0 = _)|].
  match goal with E' : _ = r_keys r' |- _ => rename E' into Hk' end. cbn [effect] in Hk'. unfold update_set in Hk'. split.
  - destruct (read_member (GM_ID m) m r' Hup') as (r2 & -> & _); [|done]. split; [|done]. rewrite <-Hk'.
    apply text_at_live. unfold text_at. rewrite update_at_ne by (by apply not_eq_sym). exact Hmem.
  - rewrite <-Hk'. apply lookup_live. split; [|done].
    rewrite (update_at_eq _ _ _ _ _ _ _ Hc1). rewrite bool_decide_eq_false_2.
    + rewrite Hset. destruct (r_keys r !! members_key _) as [[v d]|] eqn:Ev; [|done]. simpl. by rewrite (Hp _ _ Ev).
    + intros Hempty. assert (GM_ID m ∈ ({[GM_ID m]} ∪ ids : gset string)) as Hin
        by (by apply elem_of_union_l, elem_of_singleton). rewrite Hempty in Hin. by apply not_elem_of_empty in Hin.
Qed.
End Properties.

(** ** Examples *)

#[local] Existing Instances ascii_tables decimal_time tree_text.

Definition blank_server : memory := (0, ∅).
Definition redis_sample_group : FamilyGroup := mkFG "g1" "family" 0 0.
Definition redis_sample_member : GroupMember := mkGM "m1" "g1" "Kid" "" "access" "refresh" None "authorized" 0.
Definition group_server : memory :=
  (AddGroupMember redis_sample_member (CreateFamilyGroup redis_sample_group blank_server).2).2.

Lemma redis_family_group_witness :
  ∃ r', CreateFamilyGroup redis_sample_group blank_server = (None, r') ∧
    (GetFamilyGroupByPlex "family" r').1 = Ok (Some redis_sample_group).
Proof.
  destruct (redis_family_group (TL:=decimal_time_laws) (JL:=tree_text_laws) (RL:=memory_laws) redis_sample_group
    redis_sample_group blank_server I eq_refl eq_refl eq_refl eq_refl eq_refl) as (r' & H1 & _ & H2 & _).
  exists r'. split; [exact H1|exact H2].
Defined.

Lemma redis_delete_cascade_witness :
  ∃ r', DeleteFamilyGroup "g1" group_server = (None, r') ∧
    r_keys r' !! member_key "m1" = None ∧ (GetFamilyGroup "g1" r').1 = Ok None.
Proof.
  destruct (redis_delete_cascade (TL:=decimal_time_laws) (JL:=tree_text_laws) (RL:=memory_laws) redis_sample_group
    {["m1"]} group_server I ltac:(vm_compute; reflexivity) eq_refl eq_refl) as (r' & H1 & H2 & _ & H3 & _).
  - assert (r_keys group_server !! members_key "g1" = Some (VSet {["m1"]}, None)) as E by (vm_compute; reflexivity).
    intros v d. cbn [FG_ID redis_sample_group]. rewrite E. by intros [= _ <-].
  - vm_compute. reflexivity.
  - intros id Hid%elem_of_singleton. subst id. exists redis_sample_member.
    split_and!; vm_compute; reflexivity.
  - exists r'. split; [exact H1|split; [|exact H3]]. apply H2.
    apply (bool_decide_unpack _). vm_compute. exact I.
Defined.

Lemma redis_member_loses_tokens_witness :
  ∃ r', AddGroupMember redis_sample_member blank_server = (None, r') ∧
    (GetGroupMember "m1" r').1 = Ok (Some (mkGM "m1" "g1" "Kid" "" "" "" None "authorized" 0)).
Proof.
  destruct (redis_member_loses_tokens (TL:=decimal_time_laws) (JL:=tree_text_laws) (RL:=memory_laws)
    redis_sample_member ∅ blank_server I eq_refl eq_refl ltac:(discriminate) eq_refl (or_introl eq_refl))
    as (r' & H1 & H2 & _).
  exists r'. split; [exact H1|exact H2].
Defined.
