(* ===== verification/Pg.v ===== *)
(** * The PostgreSQL schema of [lib/store/postgresql.go]

    The six tables [NewPostgresqlClient] creates, as finite maps from primary
    keys to rows, and the meaning of the SQL statements the store sends:
    uniqueness, foreign keys with [ON DELETE CASCADE], [CHECK] constraints,
    [ORDER BY] and [LIMIT].  A statement is atomic: it either applies or leaves
    the database alone and returns an error.

    What belongs to the server and the driver is a parameter: the class
    [PgServer] (error values, value conversions of the column types, the order
    in which a table is read) and, per call, an [Env] that says which
    statements fail, what the clocks show and which rows are locked by others.
    Errors that do not depend on the constraints (connection loss, a value
    that does not fit its column, a cancelled context) are such failures. *)

From S2P Require Import Prelude GoLib Common Entities.

Open Scope Z_scope.

(** ** Rows *)

Record MemberRow := mkMemberRow {
  M_family_group_id : string;
  M_temp_label : string;
  M_trakt_username : option string;
  M_access_token : option string;
  M_refresh_token : option string;
  M_token_expiry : option Time;
  M_authorization_status : string;
  M_created_at : Time;
}.

Record GroupRow := mkGroupRow {
  G_plex_username : string;
  G_created_at : Time;
  G_updated_at : Time;
}.

Record RetryRow := mkRetryRow {
  R_family_group_id : string;
  R_group_member_id : string;
  R_payload : string;
  R_attempt_count : Z;
  R_next_attempt_at : Time;
  R_last_error : option string;
  R_status : string;
  R_created_at : Time;
  R_updated_at : Time;
}.

Record NotificationRow := mkNotificationRow {
  T_family_group_id : string;
  T_group_member_id : option string;
  T_notification_type : string;
  T_message : string;
  T_metadata : option string;
  T_dismissed : bool;
  T_created_at : Time;
}.

Record UserRow := mkUserRow {
  UR_username : string;
  UR_access : string;
  UR_refresh : string;
  UR_trakt_display_name : option string;
  UR_updated : Time;
  UR_token_expiry : option Time;
}.

Record ScrobbleRow := mkScrobbleRow {
  Q_user_id : string;
  Q_scrobble_body : string;
  Q_action : string;
  Q_progress : Z;
  Q_created_at : Time;
  Q_retry_count : Z;
  Q_last_attempt : option Time;
  Q_player_uuid : string;
  Q_rating_key : string;
}.

Record Db := mkDb {
  users : gmap string UserRow;
  queued_scrobbles : gmap string ScrobbleRow;
  family_groups : gmap string GroupRow;
  group_members : gmap string MemberRow;
  retry_queue_items : gmap string RetryRow;
  notifications : gmap string NotificationRow;
}.

(** The database after [NewPostgresqlClient] on an empty server. *)
Definition NewPostgresqlClient : Db := mkDb ∅ ∅ ∅ ∅ ∅ ∅.

Definition set_users t db := mkDb t (queued_scrobbles db) (family_groups db) (group_members db)
  (retry_queue_items db) (notifications db).
Definition set_queued_scrobbles t db := mkDb (users db) t (family_groups db) (group_members db)
  (retry_queue_items db) (notifications db).
Definition set_family_groups t db := mkDb (users db) (queued_scrobbles db) t (group_members db)
  (retry_queue_items db) (notifications db).
Definition set_group_members t db := mkDb (users db) (queued_scrobbles db) (family_groups db) t
  (retry_queue_items db) (notifications db).
Definition set_retry_queue_items t db := mkDb (users db) (queued_scrobbles db) (family_groups db)
  (group_members db) t (notifications db).
Definition set_notifications t db := mkDb (users db) (queued_scrobbles db) (family_groups db)
  (group_members db) (retry_queue_items db) t.

(** ** Server and driver *)

Class PgServer := {
  (** the SQLSTATE of a [*pq.Error], [None] for any other error *)
  pq_code : error → option string;
  (** the error of a violated constraint, by SQLSTATE *)
  violation : string → error;
  (** the value a TIMESTAMP column gives back *)
  timestamp : Time → Time;
  (** the value a TIMESTAMP WITH TIME ZONE column gives back *)
  timestamptz : Time → Time;
  (** SQL's [lower] *)
  pg_lower : string → string;
  (** the text a JSONB column gives back *)
  jsonb : string → string;
  (** the rows of a table in the order it is read *)
  heap_scan : ∀ A : Type, gmap string A → list (string * A);
}.
Arguments heap_scan {_ A} m.

Class PgServerLaws (P : PgServer) : Prop := {
  pq_code_violation c : pq_code (violation c) = Some c;
  pg_lower_ascii s : is_ascii s = true → pg_lower s = of_bytes (lower_byte <$> bytes s);
  heap_scan_perm A (m : gmap string A) : heap_scan m ≡ₚ map_to_list m;
}.

(** An instance: rows read in key order, values stored as they are, constraint
    errors recognised by their text. *)
Definition memory_server : PgServer := {|
  pq_code e := match e with
               | Errorf msg => if HasPrefix msg "pq: " then Some (TrimPrefix msg "pq: ") else None
               | _ => None
               end;
  violation c := Errorf ("pq: " +:+ c);
  timestamp t := t;
  timestamptz t := t;
  pg_lower s := of_bytes (lower_byte <$> bytes s);
  jsonb s := s;
  heap_scan A m := map_to_list m;
|}.

Definition unique_violation := "23505".
Definition foreign_key_violation := "23503".
Definition check_violation := "23514".

(** The points of a call where the driver can report an error: opening a
    transaction, the [n]-th statement of the call, the end of a result set,
    the count of affected rows, committing. *)
Inductive point := BeginTx | Stmt (n : nat) | RowsErr | RowsAffected | Commit.

Record Env := mkEnv {
  fault : point → option error;
  db_now : Time;            (** [NOW()] of the statement *)
  clock : Time;             (** [time.Now()] of the process *)
  fresh_id : string;        (** what [uuid()] returns *)
  rnd : result (list Z);    (** what [rand.Read] delivers to [generateEventID] *)
  locked : gset string;     (** rows another transaction holds locked *)
}.

(** No failures, no locks. *)
Definition quiet (t : Time) (id : string) : Env :=
  mkEnv (λ _, None) t t id (Ok (replicate 16 0)) ∅.

(** Run one statement. *)
Definition statement {A} (env : Env) (n : nat) (f : Db → result (A * Db)) (db : Db)
    : result A * Db :=
  match fault env (Stmt n) with
  | Some e => (Err e, db)
  | None => match f db with
            | Ok (a, db') => (Ok a, db')
            | Err e => (Err e, db)
            end
  end.

(** ** Constraints *)

Section Sql.
Context `{PgServer}.

Definition check (code : string) (b : bool) : result unit :=
  if b then Ok tt else Err (violation code).

Definition exists_in {A} (m : gmap string A) (k : string) : bool :=
  bool_decide (is_Some (m !! k)).

(** No row satisfies [f]. *)
Definition none_with {A} (f : A → bool) (m : gmap string A) : bool :=
  bool_decide (Forall (λ kv, f kv.2 = false) (map_to_list m)).

(** [DELETE ... WHERE f] *)
Definition delete_where {A} (f : A → bool) (m : gmap string A) : gmap string A :=
  filter (λ kv, f kv.2 = false) m.

(** The rows a cascade spares. *)
Definition keep_where {A} (f : string → A → bool) (m : gmap string A) : gmap string A :=
  filter (λ kv, f kv.1 kv.2 = true) m.

(** [ORDER BY key ASC] (or [DESC]) on the rows as they are read. *)
Definition key_le {A} (key : A → Time) (x y : string * A) : Prop := key x.2 ≤ key y.2.
Definition key_ge {A} (key : A → Time) (x y : string * A) : Prop := key y.2 ≤ key x.2.
#[global] Instance key_le_dec {A} key : RelDecision (@key_le A key) := λ x y, Z.le_dec _ _.
#[global] Instance key_ge_dec {A} key : RelDecision (@key_ge A key) := λ x y, Z.le_dec _ _.
Definition order_asc {A} (key : A → Time) (l : list (string * A)) : list (string * A) :=
  merge_sort (key_le key) l.
Definition order_desc {A} (key : A → Time) (l : list (string * A)) : list (string * A) :=
  merge_sort (key_ge key) l.

(** [SELECT ... WHERE f] *)
Definition select {A} (f : string → A → bool) (m : gmap string A) : list (string * A) :=
  filter (λ kv, f kv.1 kv.2 = true) (heap_scan m).

(** *** family_groups *)

Definition insert_family_group (id plex : string) (now : Time) (db : Db) : result ((Time * Time) * Db) :=
  _ ← check unique_violation (negb (exists_in (family_groups db) id));
  _ ← check unique_violation
        (none_with (λ r, bool_decide (G_plex_username r = plex)) (family_groups db));
  let t := timestamp now in
  Ok ((t, t), set_family_groups (<[id := mkGroupRow plex t t]> (family_groups db)) db).

(** Deleting members deletes their retry items and notifications. *)
Definition cascade_members (keep : string → bool) (db : Db) : Db :=
  mkDb (users db) (queued_scrobbles db) (family_groups db)
    (keep_where (λ m _, keep m) (group_members db))
    (keep_where (λ _ r, keep (R_group_member_id r)) (retry_queue_items db))
    (keep_where (λ _ r, match T_group_member_id r with Some m => keep m | None => true end)
            (notifications db)).

(** Deleting a group deletes its members, retry items and notifications. *)
Definition delete_family_group (id : string) (db : Db) : result (Z * Db) :=
  if exists_in (family_groups db) id then
    let in_group m := match group_members db !! m with
                      | Some r => bool_decide (M_family_group_id r = id) | None => false end in
    let db1 := cascade_members (λ m, negb (in_group m)) db in
    Ok (1, mkDb (users db1) (queued_scrobbles db1) (delete id (family_groups db1)) (group_members db1)
         (delete_where (λ r, bool_decide (R_family_group_id r = id)) (retry_queue_items db1))
         (delete_where (λ r, bool_decide (T_family_group_id r = id)) (notifications db1)))
  else Ok (0, db).

(** *** group_members *)

Definition insert_group_member (id : string) (r : MemberRow) (db : Db) : result (Time * Db) :=
  _ ← check unique_violation (negb (exists_in (group_members db) id));
  _ ← check foreign_key_violation (exists_in (family_groups db) (M_family_group_id r));
  Ok (M_created_at r, set_group_members (<[id := r]> (group_members db)) db).

(** [UPDATE group_members SET ... WHERE id = $1]: the group and the creation
    time of the row stay. *)
Definition update_group_member (id label : string) (trakt access refresh : option string)
    (expiry : option Time) (status : string) (db : Db) : result (Z * Db) :=
  match group_members db !! id with
  | None => Ok (0, db)
  | Some r =>
      Ok (1, set_group_members
           (<[id := mkMemberRow (M_family_group_id r) label trakt access refresh
                      (timestamp <$> expiry) status (M_created_at r)]> (group_members db)) db)
  end.

Definition delete_group_member (groupID memberID : string) (db : Db) : result (Z * Db) :=
  match group_members db !! memberID with
  | Some r =>
      if bool_decide (M_family_group_id r = groupID)
      then Ok (1, cascade_members (λ m, bool_decide (m ≠ memberID)) db)
      else Ok (0, db)
  | None => Ok (0, db)
  end.

(** *** retry_queue_items *)

Definition insert_retry_item (id : string) (r : RetryRow) (db : Db) : result ((Time * Time) * Db) :=
  _ ← check unique_violation (negb (exists_in (retry_queue_items db) id));
  _ ← check foreign_key_violation (exists_in (family_groups db) (R_family_group_id r));
  _ ← check foreign_key_violation (exists_in (group_members db) (R_group_member_id r));
  Ok ((R_created_at r, R_updated_at r),
      set_retry_queue_items (<[id := r]> (retry_queue_items db)) db).

Definition delete_retry_item (id : string) (db : Db) : result (Z * Db) :=
  if exists_in (retry_queue_items db) id
  then Ok (1, set_retry_queue_items (delete id (retry_queue_items db)) db)
  else Ok (0, db).

Definition set_retry_status (status : string) (now : Time) (r : RetryRow) : RetryRow :=
  mkRetryRow (R_family_group_id r) (R_group_member_id r) (R_payload r) (R_attempt_count r)
    (R_next_attempt_at r) (R_last_error r) status (R_created_at r) now.

(** [UPDATE retry_queue_items SET status, updated_at WHERE id = ANY(ids)] *)
Definition update_retry_status (ids : list string) (status : string) (now : Time) (db : Db)
    : result (unit * Db) :=
  Ok (tt, set_retry_queue_items
        (map_imap (λ id r, Some (if bool_decide (id ∈ ids)
                                 then set_retry_status status (timestamp now) r else r))
                  (retry_queue_items db)) db).

Definition update_retry_failure (id : string) (attempt : Z) (next : Time) (lastErr : option string)
    (status : string) (now : Time) (db : Db) : result (Z * Db) :=
  match retry_queue_items db !! id with
  | None => Ok (0, db)
  | Some r =>
      Ok (1, set_retry_queue_items
           (<[id := mkRetryRow (R_family_group_id r) (R_group_member_id r) (R_payload r) attempt
                      (timestamp next) lastErr status (R_created_at r) (timestamp now)]>
              (retry_queue_items db)) db)
  end.

(** *** notifications *)

Definition insert_notification (id : string) (r : NotificationRow) (db : Db) : result (unit * Db) :=
  _ ← check unique_violation (negb (exists_in (notifications db) id));
  _ ← check foreign_key_violation (exists_in (family_groups db) (T_family_group_id r));
  _ ← check foreign_key_violation
        (match T_group_member_id r with Some m => exists_in (group_members db) m | None => true end);
  Ok (tt, set_notifications (<[id := r]> (notifications db)) db).

Definition update_dismissed (id : string) (db : Db) : result (Z * Db) :=
  match notifications db !! id with
  | None => Ok (0, db)
  | Some r =>
      Ok (1, set_notifications
           (<[id := mkNotificationRow (T_family_group_id r) (T_group_member_id r)
                      (T_notification_type r) (T_message r) (T_metadata r) true (T_created_at r)]>
              (notifications db)) db)
  end.

Definition delete_notification (id : string) (db : Db) : result (Z * Db) :=
  if exists_in (notifications db) id
  then Ok (1, set_notifications (delete id (notifications db)) db)
  else Ok (0, db).

(** *** users *)

Definition upsert_user (id : string) (r : UserRow) (db : Db) : result (unit * Db) :=
  Ok (tt, set_users (<[id := r]> (users db)) db).

Definition delete_user (id : string) (db : Db) : result (unit * Db) :=
  Ok (tt, set_queued_scrobbles
        (delete_where (λ r, bool_decide (Q_user_id r = id)) (queued_scrobbles db))
        (set_users (delete id (users db)) db)).

(** *** queued_scrobbles *)

Definition same_slot (a b : ScrobbleRow) : bool :=
  bool_decide (Q_player_uuid a = Q_player_uuid b) && bool_decide (Q_rating_key a = Q_rating_key b).

(** [INSERT ... ON CONFLICT (player_uuid, rating_key) DO NOTHING] *)
Definition insert_scrobble (id : string) (r : ScrobbleRow) (db : Db) : result (unit * Db) :=
  _ ← check check_violation (bool_decide (Q_action r ∈ ["start"; "pause"; "stop"]));
  _ ← check check_violation (bool_decide (0 ≤ Q_progress r ≤ 100));
  _ ← check check_violation (bool_decide (0 ≤ Q_retry_count r ≤ 5));
  if none_with (same_slot r) (queued_scrobbles db) then
    _ ← check unique_violation (negb (exists_in (queued_scrobbles db) id));
    _ ← check foreign_key_violation (exists_in (users db) (Q_user_id r));
    Ok (tt, set_queued_scrobbles (<[id := r]> (queued_scrobbles db)) db)
  else Ok (tt, db).

Definition user_events (userID : string) (db : Db) : list (string * ScrobbleRow) :=
  order_asc Q_created_at (select (λ _ r, bool_decide (Q_user_id r = userID)) (queued_scrobbles db)).

(** [DELETE ... WHERE id IN (SELECT id ... ORDER BY created_at LIMIT 1)] *)
Definition evict_oldest (userID : string) (db : Db) : result (unit * Db) :=
  Ok (tt, match user_events userID db with
          | [] => db
          | (id, _) :: _ => set_queued_scrobbles (delete id (queued_scrobbles db)) db
          end).

Definition delete_scrobble (id : string) (db : Db) : result (unit * Db) :=
  Ok (tt, set_queued_scrobbles (delete id (queued_scrobbles db)) db).

Definition delete_scrobbles_of (userID : string) (db : Db) : result (unit * Db) :=
  Ok (tt, set_queued_scrobbles
        (delete_where (λ r, bool_decide (Q_user_id r = userID)) (queued_scrobbles db)) db).

Definition update_scrobble_retry (id : string) (n : Z) (t : Time) (db : Db) : result (unit * Db) :=
  match queued_scrobbles db !! id with
  | None => Ok (tt, db)
  | Some r =>
      _ ← check check_violation (bool_decide (0 ≤ n ≤ 5));
      Ok (tt, set_queued_scrobbles
            (<[id := mkScrobbleRow (Q_user_id r) (Q_scrobble_body r) (Q_action r) (Q_progress r)
                       (Q_created_at r) n (Some (timestamp t)) (Q_player_uuid r) (Q_rating_key r)]>
               (queued_scrobbles db)) db)
  end.
End Sql.

(** ** Integrity: what the constraints of the schema promise *)

Definition foreign {A B} (m : gmap string A) (ref : A → string) (target : gmap string B) : Prop :=
  ∀ k r, m !! k = Some r → is_Some (target !! ref r).

Record integrity (db : Db) : Prop := {
  plex_unique : ∀ i j a b, family_groups db !! i = Some a → family_groups db !! j = Some b →
    G_plex_username a = G_plex_username b → i = j;
  member_group : foreign (group_members db) M_family_group_id (family_groups db);
  retry_group : foreign (retry_queue_items db) R_family_group_id (family_groups db);
  retry_member : foreign (retry_queue_items db) R_group_member_id (group_members db);
  notif_group : foreign (notifications db) T_family_group_id (family_groups db);
  notif_member : ∀ k r m, notifications db !! k = Some r → T_group_member_id r = Some m →
    is_Some (group_members db !! m);
  scrobble_user : foreign (queued_scrobbles db) Q_user_id (users db);
  scrobble_slot : ∀ i j a b, queued_scrobbles db !! i = Some a → queued_scrobbles db !! j = Some b →
    same_slot a b = true → i = j;
  scrobble_check : ∀ k r, queued_scrobbles db !! k = Some r →
    Q_action r ∈ ["start"; "pause"; "stop"] ∧ 0 ≤ Q_progress r ≤ 100 ∧ 0 ≤ Q_retry_count r ≤ 5;
}.

(** ** Lemmas: tables *)

Section Tables.
Context {A B : Type}.
Implicit Types (m : gmap string A) (t : gmap string B).

Lemma foreign_insert m (ref : A → string) t k r :
  foreign m ref t → is_Some (t !! ref r) → foreign (<[k := r]> m) ref t.
Proof. intros Hf Hr k' r'. rewrite lookup_insert. case_decide; naive_solver. Qed.

Lemma foreign_target m (ref : A → string) t t' :
  (∀ k, is_Some (t !! k) → is_Some (t' !! k)) → foreign m ref t → foreign m ref t'.
Proof. unfold foreign. eauto. Qed.

Lemma foreign_target_insert m (ref : A → string) t k r :
  foreign m ref t → foreign m ref (<[k := r]> t).
Proof. apply foreign_target. intros k' ?. rewrite lookup_insert. by case_decide. Qed.

Lemma foreign_sub m m' (ref : A → string) t : m' ⊆ m → foreign m ref t → foreign m' ref t.
Proof. intros Hs Hf k r Hk. eapply Hf, lookup_weaken; eauto. Qed.

Lemma foreign_delete m (ref : A → string) t k : foreign m ref t → foreign (delete k m) ref t.
Proof. apply foreign_sub, delete_subseteq. Qed.

Lemma delete_sub m k : delete k m ⊆ m.
Proof. apply delete_subseteq. Qed.

Lemma delete_where_lookup f m k r :
  delete_where f m !! k = Some r ↔ m !! k = Some r ∧ f r = false.
Proof. unfold delete_where. by rewrite map_lookup_filter_Some. Qed.

Lemma delete_where_sub f m : delete_where f m ⊆ m.
Proof. apply map_filter_subseteq. Qed.

Lemma keep_where_lookup f m k r :
  keep_where f m !! k = Some r ↔ m !! k = Some r ∧ f k r = true.
Proof. unfold keep_where. by rewrite map_lookup_filter_Some. Qed.

Lemma keep_where_sub f m : keep_where f m ⊆ m.
Proof. apply map_filter_subseteq. Qed.

Lemma none_with_spec f m : none_with f m = true ↔ ∀ k r, m !! k = Some r → f r = false.
Proof.
  unfold none_with. rewrite bool_decide_eq_true, Forall_forall. split.
  - intros Hf k r Hk. apply (Hf (k, r)). by apply elem_of_map_to_list.
  - intros Hf [k r] Hin. apply elem_of_map_to_list in Hin. eauto.
Qed.

Lemma exists_in_spec m k : exists_in m k = true ↔ is_Some (m !! k).
Proof. apply bool_decide_eq_true. Qed.
End Tables.

#[export] Hint Resolve foreign_insert foreign_target_insert foreign_sub delete_where_sub
  keep_where_sub foreign_delete delete_sub : plaxt.

(** A statement preserves [P] when every database it commits satisfies it. *)
Definition preserves {A} (P : Db → Prop) (f : Db → result (A * Db)) : Prop :=
  ∀ db a db', P db → f db = Ok (a, db') → P db'.

Lemma statement_preserves {A} P env n (f : Db → result (A * Db)) db r db' :
  preserves P f → P db → statement env n f db = (r, db') → P db'.
Proof.
  unfold statement. intros Hf HP. destruct (fault env (Stmt n)); [congruence|].
  destruct (f db) as [[a d]|e] eqn:E; intros [= <- <-]; [by eapply Hf|done].
Qed.

Section Preservation.
Context `{PgServer}.

Lemma check_ok code b u : check code b = Ok u → b = true.
Proof. unfold check. by destruct b. Qed.

(** Open the checks of a statement that succeeded. *)
Ltac open_checks :=
  repeat match goal with
  | H : mbind _ ?c = Ok _ |- _ =>
      let E := fresh "Hc" in destruct c eqn:E; simpl in H; [apply check_ok in E|discriminate]
  end;
  rewrite ?negb_true_iff, ?exists_in_spec, ?bool_decide_eq_true, ?none_with_spec in *.

(** Deleting rows of [queued_scrobbles] is harmless. *)
Lemma integrity_sub_scrobbles db t :
  integrity db → t ⊆ queued_scrobbles db → integrity (set_queued_scrobbles t db).
Proof.
  intros [] Hs. split; simpl; eauto with plaxt.
  - intros i j a b Hi Hj. eapply lookup_weaken in Hi, Hj; eauto.
  - intros k r Hk. eapply lookup_weaken in Hk; eauto.
Qed.

Lemma integrity_insert_family_group id plex now :
  preserves integrity (insert_family_group id plex now).
Proof.
  intros db a db' [] Hf. unfold insert_family_group in Hf. open_checks. simplify_eq/=.
  split; simpl; eauto with plaxt.
  intros i j x y. rewrite !lookup_insert.
  repeat case_decide; intros Hi Hj Hs; simplify_eq/=; [done| | |by eauto].
  - by apply Hc0, bool_decide_eq_false in Hj.
  - by apply Hc0, bool_decide_eq_false in Hi.
Qed.

Lemma integrity_cascade_members keep db : integrity db → integrity (cascade_members keep db).
Proof.
  intros []. split; simpl; eauto with plaxt.
  - intros k r [Hk Hkeep]%keep_where_lookup. simpl in *.
    destruct (retry_member0 _ _ Hk) as [x ?]. exists x. by apply keep_where_lookup.
  - intros k r m [Hk Hkeep]%keep_where_lookup Hm. simpl in *. rewrite Hm in Hkeep.
    destruct (notif_member0 _ _ _ Hk Hm) as [x ?]. exists x. by apply keep_where_lookup.
Qed.

Lemma integrity_delete_family_group id : preserves integrity (delete_family_group id).
Proof.
  intros db a db' Hi Hf. unfold delete_family_group in Hf. case_match; simplify_eq; [|done].
  set (keep := λ m, negb (match group_members db !! m with
                          | Some r => bool_decide (M_family_group_id r = id) | None => false end)).
  destruct (integrity_cascade_members keep db Hi).
  assert (Hother : ∀ k, k ≠ id → is_Some (family_groups db !! k) →
                       is_Some (delete id (family_groups db) !! k)).
  { intros k ??. by rewrite lookup_delete_ne. }
  split; simpl in *; eauto with plaxt.
  - intros i j x y [_ ?]%lookup_delete_Some [_ ?]%lookup_delete_Some. eauto.
  - intros k r Hk. apply Hother; [|by eapply member_group0].
    apply keep_where_lookup in Hk as [Hk Hkeep]. unfold keep in Hkeep. rewrite Hk in Hkeep.
    by apply negb_true_iff, bool_decide_eq_false in Hkeep.
  - intros k r [Hk Hne]%delete_where_lookup. apply bool_decide_eq_false in Hne. eauto.
  - intros k r [Hk Hne]%delete_where_lookup. apply bool_decide_eq_false in Hne. eauto.
  - intros k r m [Hk Hne]%delete_where_lookup. eauto.
Qed.

Lemma integrity_insert_group_member id r : preserves integrity (insert_group_member id r).
Proof.
  intros db a db' [] Hf. unfold insert_group_member in Hf. open_checks. simplify_eq/=.
  split; simpl; eauto with plaxt.
  intros k n m Hk Hm. rewrite lookup_insert. case_decide; eauto.
Qed.

Lemma integrity_update_group_member id l t a r e s :
  preserves integrity (update_group_member id l t a r e s).
Proof.
  intros db x db' [] Hf. unfold update_group_member in Hf.
  destruct (group_members db !! id) as [row|] eqn:E; simplify_eq; [|done].
  pose proof (member_group0 _ _ E). split; simpl; eauto with plaxt.
  intros k n m Hk Hm. rewrite lookup_insert. case_decide; eauto.
Qed.

Lemma integrity_delete_group_member g m : preserves integrity (delete_group_member g m).
Proof.
  intros db x db' Hi Hf. unfold delete_group_member in Hf.
  repeat case_match; simplify_eq; try done. by apply integrity_cascade_members.
Qed.

Lemma integrity_insert_retry_item id r : preserves integrity (insert_retry_item id r).
Proof.
  intros db a db' [] Hf. unfold insert_retry_item in Hf. open_checks. simplify_eq/=.
  split; simpl; eauto with plaxt.
Qed.

Lemma integrity_delete_retry_item id : preserves integrity (delete_retry_item id).
Proof.
  intros db a db' [] Hf. unfold delete_retry_item in Hf. case_match; simplify_eq; [|done].
  split; simpl; eauto with plaxt.
Qed.

Lemma integrity_update_retry_status ids s now : preserves integrity (update_retry_status ids s now).
Proof.
  intros db a db' [] Hf. unfold update_retry_status in Hf. simplify_eq.
  split; simpl; eauto with plaxt; intros k r; rewrite map_lookup_imap;
    destruct (retry_queue_items db !! k) eqn:E; simpl; [|done| |done];
    intros [= <-]; case_bool_decide; simpl; eauto.
Qed.

Lemma integrity_update_retry_failure id n t e s now :
  preserves integrity (update_retry_failure id n t e s now).
Proof.
  intros db a db' [] Hf. unfold update_retry_failure in Hf. case_match eqn:E; simplify_eq; [|done].
  pose proof (retry_group0 _ _ E). pose proof (retry_member0 _ _ E). split; simpl; eauto with plaxt.
Qed.

Lemma integrity_insert_notification id r : preserves integrity (insert_notification id r).
Proof.
  intros db a db' [] Hf. unfold insert_notification in Hf. open_checks. simplify_eq/=.
  split; simpl; eauto with plaxt.
  intros k n m. rewrite lookup_insert. case_decide; intros ? Hm; simplify_eq; [|eauto].
  rewrite Hm in *. by apply exists_in_spec.
Qed.

Lemma integrity_update_dismissed id : preserves integrity (update_dismissed id).
Proof.
  intros db a db' [] Hf. unfold update_dismissed in Hf. destruct (notifications db !! id) as [row|] eqn:E; simplify_eq; [|done].
  pose proof (notif_group0 _ _ E). split; simpl; eauto with plaxt.
  intros k q m. rewrite lookup_insert. case_decide; intros ? Hm; simplify_eq/=; eauto.
Qed.

Lemma integrity_delete_notification id : preserves integrity (delete_notification id).
Proof.
  intros db a db' [] Hf. unfold delete_notification in Hf. case_match; simplify_eq; [|done].
  split; simpl; eauto with plaxt.
  intros k q m [_ ?]%lookup_delete_Some. eauto.
Qed.

Lemma integrity_upsert_user id r : preserves integrity (upsert_user id r).
Proof.
  intros db a db' [] Hf. unfold upsert_user in Hf. simplify_eq. split; simpl; eauto with plaxt.
Qed.

Lemma integrity_delete_user id : preserves integrity (delete_user id).
Proof.
  intros db a db' Hi Hf. unfold delete_user in Hf. simplify_eq. destruct Hi.
  split; simpl; eauto with plaxt.
  - intros k r [Hk Hne]%delete_where_lookup. apply bool_decide_eq_false in Hne.
    rewrite lookup_delete_ne; eauto.
  - intros i j x y [? _]%delete_where_lookup [? _]%delete_where_lookup. eauto.
  - intros k r [? _]%delete_where_lookup. eauto.
Qed.

Lemma same_slot_comm a b : same_slot a b = same_slot b a.
Proof. unfold same_slot. f_equal; apply bool_decide_ext; done. Qed.

Lemma integrity_insert_scrobble id r : preserves integrity (insert_scrobble id r).
Proof.
  intros db a db' [] Hf. unfold insert_scrobble in Hf. open_checks.
  case_match eqn:Hn; [|by simplify_eq]. open_checks. simplify_eq.
  split; simpl; eauto with plaxt.
  - intros i j x y. rewrite !lookup_insert.
    repeat case_decide; intros Hi Hj Hs; simplify_eq/=; [done| | |by eauto].
    + by rewrite (Hn _ _ Hj) in Hs.
    + by rewrite same_slot_comm, (Hn _ _ Hi) in Hs.
  - intros k q. rewrite lookup_insert. case_decide; intros; simplify_eq; eauto.
Qed.

Lemma integrity_delete_scrobble id : preserves integrity (delete_scrobble id).
Proof.
  intros db a db' Hi Hf. unfold delete_scrobble in Hf. simplify_eq.
  apply integrity_sub_scrobbles; eauto with plaxt.
Qed.

Lemma integrity_evict_oldest u : preserves integrity (evict_oldest u).
Proof.
  intros db a db' Hi Hf. unfold evict_oldest in Hf. simplify_eq. repeat case_match; [done|].
  apply integrity_sub_scrobbles; eauto with plaxt.
Qed.

Lemma integrity_delete_scrobbles_of u : preserves integrity (delete_scrobbles_of u).
Proof.
  intros db a db' Hi Hf. unfold delete_scrobbles_of in Hf. simplify_eq.
  apply integrity_sub_scrobbles; eauto with plaxt.
Qed.

Lemma integrity_update_scrobble_retry id n t : preserves integrity (update_scrobble_retry id n t).
Proof.
  intros db a db' Hi Hf. unfold update_scrobble_retry in Hf.
  destruct (queued_scrobbles db !! id) as [r|] eqn:E; [|by simplify_eq].
  open_checks. simplify_eq. destruct Hi. pose proof (scrobble_user0 _ _ E). split; simpl; eauto with plaxt.
  - intros i j x y. rewrite !lookup_insert.
    repeat case_decide; intros Hi Hj Hs; simplify_eq/=; eauto.
  - intros k q. rewrite lookup_insert. case_decide; intros; simplify_eq/=; eauto.
    destruct (scrobble_check0 _ _ E) as (?&?&?). auto.
Qed.
End Preservation.

(** ** Lemmas: reading tables *)

Section Reading.
Context `{PL : PgServerLaws}.

Lemma select_spec {A} (f : string → A → bool) (m : gmap string A) k r :
  (k, r) ∈ select f m ↔ m !! k = Some r ∧ f k r = true.
Proof using PL.
  unfold select. rewrite list_elem_of_filter, heap_scan_perm, elem_of_map_to_list. simpl. tauto.
Qed.

Lemma select_NoDup {A} (f : string → A → bool) (m : gmap string A) : NoDup (select f m).*1.
Proof using PL.
  apply NoDup_fmap_fst.
  - intros k r1 r2 [H1 _]%select_spec [H2 _]%select_spec. congruence.
  - apply NoDup_filter. rewrite heap_scan_perm. apply NoDup_map_to_list.
Qed.

(** A lookup by primary key. *)
Lemma select_key {A} (m : gmap string A) id :
  select (λ k _, bool_decide (k = id)) m =
  match m !! id with Some r => [(id, r)] | None => [] end.
Proof using PL.
  pose proof (select_NoDup (λ k _, bool_decide (k = id)) m) as Hnd.
  pose proof (λ k r, select_spec (λ k _, bool_decide (k = id)) m k r) as Hs.
  destruct (select _ m) as [|[k r] l]; simpl in *.
  - destruct (m !! id) as [r|] eqn:E; [|done].
    assert ((id, r) ∈ []) as Hin by (apply Hs; by rewrite bool_decide_eq_true).
    by apply not_elem_of_nil in Hin.
  - destruct (Hs k r) as [[Hk Hid] _]; [by left|]. apply bool_decide_eq_true in Hid as ->.
    rewrite Hk. f_equal. destruct l as [|[k' r'] l]; [done|].
    destruct (Hs k' r') as [[_ Hid'] _]; [by right; left|]. apply bool_decide_eq_true in Hid' as ->.
    apply NoDup_cons in Hnd as [Hn _]. simpl in Hn. destruct Hn. by left.
Qed.

#[local] Instance key_le_total {A} key : Total (@key_le A key).
Proof. intros x y. unfold key_le. lia. Qed.
#[local] Instance key_le_trans {A} key : Transitive (@key_le A key).
Proof. intros x y z. unfold key_le. lia. Qed.
#[local] Instance key_ge_total {A} key : Total (@key_ge A key).
Proof. intros x y. unfold key_ge. lia. Qed.
#[local] Instance key_ge_trans {A} key : Transitive (@key_ge A key).
Proof. intros x y z. unfold key_ge. lia. Qed.

Lemma order_asc_perm {A} (key : A → Time) l : order_asc key l ≡ₚ l.
Proof. apply merge_sort_Permutation. Qed.
Lemma order_asc_sorted {A} (key : A → Time) l : StronglySorted (key_le key) (order_asc key l).
Proof. by apply StronglySorted_merge_sort; apply _. Qed.
Lemma order_desc_perm {A} (key : A → Time) l : order_desc key l ≡ₚ l.
Proof. apply merge_sort_Permutation. Qed.
Lemma order_desc_sorted {A} (key : A → Time) l : StronglySorted (key_ge key) (order_desc key l).
Proof. by apply StronglySorted_merge_sort; apply _. Qed.
End Reading.

#[export] Hint Resolve integrity_insert_family_group integrity_delete_family_group
  integrity_insert_group_member integrity_update_group_member integrity_delete_group_member
  integrity_insert_retry_item integrity_delete_retry_item integrity_update_retry_status
  integrity_update_retry_failure integrity_insert_notification integrity_update_dismissed
  integrity_delete_notification integrity_upsert_user integrity_delete_user
  integrity_insert_scrobble integrity_delete_scrobble integrity_evict_oldest
  integrity_delete_scrobbles_of integrity_update_scrobble_retry : plaxt.

Lemma memory_server_laws : PgServerLaws memory_server.
Proof.
  split; [intros c|done|done].
  unfold pq_code, violation, memory_server. by rewrite HasPrefix_app, TrimPrefix_app.
Qed.
