(* ===== verification/Jsonb.v ===== *)
(** * Scrobble bodies in a JSONB column

    A JSONB column keeps the value of a JSON text, not the text: the members of
    an object come back in another order.  A scrobble body is still decoded to
    the body that was stored, because its decoder does not depend on the order
    of the members: every member selects a field of its own. *)

From S2P Require Import Prelude GoLib Text Float Json Instances Common Entities Pg.

Open Scope Z_scope.

(** ** The same value, members in any order *)

Inductive json_same : json → json → Prop :=
| same_null : json_same JNull JNull
| same_bool b : json_same (JBool b) (JBool b)
| same_num lit : json_same (JNum lit) (JNum lit)
| same_str s : json_same (JStr s) (JStr s)
| same_arr l l' : Forall2 json_same l l' → json_same (JArr l) (JArr l')
| same_obj fs fs1 fs' :
    Forall2 (λ x y, x.1 = y.1 ∧ json_same x.2 y.2) fs fs1 → fs1 ≡ₚ fs' → json_same (JObj fs) (JObj fs').

(** What JSONB keeps as it is: no key twice in an object, integers in plain
    notation, no NUL in a text, valid UTF-8. *)
Definition pg_text (s : string) : bool :=
  forallb (λ a, negb (N_of_ascii a =? 0)%N) (bytes s) && valid_utf8 s.
Fixpoint plain (j : json) : bool :=
  match j with
  | JNull | JBool _ => true
  | JNum lit => match Atoi lit with Some z => bool_decide (lit = Itoa z) | None => false end
  | JStr s => pg_text s
  | JArr l => forallb plain l
  | JObj fs => bool_decide (NoDup fs.*1) && forallb (λ kv, pg_text kv.1 && plain kv.2) fs
  end.

Class JsonbLaws (P : PgServer) (J : JsonText) : Prop := {
  jsonb_value s j : json_parse s = Some j → plain j = true →
    ∃ j', json_parse (jsonb s) = Some j' ∧ json_same j j';
}.

Fixpoint plain_wf (j : json) : plain j = true → json_wf j = true.
Proof.
  assert (∀ s, pg_text s = true → valid_utf8 s = true) as Ht by (by intros s [_ ?]%andb_true_iff).
  destruct j as [| | | |l|fs]; simpl; [done..|apply Ht| |].
  - induction l as [|j l IH]; simpl; [done|]. rewrite !andb_true_iff. intros [Hj Hl]. auto.
  - intros [_ Hfs]%andb_true_iff. revert Hfs. induction fs as [|[k j] fs IH]; simpl; [done|].
    rewrite !andb_true_iff. intros [[Hk Hj] Hfs]. auto.
Qed.

Fixpoint json_same_refl (j : json) : json_same j j.
Proof.
  destruct j as [| | | |l|fs]; try constructor.
  - induction l as [|j l IH]; constructor; [apply json_same_refl|exact IH].
  - apply (same_obj fs fs); [|done].
    induction fs as [|[k j] fs IH]; constructor; [|exact IH]. split; [done|apply json_same_refl].
Qed.

Lemma memory_server_jsonb (J : JsonText) : JsonbLaws memory_server J.
Proof. split. intros s j Hs _. exists j. split; [done|apply json_same_refl]. Qed.

(** ** Decoders that do not see the order *)

(** What decodes from a tree decodes from every tree of the same value. *)
Definition stable {A} (d : decoder A) (j : json) : Prop :=
  ∀ j' a b, json_same j j' → d j a = DOk b → d j' a = DOk b.
Definition commute {A} (d d' : decoder A) : Prop :=
  ∀ j j' a b, (x ← d j a; d' j' x) = DOk b → (x ← d' j' a; d j x) = DOk b.

Lemma dec_at_commute {A B B'} (g : A → B) s d (g' : A → B') s' d' :
  (∀ a v, g (s' v a) = g a) → (∀ a v, g' (s v a) = g' a) → (∀ a v v', s' v' (s v a) = s v (s' v' a)) →
  commute (dec_at g s d) (dec_at g' s' d').
Proof.
  intros H1 H2 H3 j j' a b. unfold dec_at.
  destruct (d j (g a)) as [v| |] eqn:E; simpl; [|done..]. rewrite H2.
  destruct (d' j' (g' a)) as [v'| |] eqn:E'; simpl; [|done..]. intros [= <-]. by rewrite H1, E, H3.
Qed.

Lemma stable_at {A B} (g : A → B) s d j : stable d j → stable (dec_at g s d) j.
Proof.
  intros Hd j' a b Hj. unfold dec_at. destruct (d j (g a)) as [v| |] eqn:E; simpl; [|done..].
  by rewrite (Hd _ _ _ Hj E).
Qed.

Lemma stable_ptr {A} (z : A) d j : stable d j → stable (dec_ptr z d) j.
Proof.
  intros Hd j' a b Hj. unfold dec_ptr.
  assert (∀ c : A, (x ← d j (default z a); DOk (Some x)) = DOk (Some c) →
    (x ← d j' (default z a); DOk (Some x)) = DOk (Some c)) as Hc.
  { intros c. destruct (d j (default z a)) as [v| |] eqn:E; simpl; [|done..]. by rewrite (Hd _ _ _ Hj E). }
  assert (∀ c, (x ← d j (default z a); DOk (Some x)) = DOk c → is_Some c) as Hs.
  { intros c. destruct (d j _); simpl; [|done..]. intros [= <-]. by eexists. }
  inversion Hj; subst; intros Hb; first [exact Hb | destruct (Hs _ Hb) as [c ->]; by apply Hc].
Qed.

(** Values that are no objects and no arrays have one form only. *)
Lemma stable_int {A} (d : decoder A) z : stable d (enc_int z).
Proof. intros j' a b Hj. by inversion Hj. Qed.
Lemma stable_str {A} (d : decoder A) s : stable d (JStr s).
Proof. intros j' a b Hj. by inversion Hj. Qed.

Section Struct.
Context {A : Type} (field : string → option (decoder A)).

Abbreviation member := (λ kv a, match field kv.1 with None => DOk a | Some d => d kv.2 a end).

Definition independent (k k' : string) : Prop :=
  ∀ d d', field k = Some d → field k' = Some d' → commute d d'.

Lemma dec_fields_cons_ok kv fs a b :
  dec_fields field (kv :: fs) a = DOk b ↔ ∃ c, member kv a = DOk c ∧ dec_fields field fs c = DOk b.
Proof.
  set (run := λ (r : dres A) fs, foldl (λ acc kv, a ← acc; member kv a) r fs).
  assert (∀ r fs, (∀ c, r ≠ DOk c) → run r fs ≠ DOk b) as Hbad.
  { clear. intros r fs. revert r. induction fs as [|x fs IH]; intros r Hr; simpl; [apply Hr|]. apply IH.
    intros c. destruct r as [c0| |]; [by destruct (Hr c0)|done..]. }
  change (run (member kv a) fs = DOk b ↔ ∃ c, member kv a = DOk c ∧ run (DOk c) fs = DOk b).
  destruct (match field kv.1 with None => DOk a | Some d => d kv.2 a end) as [c| |].
  - split; [by exists c|]. by intros (? & [= <-] & ?).
  - split; [intros Hb; by destruct (Hbad DErr fs ltac:(done))|naive_solver].
  - split; [intros Hb; by destruct (Hbad (DPanic why) fs ltac:(done))|naive_solver].
Qed.

Lemma dec_fields_perm fs fs' a b :
  fs ≡ₚ fs' → NoDup fs.*1 → (∀ k k', k ∈ fs.*1 → k' ∈ fs.*1 → k ≠ k' → independent k k') →
  dec_fields field fs a = DOk b → dec_fields field fs' a = DOk b.
Proof.
  intros Hp. revert a. induction Hp as [|x l l' Hp IH|x y l|l1 l2 l3 Hp1 IH1 Hp2 IH2]; intros a Hn Hi Hd.
  - done.
  - apply dec_fields_cons_ok in Hd as (c & Hc & Hd). apply dec_fields_cons_ok. exists c. split; [done|].
    apply IH; [by apply NoDup_cons in Hn as [_ ?]| |done]. intros k k' ??. apply Hi; by right.
  - apply dec_fields_cons_ok in Hd as (c & Hc & Hd). apply dec_fields_cons_ok in Hd as (c' & Hc' & Hd).
    assert (y.1 ≠ x.1) as Hne.
    { intros E. apply NoDup_cons in Hn as [Hn _]. destruct Hn. rewrite E. by left. }
    assert (∃ c2, member x a = DOk c2 ∧ member y c2 = DOk c') as (c2 & E1 & E2).
    { destruct (field y.1) as [d|] eqn:Ey, (field x.1) as [d'|] eqn:Ex; simplify_eq; [|by eexists..].
      pose proof (Hi y.1 x.1 ltac:(by left) ltac:(by right; left) Hne d d' Ey Ex y.2 x.2 a c') as Hcc.
      simpl in Hcc. rewrite Hc in Hcc. specialize (Hcc Hc').
      destruct (d' x.2 a) as [c2| |]; [|done..]. by exists c2. }
    apply dec_fields_cons_ok. exists c2. split; [done|]. apply dec_fields_cons_ok. by exists c'.
  - apply IH2; [by rewrite <-Hp1| |by apply IH1]. intros k k'. rewrite <-!Hp1. apply Hi.
Qed.

Lemma dec_fields_same fs fs1 a b :
  Forall2 (λ x y, x.1 = y.1 ∧ json_same x.2 y.2) fs fs1 →
  Forall (λ kv, ∀ d, field kv.1 = Some d → stable d kv.2) fs →
  dec_fields field fs a = DOk b → dec_fields field fs1 a = DOk b.
Proof.
  intros Hs. revert a. induction Hs as [|x y fs fs1 [Hk Hj] _ IH]; intros a Hst; [done|].
  apply Forall_cons in Hst as [Hx Hst]. rewrite !dec_fields_cons_ok. intros (c & Hc & Hd).
  exists c. split; [|by apply IH]. rewrite <-Hk. destruct (field x.1) as [d|] eqn:E; [|done].
  exact (Hx d eq_refl _ _ _ Hj Hc).
Qed.

(** A struct whose members select fields of their own. *)
Lemma stable_struct fs :
  NoDup fs.*1 → (∀ k k', k ∈ fs.*1 → k' ∈ fs.*1 → k ≠ k' → independent k k') →
  Forall (λ kv, ∀ d, field kv.1 = Some d → stable d kv.2) fs → stable (dec_struct field) (JObj fs).
Proof.
  intros Hn Hi Hst j' a b Hj. inversion Hj as [| | | | |? fs1 fs' Hf Hp]; subst. simpl. intros Hd.
  assert (fs1.*1 = fs.*1) as Hk.
  { clear -Hf. induction Hf as [|x y fs fs1 [E _] _ IH]; [done|]. by rewrite !fmap_cons, IH, E. }
  apply (dec_fields_perm fs1); [done|by rewrite Hk|by rewrite Hk|]. by eapply dec_fields_same.
Qed.
End Struct.

(** The keys of a printed struct. *)
Lemma present_keys (members : list (option (string * json))) keys :
  Forall2 (λ m k, ∀ kv, m = Some kv → kv.1 = k) members keys → (present members).*1 `sublist_of` keys.
Proof.
  unfold present. induction 1 as [|m k members keys Hm _ IH]; [done|]. simpl.
  destruct m as [kv|]; simpl; [|by apply sublist_cons]. rewrite (Hm kv eq_refl). by apply sublist_skip.
Qed.

Lemma stable_enc {A} (field : string → option (decoder A)) members keys :
  Forall2 (λ m k, ∀ kv, m = Some kv → kv.1 = k) members keys → NoDup keys →
  (∀ k k', k ∈ keys → k' ∈ keys → k ≠ k' → independent field k k') →
  Forall (λ m, ∀ kv d, m = Some kv → field kv.1 = Some d → stable d kv.2) members →
  stable (dec_struct field) (enc_struct members).
Proof.
  intros Hm Hn Hi Hst. pose proof (present_keys _ _ Hm) as Hsub. apply stable_struct.
  - by eapply sublist_NoDup.
  - intros k k' ??. apply Hi; by eapply elem_of_sublist.
  - unfold present. clear -Hst. induction Hst as [|[kv|] members Hm _ IH]; simpl; [constructor| |done].
    constructor; [|done]. intros d. by apply Hm.
Qed.

(** ** Scrobble bodies *)

Lemma independent_at {A B B'} (field : string → option (decoder A)) k k'
    (g : A → B) s d (g' : A → B') s' d' :
  field k = Some (dec_at g s d) → field k' = Some (dec_at g' s' d') →
  (∀ a v, g (s' v a) = g a) → (∀ a v, g' (s v a) = g' a) → (∀ a v v', s' v' (s v a) = s v (s' v' a)) →
  independent field k k'.
Proof. intros E E' ??? ?? Hd Hd'. rewrite E in Hd. rewrite E' in Hd'. simplify_eq. by apply dec_at_commute. Qed.

Lemma stable_omit {A B} (field : string → option (decoder A)) k (enc : B → json) p d0 :
  field k = Some d0 → (∀ b, p = Some b → stable d0 (enc b)) →
  ∀ kv d, omit_nil k enc p = Some kv → field kv.1 = Some d → stable d kv.2.
Proof. intros E Hs kv d. destruct p; [|done]. intros [= <-]. simpl. rewrite E. intros [= <-]. by apply Hs. Qed.

Lemma stable_always {A} (field : string → option (decoder A)) k j d0 :
  field k = Some d0 → stable d0 j →
  ∀ kv d, always k j = Some kv → field kv.1 = Some d → stable d kv.2.
Proof. intros E Hs kv d [= <-]. simpl. rewrite E. by intros [= <-]. Qed.

Lemma omit_key {B} k (enc : B → json) p kv : omit_nil k enc p = Some kv → kv.1 = k.
Proof. destruct p; [|done]. by intros [= <-]. Qed.
Lemma always_key k j kv : always k j = Some kv → kv.1 = k.
Proof. by intros [= <-]. Qed.

(** Keys and fields of a printed struct; what is left are its members. *)
Ltac struct_keys keys :=
  apply (stable_enc _ _ keys);
  [ repeat constructor; (apply omit_key || apply always_key)
  | apply (bool_decide_unpack _); vm_compute; exact I
  | intros k k' Hk Hk' Hne; repeat (apply elem_of_cons in Hk as [->|Hk]); try (by apply not_elem_of_nil in Hk);
    repeat (apply elem_of_cons in Hk' as [->|Hk']); try (by apply not_elem_of_nil in Hk');
    first [by destruct Hne | eapply independent_at; reflexivity]
  | ].

Create HintDb stable.
#[local] Hint Resolve stable_at stable_ptr stable_int stable_str : stable.

Ltac struct_members :=
  first [ apply Forall_nil_2
        | apply Forall_cons_2;
          [ first [eapply stable_omit | eapply stable_always]; [reflexivity|intros; auto with stable]
          | struct_members ] ].

Section Body.
Context `{UnicodeTables}.

Lemma stable_Ids i : stable dec_Ids (json_of_Ids i).
Proof.
  struct_keys ["trakt"; "tvdb"; "imdb"; "tmdb"; "slug"]. struct_members.
Qed.
#[local] Hint Resolve stable_Ids : stable.

Lemma stable_Movie m : stable dec_Movie (json_of_Movie m).
Proof. struct_keys ["title"; "year"; "ids"]. struct_members. Qed.

Lemma stable_Show s : stable dec_Show (json_of_Show s).
Proof. struct_keys ["title"; "year"; "ids"]. struct_members. Qed.

Lemma stable_Episode e : stable dec_Episode (json_of_Episode e).
Proof. struct_keys ["season"; "number"; "title"; "ids"]. struct_members. Qed.
#[local] Hint Resolve stable_Movie stable_Show stable_Episode : stable.

Lemma stable_BodyAux b : stable dec_BodyAux (ScrobbleBody_MarshalJSON b).
Proof. struct_keys ["progress"; "movie"; "show"; "episode"]. struct_members. Qed.

Lemma stable_ScrobbleBody b : stable ScrobbleBody_UnmarshalJSON (ScrobbleBody_MarshalJSON b).
Proof.
  intros j' a c Hj. pose proof (stable_BodyAux b j' (mkAux JNull a)) as Hs. revert Hs.
  assert (∃ fs', j' = JObj fs') as [fs' ->] by (inversion Hj; by eexists).
  unfold ScrobbleBody_UnmarshalJSON. destruct (ScrobbleBody_MarshalJSON b) eqn:E; try done. rewrite <-E in *.
  intros Hs. destruct (dec_BodyAux (ScrobbleBody_MarshalJSON b) _) as [aux| |]; [|done..].
  by rewrite (Hs aux Hj eq_refl).
Qed.

(** Decoding a body panics on [null] only. *)
Definition never_panics {A} (d : decoder A) : Prop := ∀ j a why, d j a ≠ DPanic why.

Lemma never_at {A B} (g : A → B) s d : never_panics d → never_panics (dec_at g s d).
Proof. intros Hd j a why. unfold dec_at. specialize (Hd j (g a)). destruct (d j (g a)); [done..|]. congruence. Qed.

Lemma never_ptr {A} (z : A) d : never_panics d → never_panics (dec_ptr z d).
Proof.
  intros Hd j a why. unfold dec_ptr. specialize (Hd j (default z a)).
  destruct j; [done|..]; destruct (d _ _); (done || congruence).
Qed.

Lemma never_struct {A} (tbl : list (string * decoder A)) :
  Forall (λ f, never_panics f.2) tbl → never_panics (dec_struct (find_field tbl)).
Proof.
  intros Ht j a why. destruct j as [| | | | |fs]; try done. simpl. unfold dec_fields.
  assert (∀ k d, find_field tbl k = Some d → never_panics d) as Hf.
  { induction Ht as [|[n d'] tbl Hd _ IH]; intros k d; simpl; [done|]. destruct (EqualFold k n); [by intros [= <-]|apply IH]. }
  assert (∀ r : dres A, r ≠ DPanic why →
    foldl (λ acc kv, a ← acc; match find_field tbl kv.1 with None => DOk a | Some d => d kv.2 a end) r fs ≠ DPanic why) as Hr.
  { induction fs as [|kv fs IH]; intros r Hr; simpl; [done|]. apply IH. destruct r as [x| |]; simpl; [|done..].
    destruct (find_field tbl kv.1) as [d|] eqn:E; [|done]. exact (Hf _ _ E _ _ _). }
  by apply Hr.
Qed.

Lemma never_int : never_panics dec_int.
Proof. intros [] a why; simpl; try done. by destruct (Atoi lit). Qed.
Lemma never_string : never_panics dec_string.
Proof. by intros []. Qed.

Lemma never_BodyAux : never_panics dec_BodyAux.
Proof.
  assert (never_panics dec_any) as Hany by (intros [] a why; simpl; try done; by destruct (ParseFloat lit)).
  assert (never_panics dec_Ids) as Hids
    by (apply never_struct; repeat constructor; apply never_at, never_ptr; auto using never_int, never_string).
  apply never_struct; repeat constructor; apply never_at; [done|..]; apply never_ptr, never_struct;
    repeat constructor; apply never_at; auto using never_ptr, never_int, never_string.
Qed.

Lemma ScrobbleBody_panics_on_null j a why : ScrobbleBody_UnmarshalJSON j a = DPanic why → j = JNull.
Proof.
  unfold ScrobbleBody_UnmarshalJSON. pose proof (never_BodyAux j (mkAux JNull a) why) as Hn. revert Hn.
  assert (∀ r : dres BodyAux, r ≠ DPanic why →
    (aux ← r;
     match aux_Progress aux with
     | JNum lit => v ← dres_of_option (ParseFloat lit); DOk (set_Progress (int_of_float v) (aux_Alias aux))
     | JNull => DOk (set_Progress 0 (aux_Alias aux))
     | _ => DOk (aux_Alias aux)
     end) ≠ DPanic why) as Hr.
  { intros [aux| |] Hr; simpl; [|done|congruence]. destruct (aux_Progress aux); try done. by destruct (ParseFloat lit). }
  destruct j; [done|..]; intros Hn Hp; by destruct (Hr _ Hn).
Qed.

(** A scrobble body comes back from a JSONB column as it was stored. *)
Lemma jsonb_body `{PG : PgServer, JT : JsonText, !JsonTextLaws JT, !JsonbLaws PG JT} b :
  Body_int b → 0 ≤ Progress b ≤ 100 → plain (ScrobbleBody_MarshalJSON b) = true →
  ∃ j, json_parse (jsonb (json_print (ScrobbleBody_MarshalJSON b))) = Some j ∧
    ScrobbleBody_UnmarshalJSON j emptyBody = DOk b.
Proof.
  intros Hi Hp Hpl. destruct (jsonb_value _ _ (json_parse_print (ScrobbleBody_MarshalJSON b) (plain_wf _ Hpl)) Hpl) as (j & Hj & Hs).
  exists j. split; [done|]. by apply (stable_ScrobbleBody b j emptyBody b Hs), ScrobbleBody_roundtrip_lemma.
Qed.
End Body.
