(* ===== verification/PgFamily.v ===== *)
(** * [PostgresqlStore], family part: [lib/store/postgresql_family.go]

    Family groups, group members and the retry queue.  Each method takes the
    environment of the call and the database; a method that fills in its
    pointer argument returns the argument as the call leaves it. *)

From S2P Require Import Prelude GoLib Float Json Instances Common Entities Pg.

Open Scope Z_scope.

Definition nullableString (value : string) : option string :=
  let value := TrimSpace value in
  if bool_decide (value = "") then None else Some value.

Definition nullableTime (t : option Time) : option Time := t.

(** [sql.NullString.String]: empty for NULL. *)
Definition null_string (s : option string) : string := default "" s.

Definition scanFamilyGroupRow (row : string * GroupRow) : FamilyGroup :=
  mkFG row.1 (G_plex_username row.2) (G_created_at row.2) (G_updated_at row.2).

Definition scanGroupMemberRow (row : string * MemberRow) : GroupMember :=
  let r := row.2 in
  mkGM row.1 (M_family_group_id r) (M_temp_label r) (TrimSpace (null_string (M_trakt_username r)))
    (null_string (M_access_token r)) (null_string (M_refresh_token r)) (M_token_expiry r)
    (M_authorization_status r) (M_created_at r).

Definition scanRetryRow (row : string * RetryRow) : RetryQueueItem :=
  let r := row.2 in
  mkRQ row.1 (R_family_group_id r) (R_group_member_id r) (R_payload r) (R_attempt_count r)
    (R_next_attempt_at r) (null_string (R_last_error r)) (R_status r) (R_created_at r)
    (R_updated_at r).

(** [QueryRow(...).Scan(...)]: the first row, or [sql.ErrNoRows]. *)
Definition ErrNoRows := Sentinel "sql: no rows in result set".
Definition query_row {A} (rows : list A) (db : Db) : result (A * Db) :=
  match rows with [] => Err ErrNoRows | r :: _ => Ok (r, db) end.
Definition query {A} (rows : list A) (db : Db) : result (list A * Db) := Ok (rows, db).

Section Family.
Context `{UnicodeTables, PgServer}.

(** ** Family groups *)

Definition set_FG_ID (id : string) (g : FamilyGroup) : FamilyGroup :=
  mkFG id (FG_PlexUsername g) (FG_CreatedAt g) (FG_UpdatedAt g).

Definition CreateFamilyGroup (env : Env) (group : option FamilyGroup) (db : Db)
    : option FamilyGroup * option error * Db :=
  match group with
  | None => (None, Some ErrInvalidFamilyGroup, db)
  | Some _ =>
      match FamilyGroup_Validate group with
      | (group, Some err) => (group, Some err, db)
      | (None, None) => (None, None, db)
      | (Some group, None) =>
          let group := if bool_decide (FG_ID group = "") then set_FG_ID (fresh_id env) group
                       else group in
          match statement env 0 (insert_family_group (FG_ID group) (FG_PlexUsername group)
                                   (db_now env)) db with
          | (Err err, db) =>
              (Some group,
               Some (if bool_decide (pq_code err = Some unique_violation)
                     then ErrDuplicateFamilyGroup else err), db)
          | (Ok (created, updated), db) =>
              (Some (mkFG (FG_ID group) (FG_PlexUsername group) created updated), None, db)
          end
      end
  end.

Definition GetFamilyGroup (env : Env) (groupID : string) (db : Db) : result FamilyGroup :=
  let groupID := TrimSpace groupID in
  if bool_decide (groupID = "") then Err ErrFamilyGroupNotFound else
  match statement env 0 (query_row (select (λ id _, bool_decide (id = groupID)) (family_groups db))) db with
  | (Err err, _) => Err (if bool_decide (err = ErrNoRows) then ErrFamilyGroupNotFound else err)
  | (Ok row, _) => Ok (scanFamilyGroupRow row)
  end.

Definition GetFamilyGroupByPlex (env : Env) (plexUsername : string) (db : Db) : result FamilyGroup :=
  let plexUsername := TrimSpace (ToLower plexUsername) in
  if bool_decide (plexUsername = "") then Err ErrFamilyGroupNotFound else
  match statement env 0 (query_row (select (λ _ r, bool_decide (G_plex_username r = plexUsername))
                                      (family_groups db))) db with
  | (Err err, _) => Err (if bool_decide (err = ErrNoRows) then ErrFamilyGroupNotFound else err)
  | (Ok row, _) => Ok (scanFamilyGroupRow row)
  end.

(** The rows of a query, scanned one by one, with the error [rows.Err()] may report at the end. *)
Definition query_all {A B} (env : Env) (scan : A → B) (rows : list A) (db : Db)
    : result (list B) :=
  match statement env 0 (query rows) db with
  | (Err err, _) => Err err
  | (Ok rows, _) =>
      match fault env RowsErr with Some err => Err err | None => Ok (scan <$> rows) end
  end.

Definition ListFamilyGroups (env : Env) (db : Db) : result (list FamilyGroup) :=
  query_all env scanFamilyGroupRow
    (order_asc G_created_at (select (λ _ _, true) (family_groups db))) db.

(** [res.RowsAffected()] after a statement, and the method's answer when no
    row was affected. *)
Definition affected_or (env : Env) (notFound : error) (r : result Z * Db) : option error * Db :=
  match r with
  | (Err err, db) => (Some err, db)
  | (Ok affected, db) =>
      match fault env RowsAffected with
      | Some err => (Some err, db)
      | None => (if affected =? 0 then Some notFound else None, db)
      end
  end.

Definition DeleteFamilyGroup (env : Env) (groupID : string) (db : Db) : option error * Db :=
  let groupID := TrimSpace groupID in
  if bool_decide (groupID = "") then (Some ErrFamilyGroupNotFound, db) else
  affected_or env ErrFamilyGroupNotFound (statement env 0 (delete_family_group groupID) db).

(** ** Group members *)

Definition set_GM (id trakt status : string) (m : GroupMember) : GroupMember :=
  mkGM id (GM_FamilyGroupID m) (GM_TempLabel m) trakt (GM_AccessToken m) (GM_RefreshToken m)
    (GM_TokenExpiry m) status (GM_CreatedAt m).
Definition set_GM_CreatedAt (t : Time) (m : GroupMember) : GroupMember :=
  mkGM (GM_ID m) (GM_FamilyGroupID m) (GM_TempLabel m) (GM_TraktUsername m) (GM_AccessToken m)
    (GM_RefreshToken m) (GM_TokenExpiry m) (GM_AuthorizationStatus m) t.

(** The defaults set before validation. *)
Definition default_status (m : GroupMember) : string :=
  if bool_decide (GM_AuthorizationStatus m = "") then GroupMemberStatusPending
  else GM_AuthorizationStatus m.
Definition lower_trakt (m : GroupMember) : string :=
  if bool_decide (GM_TraktUsername m = "") then GM_TraktUsername m
  else ToLower (GM_TraktUsername m).

Definition AddGroupMember (env : Env) (member : option GroupMember) (db : Db)
    : option GroupMember * option error * Db :=
  match member with
  | None => (None, Some ErrInvalidGroupMember, db)
  | Some m =>
      let id := if bool_decide (GM_ID m = "") then fresh_id env else GM_ID m in
      match GroupMember_Validate (Some (set_GM id (lower_trakt m) (default_status m) m)) with
      | (member, Some err) => (member, Some err, db)
      | (None, None) => (None, None, db)
      | (Some m, None) =>
          match statement env 0 (insert_group_member (GM_ID m)
                  (mkMemberRow (GM_FamilyGroupID m) (GM_TempLabel m)
                     (nullableString (GM_TraktUsername m)) (nullableString (GM_AccessToken m))
                     (nullableString (GM_RefreshToken m))
                     (timestamp <$> nullableTime (GM_TokenExpiry m))
                     (GM_AuthorizationStatus m) (timestamp (db_now env)))) db with
          | (Err err, db) =>
              (Some m,
               Some (if bool_decide (pq_code err = Some foreign_key_violation)
                     then ErrFamilyGroupNotFound
                     else if bool_decide (pq_code err = Some unique_violation)
                     then ErrDuplicateGroupMember else err), db)
          | (Ok created, db) => (Some (set_GM_CreatedAt created m), None, db)
          end
      end
  end.

Definition GetGroupMember (env : Env) (memberID : string) (db : Db) : result GroupMember :=
  let memberID := TrimSpace memberID in
  if bool_decide (memberID = "") then Err ErrGroupMemberNotFound else
  match statement env 0 (query_row (select (λ id _, bool_decide (id = memberID)) (group_members db))) db with
  | (Err err, _) => Err (if bool_decide (err = ErrNoRows) then ErrGroupMemberNotFound else err)
  | (Ok row, _) => Ok (scanGroupMemberRow row)
  end.

Definition UpdateGroupMember (env : Env) (member : option GroupMember) (db : Db)
    : option GroupMember * option error * Db :=
  match member with
  | None => (None, Some ErrInvalidGroupMember, db)
  | Some m =>
      match GroupMember_Validate (Some (set_GM (GM_ID m) (lower_trakt m) (default_status m) m)) with
      | (member, Some err) => (member, Some err, db)
      | (None, None) => (None, None, db)
      | (Some m, None) =>
          match statement env 0 (update_group_member (GM_ID m) (GM_TempLabel m)
                  (nullableString (GM_TraktUsername m)) (nullableString (GM_AccessToken m))
                  (nullableString (GM_RefreshToken m)) (nullableTime (GM_TokenExpiry m))
                  (GM_AuthorizationStatus m)) db with
          | (Err err, db) =>
              (Some m,
               Some (if bool_decide (pq_code err = Some unique_violation)
                     then ErrDuplicateGroupMember else err), db)
          | r => let '(err, db) := affected_or env ErrGroupMemberNotFound r in (Some m, err, db)
          end
      end
  end.

Definition RemoveGroupMember (env : Env) (groupID memberID : string) (db : Db) : option error * Db :=
  let groupID := TrimSpace groupID in
  let memberID := TrimSpace memberID in
  if bool_decide (groupID = "") || bool_decide (memberID = "")
  then (Some ErrGroupMemberNotFound, db) else
  affected_or env ErrGroupMemberNotFound (statement env 0 (delete_group_member groupID memberID) db).

Definition ListGroupMembers (env : Env) (groupID : string) (db : Db) : result (list GroupMember) :=
  let groupID := TrimSpace groupID in
  if bool_decide (groupID = "") then Err ErrFamilyGroupNotFound else
  query_all env scanGroupMemberRow (order_asc M_created_at
    (select (λ _ r, bool_decide (M_family_group_id r = groupID)) (group_members db))) db.

Definition GetGroupMemberByTrakt (env : Env) (groupID traktUsername : string) (db : Db)
    : result GroupMember :=
  let groupID := TrimSpace groupID in
  let traktUsername := TrimSpace (ToLower traktUsername) in
  if bool_decide (groupID = "") || bool_decide (traktUsername = "")
  then Err ErrGroupMemberNotFound else
  match statement env 0 (query_row (select
          (λ _ r, bool_decide (M_family_group_id r = groupID) &&
                  bool_decide (M_trakt_username r = Some traktUsername)) (group_members db))) db with
  | (Err err, _) => Err (if bool_decide (err = ErrNoRows) then ErrGroupMemberNotFound else err)
  | (Ok row, _) => Ok (scanGroupMemberRow row)
  end.

(** ** Retry queue *)

Definition set_RQ_times (created updated : Time) (i : RetryQueueItem) : RetryQueueItem :=
  mkRQ (RQ_ID i) (RQ_FamilyGroupID i) (RQ_GroupMemberID i) (RQ_Payload i) (RQ_AttemptCount i)
    (RQ_NextAttemptAt i) (RQ_LastError i) (RQ_Status i) created updated.
Definition set_RQ_id_status (id status : string) (i : RetryQueueItem) : RetryQueueItem :=
  mkRQ id (RQ_FamilyGroupID i) (RQ_GroupMemberID i) (RQ_Payload i) (RQ_AttemptCount i)
    (RQ_NextAttemptAt i) (RQ_LastError i) status (RQ_CreatedAt i) (RQ_UpdatedAt i).
Definition set_RQ_retrying (updated : Time) (i : RetryQueueItem) : RetryQueueItem :=
  mkRQ (RQ_ID i) (RQ_FamilyGroupID i) (RQ_GroupMemberID i) (RQ_Payload i) (RQ_AttemptCount i)
    (RQ_NextAttemptAt i) (RQ_LastError i) RetryQueueStatusRetrying (RQ_CreatedAt i) updated.

Definition EnqueueRetryItem (env : Env) (item : option RetryQueueItem) (db : Db)
    : option RetryQueueItem * option error * Db :=
  match item with
  | None => (None, Some ErrInvalidRetryItem, db)
  | Some i =>
      let id := if bool_decide (RQ_ID i = "") then fresh_id env else RQ_ID i in
      let status := if bool_decide (RQ_Status i = "") then RetryQueueStatusQueued else RQ_Status i in
      match RetryQueueItem_Validate (Some (set_RQ_id_status id status i)) with
      | (item, Some err) => (item, Some err, db)
      | (None, None) => (None, None, db)
      | (Some i, None) =>
          let now := timestamp (db_now env) in
          match statement env 0 (insert_retry_item (RQ_ID i)
                  (mkRetryRow (RQ_FamilyGroupID i) (RQ_GroupMemberID i) (jsonb (RQ_Payload i))
                     (RQ_AttemptCount i) (timestamp (RQ_NextAttemptAt i))
                     (nullableString (RQ_LastError i)) (RQ_Status i) now now)) db with
          | (Err err, db) =>
              (Some i,
               Some (if bool_decide (pq_code err = Some foreign_key_violation)
                     then ErrGroupMemberNotFound else err), db)
          | (Ok (created, updated), db) => (Some (set_RQ_times created updated i), None, db)
          end
      end
  end.

(** [WHERE status IN (...) AND next_attempt_at <= $3 ... SKIP LOCKED] *)
Definition due (env : Env) (now : Time) (id : string) (r : RetryRow) : bool :=
  bool_decide (R_status r ∈ [RetryQueueStatusQueued; RetryQueueStatusRetrying]) &&
  (R_next_attempt_at r <=? now) && bool_decide (id ∉ locked env).

Definition due_rows (env : Env) (now : Time) (limit : Z) (db : Db) : list (string * RetryRow) :=
  take (Z.to_nat limit)
    (order_asc R_next_attempt_at (select (due env now) (retry_queue_items db))).

Definition ListDueRetryItems (env : Env) (now : Time) (limit : Z) (db : Db)
    : result (list RetryQueueItem) * Db :=
  let limit := if limit <=? 0 then 50 else limit in
  match fault env BeginTx with
  | Some err => (Err err, db)
  | None =>
      match statement env 0 (query (due_rows env (timestamp now) limit db)) db with
      | (Err err, _) => (Err err, db)
      | (Ok rows, _) =>
          match fault env RowsErr with
          | Some err => (Err err, db)
          | None =>
              let items := scanRetryRow <$> rows in
              let ids := RQ_ID <$> items in
              let r :=
                if bool_decide (ids = []) then (Ok items, db) else
                match statement env 1 (update_retry_status ids RetryQueueStatusRetrying (db_now env)) db with
                | (Err err, _) => (Err err, db)
                | (Ok _, db') => (Ok (set_RQ_retrying (clock env) <$> items), db')
                end in
              match r with
              | (Err err, _) => (Err err, db)
              | (Ok items, db') =>
                  match fault env Commit with
                  | Some err => (Err err, db)
                  | None => (Ok items, db')
                  end
              end
          end
      end
  end.

Definition MarkRetrySuccess (env : Env) (id : string) (db : Db) : option error * Db :=
  let id := TrimSpace id in
  if bool_decide (id = "") then (Some ErrRetryItemNotFound, db) else
  affected_or env ErrRetryItemNotFound (statement env 0 (delete_retry_item id) db).

Definition MarkRetryFailure (env : Env) (id : string) (attempt : Z) (nextAttempt : Time)
    (lastErr : string) (permanent : bool) (db : Db) : option error * Db :=
  let id := TrimSpace id in
  if bool_decide (id = "") then (Some ErrRetryItemNotFound, db) else
  let status := if permanent then RetryQueueStatusPermanentFailure else RetryQueueStatusQueued in
  let attempt := if permanent then MaxRetryAttempts else attempt in
  affected_or env ErrRetryItemNotFound
    (statement env 0 (update_retry_failure id attempt nextAttempt (nullableString lastErr) status
                        (db_now env)) db).
End Family.

(** ** Lemmas *)

Section FamilyLemmas.
Context `{UnicodeTables, PG : PgServer, PL : !PgServerLaws PG}.

Lemma null_nullableString s : null_string (nullableString s) = TrimSpace s.
Proof. unfold nullableString, null_string. case_bool_decide as E; [by rewrite E|done]. Qed.

Lemma statement_quiet {A} env n (f : Db → result (A * Db)) db :
  fault env (Stmt n) = None →
  statement env n f db = match f db with Ok (a, db') => (Ok a, db') | Err e => (Err e, db) end.
Proof. unfold statement. by intros ->. Qed.

(** A lookup by primary key, without failures. *)
Lemma query_row_key {A} env (m : gmap string A) id db :
  fault env (Stmt 0) = None →
  statement env 0 (query_row (select (λ k _, bool_decide (k = id)) m)) db =
  (match m !! id with Some r => Ok (id, r) | None => Err ErrNoRows end, db).
Proof using PL.
  intros Hf. rewrite statement_quiet by done. rewrite select_key.
  by destruct (m !! id).
Qed.

(** Rows of a query on a unique column. *)
Lemma select_unique {A} (f : string → A → bool) (m : gmap string A) id r :
  m !! id = Some r → f id r = true →
  (∀ k r', m !! k = Some r' → f k r' = true → k = id) → select f m = [(id, r)].
Proof using PL.
  intros Hm Hf Hu. pose proof (select_NoDup f m) as Hnd. pose proof (select_spec f m) as Hs.
  assert ((id, r) ∈ select f m) as Hin by by apply Hs.
  assert (Hall : ∀ x, x ∈ select f m → x = (id, r)).
  { intros [k r'] [Hk Hf']%Hs. assert (k = id) as -> by eauto. congruence. }
  destruct (select f m) as [|x [|y l]].
  - by apply not_elem_of_nil in Hin.
  - rewrite (Hall x) by left. done.
  - rewrite (Hall x), (Hall y) in Hnd by (left || right; left).
    apply NoDup_cons in Hnd as [Hn _]. destruct Hn. by left.
Qed.

Lemma insert_family_group_ok id plex now db r db' :
  insert_family_group id plex now db = Ok (r, db') →
  family_groups db !! id = None ∧
  (∀ k g, family_groups db !! k = Some g → G_plex_username g ≠ plex) ∧
  r = (timestamp now, timestamp now) ∧
  db' = set_family_groups (<[id := mkGroupRow plex (timestamp now) (timestamp now)]> (family_groups db)) db.
Proof.
  unfold insert_family_group. destruct (check _ (negb _)) eqn:E1; simpl; [|done].
  destruct (check _ (none_with _ _)) eqn:E2; simpl; [|done]. intros [= <- <-].
  apply check_ok in E1, E2. rewrite negb_true_iff in E1. rewrite none_with_spec in E2.
  split_and!; try done.
  - apply eq_None_not_Some. intros Hs. apply exists_in_spec in Hs. congruence.
  - intros k g Hk. specialize (E2 _ _ Hk). by apply bool_decide_eq_false in E2.
Qed.

Lemma due_rows_spec env now limit db k r :
  (k, r) ∈ due_rows env now limit db →
  retry_queue_items db !! k = Some r ∧ due env now k r = true.
Proof using PL.
  unfold due_rows. intros Hin%elem_of_take. destruct Hin as (i & Hi & _).
  apply list_elem_of_lookup_2 in Hi. rewrite order_asc_perm in Hi. by apply select_spec in Hi.
Qed.

(** A due row that [LIMIT] cuts off comes after all the rows returned. *)
Lemma due_rows_complete env now limit db k r :
  0 ≤ limit → retry_queue_items db !! k = Some r → due env now k r = true →
  let rows := due_rows env now limit db in
  (k, r) ∈ rows ∨ Z.of_nat (List.length rows) = limit ∧
    Forall (λ x, R_next_attempt_at x.2 ≤ R_next_attempt_at r) rows.
Proof using PL.
  intros Hl Hk Hd. unfold due_rows. simpl.
  set (l := order_asc _ _). assert ((k, r) ∈ l) as Hin.
  { unfold l. rewrite order_asc_perm. by apply select_spec. }
  pose proof (order_asc_sorted R_next_attempt_at (select (due env now) (retry_queue_items db))) as Hs.
  change (order_asc _ _) with l in Hs.
  rewrite <-(take_drop (Z.to_nat limit) l) in Hin, Hs.
  apply elem_of_app in Hin as [?|Hin]; [by left|right]. split.
  - rewrite length_take. assert (Z.to_nat limit < List.length l)%nat; [|lia].
    destruct (decide (List.length l ≤ Z.to_nat limit)%nat); [|lia].
    rewrite drop_ge in Hin by done. by apply not_elem_of_nil in Hin.
  - apply StronglySorted_app in Hs as (Hs & _ & _). apply Forall_forall. intros x Hx.
    exact (Hs _ _ Hx Hin).
Qed.
End FamilyLemmas.

(** ** Properties *)

Section FamilyProperties.
Context `{UnicodeTables, PG : PgServer, PL : !PgServerLaws PG}.

(** The group [CreateFamilyGroup] hands to the database. *)
Definition created_group (env : Env) (g : FamilyGroup) : FamilyGroup :=
  mkFG (if bool_decide (FG_ID g = "") then fresh_id env else FG_ID g)
    (ToLower (TrimSpace (FG_PlexUsername g))) (timestamp (db_now env)) (timestamp (db_now env)).

Lemma CreateFamilyGroup_unfold env g db :
  ToLower (TrimSpace (FG_PlexUsername g)) ≠ "" → fault env (Stmt 0) = None →
  let g' := created_group env g in
  match insert_family_group (FG_ID g') (FG_PlexUsername g') (db_now env) db with
  | Ok (_, db') => CreateFamilyGroup env (Some g) db = (Some g', None, db')
  | Err e => ∃ g1, CreateFamilyGroup env (Some g) db =
      (Some g1, Some (if bool_decide (pq_code e = Some unique_violation)
                      then ErrDuplicateFamilyGroup else e), db)
  end.
Proof.
  intros Hne Hf. simpl. unfold CreateFamilyGroup, FamilyGroup_Validate. simpl.
  rewrite (bool_decide_eq_false_2 (ToLower _ = "")) by done. unfold created_group. simpl.
  rewrite statement_quiet by done.
  destruct (bool_decide (FG_ID g = "")); simpl;
    (destruct (insert_family_group _ _ _ db) as [[r db']|e] eqn:E; [|by eexists]);
    apply insert_family_group_ok in E as (_ & _ & -> & ->); done.
Qed.

(** [CreateFamilyGroup] with a new, non-blank ASCII Plex username succeeds
    without failures and [GetFamilyGroupByPlex] then finds the group under any
    spelling that agrees up to case and surrounding blanks; creating a second
    group under such a spelling is refused as a duplicate and changes
    nothing. *)
Lemma family_group_by_plex (env env1 env2 : Env) (g g2 : FamilyGroup) (spelling : string) (db : Db) :
  is_ascii (FG_PlexUsername g) = true → is_ascii spelling = true →
  ToLower (TrimSpace (FG_PlexUsername g)) ≠ "" →
  ToLower (TrimSpace spelling) = ToLower (TrimSpace (FG_PlexUsername g)) →
  FG_PlexUsername g2 = spelling →
  fault env (Stmt 0) = None → fault env1 (Stmt 0) = None → fault env2 (Stmt 0) = None →
  family_groups db !! FG_ID (created_group env g) = None →
  (∀ k r, family_groups db !! k = Some r →
     G_plex_username r ≠ ToLower (TrimSpace (FG_PlexUsername g))) →
  ∃ db', CreateFamilyGroup env (Some g) db = (Some (created_group env g), None, db') ∧
    GetFamilyGroupByPlex env1 spelling db' = Ok (created_group env g) ∧
    ∃ g2', CreateFamilyGroup env2 (Some g2) db' = (Some g2', Some ErrDuplicateFamilyGroup, db').
Proof using PL.
  intros Ha Ha' Hne Hsp Hg2 Hf Hf1 Hf2 Hid Hnew.
  pose proof (CreateFamilyGroup_unfold env g db Hne Hf) as Hc. cbv zeta in Hc.
  destruct (insert_family_group _ _ _ db) as [[r db']|e] eqn:E; cycle 1.
  { exfalso. unfold insert_family_group, check in E.
    assert (exists_in (family_groups db) (FG_ID (created_group env g)) = false) as Hx.
    { unfold exists_in. rewrite Hid. done. }
    rewrite Hx in E. simpl in E.
    rewrite (proj2 (none_with_spec _ _)) in E; [done|].
    intros k r Hk. apply bool_decide_eq_false. eauto. }
  apply insert_family_group_ok in E as (_ & _ & _ & ->).
  eexists; split; [exact Hc|]. set (db' := set_family_groups _ db).
  set (plex := ToLower (TrimSpace (FG_PlexUsername g))) in *. split.
  - unfold GetFamilyGroupByPlex. rewrite TrimSpace_ToLower by done.
    rewrite Hsp, (bool_decide_eq_false_2 (plex = "")), statement_quiet by done.
    rewrite (select_unique _ _ (FG_ID (created_group env g))
               (mkGroupRow plex (timestamp (db_now env)) (timestamp (db_now env)))); [done|..].
    + simpl. by rewrite lookup_insert_eq.
    + by apply bool_decide_eq_true.
    + intros k r'. simpl. rewrite lookup_insert. case_decide; [done|].
      intros Hk E%bool_decide_eq_true. by destruct (Hnew _ _ Hk).
  - assert (ToLower (TrimSpace (FG_PlexUsername g2)) ≠ "") as Hne2 by (rewrite Hg2, Hsp; done).
    pose proof (CreateFamilyGroup_unfold env2 g2 db' Hne2 Hf2) as Hc2. cbv zeta in Hc2.
    destruct (insert_family_group _ _ _ db') as [[r2 db2]|e2] eqn:E2.
    + apply insert_family_group_ok in E2 as (_ & Hu & _). exfalso.
      eapply (Hu (FG_ID (created_group env g))); [simpl; by rewrite lookup_insert_eq|].
      simpl. by rewrite Hg2, Hsp.
    + assert (pq_code e2 = Some unique_violation) as Hcode.
      { unfold insert_family_group, check in E2.
        destruct (negb _); simpl in E2; [destruct (none_with _ _); simpl in E2|];
          simplify_eq; apply pq_code_violation. }
      rewrite Hcode in Hc2. by rewrite bool_decide_eq_true_2 in Hc2.
Qed.

(** C5: without failures [ListDueRetryItems] returns the earliest due items
    first: at most [limit] (50 when [limit <= 0]), each of them queued or
    retrying, due and not locked by another transaction, in order of their
    next attempt, and no due item left out is earlier than one returned; it
    marks exactly those as retrying and leaves every other row alone. *)
Theorem ListDueRetryItems_spec (env : Env) (now : Time) (limit : Z) (db : Db) :
  (∀ p, fault env p = None) →
  let n := if limit <=? 0 then 50 else limit in
  let rows := due_rows env (timestamp now) n db in
  let '(r, db') := ListDueRetryItems env now limit db in
  r = Ok (set_RQ_retrying (clock env) ∘ scanRetryRow <$> rows) ∧
  Z.of_nat (List.length rows) ≤ n ∧
  StronglySorted (key_le R_next_attempt_at) rows ∧
  (∀ k row, (k, row) ∈ rows → retry_queue_items db !! k = Some row ∧ due env (timestamp now) k row = true) ∧
  (∀ k row, retry_queue_items db !! k = Some row → due env (timestamp now) k row = true →
     (k, row) ∈ rows ∨ Z.of_nat (List.length rows) = n ∧
       Forall (λ x, R_next_attempt_at x.2 ≤ R_next_attempt_at row) rows) ∧
  db' = set_retry_queue_items
          (map_imap (λ k row, Some (if bool_decide (k ∈ rows.*1)
             then set_retry_status RetryQueueStatusRetrying (timestamp (db_now env)) row else row))
             (retry_queue_items db)) db.
Proof using PL.
  intros Hf n rows. assert (0 < n) as Hn by (unfold n; destruct (Z.leb_spec limit 0); lia).
  unfold ListDueRetryItems. fold n. rewrite !Hf, !statement_quiet by done.
  change (due_rows env (timestamp now) n db) with rows. unfold query.
  assert (Hbase : Z.of_nat (List.length rows) ≤ n ∧ StronglySorted (key_le R_next_attempt_at) rows).
  { split; [unfold rows, due_rows; rewrite length_take; lia|].
    eapply StronglySorted_app_1_l. unfold rows, due_rows. rewrite take_drop. apply order_asc_sorted. }
  assert (Hids : RQ_ID <$> (scanRetryRow <$> rows) = rows.*1).
  { rewrite <-list_fmap_compose. by apply list_fmap_ext. }
  rewrite Hids. unfold update_retry_status.
  destruct Hbase as [Hlen Hsort]. case_bool_decide as He.
  - assert (rows = []) as Hr by by apply fmap_nil_inv in He.
    split_and!; try done; [by rewrite Hr|apply due_rows_spec|intros; apply due_rows_complete; done || lia|].
    rewrite Hr. simpl. unfold set_retry_queue_items.
    assert (map_imap (λ _ row, Some row) (retry_queue_items db) = retry_queue_items db) as ->.
    { apply map_eq. intros k. rewrite map_lookup_imap. by destruct (_ !! k). }
    clear. destruct db. reflexivity.
  - cbv beta iota zeta. rewrite ?statement_quiet, ?Hf by done. cbv beta iota. split_and!; try done; [by rewrite list_fmap_compose|apply due_rows_spec|].
    intros; apply due_rows_complete; done || lia.
Qed.

(** whatever fails during [ListDueRetryItems] (opening the transaction,
    either statement, reading the rows, the commit), the caller gets that
    error and the database is as it was. *)
Lemma ListDueRetryItems_atomic (env : Env) (now : Time) (limit : Z) (db : Db) (e : error) (db' : Db) :
  ListDueRetryItems env now limit db = (Err e, db') →
  db' = db ∧ ∃ p, fault env p = Some e.
Proof.
  unfold ListDueRetryItems, statement, query, update_retry_status.
  destruct (fault env BeginTx) eqn:E1; [intros [= -> <-]; eauto|].
  destruct (fault env (Stmt 0)) eqn:E2; [intros [= -> <-]; eauto|].
  destruct (fault env RowsErr) eqn:E3; [intros [= -> <-]; eauto|].
  case_bool_decide; [|destruct (fault env (Stmt 1)) eqn:E4; [intros [= -> <-]; eauto|]];
    destruct (fault env Commit) eqn:E5; intros [= -> <-]; eauto.
Qed.

(** C30: deleting a family group without failures removes the group, exactly its
    own members, and exactly the retry items and notifications of the group or
    of its members; users and queued scrobbles are untouched, and a second
    deletion reports that the group does not exist. *)
Theorem DeleteFamilyGroup_cascade (env : Env) (id : string) (db : Db) :
  (∀ p, fault env p = None) → TrimSpace id = id → id ≠ "" → is_Some (family_groups db !! id) →
  let mine m := ∃ r, group_members db !! m = Some r ∧ M_family_group_id r = id in
  let '(err, db') := DeleteFamilyGroup env id db in
  err = None ∧ family_groups db' = delete id (family_groups db) ∧
  (∀ k r, group_members db' !! k = Some r ↔
     group_members db !! k = Some r ∧ M_family_group_id r ≠ id) ∧
  (∀ k r, retry_queue_items db' !! k = Some r ↔
     retry_queue_items db !! k = Some r ∧ R_family_group_id r ≠ id ∧ ¬ mine (R_group_member_id r)) ∧
  (∀ k r, notifications db' !! k = Some r ↔
     notifications db !! k = Some r ∧ T_family_group_id r ≠ id ∧
     ∀ m, T_group_member_id r = Some m → ¬ mine m) ∧
  users db' = users db ∧ queued_scrobbles db' = queued_scrobbles db ∧
  DeleteFamilyGroup env id db' = (Some ErrFamilyGroupNotFound, db').
Proof.
  intros Hf Ht Hne Hex mine.
  assert (Hmine : ∀ m, negb (match group_members db !! m with
                             | Some r => bool_decide (M_family_group_id r = id) | None => false end)
                       = true ↔ ¬ mine m).
  { intros m. unfold mine. destruct (group_members db !! m) as [r|] eqn:E.
    - rewrite negb_true_iff, bool_decide_eq_false. split; [intros ? (r' & ? & ?)|]; [congruence|].
      intros Hn ?. apply Hn. by exists r.
    - split; [intros _ (r' & ? & _); congruence|done]. }
  unfold DeleteFamilyGroup. rewrite Ht, (bool_decide_eq_false_2 (id = "")) by done.
  rewrite statement_quiet by done. unfold delete_family_group at 1.
  rewrite (proj2 (exists_in_spec _ _)) by done.
  unfold affected_or at 1. rewrite Hf. split_and!; try done; simpl.
  - intros k r. rewrite keep_where_lookup.
    split; intros [Hk Hn]; rewrite Hk in *; split; try done.
    + by apply negb_true_iff, bool_decide_eq_false in Hn.
    + by apply negb_true_iff, bool_decide_eq_false.
  - intros k r. rewrite delete_where_lookup, keep_where_lookup, Hmine, bool_decide_eq_false. tauto.
  - intros k r. rewrite delete_where_lookup, keep_where_lookup, bool_decide_eq_false.
    destruct (T_group_member_id r) as [m|]; [rewrite Hmine|].
    + split; [intros [[??]?]; split_and!; [done..|]; congruence|].
      intros (?&?&Hm). pose proof (Hm m eq_refl). tauto.
    + split; [intros [[??]?]; by split_and!|tauto].
  - rewrite statement_quiet by done. unfold delete_family_group. simpl.
    assert (exists_in (delete id (family_groups db)) id = false) as ->.
    { unfold exists_in. rewrite lookup_delete_eq. done. }
    simpl. by rewrite Hf.
Qed.

(** A member that [AddGroupMember] stored is what [GetGroupMember] returns
    for its id, tokens trimmed and the expiry as its column keeps it. *)
Lemma AddGroupMember_GetGroupMember (env env1 : Env) (m m' : GroupMember) (db db' : Db) :
  AddGroupMember env (Some m) db = (Some m', None, db') →
  TrimSpace (GM_ID m') = GM_ID m' → GM_ID m' ≠ "" → fault env1 (Stmt 0) = None →
  GetGroupMember env1 (GM_ID m') db' =
    Ok (mkGM (GM_ID m') (GM_FamilyGroupID m') (GM_TempLabel m') (GM_TraktUsername m')
          (TrimSpace (GM_AccessToken m')) (TrimSpace (GM_RefreshToken m'))
          (timestamp <$> GM_TokenExpiry m') (GM_AuthorizationStatus m') (GM_CreatedAt m')).
Proof using PL.
  unfold AddGroupMember. intros Hadd Ht Hne Hf1.
  destruct (GroupMember_Validate _) as [[v|] [err|]] eqn:Ev; simplify_eq.
  assert (TrimSpace (GM_TraktUsername v) = GM_TraktUsername v) as Htrim.
  { apply GroupMember_Validate_wf in Ev as [[= <-] _]. simpl. by rewrite TrimSpace_idem. }
  clear Ev. destruct (statement _ _ _ _) as [[created|] d] eqn:Es; simplify_eq. simpl in *.
  unfold statement in Es. destruct (fault env (Stmt 0)); [done|].
  unfold insert_group_member in Es. destruct (check _ (negb _)); simpl in Es; [|done].
  destruct (check _ _); simpl in Es; [|done]. simplify_eq.
  unfold GetGroupMember. rewrite Ht, (bool_decide_eq_false_2 (GM_ID v = "")) by done.
  rewrite query_row_key by done. simpl. rewrite lookup_insert_eq.
  pose proof null_nullableString as Hnull.
  unfold scanGroupMemberRow. simpl. by rewrite !Hnull, !TrimSpace_idem, Htrim.
Qed.
End FamilyProperties.

(** ** Examples *)

Definition ok_env : Env := quiet (1700000000 * Second) "id-1".
Definition home : FamilyGroup := mkFG "fg" " Smith " 0 0.

Lemma family_group_by_plex_witness :
  ∃ db', CreateFamilyGroup (H:=ascii_tables) (H0:=memory_server) ok_env (Some home) NewPostgresqlClient =
      (Some (created_group (H:=ascii_tables) (PG:=memory_server) ok_env home), None, db') ∧
    GetFamilyGroupByPlex (H:=ascii_tables) (H0:=memory_server) ok_env "SMITH" db' =
      Ok (created_group (H:=ascii_tables) (PG:=memory_server) ok_env home) ∧
    ∃ g2', CreateFamilyGroup (H:=ascii_tables) (H0:=memory_server) ok_env (Some (mkFG "other" "SMITH" 0 0)) db' =
      (Some g2', Some ErrDuplicateFamilyGroup, db').
Proof.
  apply (family_group_by_plex (H:=ascii_tables) (PG:=memory_server) (PL:=memory_server_laws)
           ok_env ok_env ok_env home (mkFG "other" "SMITH" 0 0) "SMITH" NewPostgresqlClient);
    by vm_compute.
Defined.

(** A household with one member and one due retry item. *)
Definition home_db : Db :=
  (CreateFamilyGroup (H:=ascii_tables) (H0:=memory_server) ok_env (Some home) NewPostgresqlClient).2.
Definition kid (id trakt : string) : GroupMember :=
  mkGM id "fg" "Kid" trakt "tok" "ref" None "authorized" 0.
Definition member_db : Db :=
  (AddGroupMember (H:=ascii_tables) (H0:=memory_server) ok_env (Some (kid "gm" "Sam")) home_db).2.
Definition retry_db : Db :=
  (EnqueueRetryItem (H:=ascii_tables) (H0:=memory_server) ok_env (Some sample_item) member_db).2.

Lemma AddGroupMember_GetGroupMember_witness :
  GetGroupMember (H0:=memory_server) ok_env "gm" member_db =
    Ok (mkGM "gm" "fg" "Kid" "sam" "tok" "ref" None "authorized" (1700000000 * Second)).
Proof.
  exact (AddGroupMember_GetGroupMember (H:=ascii_tables) (PG:=memory_server) (PL:=memory_server_laws)
           ok_env ok_env (kid "gm" "Sam")
           (mkGM "gm" "fg" "Kid" "sam" "tok" "ref" None "authorized" (1700000000 * Second))
           home_db member_db
           ltac:(vm_compute; reflexivity) ltac:(vm_compute; reflexivity) ltac:(done) eq_refl).
Defined.

Lemma ListDueRetryItems_spec_witness :
  (ListDueRetryItems (H0:=memory_server) ok_env (1700000000 * Second) 0 retry_db).1 =
    Ok [mkRQ "r1" "fg" "gm" "{}" 3 (1700000000 * Second) "" "retrying" (1700000000 * Second)
          (1700000000 * Second)].
Proof.
  pose proof (ListDueRetryItems_spec (PG:=memory_server) (PL:=memory_server_laws) ok_env
                (1700000000 * Second) 0 retry_db (λ _, eq_refl)) as Hs.
  cbv zeta in Hs. destruct (ListDueRetryItems _ _ _ _) as [r db'].
  destruct Hs as [-> _]. vm_compute. reflexivity.
Defined.

Definition broken_env : Env :=
  mkEnv (λ p, match p with Commit => Some (Errorf "connection reset") | _ => None end)
    0 0 "" (Ok []) ∅.

Lemma ListDueRetryItems_atomic_witness :
  retry_db = retry_db ∧ ∃ p, fault broken_env p = Some (Errorf "connection reset").
Proof.
  exact (ListDueRetryItems_atomic (PG:=memory_server) broken_env (1700000000 * Second) 0 retry_db
           (Errorf "connection reset") retry_db ltac:(vm_compute; reflexivity)).
Defined.

Lemma DeleteFamilyGroup_cascade_witness :
  group_members (DeleteFamilyGroup ok_env "fg" retry_db).2 !! "gm" = None ∧
  retry_queue_items (DeleteFamilyGroup ok_env "fg" retry_db).2 !! "r1" = None.
Proof.
  pose proof (DeleteFamilyGroup_cascade ok_env "fg" retry_db (λ _, eq_refl) ltac:(vm_compute; reflexivity)
                ltac:(done) ltac:(vm_compute; by eexists)) as Hs.
  cbv zeta in Hs. destruct (DeleteFamilyGroup ok_env "fg" retry_db) as [err db'].
  destruct Hs as (_ & _ & Hm & Hr & _). simpl. split.
  - destruct (group_members db' !! "gm") as [r|] eqn:E; [|done].
    apply Hm in E as [E Hne]. vm_compute in E. by simplify_eq.
  - destruct (retry_queue_items db' !! "r1") as [r|] eqn:E; [|done].
    apply Hr in E as (E & Hne & _). vm_compute in E. by simplify_eq.
Defined.

(** The schema does not keep two members of one group from having the same
    Trakt username: both calls succeed and [ErrDuplicateGroupMember], which is
    documented to signal this, is not returned. *)
Lemma duplicate_trakt_username_accepted :
  let add := AddGroupMember (H:=ascii_tables) (H0:=memory_server) ok_env in
  let '(m1, e1, db1) := add (Some (kid "gm1" "sam")) home_db in
  let '(m2, e2, db2) := add (Some (kid "gm2" "sam")) db1 in
  e1 = None ∧ e2 = None ∧
  (M_trakt_username <$> group_members db2 !! "gm1") = Some (Some "sam") ∧
  (M_trakt_username <$> group_members db2 !! "gm2") = Some (Some "sam") ∧
  (M_family_group_id <$> group_members db2 !! "gm1") = (M_family_group_id <$> group_members db2 !! "gm2").
Proof. by vm_compute. Qed.
