(* ===== verification/PgStore.v ===== *)
(** * [PostgresqlStore]: users, scrobble queue, fallback buffers, notifications

    [lib/store/postgresql.go].  The store is the database together with the
    in-memory fallback buffers of Fallback.v. *)

From S2P Require Import Prelude GoLib Float Json Instances Common Entities Buffers Fallback Pg PgFamily.

Open Scope Z_scope.

Definition PostgresqlStore : Type := Buffered Db.
Abbreviation pg_db := storage.

Definition NewPostgresqlStore (db : Db) : PostgresqlStore := mkBuffered db ∅.

Section Store.
Context `{UnicodeTables, PgServer, JsonText}.

(** [Ping] takes a connection and checks it. *)
Definition Ping (env : Env) (db : Db) : option error :=
  let answered n := match statement env n (λ db, Ok (tt, db)) db with (Err err, _) => Some err | (Ok _, _) => None end in
  match answered 0%nat with Some err => Some err | None => answered 1%nat end.

(** ** Users *)

Definition WriteUser (env : Env) (user : User) (db : Db) : outcome Db :=
  match statement env 0 (upsert_user (U_ID user)
          (mkUserRow (U_Username user) (U_AccessToken user) (U_RefreshToken user)
             (Some (U_TraktDisplayName user)) (timestamptz (U_Updated user))
             (Some (timestamptz (U_TokenExpiry user))))) db with
  | (Err err, _) => Panic (Error err)
  | (Ok _, db) => Ret db
  end.

(** A row as a [User]; a missing expiry defaults to 90 days after the last
    update. *)
Definition scan_user (row : string * UserRow) : User :=
  let r := row.2 in
  let expiry := match UR_token_expiry r with
                | Some t => t
                | None => time_Add (UR_updated r) (90 * 24 * Hour)
                end in
  mkUser row.1 (ToLower (UR_username r)) (UR_access r) (UR_refresh r)
    (null_string (UR_trakt_display_name r)) (UR_updated r) expiry true.

Definition GetUser (env : Env) (id : string) (db : Db) : outcome (option User) :=
  match statement env 0 (query_row (select (λ k _, bool_decide (k = id)) (users db))) db with
  | (Err err, _) =>
      if bool_decide (err = ErrNoRows) then Ret None else Panic ("query error: " +:+ Error err)
  | (Ok row, _) => Ret (Some (scan_user (id, row.2)))
  end.

(** [env'] is the environment of the nested [GetUser] call. *)
Definition GetUserByName (env env' : Env) (username : string) (db : Db) : outcome (option User) :=
  let username := ToLower (TrimSpace username) in
  if bool_decide (username = "") then Ret None else
  match statement env 0 (query_row (select
          (λ _ r, bool_decide (pg_lower (UR_username r) = pg_lower username)) (users db))) db with
  | (Err err, _) => if bool_decide (err = ErrNoRows) then Ret None else Panic (Error err)
  | (Ok row, _) => GetUser env' row.1 db
  end.

Definition DeleteUser (env : Env) (id username : string) (db : Db) : bool * Db :=
  match statement env 0 (delete_user id) db with
  | (Err _, db) => (false, db)
  | (Ok _, db) => (true, db)
  end.

Definition ListUsers (env : Env) (db : Db) : outcome (list User) :=
  match query_all env scan_user (order_desc UR_updated (select (λ _ _, true) (users db))) db with
  | Err err => Panic (Error err)
  | Ok l => Ret l
  end.

Definition GetScrobbleBody (playerUuid ratingKey : string) : CacheItem := emptyCacheItem.
Definition WriteScrobbleBody (item : CacheItem) (db : Db) : Db := db.

(** ** Scrobble queue *)

Definition GetQueueSize (env : Env) (n : nat) (userID : string) (db : Db) : result Z :=
  match statement env n (λ db, Ok (Z.of_nat (List.length (user_events userID db)), db)) db with
  | (Err err, _) => Err (Wrapf "failed to get queue size: " err "")
  | (Ok count, _) => Ok count
  end.

Definition addToFallbackBuffer (userID : string) (event : QueuedScrobbleEvent) (s : PostgresqlStore)
    : outcome PostgresqlStore := push_fallback userID event s.

(** The row [EnqueueScrobble] inserts. *)
Definition scrobble_row (e : QueuedScrobbleEvent) : ScrobbleRow :=
  mkScrobbleRow (E_UserID e) (jsonb (json_print (ScrobbleBody_MarshalJSON (E_ScrobbleBody e))))
    (E_Action e) (E_Progress e) (timestamp (E_CreatedAt e)) (E_RetryCount e)
    (if IsZero (E_LastAttempt e) then None else Some (timestamp (E_LastAttempt e)))
    (E_PlayerUUID e) (E_RatingKey e).

(** Id, validation and creation time, before anything is stored. *)
Definition prepareEvent (env : Env) (event : QueuedScrobbleEvent) : result QueuedScrobbleEvent :=
  prepare (rnd env) (clock env) event.

(** The statements of one call: count, evict when full, insert. *)
Definition storeEvent (env : Env) (event : QueuedScrobbleEvent) (db : Db) : result unit * Db :=
  let queueSize := match GetQueueSize env 0 (E_UserID event) db with Ok n => n | Err _ => 0 end in
  let db := if maxQueuePerUser <=? queueSize
            then (statement env 1 (evict_oldest (E_UserID event)) db).2 else db in
  statement env 2 (insert_scrobble (E_ID event) (scrobble_row event)) db.

(** One attempt to enqueue an event. *)
Definition tryStore (env : Env) (event : QueuedScrobbleEvent) (db : Db) : attempt * Db :=
  match prepareEvent env event with
  | Err err => (Refused err, db)
  | Ok event =>
      match storeEvent env event db with
      | (Err err, db) => (Unavailable event (Wrapf "failed to insert event: " err ""), db)
      | (Ok _, db) => (Stored event, db)
      end
  end.

(** [envs k] is the environment of the [k]-th call of [EnqueueScrobble]; the
    counter is part of the state. *)
Definition EnqueueScrobble (envs : nat → Env) (fuel : nat) (event : QueuedScrobbleEvent)
    (st : nat * PostgresqlStore) : option (outcome (option error * (nat * PostgresqlStore))) :=
  enqueueWith (λ k, tryStore (envs k)) fuel event st.

Definition flushFallbackBuffer (envs : nat → Env) (fuel : nat) (userID : string)
    (st : nat * PostgresqlStore) : option (outcome (nat * PostgresqlStore)) :=
  flushWith (EnqueueScrobble envs fuel) userID st.

(** A queued row as an event; a body that does not decode is skipped. *)
Definition scan_event (row : string * ScrobbleRow) : outcome (option QueuedScrobbleEvent) :=
  let r := row.2 in
  match json_parse (Q_scrobble_body r) with
  | None => Ret None
  | Some j =>
      match ScrobbleBody_UnmarshalJSON j emptyBody with
      | DErr => Ret None
      | DPanic w => Panic w
      | DOk body =>
          Ret (Some (mkEvent row.1 (Q_user_id r) body (Q_action r) (Q_progress r) (Q_created_at r)
                 (Q_retry_count r) (default zeroTime (Q_last_attempt r)) (Q_player_uuid r)
                 (Q_rating_key r)))
      end
  end.

Fixpoint scan_events (rows : list (string * ScrobbleRow)) : outcome (list QueuedScrobbleEvent) :=
  match rows with
  | [] => Ret []
  | row :: rows =>
      e ← scan_event row;
      events ← scan_events rows;
      Ret (match e with Some e => e :: events | None => events end)
  end.

(** The server refuses a negative [LIMIT]. *)
Definition DequeueScrobbles (env : Env) (userID : string) (limit : Z) (db : Db)
    : outcome (result (list QueuedScrobbleEvent)) :=
  match statement env 0 (λ db,
          if limit <? 0 then Err (violation "2201W")
          else Ok (take (Z.to_nat limit) (user_events userID db), db)) db with
  | (Err err, _) => Ret (Err (Wrapf "failed to query queued events: " err ""))
  | (Ok rows, _) =>
      events ← scan_events rows;
      Ret (match fault env RowsErr with
           | Some err => Err (Wrapf "error iterating rows: " err "")
           | None => Ok events
           end)
  end.

Definition DeleteQueuedScrobble (env : Env) (eventID : string) (db : Db) : option error * Db :=
  match statement env 0 (delete_scrobble eventID) db with
  | (Err err, db) => (Some (Wrapf "failed to delete queued event: " err ""), db)
  | (Ok _, db) => (None, db)
  end.

Definition UpdateQueuedScrobbleRetry (env : Env) (eventID : string) (retryCount : Z) (db : Db)
    : option error * Db :=
  match statement env 0 (update_scrobble_retry eventID retryCount (clock env)) db with
  | (Err err, db) => (Some (Wrapf "failed to update retry count: " err ""), db)
  | (Ok _, db) => (None, db)
  end.

Definition GetQueueStatus (env : Env) (userID : string) (db : Db)
    : QueueStatus * option error :=
  match GetQueueSize env 0 userID db with
  | Err err => (mkQueueStatus userID 0 0 "live", Some err)
  | Ok queueSize =>
      let age :=
        if 0 <? queueSize then
          match statement env 1 (query_row (user_events userID db)) db with
          | (Ok row, _) => time_Sub (clock env) (Q_created_at row.2)
          | (Err _, _) => 0
          end
        else 0 in
      (mkQueueStatus userID queueSize age "live", None)
  end.

Definition ListUsersWithQueuedEvents (env : Env) (db : Db) : result (list string) :=
  match statement env 0
          (query (remove_dups (Q_user_id <$> (heap_scan (queued_scrobbles db)).*2))) db with
  | (Err err, _) => Err (Wrapf "failed to list users with queued events: " err "")
  | (Ok ids, _) =>
      match fault env RowsErr with
      | Some err => Err (Wrapf "error iterating rows: " err "")
      | None => Ok ids
      end
  end.

Definition PurgeQueueForUser (env : Env) (userID : string) (db : Db) : result Z * Db :=
  match GetQueueSize env 0 userID db with
  | Err err => (Err err, db)
  | Ok queueSize =>
      match statement env 1 (delete_scrobbles_of userID) db with
      | (Err err, db) => (Err (Wrapf "failed to purge queue: " err ""), db)
      | (Ok _, db) => (Ok queueSize, db)
      end
  end.

(** ** Notifications *)

Definition CreateNotification (env : Env) (n : Notification) (db : Db)
    : Notification * option error * Db :=
  match Notification_Validate n with
  | Some err => (n, Some err, db)
  | None =>
      let n := mkNotif (N_ID n) (N_FamilyGroupID n) (N_GroupMemberID n) (N_Type n) (N_Message n)
                 (N_Metadata n) (N_Dismissed n)
                 (if IsZero (N_CreatedAt n) then clock env else N_CreatedAt n) in
      let metadata := if 0 <? len (N_Metadata n) then Some (jsonb (N_Metadata n)) else None in
      match statement env 0 (insert_notification (N_ID n)
              (mkNotificationRow (N_FamilyGroupID n) (N_GroupMemberID n) (N_Type n) (N_Message n)
                 metadata (N_Dismissed n) (timestamp (N_CreatedAt n)))) db with
      | (Err err, db) => (n, Some (Wrapf "failed to create notification: " err ""), db)
      | (Ok _, db) => (n, None, db)
      end
  end.

Definition scan_notification (row : string * NotificationRow) : Notification :=
  let r := row.2 in
  mkNotif row.1 (T_family_group_id r) (T_group_member_id r) (T_notification_type r) (T_message r)
    (null_string (T_metadata r)) (T_dismissed r) (T_created_at r).

Definition GetNotifications (env : Env) (familyGroupID : string) (includeDismissed : bool) (db : Db)
    : result (list Notification) :=
  let rows := order_desc T_created_at (select
        (λ _ r, bool_decide (T_family_group_id r = familyGroupID) &&
                (includeDismissed || negb (T_dismissed r))) (notifications db)) in
  match statement env 0 (query rows) db with
  | (Err err, _) => Err (Wrapf "failed to query notifications: " err "")
  | (Ok rows, _) =>
      match fault env RowsErr with
      | Some err => Err (Wrapf "error iterating rows: " err "")
      | None => Ok (scan_notification <$> rows)
      end
  end.

(** The error of [RowsAffected] is ignored; the count is then 0. *)
Definition affected_count (env : Env) (n : Z) : Z :=
  match fault env RowsAffected with Some _ => 0 | None => n end.

Definition DismissNotification (env : Env) (notificationID : string) (db : Db) : option error * Db :=
  match statement env 0 (update_dismissed notificationID) db with
  | (Err err, db) => (Some (Wrapf "failed to dismiss notification: " err ""), db)
  | (Ok n, db) => (if affected_count env n =? 0 then Some ErrNotificationNotFound else None, db)
  end.

Definition DeleteNotification (env : Env) (notificationID : string) (db : Db) : option error * Db :=
  match statement env 0 (delete_notification notificationID) db with
  | (Err err, db) => (Some (Wrapf "failed to delete notification: " err ""), db)
  | (Ok n, db) => (if affected_count env n =? 0 then Some ErrNotificationNotFound else None, db)
  end.
End Store.

(** ** Lemmas *)

Section StoreLemmas.
Context `{UnicodeTables, PG : PgServer, PL : !PgServerLaws PG, JsonText}.

(** The events of a user, as a set of rows. *)
Lemma user_events_spec u db k r :
  (k, r) ∈ user_events u db ↔ queued_scrobbles db !! k = Some r ∧ Q_user_id r = u.
Proof using PL.
  unfold user_events. rewrite order_asc_perm, select_spec, bool_decide_eq_true. done.
Qed.

Lemma user_events_NoDup u db : NoDup (user_events u db).*1.
Proof using PL. unfold user_events. rewrite order_asc_perm. apply select_NoDup. Qed.

Lemma user_events_length u db :
  List.length (user_events u db) = size (keep_where (λ _ r, bool_decide (Q_user_id r = u)) (queued_scrobbles db)).
Proof using PL.
  unfold user_events. rewrite order_asc_perm.
  rewrite <-length_map_to_list. apply Permutation_length.
  apply NoDup_Permutation; [eapply NoDup_fmap_1, select_NoDup|apply NoDup_map_to_list|].
  intros [k r]. by rewrite select_spec, elem_of_map_to_list, keep_where_lookup.
Qed.

Lemma keep_where_insert_le {A} f (m : gmap string A) k r :
  (size (keep_where f (<[k := r]> m)) ≤ S (size (keep_where f m)))%nat.
Proof.
  transitivity (size (<[k := r]> (keep_where f m))).
  - apply map_subseteq_size, map_subseteq_spec. intros j x. rewrite keep_where_lookup, !lookup_insert.
    case_decide; [tauto|]. intros [??]. by apply keep_where_lookup.
  - rewrite map_size_insert. destruct (_ !! k); unfold id; lia.
Qed.

Lemma keep_where_delete {A} f (m : gmap string A) k :
  keep_where f (delete k m) = delete k (keep_where f m).
Proof. unfold keep_where. apply map_filter_delete. Qed.

Lemma evict_oldest_length u db :
  (0 < List.length (user_events u db))%nat →
  ∃ db', evict_oldest u db = Ok (tt, db') ∧
    S (List.length (user_events u db')) = List.length (user_events u db).
Proof using PL.
  intros Hl. unfold evict_oldest. eexists; split; [done|].
  rewrite !user_events_length.
  destruct (user_events u db) as [|[k r] l] eqn:E; [simpl in Hl; lia|]. simpl.
  assert ((k, r) ∈ user_events u db) as Hin by (rewrite E; left).
  apply user_events_spec in Hin as [Hk Hu].
  rewrite keep_where_delete, map_size_delete_Some.
  - assert (size (keep_where (λ _ r, bool_decide (Q_user_id r = u)) (queued_scrobbles db)) ≠ 0%nat); [|lia].
    apply map_size_ne_0_lookup_2 with k. exists r. apply keep_where_lookup.
    split; [done|by apply bool_decide_eq_true].
  - exists r. apply keep_where_lookup. split; [done|by apply bool_decide_eq_true].
Qed.

Lemma insert_scrobble_length u id r db x db' :
  insert_scrobble id r db = Ok (x, db') →
  (List.length (user_events u db') ≤ S (List.length (user_events u db)))%nat.
Proof using PL.
  unfold insert_scrobble. intros E.
  repeat match type of E with mbind _ ?c = Ok _ => destruct c; simpl in E; [|discriminate] end.
  case_match; [|simplify_eq; lia].
  repeat match type of E with mbind _ ?c = Ok _ => destruct c; simpl in E; [|discriminate] end.
  simplify_eq. rewrite !user_events_length. apply keep_where_insert_le.
Qed.
End StoreLemmas.

(** ** Properties *)

Section StoreProperties.
Context `{UnicodeTables, PG : PgServer, PL : !PgServerLaws PG, JsonText}.

(** A user written by [WriteUser] is read back by [GetUser], with the
    username in lower case and the times as their columns keep them, and no
    other user changes; a failed write panics. *)
Lemma WriteUser_GetUser (env env1 : Env) (u : User) (db : Db) :
  fault env1 (Stmt 0) = None →
  match WriteUser env u db with
  | Ret db' =>
      GetUser env1 (U_ID u) db' =
        Ret (Some (mkUser (U_ID u) (ToLower (U_Username u)) (U_AccessToken u) (U_RefreshToken u)
               (U_TraktDisplayName u) (timestamptz (U_Updated u)) (timestamptz (U_TokenExpiry u)) true)) ∧
      ∀ id, id ≠ U_ID u → GetUser env1 id db' = GetUser env1 id db
  | Panic w => ∃ e, fault env (Stmt 0) = Some e ∧ w = Error e
  end.
Proof using PL.
  intros Hf1. unfold WriteUser, statement at 1. destruct (fault env (Stmt 0)) as [e|]; [by exists e|].
  simpl. split.
  - unfold GetUser. rewrite query_row_key by done. simpl. by rewrite lookup_insert_eq.
  - intros id Hne. unfold GetUser. rewrite !query_row_key by done. simpl.
    by rewrite lookup_insert_ne by done.
Qed.

(** as long as counting and evicting succeed, storing an event keeps every
    user's queue within 1000 events. *)
Lemma storeEvent_bound (env : Env) (e : QueuedScrobbleEvent) (u : string) (db : Db) :
  fault env (Stmt 0) = None → fault env (Stmt 1) = None →
  Z.of_nat (List.length (user_events u db)) ≤ maxQueuePerUser →
  u = E_UserID e →
  Z.of_nat (List.length (user_events u (storeEvent env e db).2)) ≤ maxQueuePerUser.
Proof using PL.
  intros Hf0 Hf1 Hb ->. unfold storeEvent, GetQueueSize.
  rewrite (statement_quiet env 0), (statement_quiet env 1) by done. unfold maxQueuePerUser in *.
  set (u := E_UserID e) in *.
  set (db1 := if 1000 <=? _ then _ else db).
  assert (Z.of_nat (List.length (user_events u db1)) < 1000) as Hlt.
  { unfold db1. destruct (Z.leb_spec 1000 (Z.of_nat (List.length (user_events u db)))) as [Hge|]; [|done].
    destruct (evict_oldest_length u db) as (d & -> & Hl); [lia|]. simpl. lia. }
  unfold statement. destruct (fault env (Stmt 2)); simpl; [lia|].
  destruct (insert_scrobble _ _ db1) as [[x d]|] eqn:E; simpl; [|lia].
  apply (insert_scrobble_length u) in E. lia.
Qed.

(** When a user's queue is full, an event for a player and media item that
    already has a row is not inserted, but the user's oldest event is deleted
    all the same. *)
Lemma full_queue_duplicate_evicts (env : Env) (e : QueuedScrobbleEvent) (db : Db)
    (id0 : string) (r0 : ScrobbleRow) (rest : list (string * ScrobbleRow)) (k : string) (r : ScrobbleRow) :
  (∀ p, fault env p = None) → validateEvent e = None → 0 ≤ E_RetryCount e ≤ 5 →
  user_events (E_UserID e) db = (id0, r0) :: rest → 999 ≤ Z.of_nat (List.length rest) →
  k ≠ id0 → queued_scrobbles db !! k = Some r → same_slot (scrobble_row e) r = true →
  storeEvent env e db = (Ok tt, set_queued_scrobbles (delete id0 (queued_scrobbles db)) db) ∧
  queued_scrobbles db !! id0 = Some r0.
Proof using PL.
  intros Hf Hv Hr Hu Hl Hk Hkr Hs. split; cycle 1.
  { apply (user_events_spec (E_UserID e)). rewrite Hu. left. }
  unfold storeEvent, GetQueueSize, maxQueuePerUser. rewrite !statement_quiet by done.
  rewrite Hu. simpl. rewrite (proj2 (Z.leb_le _ _)) by lia.
  unfold evict_oldest. rewrite Hu. simpl.
  pose proof (validateEvent_progress e Hv) as Hp.
  assert (E_Action e ∈ ["start"; "pause"; "stop"]) as Ha.
  { unfold validateEvent in Hv. case_bool_decide; [done|]. by case_bool_decide. }
  unfold insert_scrobble, check. simpl. rewrite !bool_decide_eq_true_2 by done. simpl.
  destruct (none_with _ _) eqn:Hn; [|done].
  rewrite none_with_spec in Hn. rewrite (Hn k r) in Hs; [done|].
  simpl. by rewrite lookup_delete_ne.
Qed.

Lemma scan_events_spec rows events :
  scan_events rows = Ret events →
  (E_ID <$> events) `sublist_of` rows.*1 ∧
  Forall (λ e, ∃ r, (E_ID e, r) ∈ rows ∧ E_UserID e = Q_user_id r ∧ E_CreatedAt e = Q_created_at r ∧
    E_Action e = Q_action r ∧ E_RetryCount e = Q_retry_count r) events ∧
  (StronglySorted (key_le Q_created_at) rows →
   StronglySorted (λ a b, E_CreatedAt a ≤ E_CreatedAt b) events).
Proof.
  revert events. induction rows as [|[k r] rows IH]; intros events; simpl.
  { intros [= <-]. split_and!; [done|constructor|constructor]. }
  destruct (scan_event (k, r)) as [oe|] eqn:Ee; simpl; [|done].
  destruct (scan_events rows) as [es|] eqn:Es; simpl; [|done].
  destruct (IH es eq_refl) as (Hsub & Hall & Hsort). intros [= <-].
  assert (Hall' : Forall (λ e, ∃ r', (E_ID e, r') ∈ (k, r) :: rows ∧ E_UserID e = Q_user_id r' ∧
    E_CreatedAt e = Q_created_at r' ∧ E_Action e = Q_action r' ∧ E_RetryCount e = Q_retry_count r') es).
  { eapply Forall_impl; [exact Hall|]. intros e (r' & ? & ?). exists r'. split; [by right|done]. }
  destruct oe as [e|]; cycle 1.
  { split_and!; [by apply sublist_cons|done|]. intros Hs. apply Hsort. by inversion Hs. }
  assert (E_ID e = k ∧ E_UserID e = Q_user_id r ∧ E_CreatedAt e = Q_created_at r ∧
          E_Action e = Q_action r ∧ E_RetryCount e = Q_retry_count r) as (Hid & He).
  { unfold scan_event in Ee. simpl in Ee. repeat case_match; simplify_eq/=; done. }
  split_and!.
  - simpl. rewrite Hid. by apply sublist_skip.
  - constructor; [|done]. exists r. rewrite Hid. split; [left|done].
  - intros Hs. inversion Hs as [|? ? Hs' Hle]; subst. constructor; [by apply Hsort|].
    eapply Forall_impl; [exact Hall|]. intros e' (r' & Hin & _ & -> & _).
    destruct He as (_ & -> & _). rewrite Forall_forall in Hle. exact (Hle _ Hin).
Qed.

(** What [DequeueScrobbles] returns is in order of creation, belongs to the
    user asked for, is still in the queue with the same data, has no repeated
    id and is at most [limit] long. *)
Lemma DequeueScrobbles_oldest_first (env : Env) (u : string) (limit : Z) (db : Db)
    (events : list QueuedScrobbleEvent) :
  DequeueScrobbles env u limit db = Ret (Ok events) →
  0 ≤ limit ∧ Z.of_nat (List.length events) ≤ limit ∧ NoDup (E_ID <$> events) ∧
  StronglySorted (λ a b, E_CreatedAt a ≤ E_CreatedAt b) events ∧
  Forall (λ e, E_UserID e = u ∧ ∃ r, queued_scrobbles db !! E_ID e = Some r ∧
            E_Action e = Q_action r ∧ E_RetryCount e = Q_retry_count r) events.
Proof using PL.
  unfold DequeueScrobbles. destruct (statement _ _ _ _) as [[rows|] d] eqn:Es; [|done].
  destruct (scan_events rows) as [es|] eqn:Ee; simpl; [|done].
  destruct (fault env RowsErr); [done|]. intros [= <-].
  unfold statement in Es. destruct (fault env (Stmt 0)); [done|].
  destruct (Z.ltb_spec limit 0); [done|]. simplify_eq.
  destruct (scan_events_spec _ _ Ee) as (Hsub & Hall & Hsort).
  split_and!; [done| | | |].
  - apply sublist_length in Hsub. rewrite !length_fmap, length_take in Hsub. lia.
  - eapply sublist_NoDup; [|exact Hsub]. rewrite fmap_take.
    eapply sublist_NoDup; [apply user_events_NoDup|apply sublist_take].
  - apply Hsort. eapply StronglySorted_app_1_l. rewrite take_drop. apply order_asc_sorted.
  - eapply Forall_impl; [exact Hall|]. intros e (r & Hin & Hu & _ & Ha & Hc).
    apply elem_of_take in Hin as (i & Hi & _). apply list_elem_of_lookup_2, user_events_spec in Hi as [Hk ?].
    split; [congruence|]. by exists r.
Qed.
End StoreProperties.

(** ** The fallback buffer *)

Section Fallback.
Context `{UnicodeTables, PG : PgServer, PL : !PgServerLaws PG, JsonText}.

(** C31: what one call of [EnqueueScrobble] does with a valid event.  If the
    insert fails, the failure is reported and the event is the newest one in
    its user's fallback buffer, behind the events already there (the oldest is
    dropped beyond 100), other users' buffers being unchanged.  If it succeeds
    and the user has no fallback buffer, the call returns no error and changes
    the database only.  In both cases it does not recurse. *)
Theorem EnqueueScrobble_outcome (envs : nat → Env) (fuel k : nat)
    (event e : QueuedScrobbleEvent) (s : PostgresqlStore) :
  prepareEvent (envs k) event = Ok e → buffers_wf s →
  match storeEvent (envs k) e (pg_db s) with
  | (Err err, db) =>
      ∃ s', EnqueueScrobble envs (S fuel) event (k, s) =
          Some (Ret (Some (Wrapf "failed to insert event: " err ""), (S k, s'))) ∧
        pg_db s' = db ∧ buffers_wf s' ∧
        buffered s' (E_UserID e) = last_n 100 (buffered s (E_UserID e) ++ [e]) ∧
        ∀ v, v ≠ E_UserID e → buffered s' v = buffered s v
  | (Ok _, db) =>
      fallbackBuffers s !! E_UserID e = None →
      EnqueueScrobble envs (S fuel) event (k, s) = Some (Ret (None, (S k, set_storage db s)))
  end.
Proof.
  intros Hp Hwf.
  pose proof (enqueueWith_outcome (λ k, tryStore (envs k)) fuel k event s Hwf) as Ho.
  unfold tryStore in Ho at 1. rewrite Hp in Ho.
  by destruct (storeEvent (envs k) e (pg_db s)) as [[[]|err] db].
Qed.

(** An event that can be stored again and again: prepared, for a known user,
    its id not taken by an event of another slot. *)
Definition ready (e : QueuedScrobbleEvent) (db : Db) : Prop :=
  E_ID e ≠ "" ∧ validateEvent e = None ∧ IsZero (E_CreatedAt e) = false ∧
  0 ≤ E_RetryCount e ≤ 5 ∧ is_Some (users db !! E_UserID e) ∧
  ∀ r, queued_scrobbles db !! E_ID e = Some r → same_slot (scrobble_row e) r = true.

Lemma ready_prepare e db env : ready e db → prepareEvent env e = Ok e.
Proof.
  intros (Hid & Hv & Hz & _). by apply prepare_complete.
Qed.

Lemma same_slot_refl r : same_slot r r = true.
Proof. unfold same_slot. by rewrite !bool_decide_eq_true_2. Qed.

Lemma insert_scrobble_ready e db :
  ready e db → ∃ db', insert_scrobble (E_ID e) (scrobble_row e) db = Ok (tt, db') ∧ ready e db'.
Proof.
  intros Hr. pose proof Hr as (Hid & Hv & Hz & Hc & Hu & Hslot).
  pose proof (validateEvent_progress e Hv) as Hp.
  assert (E_Action e ∈ ["start"; "pause"; "stop"]) as Ha.
  { unfold validateEvent in Hv. case_bool_decide; [done|]. by case_bool_decide. }
  unfold insert_scrobble, check. simpl. rewrite !bool_decide_eq_true_2 by done. simpl.
  destruct (none_with _ _) eqn:Hn; [|by eexists].
  rewrite none_with_spec in Hn.
  assert (exists_in (queued_scrobbles db) (E_ID e) = false) as ->.
  { apply bool_decide_eq_false. intros [r Hk]. pose proof (Hslot _ Hk) as Hs.
    by rewrite (Hn _ _ Hk) in Hs. }
  rewrite (proj2 (exists_in_spec _ _)) by done. simpl. eexists; split; [done|].
  split_and!; try done; try (by apply Hr). intros r. simpl. rewrite lookup_insert_eq.
  intros [= <-]. apply same_slot_refl.
Qed.

Lemma storeEvent_ready env e db :
  (∀ p, fault env p = None) → ready e db →
  ∃ db', storeEvent env e db = (Ok tt, db') ∧ ready e db'.
Proof.
  intros Hf Hr. unfold storeEvent, GetQueueSize. rewrite !statement_quiet by done.
  set (db1 := if _ <=? _ then _ else db).
  assert (ready e db1) as Hr1.
  { unfold db1. destruct (_ <=? _); [|done]. unfold evict_oldest. simpl.
    destruct (user_events _ db) as [|[i ri] ?]; [done|].
    destruct Hr as (?&?&?&?&?&Hslot). split_and!; try (done || lia). simpl.
    intros r [_ ?]%lookup_delete_Some. eauto. }
  destruct (insert_scrobble_ready e db1 Hr1) as (db' & -> & ?). by eexists.
Qed.

Lemma tryStore_ready env e db :
  (∀ p, fault env p = None) → ready e db → ∃ db', tryStore env e db = (Stored e, db') ∧ ready e db'.
Proof.
  intros Hf Hr. unfold tryStore. rewrite (ready_prepare e db) by done.
  destruct (storeEvent_ready env e db Hf Hr) as (db' & -> & ?). by exists db'.
Qed.

(** C35: once a user's fallback buffer holds an event, the next event that is
    stored successfully starts a flush that stores the buffered event again,
    which starts the same flush: if the storage keeps working, no number of
    steps suffices for the call to return. *)
Theorem EnqueueScrobble_diverges (envs : nat → Env) (fuel k : nat) (event event' e : QueuedScrobbleEvent)
    (rest : list QueuedScrobbleEvent) (b : InMemoryBuffer) (s : PostgresqlStore) (db : Db) :
  (∀ i p, fault (envs i) p = None) →
  prepareEvent (envs k) event = Ok event' → storeEvent (envs k) event' (pg_db s) = (Ok tt, db) →
  fallbackBuffers s !! E_UserID event' = Some b → Buffer_GetAll b = e :: rest →
  E_UserID e = E_UserID event' → ready e db →
  EnqueueScrobble envs fuel event (k, s) = None.
Proof.
  intros Hf Hp Hs Hb Hg Hu Hr.
  apply (enqueueWith_diverges (λ k, tryStore (envs k)) ready) with event' db e rest b; try done.
  - intros j e' x. by apply tryStore_ready.
  - unfold tryStore. by rewrite Hp, Hs.
Qed.
End Fallback.

(** ** Examples *)

#[local] Existing Instances ascii_tables memory_server tree_text.

Definition sample_user : User :=
  mkUser "user" "Sam" "acc" "ref" "Sam S." (1700000000 * Second) (1700000000 * Second) true.
Definition user_db : Db :=
  match WriteUser ok_env sample_user NewPostgresqlClient with Ret db => db | Panic _ => NewPostgresqlClient end.
Definition user_store : PostgresqlStore := NewPostgresqlStore user_db.
Definition insert_fails : Env :=
  mkEnv (λ p, match p with Stmt 2 => Some (Errorf "disk full") | _ => None end)
    0 0 "" (Ok []) ∅.
(** The store after an outage during which one event was enqueued. *)
Definition after_outage : PostgresqlStore :=
  match EnqueueScrobble (λ _, insert_fails) 1 (sample_event "7") (0%nat, user_store) with
  | Some (Ret (_, (_, s))) => s
  | _ => user_store
  end.

Lemma WriteUser_GetUser_witness :
  match WriteUser ok_env sample_user NewPostgresqlClient with
  | Ret db' =>
      GetUser ok_env "user" db' =
        Ret (Some (mkUser "user" "sam" "acc" "ref" "Sam S." (1700000000 * Second)
                     (1700000000 * Second) true)) ∧
      ∀ id, id ≠ "user" → GetUser ok_env id db' = GetUser ok_env id NewPostgresqlClient
  | Panic w => ∃ e, fault ok_env (Stmt 0) = Some e ∧ w = Error e
  end.
Proof.
  exact (WriteUser_GetUser (PL:=memory_server_laws) ok_env ok_env sample_user NewPostgresqlClient eq_refl).
Defined.

Lemma storeEvent_bound_witness :
  Z.of_nat (List.length (user_events "user" (storeEvent ok_env (sample_event "7") user_db).2)) ≤ 1000.
Proof.
  exact (storeEvent_bound (PL:=memory_server_laws) ok_env (sample_event "7") "user" user_db
           eq_refl eq_refl ltac:(by vm_compute) eq_refl).
Defined.

Definition two_events_db : Db :=
  (storeEvent ok_env (sample_event "8") (storeEvent ok_env (sample_event "7") user_db).2).2.

Lemma DequeueScrobbles_oldest_first_witness :
  NoDup (E_ID <$> [sample_event "7"; sample_event "8"]).
Proof.
  assert (DequeueScrobbles ok_env "user" 10 two_events_db =
          Ret (Ok [sample_event "7"; sample_event "8"])) as E by (vm_compute; reflexivity).
  destruct (DequeueScrobbles_oldest_first (PL:=memory_server_laws) ok_env "user" 10
     two_events_db [sample_event "7"; sample_event "8"] E) as (_ & _ & Hn & _).
  exact Hn.
Defined.

Lemma EnqueueScrobble_outcome_witness :
  (∃ s', EnqueueScrobble (λ _, insert_fails) 1 (sample_event "7") (0%nat, user_store) =
      Some (Ret (Some (Wrapf "failed to insert event: " (Errorf "disk full") ""), (1%nat, s'))) ∧
    buffered s' "user" = [sample_event "7"]) ∧
  EnqueueScrobble (λ _, ok_env) 1 (sample_event "7") (0%nat, user_store) =
    Some (Ret (None, (1%nat, set_storage (storeEvent ok_env (sample_event "7") user_db).2 user_store))).
Proof.
  split.
  - destruct (EnqueueScrobble_outcome (λ _, insert_fails) 0 0 (sample_event "7") (sample_event "7")
                user_store ltac:(vm_compute; reflexivity) ltac:(apply map_Forall_empty))
      as (s' & H1 & _ & _ & H2 & _).
    exists s'. split; [exact H1|exact H2].
  - exact (EnqueueScrobble_outcome (λ _, ok_env) 0 0 (sample_event "7") (sample_event "7")
             user_store ltac:(vm_compute; reflexivity) ltac:(apply map_Forall_empty) eq_refl).
Defined.

Lemma EnqueueScrobble_diverges_witness :
  EnqueueScrobble (λ _, ok_env) (Z.to_nat 1000000) (sample_event "8") (1%nat, after_outage) = None.
Proof.
  apply (EnqueueScrobble_diverges (λ _, ok_env) (Z.to_nat 1000000) 1 (sample_event "8") (sample_event "8")
           (sample_event "7") [] (mkBuffer (replicate 99 None ++ [Some (sample_event "7")]) 100)
           after_outage (storeEvent ok_env (sample_event "8") user_db).2);
    try (vm_compute; reflexivity).
  split_and!; try (by vm_compute).
  vm_compute. by eexists.
Defined.

(** A user with a thousand queued events, created one nanosecond apart. *)
Definition filler_row (n : Z) : ScrobbleRow :=
  mkScrobbleRow "user" "" "stop" 100 n 0 None "player" (Itoa n).
Definition full_db : Db :=
  set_queued_scrobbles (list_to_map ((λ n, (Itoa n, filler_row n)) <$> seqZ 0 1000)) user_db.

Lemma full_queue_duplicate_evicts_witness :
  storeEvent ok_env (sample_event "500") full_db =
    (Ok tt, set_queued_scrobbles (delete "0" (queued_scrobbles full_db)) full_db).
Proof.
  set (e := sample_event "500").
  assert (Hne : "500" ≠ "0") by discriminate.
  assert (Hr : 0 ≤ E_RetryCount e ≤ 5) by (split; vm_compute; discriminate).
  assert (Hv : validateEvent e = None) by (vm_compute; reflexivity).
  assert (Hs : same_slot (scrobble_row e) (filler_row 500) = true) by (vm_compute; reflexivity).
  assert (Hk : queued_scrobbles full_db !! "500" = Some (filler_row 500)) by (vm_compute; reflexivity).
  assert (Hl : 999 ≤ Z.of_nat (List.length (tl (user_events "user" full_db))))
    by (vm_compute; discriminate).
  assert (E : user_events (E_UserID e) full_db = ("0", filler_row 0) :: tl (user_events "user" full_db))
    by (vm_compute; reflexivity).
  exact (proj1 (full_queue_duplicate_evicts (PL:=memory_server_laws) ok_env e full_db
    "0" (filler_row 0) (tl (user_events "user" full_db)) "500" (filler_row 500)
    (λ _ : point, eq_refl) Hv Hr E Hl Hne Hk Hs)).
Defined.
