(* ===== verification/PgInvariant.v ===== *)
(** * What every reachable PostgreSQL database satisfies

    The operations of [PostgresqlStore] that change the database, as a type of
    labels with an executable meaning, and the invariant that any sequence of
    them keeps from the empty database, whatever statements fail on the way. *)

From S2P Require Import Prelude GoLib Float Json Instances Common Entities Buffers Pg PgFamily PgStore.

Open Scope Z_scope.

(** ** The invariant *)

Definition group_ok (r : GroupRow) : Prop := G_plex_username r ≠ "".

Definition member_ok (r : MemberRow) : Prop :=
  M_temp_label r ≠ "" ∧ len (M_temp_label r) ≤ 100 ∧
  M_authorization_status r ∈ ["pending"; "authorized"; "expired"; "failed"] ∧
  (M_authorization_status r = "authorized" → is_Some (M_trakt_username r)) ∧
  (∀ t, M_trakt_username r = Some t → t ≠ "" ∧ TrimSpace t = t).

(** [B] bounds the attempt counts. *)
Definition retry_ok (B : Z → Prop) (r : RetryRow) : Prop :=
  B (R_attempt_count r) ∧
  R_status r ∈ ["queued"; "retrying"; "permanent_failure"] ∧
  (R_status r = "permanent_failure" → R_attempt_count r = 5).

Definition notification_ok (r : NotificationRow) : Prop :=
  T_message r ≠ "" ∧
  T_notification_type r ∈ ["permanent_failure"; "authorization_expired"; "member_added";
                           "member_removed"].

Record rows_ok (B : Z → Prop) (db : Db) : Prop := {
  groups_ok : map_Forall (λ _, group_ok) (family_groups db);
  members_ok : map_Forall (λ _, member_ok) (group_members db);
  retries_ok : map_Forall (λ _, retry_ok B) (retry_queue_items db);
  notifications_ok : map_Forall (λ _, notification_ok) (notifications db);
}.

Definition db_ok (B : Z → Prop) (db : Db) : Prop := integrity db ∧ rows_ok B db.

(** The bound of the schema's comment and of the worker. *)
Definition up_to_five (a : Z) : Prop := 0 ≤ a ≤ 5.

(** ** Operations *)

Inductive op :=
| OpCreateFamilyGroup (g : option FamilyGroup)
| OpDeleteFamilyGroup (groupID : string)
| OpAddGroupMember (m : option GroupMember)
| OpUpdateGroupMember (m : option GroupMember)
| OpRemoveGroupMember (groupID memberID : string)
| OpEnqueueRetryItem (i : option RetryQueueItem)
| OpListDueRetryItems (now : Time) (limit : Z)
| OpMarkRetrySuccess (id : string)
| OpMarkRetryFailure (id : string) (attempt : Z) (next : Time) (lastErr : string) (permanent : bool)
| OpWriteUser (u : User)
| OpDeleteUser (id username : string)
| OpStoreEvent (e : QueuedScrobbleEvent)
| OpDeleteQueuedScrobble (id : string)
| OpUpdateQueuedScrobbleRetry (id : string) (n : Z)
| OpPurgeQueueForUser (userID : string)
| OpCreateNotification (n : Notification)
| OpDismissNotification (id : string)
| OpDeleteNotification (id : string).

Section Invariant.
Context `{UnicodeTables, PG : PgServer, PL : !PgServerLaws PG, JsonText}.

(** The database a call leaves.  [OpStoreEvent] is the part of
    [EnqueueScrobble] that reaches the database. *)
Definition run_op (env : Env) (o : op) (db : Db) : Db :=
  match o with
  | OpCreateFamilyGroup g => (CreateFamilyGroup env g db).2
  | OpDeleteFamilyGroup id => (DeleteFamilyGroup env id db).2
  | OpAddGroupMember m => (AddGroupMember env m db).2
  | OpUpdateGroupMember m => (UpdateGroupMember env m db).2
  | OpRemoveGroupMember g m => (RemoveGroupMember env g m db).2
  | OpEnqueueRetryItem i => (EnqueueRetryItem env i db).2
  | OpListDueRetryItems now limit => (ListDueRetryItems env now limit db).2
  | OpMarkRetrySuccess id => (MarkRetrySuccess env id db).2
  | OpMarkRetryFailure id a n e p => (MarkRetryFailure env id a n e p db).2
  | OpWriteUser u => match WriteUser env u db with Ret db => db | Panic _ => db end
  | OpDeleteUser id n => (DeleteUser env id n db).2
  | OpStoreEvent e => (storeEvent env e db).2
  | OpDeleteQueuedScrobble id => (DeleteQueuedScrobble env id db).2
  | OpUpdateQueuedScrobbleRetry id n => (UpdateQueuedScrobbleRetry env id n db).2
  | OpPurgeQueueForUser u => (PurgeQueueForUser env u db).2
  | OpCreateNotification n => (CreateNotification env n db).2
  | OpDismissNotification id => (DismissNotification env id db).2
  | OpDeleteNotification id => (DeleteNotification env id db).2
  end.

Definition run_ops (trace : list (Env * op)) (db : Db) : Db :=
  foldl (λ db eo, run_op eo.1 eo.2 db) db trace.

(** The attempt counts that the callers of [MarkRetryFailure] pass. *)
Definition marked (trace : list (Env * op)) : list Z :=
  trace ≫= λ eo, match eo.2 with OpMarkRetryFailure _ a _ _ _ => [a] | _ => [] end.

Variable B : Z → Prop.
Hypothesis five_ok : ∀ a, up_to_five a → B a.

Definition op_ok (o : op) : Prop :=
  match o with OpMarkRetryFailure _ a _ _ _ => B a | _ => True end.

(** ** Lemmas: rows *)

Lemma nullableString_ok s t : nullableString s = Some t → t ≠ "" ∧ TrimSpace t = t.
Proof.
  unfold nullableString. case_bool_decide; [done|]. intros [= <-]. by rewrite TrimSpace_idem.
Qed.

Lemma nullableString_some s : TrimSpace s ≠ "" → is_Some (nullableString s).
Proof. unfold nullableString. intros. rewrite bool_decide_eq_false_2 by done. eauto. Qed.

(** The row a validated member becomes. *)
Lemma member_ok_of m0 m g a r e c :
  GroupMember_Validate (Some m0) = (Some m, None) →
  member_ok (mkMemberRow g (GM_TempLabel m) (nullableString (GM_TraktUsername m)) a r e
               (GM_AuthorizationStatus m) c).
Proof.
  intros [Hn (_ & Hl & Hlen & Hs & Ha)]%GroupMember_Validate_wf.
  split_and!; simpl; try done; [|by apply nullableString_ok].
  intros Hauth. apply nullableString_some. intros E. apply Ha; [done|].
  simplify_eq/=. rewrite TrimSpace_idem in E. done.
Qed.

Lemma rows_ok_groups db t :
  rows_ok B db → map_Forall (λ _, group_ok) t → rows_ok B (set_family_groups t db).
Proof. intros [] ?. by split. Qed.
Lemma rows_ok_members db t :
  rows_ok B db → map_Forall (λ _, member_ok) t → rows_ok B (set_group_members t db).
Proof. intros [] ?. by split. Qed.
Lemma rows_ok_retries db t :
  rows_ok B db → map_Forall (λ _, retry_ok B) t → rows_ok B (set_retry_queue_items t db).
Proof. intros [] ?. by split. Qed.
Lemma rows_ok_notifications db t :
  rows_ok B db → map_Forall (λ _, notification_ok) t → rows_ok B (set_notifications t db).
Proof. intros [] ?. by split. Qed.
Lemma rows_ok_other db u q : rows_ok B db → rows_ok B (set_queued_scrobbles q (set_users u db)).
Proof. intros []. by split. Qed.
Lemma rows_ok_scrobbles db q : rows_ok B db → rows_ok B (set_queued_scrobbles q db).
Proof. intros []. by split. Qed.

Lemma map_Forall_sub {A} (P : A → Prop) (m m' : gmap string A) :
  m' ⊆ m → map_Forall (λ _, P) m → map_Forall (λ _, P) m'.
Proof. intros Hs Hm k r Hk. eapply Hm, lookup_weaken; eauto. Qed.

Lemma rows_ok_cascade keep db : rows_ok B db → rows_ok B (cascade_members keep db).
Proof. intros []. split; simpl; eauto using map_Forall_sub with plaxt. Qed.

(** A [statement] whose effect keeps [db_ok]. *)
Lemma db_ok_statement {A} env n (f : Db → result (A * Db)) db :
  preserves integrity f → (∀ a db', db_ok B db → f db = Ok (a, db') → rows_ok B db') →
  db_ok B db → db_ok B (statement env n f db).2.
Proof.
  intros Hi Hr Hdb. destruct (statement env n f db) as [r db'] eqn:E. simpl. split.
  - by eapply statement_preserves; [| |exact E]; [|apply Hdb].
  - unfold statement in E. destruct (fault env (Stmt n)); [simplify_eq; apply Hdb|].
    destruct (f db) as [[a d]|] eqn:Ef; simplify_eq; [by eapply Hr|apply Hdb].
Qed.

Lemma affected_or_db env e r : (affected_or env e r).2 = r.2.
Proof. unfold affected_or. destruct r as [[?|?] ?]; repeat case_match; done. Qed.

(** ** Every operation keeps the invariant *)

Ltac open_result H :=
  repeat match type of H with
  | mbind _ ?c = Ok _ => destruct c; simpl in H; [|discriminate]
  end.

Lemma db_ok_CreateFamilyGroup env g db : db_ok B db → db_ok B (CreateFamilyGroup env g db).2.
Proof.
  intros Hdb. unfold CreateFamilyGroup. destruct g as [g|]; [|done].
  destruct (FamilyGroup_Validate (Some g)) as [[g'|] [err|]] eqn:Ev; try done.
  assert (FG_PlexUsername g' ≠ "") as Hplex.
  { unfold FamilyGroup_Validate in Ev. destruct (FamilyGroup_Normalize (Some g)); simplify_eq.
    by case_bool_decide. }
  set (g1 := if bool_decide (FG_ID g' = "") then set_FG_ID (fresh_id env) g' else g').
  assert (FG_PlexUsername g1 ≠ "") by (unfold g1; by case_bool_decide).
  assert (db_ok B (statement env 0 (insert_family_group (FG_ID g1) (FG_PlexUsername g1) (db_now env)) db).2).
  { apply db_ok_statement; eauto with plaxt. intros a db' [_ Hr] E.
    unfold insert_family_group in E. open_result E. simplify_eq. apply rows_ok_groups; [done|].
    apply map_Forall_insert_2; [done|]. by destruct Hr. }
  by destruct (statement _ _ _ _) as [[[??]|?] ?].
Qed.

Lemma db_ok_DeleteFamilyGroup env id db : db_ok B db → db_ok B (DeleteFamilyGroup env id db).2.
Proof.
  intros Hdb. unfold DeleteFamilyGroup. case_bool_decide; [done|]. rewrite affected_or_db.
  apply db_ok_statement; eauto with plaxt. intros a db' [_ Hr] E.
  unfold delete_family_group in E. case_match; simplify_eq; [|done].
  apply (rows_ok_cascade (λ m, negb match group_members db !! m with
    | Some r => bool_decide (M_family_group_id r = TrimSpace id) | None => false end)) in Hr as [].
  split; simpl in *; eauto using map_Forall_sub with plaxt.
Qed.

Lemma db_ok_AddGroupMember env m db : db_ok B db → db_ok B (AddGroupMember env m db).2.
Proof.
  intros Hdb. unfold AddGroupMember. destruct m as [m|]; [|done].
  destruct (GroupMember_Validate _) as [[m'|] [err|]] eqn:Ev; try done.
  match goal with |- context [statement env 0 ?f db] => assert (db_ok B (statement env 0 f db).2) end.
  { apply db_ok_statement; eauto with plaxt. intros a db' [_ Hr] E.
    unfold insert_group_member in E. open_result E. simplify_eq. apply rows_ok_members; [done|].
    apply map_Forall_insert_2; [by eapply member_ok_of|]. by destruct Hr. }
  by destruct (statement _ _ _ _) as [[?|?] ?].
Qed.

Lemma db_ok_UpdateGroupMember env m db : db_ok B db → db_ok B (UpdateGroupMember env m db).2.
Proof.
  intros Hdb. unfold UpdateGroupMember. destruct m as [m|]; [|done].
  destruct (GroupMember_Validate _) as [[m'|] [err|]] eqn:Ev; try done.
  match goal with |- context [statement env 0 ?f db] => assert (db_ok B (statement env 0 f db).2) as Hs end.
  { apply db_ok_statement; eauto with plaxt. intros a db' [_ Hr] E.
    unfold update_group_member in E. case_match; simplify_eq; [|done]. apply rows_ok_members; [done|].
    apply map_Forall_insert_2; [by eapply member_ok_of|]. by destruct Hr. }
  destruct (statement _ _ _ _) as [[n|?] db'] eqn:E; [|done].
  destruct (affected_or _ _ _) as [e d] eqn:Ea. simpl.
  pose proof (f_equal snd Ea) as Hd. rewrite affected_or_db in Hd. simpl in Hd. by subst.
Qed.

Lemma db_ok_RemoveGroupMember env g m db : db_ok B db → db_ok B (RemoveGroupMember env g m db).2.
Proof.
  intros Hdb. unfold RemoveGroupMember. case_match; [done|]. rewrite affected_or_db.
  apply db_ok_statement; eauto with plaxt. intros a db' [_ Hr] E.
  unfold delete_group_member in E. repeat case_match; simplify_eq; try done.
  by apply rows_ok_cascade.
Qed.

Lemma db_ok_EnqueueRetryItem env i db : db_ok B db → db_ok B (EnqueueRetryItem env i db).2.
Proof using five_ok.
  intros Hdb. unfold EnqueueRetryItem. destruct i as [i|]; [|done].
  destruct (RetryQueueItem_Validate _) as [[i'|] [err|]] eqn:Ev; try done.
  match goal with |- context [statement env 0 ?f db] => assert (db_ok B (statement env 0 f db).2) end.
  { apply RetryQueueItem_Validate_wf in Ev as [_ (_&_&_&?&_&?&?)].
    apply db_ok_statement; eauto with plaxt. intros a db' [_ Hr] E.
    unfold insert_retry_item in E. open_result E. simplify_eq. apply rows_ok_retries; [done|].
    apply map_Forall_insert_2; [by split; [apply five_ok|]|]. by destruct Hr. }
  by destruct (statement _ _ _ _) as [[[??]|?] ?].
Qed.

Lemma retry_ok_retrying now r :
  retry_ok B r → R_status r ≠ "permanent_failure" → retry_ok B (set_retry_status "retrying" now r).
Proof.
  intros (?&?&?) ?. split_and!; simpl; try done.
  apply elem_of_cons; right; apply elem_of_cons; by left.
Qed.

Lemma db_ok_MarkRetrySuccess env id db : db_ok B db → db_ok B (MarkRetrySuccess env id db).2.
Proof.
  intros Hdb. unfold MarkRetrySuccess. case_bool_decide; [done|]. rewrite affected_or_db.
  apply db_ok_statement; eauto with plaxt. intros a db' [_ Hr] E.
  unfold delete_retry_item in E. case_match; simplify_eq; [|done]. apply rows_ok_retries; [done|].
  eapply map_Forall_sub, retries_ok; eauto with plaxt.
Qed.

Lemma db_ok_MarkRetryFailure env id a t e p db :
  B a → db_ok B db → db_ok B (MarkRetryFailure env id a t e p db).2.
Proof using five_ok.
  intros Ha Hdb. unfold MarkRetryFailure. case_bool_decide; [done|]. rewrite affected_or_db.
  apply db_ok_statement; eauto with plaxt. intros x db' [_ Hr] E.
  unfold update_retry_failure in E. case_match; simplify_eq; [|done]. apply rows_ok_retries; [done|].
  apply map_Forall_insert_2; [|by destruct Hr].
  unfold retry_ok, MaxRetryAttempts, RetryQueueStatusPermanentFailure, RetryQueueStatusQueued.
  assert (up_to_five 5) by (unfold up_to_five; lia).
  destruct p; simpl; split_and!; auto; try done; vm_compute; repeat constructor.
Qed.

Lemma due_not_permanent env now k r : due env now k r = true → R_status r ≠ "permanent_failure".
Proof.
  unfold due. rewrite !andb_true_iff, bool_decide_eq_true. intros [[Hs _] _] E. rewrite E in Hs.
  by rewrite !elem_of_cons, elem_of_nil in Hs; destruct Hs as [?|[?|?]].
Qed.

Lemma db_ok_ListDueRetryItems env now limit db : db_ok B db → db_ok B (ListDueRetryItems env now limit db).2.
Proof using PL.
  intros Hdb. unfold ListDueRetryItems.
  set (n := if limit <=? 0 then 50 else limit).
  destruct (fault env BeginTx); [done|].
  unfold statement at 1. destruct (fault env (Stmt 0)); [done|]. simpl.
  destruct (fault env RowsErr); [done|].
  set (rows := due_rows env (timestamp now) n db).
  case_bool_decide; [by destruct (fault env Commit)|].
  match goal with |- context [statement env 1 ?f db] => assert (db_ok B (statement env 1 f db).2) end.
  { apply db_ok_statement; eauto with plaxt. intros a db' [_ Hr] E.
    unfold update_retry_status in E. simplify_eq. apply rows_ok_retries; [done|].
    intros k r. rewrite map_lookup_imap.
    destruct (retry_queue_items db !! k) as [r0|] eqn:Ek; simpl; [|done]. intros [= <-].
    pose proof (retries_ok _ _ Hr _ _ Ek) as Hr0. case_bool_decide as Hin; [|done].
    apply retry_ok_retrying; [done|].
    rewrite !list_elem_of_fmap in Hin. destruct Hin as (i & -> & Hin).
    apply list_elem_of_fmap in Hin as ([k' r'] & -> & Hin). simpl in Ek.
    apply due_rows_spec in Hin as [Hk' Hdue]. simplify_eq. by eapply due_not_permanent. }
  destruct (statement _ _ _ _) as [[?|?] ?]; [|done]. by destruct (fault env Commit).
Qed.

Lemma db_ok_storeEvent env e db : db_ok B db → db_ok B (storeEvent env e db).2.
Proof.
  intros Hdb. unfold storeEvent. case_match.
  all: apply db_ok_statement; eauto with plaxt.
  1,3: intros a db' [_ Hr] E; unfold insert_scrobble in E; open_result E; case_match;
    [open_result E|]; simplify_eq; [by apply rows_ok_scrobbles|done].
  apply db_ok_statement; eauto with plaxt. intros a db' [_ Hr] E. unfold evict_oldest in E.
  simplify_eq. destruct (user_events _ db) as [|[??] ?]; [done|]. by apply rows_ok_scrobbles.
Qed.

Lemma db_ok_CreateNotification env n db : db_ok B db → db_ok B (CreateNotification env n db).2.
Proof.
  intros Hdb. unfold CreateNotification. destruct (Notification_Validate n) eqn:Ev; [done|].
  match goal with |- context [statement env 0 ?f db] => assert (db_ok B (statement env 0 f db).2) end.
  { unfold Notification_Validate in Ev. repeat (case_bool_decide; [done|]).
    case_bool_decide; [|done].
    apply db_ok_statement; eauto with plaxt. intros a db' [_ Hr] E.
    unfold insert_notification in E. open_result E. simplify_eq. apply rows_ok_notifications; [done|].
    apply map_Forall_insert_2; [done|]. by destruct Hr. }
  by destruct (statement _ _ _ _) as [[?|?] ?].
Qed.

(** The operations with one statement and no row to validate. *)
Lemma db_ok_simple env o db :
  match o with
  | OpWriteUser _ | OpDeleteUser _ _ | OpDeleteQueuedScrobble _ | OpUpdateQueuedScrobbleRetry _ _
  | OpPurgeQueueForUser _ | OpDismissNotification _ | OpDeleteNotification _ => True
  | _ => False
  end → db_ok B db → db_ok B (run_op env o db).
Proof.
  destruct o; intros Ho Hdb; try done; simpl;
    unfold WriteUser, DeleteUser, DeleteQueuedScrobble, UpdateQueuedScrobbleRetry,
      PurgeQueueForUser, DismissNotification, DeleteNotification;
    try (destruct (GetQueueSize _ _ _ _); [|done]);
    match goal with |- context [statement env ?k ?f db] =>
      assert (db_ok B (statement env k f db).2) as Hs end;
    try (destruct (statement _ _ _ _) as [[?|?] ?]; done);
    apply db_ok_statement; eauto with plaxt; intros x db' [_ Hr] E.
  - unfold upsert_user in E. simplify_eq. destruct Hr. by split.
  - unfold delete_user in E. simplify_eq. by apply rows_ok_other.
  - unfold delete_scrobble in E. simplify_eq. by apply rows_ok_scrobbles.
  - unfold update_scrobble_retry in E. repeat case_match; open_result E; simplify_eq;
      [by apply rows_ok_scrobbles|done].
  - unfold delete_scrobbles_of in E. simplify_eq. by apply rows_ok_scrobbles.
  - unfold update_dismissed in E. destruct (notifications db !! id) as [row|] eqn:Ei; simplify_eq; [|done].
    apply rows_ok_notifications; [done|]. apply map_Forall_insert_2; [|by destruct Hr].
    exact (notifications_ok _ _ Hr _ _ Ei).
  - unfold delete_notification in E. case_match; simplify_eq; [|done].
    apply rows_ok_notifications; [done|]. eapply map_Forall_sub, notifications_ok; eauto with plaxt.
Qed.

Lemma run_op_db_ok env o db : op_ok o → db_ok B db → db_ok B (run_op env o db).
Proof using PL five_ok.
  intros Ho Hdb. destruct o; simpl in Ho; try (by apply db_ok_simple);
    simpl; auto using db_ok_CreateFamilyGroup, db_ok_DeleteFamilyGroup, db_ok_AddGroupMember,
      db_ok_UpdateGroupMember, db_ok_RemoveGroupMember, db_ok_EnqueueRetryItem,
      db_ok_ListDueRetryItems, db_ok_MarkRetrySuccess, db_ok_MarkRetryFailure,
      db_ok_storeEvent, db_ok_CreateNotification.
Qed.

Lemma db_ok_empty : db_ok B NewPostgresqlClient.
Proof. split; split; try done; by apply map_Forall_empty. Qed.

Lemma run_ops_db_ok trace db :
  Forall (λ eo, op_ok eo.2) trace → db_ok B db → db_ok B (run_ops trace db).
Proof using PL five_ok.
  intros Hops. revert db. unfold run_ops.
  induction Hops as [|[env o] trace Ho _ IH]; intros db Hdb; simpl; [done|].
  by apply IH, run_op_db_ok.
Qed.
End Invariant.

Section Reachable.
Context `{UnicodeTables, PG : PgServer, PL : !PgServerLaws PG, JsonText}.

(** C1: from a freshly created schema, any sequence of the store's operations,
    with any arguments, any failing statements, clocks and locks, reaches a
    database with referential integrity, unique Plex usernames and scrobble
    slots, members with a valid status and a Trakt username once authorized,
    notifications with a message and a valid type, and retry items that are
    permanent failures only with exactly five attempts and whose attempt count
    is 0-5 or one that a caller of [MarkRetryFailure] passed; so it is 0-5 as
    long as the callers, of which the worker is the only one, pass no other. *)
Theorem reachable_db_ok (trace : list (Env * op)) :
  db_ok (λ a, up_to_five a ∨ a ∈ marked trace) (run_ops trace NewPostgresqlClient).
Proof using PL.
  apply run_ops_db_ok; [tauto| |apply db_ok_empty].
  apply Forall_forall. intros [env o] Ho. destruct o; try done. right.
  apply list_elem_of_bind. eexists. split; [|exact Ho]. apply list_elem_of_singleton. done.
Qed.

(** ... in particular within 0-5 when the callers keep to it. *)
Lemma reachable_up_to_five trace :
  Forall up_to_five (marked trace) → db_ok up_to_five (run_ops trace NewPostgresqlClient).
Proof using PL.
  intros Hm. apply run_ops_db_ok; [done| |apply db_ok_empty].
  apply Forall_forall. intros [env o] Ho. destruct o; try done. simpl.
  apply (proj1 (Forall_forall _ _) Hm), list_elem_of_bind. eexists.
  split; [|exact Ho]. apply list_elem_of_singleton. done.
Qed.
End Reachable.

(** ** Examples *)

(** A caller that passes seven attempts breaks the bound of five: the condition
    on the callers is needed. *)
Example seven_attempts :
  (R_attempt_count <$> retry_queue_items
     (run_ops (H:=ascii_tables) (PG:=memory_server) (H0:=tree_text)
       [(ok_env, OpCreateFamilyGroup (Some home)); (ok_env, OpAddGroupMember (Some (kid "gm" "Sam")));
        (ok_env, OpEnqueueRetryItem (Some sample_item)); (broken_env, OpListDueRetryItems 0 10);
        (ok_env, OpMarkRetryFailure "r1" 7 0 "503" false)] NewPostgresqlClient) !! "r1") = Some 7.
Proof. vm_compute. reflexivity. Qed.

Lemma reachable_db_ok_witness :
  db_ok (λ a, up_to_five a ∨ a ∈ [4; 7])
    (run_ops (H:=ascii_tables) (PG:=memory_server) (H0:=tree_text)
    [(ok_env, OpCreateFamilyGroup (Some home)); (ok_env, OpAddGroupMember (Some (kid "gm" "Sam")));
     (ok_env, OpEnqueueRetryItem (Some sample_item)); (broken_env, OpListDueRetryItems 0 10);
     (ok_env, OpMarkRetryFailure "r1" 4 0 "503" false); (ok_env, OpMarkRetryFailure "r1" 7 0 "503" true);
     (ok_env, OpRemoveGroupMember "fg" "gm")]
    NewPostgresqlClient).
Proof.
  exact (reachable_db_ok (H:=ascii_tables) (PG:=memory_server) (PL:=memory_server_laws)
           (H0:=tree_text) _).
Defined.
