(* ===== verification/Worker.v ===== *)
(** * The retry worker: [lib/queue/worker.go], [postgres_repo.go] and
      [lib/notify/notifier.go]

    The worker talks to three components through interfaces: the store, the
    Trakt client and the notifier.  They act on a common world [W].  What the
    worker relies on is stated by the laws of [RetryStoreLaws]; its theorems
    are proved from the laws and hold for every implementation.  The last
    section shows that [PostgresqlStore] satisfies them. *)

From S2P Require Import Prelude GoLib Float Json Instances Common Entities Buffers Pg PgFamily.

Open Scope Z_scope.

(** ** Constants and backoff *)

Definition WorkerMaxRetryAttempts : Z := 5.
Definition DefaultPollInterval : Duration := 15 * Second.
Definition DefaultBatchSize : Z := 50.
Definition BaseBackoffDelay : Duration := 30 * Second.
Definition MaxBackoffDelay : Duration := 30 * Minute.

Definition calculateBackoff (attempt : Z) : Duration :=
  if attempt <=? 0 then BaseBackoffDelay else
  let delay := wrap64 (BaseBackoffDelay * shl1 (attempt - 1)) in
  if MaxBackoffDelay <? delay then MaxBackoffDelay else delay.

Definition extractMediaTitle (body : ScrobbleBody) : string :=
  let movie :=
    m ← Body_Movie body; title ← Movie_Title m;
    Some (match Movie_Year m with
          | Some y => title +:+ " (" +:+ Itoa y +:+ ")"
          | None => title
          end) in
  match movie with
  | Some t => t
  | None =>
      match Body_Show body with
      | Some s =>
          let showTitle := default "Unknown Show" (Show_Title s) in
          let numbers := e ← Body_Episode body; sn ← Episode_Season e; nb ← Episode_Number e;
                         Some (sn, nb) in
          match numbers with
          | Some (sn, nb) => showTitle +:+ " S" +:+ Itoa02 sn +:+ "E" +:+ Itoa02 nb
          | None => showTitle
          end
      | None => "Unknown Media"
      end
  end.

(** ** Interfaces *)

(** The methods of [store.Store] the worker calls, and the clock.  A lookup
    may return a nil member without an error. *)
Class RetryStore (W : Type) := {
  Store_GetGroupMember : string → W → result (option GroupMember) * W;
  Store_EnqueueRetryItem : option RetryQueueItem → W → option error * W;
  Store_ListDueRetryItems : Time → Z → W → result (list RetryQueueItem) * W;
  Store_MarkRetrySuccess : string → W → option error * W;
  Store_MarkRetryFailure : string → Z → Time → string → bool → W → option error * W;
  time_Now : W → Time * W;
}.

Class TraktScrobbler (W : Type) := {
  ScrobbleFromQueue : string → CacheItem → string → W → option error * W;
}.

(** [NotifyPermanentFailure(groupID, memberID, memberUsername, mediaTitle,
    errorMsg)]; the worker's notifier may be nil. *)
Record Notifier (W : Type) := mkNotifier {
  NotifyPermanentFailure :
    string → string → string → string → string → W → option error * W;
}.
Arguments mkNotifier {W}.
Arguments NotifyPermanentFailure {W}.

Record Worker (W : Type) := mkWorker {
  w_notifier : option (Notifier W);
  pollInterval : Duration;
  batchSize : Z;
}.
Arguments mkWorker {W}.
Arguments w_notifier {W}.
Arguments pollInterval {W}.
Arguments batchSize {W}.

Definition NewWorker {W} (notifier : option (Notifier W)) (poll : Duration) (batch : Z) : Worker W :=
  mkWorker notifier (if poll =? 0 then DefaultPollInterval else poll)
    (if batch =? 0 then DefaultBatchSize else batch).

Section Worker.
Context {W : Type} `{UnicodeTables, JsonText, RetryStore W, TraktScrobbler W}.

(** *** [PostgresRepo] *)

Definition wrap_err (pre : string) (e : option error) : option error :=
  match e with Some e => Some (Wrapf pre e "") | None => None end.

Definition FetchDueItems (now : Time) (limit : Z) (w : W) : result (list RetryQueueItem) * W :=
  match Store_ListDueRetryItems now limit w with
  | (Err err, w) => (Err (Wrapf "fetch due items: " err ""), w)
  | (Ok items, w) => (Ok items, w)
  end.

Definition MarkSuccess (id : string) (w : W) : option error * W :=
  let '(err, w) := Store_MarkRetrySuccess id w in (wrap_err "mark success: " err, w).

Definition MarkFailure (id : string) (attempt : Z) (nextAttempt : Time) (lastErr : string)
    (permanent : bool) (w : W) : option error * W :=
  let '(err, w) := Store_MarkRetryFailure id attempt nextAttempt lastErr permanent w in
  (wrap_err "mark failure: " err, w).

Definition Enqueue (item : option RetryQueueItem) (w : W) : option error * W :=
  let '(err, w) := Store_EnqueueRetryItem item w in (wrap_err "enqueue item: " err, w).

(** *** The worker *)

(** [json.Unmarshal(item.Payload, &scrobbleBody)] *)
Definition unmarshal_body (payload : string) : dres ScrobbleBody :=
  j ← dres_of_option (json_parse payload); ScrobbleBody_UnmarshalJSON j emptyBody.

Definition processItem (wk : Worker W) (item : RetryQueueItem) (w : W) : outcome W :=
  let '(r, w) := Store_GetGroupMember (RQ_GroupMemberID item) w in
  match r with
  | Err _ =>
      let '(now, w) := time_Now w in
      let '(_, w) := MarkFailure (RQ_ID item) WorkerMaxRetryAttempts now "member not found" true w in
      Ret w
  | Ok member =>
      match unmarshal_body (RQ_Payload item) with
      | DPanic why => Panic why
      | DErr =>
          let '(now, w) := time_Now w in
          let '(_, w) := MarkFailure (RQ_ID item) WorkerMaxRetryAttempts now "invalid payload" true w in
          Ret w
      | DOk scrobbleBody =>
          let cacheItem := set_Body scrobbleBody emptyCacheItem in
          match member with
          | None => Panic nil_deref
          | Some member =>
              let '(err, w) := ScrobbleFromQueue "stop" cacheItem (GM_AccessToken member) w in
              match err with
              | None => let '(_, w) := MarkSuccess (RQ_ID item) w in Ret w
              | Some err =>
                  let newAttempt := wrap64 (RQ_AttemptCount item + 1) in
                  if WorkerMaxRetryAttempts <=? newAttempt then
                    let '(now, w) := time_Now w in
                    let '(_, w) := MarkFailure (RQ_ID item) newAttempt now (Error err) true w in
                    match w_notifier wk with
                    | None => Ret w
                    | Some n =>
                        let '(_, w) := NotifyPermanentFailure n (RQ_FamilyGroupID item) (GM_ID member)
                                         (GM_TraktUsername member) (extractMediaTitle scrobbleBody)
                                         (Error err) w in
                        Ret w
                    end
                  else
                    let '(now, w) := time_Now w in
                    let nextAttempt := time_Add now (calculateBackoff newAttempt) in
                    let '(_, w) := MarkFailure (RQ_ID item) newAttempt nextAttempt (Error err) false w in
                    Ret w
              end
          end
      end
  end.

(** The items of a batch, one after the other. *)
Fixpoint processItems (wk : Worker W) (items : list RetryQueueItem) (w : W) : outcome W :=
  match items with
  | [] => Ret w
  | item :: items => w ← processItem wk item w; processItems wk items w
  end.

Definition processBatch (wk : Worker W) (w : W) : outcome W :=
  let '(now, w) := time_Now w in
  match FetchDueItems now (batchSize wk) w with
  | (Err _, w) => Ret w
  | (Ok items, w) => processItems wk items w
  end.

(** [Start]: the ticks that arrive before the context is cancelled. *)
Fixpoint Start (wk : Worker W) (ticks : nat) (w : W) : outcome W :=
  match ticks with
  | O => Ret w
  | S ticks => w ← processBatch wk w; Start wk ticks w
  end.
End Worker.

(** ** What the worker relies on *)

(** [queue w] is the retry queue the store keeps, [notes w] the permanent
    failures notified so far, [stored t] a time the way the store keeps it.
    Writes either succeed or change nothing, and nothing but the two [Mark]
    methods changes the queue. *)
Class RetryStoreLaws (W : Type) `{UnicodeTables, RS : RetryStore W, TS : TraktScrobbler W}
    (queue : W → gmap string RetryQueueItem) (notes : W → nat) (nf : Notifier W)
    (stored : Time → Time) : Prop := {
  law_get id w : let '(_, w') := Store_GetGroupMember id w in queue w' = queue w ∧ notes w' = notes w;
  law_now w : let '(_, w') := time_Now w in queue w' = queue w ∧ notes w' = notes w;
  law_send a c t w :
    let '(_, w') := ScrobbleFromQueue a c t w in queue w' = queue w ∧ notes w' = notes w;
  law_notify g m u t e w :
    let '(_, w') := NotifyPermanentFailure nf g m u t e w in
    queue w' = queue w ∧ notes w' = S (notes w);
  law_success id w : TrimSpace id = id →
    let '(err, w') := Store_MarkRetrySuccess id w in
    notes w' = notes w ∧
    match err with Some _ => queue w' = queue w | None => queue w' = delete id (queue w) end;
  law_failure id a t e p w : TrimSpace id = id →
    let '(err, w') := Store_MarkRetryFailure id a t e p w in
    notes w' = notes w ∧
    match err with
    | Some _ => queue w' = queue w
    | None =>
        ∃ it it', queue w !! id = Some it ∧ queue w' = <[id := it']> (queue w) ∧
          RQ_ID it' = RQ_ID it ∧ RQ_FamilyGroupID it' = RQ_FamilyGroupID it ∧ RQ_GroupMemberID it' = RQ_GroupMemberID it ∧
          RQ_Payload it' = RQ_Payload it ∧
          RQ_AttemptCount it' = (if p then 5 else a) ∧
          RQ_Status it' = (if p then "permanent_failure" else "queued") ∧
          RQ_NextAttemptAt it' = stored t ∧ RQ_LastError it' = TrimSpace e
    end;
}.

(** ** The lifecycle of an item, as a specification *)

(** What is to become of an item after an attempt to send it. *)
Inductive verdict :=
| Delivered
| TryAgain (why : string)
| Exhausted (why : string)
| Unreadable (why : string).

Section Verdict.
Context {W : Type} `{UnicodeTables, JsonText, RetryStore W, TraktScrobbler W}.

(** The verdict is settled by what the store says of the member, by the
    payload, by what Trakt answers to a stop with the member's token, and by
    the attempts made before. *)
Definition verdict_on (item : RetryQueueItem) (w : W) : verdict :=
  let '(member, w1) := Store_GetGroupMember (RQ_GroupMemberID item) w in
  match member, unmarshal_body (RQ_Payload item) with
  | Ok (Some m), DOk body =>
      match (ScrobbleFromQueue "stop" (set_Body body emptyCacheItem) (GM_AccessToken m) w1).1 with
      | None => Delivered
      | Some e =>
          if bool_decide (RQ_AttemptCount item = 4) then Exhausted (Error e) else TryAgain (Error e)
      end
  | Ok _, _ => Unreadable "invalid payload"
  | Err _, _ => Unreadable "member not found"
  end.

(** What the verdict makes of the queued item [it] ([None]: it is gone) when the
    clock says [now]. *)
Definition judged (stored : Time → Time) (v : verdict) (now : Time) (it : RetryQueueItem)
    (after : option RetryQueueItem) : Prop :=
  match v with
  | Delivered => after = None
  | TryAgain why => ∃ it', after = Some it' ∧
      RQ_ID it' = RQ_ID it ∧ RQ_FamilyGroupID it' = RQ_FamilyGroupID it ∧
      RQ_GroupMemberID it' = RQ_GroupMemberID it ∧ RQ_Payload it' = RQ_Payload it ∧
      RQ_AttemptCount it' = RQ_AttemptCount it + 1 ∧ RQ_Status it' = "queued" ∧
      RQ_NextAttemptAt it' = stored (now + 30 * Second * 2 ^ RQ_AttemptCount it) ∧
      RQ_LastError it' = TrimSpace why
  | Exhausted why | Unreadable why => ∃ it', after = Some it' ∧
      RQ_ID it' = RQ_ID it ∧ RQ_FamilyGroupID it' = RQ_FamilyGroupID it ∧
      RQ_GroupMemberID it' = RQ_GroupMemberID it ∧ RQ_Payload it' = RQ_Payload it ∧
      RQ_AttemptCount it' = 5 ∧ RQ_Status it' = "permanent_failure" ∧
      RQ_NextAttemptAt it' = stored now ∧ RQ_LastError it' = TrimSpace why
  end.

(** The store refuses, in the world [w], the write that the verdict asks for. *)
Definition write_refused (v : verdict) (now : Time) (item : RetryQueueItem) (w : W) : Prop :=
  match v with
  | Delivered => is_Some (Store_MarkRetrySuccess (RQ_ID item) w).1
  | TryAgain why =>
      is_Some (Store_MarkRetryFailure (RQ_ID item) (RQ_AttemptCount item + 1)
                 (now + 30 * Second * 2 ^ RQ_AttemptCount item) why false w).1
  | Exhausted why | Unreadable why =>
      is_Some (Store_MarkRetryFailure (RQ_ID item) 5 now why true w).1
  end.

Definition told (v : verdict) : nat := match v with Exhausted _ => 1 | _ => 0 end.
End Verdict.

(** ** Lemmas *)

Lemma calculateBackoff_eq attempt :
  1 ≤ attempt ≤ 29 →
  calculateBackoff attempt = Z.min (30 * Second * 2 ^ (attempt - 1)) (30 * Minute).
Proof.
  intros Ha. unfold calculateBackoff, BaseBackoffDelay, MaxBackoffDelay.
  rewrite (proj2 (Z.leb_gt attempt 0)), shl1_small by lia.
  assert (1 ≤ 2 ^ (attempt - 1) ≤ 2 ^ 28).
  { split; [change 1 with (2 ^ 0)|]; apply Z.pow_le_mono_r; lia. }
  unfold Minute, Second in *. rewrite wrap64_small by (unfold int64_min, int64_max; lia).
  case_match eqn:E; rewrite ?Z.ltb_lt, ?Z.ltb_ge in E; lia.
Qed.

Section WorkerProofs.
Context {W : Type} `{UnicodeTables, JsonText, RS : RetryStore W, TS : TraktScrobbler W}.
Context (queue : W → gmap string RetryQueueItem) (notes : W → nat) (nf : Notifier W).
Context (stored : Time → Time) {RL : RetryStoreLaws W queue notes nf stored}.

Definition same (w w' : W) : Prop := queue w' = queue w ∧ notes w' = notes w.

Lemma MarkFailure_law id a t e p w :
  TrimSpace id = id →
  let '(err, w') := MarkFailure id a t e p w in
  notes w' = notes w ∧
  (queue w' = queue w ∧ is_Some err ∨
   ∃ it it', err = None ∧ queue w !! id = Some it ∧ queue w' = <[id := it']> (queue w) ∧
     RQ_ID it' = RQ_ID it ∧ RQ_FamilyGroupID it' = RQ_FamilyGroupID it ∧
     RQ_GroupMemberID it' = RQ_GroupMemberID it ∧ RQ_Payload it' = RQ_Payload it ∧
     RQ_AttemptCount it' = (if p then 5 else a) ∧
     RQ_Status it' = (if p then "permanent_failure" else "queued") ∧
     RQ_NextAttemptAt it' = stored t ∧ RQ_LastError it' = TrimSpace e).
Proof using RL.
  intros Ht. unfold MarkFailure. pose proof (law_failure id a t e p w Ht) as Hl.
  destruct (Store_MarkRetryFailure id a t e p w) as [[err|] w'] eqn:E; simpl; destruct Hl as [? Hl];
    (split; [done|]); [left; eauto|right]. destruct Hl as (it & it' & ?). by exists it, it'.
Qed.

Lemma same_trans w0 w1 w2 : same w0 w1 → same w1 w2 → same w0 w2.
Proof. unfold same. intros [-> ->]. done. Qed.

(** The effect that a verdict has: the item becomes what the verdict asks for,
    unless the store refuses that very write; nothing else changes, and the
    owner is told exactly when the attempts are exhausted. *)
Definition item_effect (v : verdict) (item it : RetryQueueItem) (w w' : W) : Prop :=
  notes w' = (notes w + told v)%nat ∧
  ∃ w1 now w2, same w w1 ∧ time_Now w1 = (now, w2) ∧
    (queue w' = queue w ∧ (∃ wm, same w wm ∧ write_refused v now item wm) ∨
     (∀ j, j ≠ RQ_ID item → queue w' !! j = queue w !! j) ∧
     judged stored v now it (queue w' !! RQ_ID item)).

(** A failed attempt, up to the notification. *)
Lemma item_effect_failure v item it a t e (p : bool) w w1 now w2 err w3 :
  TrimSpace (RQ_ID item) = RQ_ID item → queue w !! RQ_ID item = Some it →
  RQ_AttemptCount it = RQ_AttemptCount item →
  same w w1 → time_Now w1 = (now, w2) →
  match v with
  | Delivered => False
  | TryAgain why => p = false ∧ e = why ∧ a = RQ_AttemptCount item + 1 ∧
      t = now + 30 * Second * 2 ^ RQ_AttemptCount item
  | Exhausted why | Unreadable why => p = true ∧ e = why ∧ a = 5 ∧ t = now
  end →
  MarkFailure (RQ_ID item) a t e p w2 = (err, w3) →
  ∀ w', queue w' = queue w3 → notes w' = (notes w3 + told v)%nat → item_effect v item it w w'.
Proof using RL.
  intros Ht Hq Hc Hs Hnow Hv E w' Hq' Hn'. pose proof (law_now w1) as Hn. rewrite Hnow in Hn.
  assert (same w w2) as Hs2 by eauto using same_trans.
  pose proof (MarkFailure_law (RQ_ID item) a t e p w2 Ht) as Hl. rewrite E in Hl.
  destruct Hl as [Hno Hl]. split; [rewrite Hn', Hno; by destruct Hs2 as [_ ->]|].
  exists w1, now, w2. split; [done|]. split; [done|]. rewrite Hq'. destruct Hs2 as [Hq2 ?].
  destruct Hl as [[-> Herr]|(it0 & it' & _ & Hq0 & -> & Hp)]; [left; split; [done|]|right].
  - exists w2. split; [done|]. unfold MarkFailure in E.
    destruct v; [done|destruct Hv as (-> & -> & -> & ->)..];
      simpl; destruct (Store_MarkRetryFailure _ _ _ _ _ w2) as [[?|] ?]; simplify_eq/=;
      try (by destruct Herr); eauto.
  - rewrite Hq2 in Hq0 |- *. assert (it0 = it) as -> by congruence.
    split; [intros; by rewrite lookup_insert_ne|].
    rewrite lookup_insert_eq. rewrite <-Hc in Hv.
    destruct v; [done|destruct Hv as (-> & -> & -> & ->)..]; exists it'; tauto.
Qed.

(** A delivered item. *)
Lemma item_effect_sent item it w w2 now w3 err w4 :
  TrimSpace (RQ_ID item) = RQ_ID item → same w w2 → time_Now w2 = (now, w3) →
  Store_MarkRetrySuccess (RQ_ID item) w2 = (err, w4) → item_effect Delivered item it w w4.
Proof using RL.
  intros Ht Hs Hnow E. pose proof (law_success (RQ_ID item) w2 Ht) as Hd. rewrite E in Hd.
  destruct Hd as [Hno Hd]. split; [rewrite Hno; destruct Hs as [_ ->]; simpl; lia|].
  exists w2, now, w3. split; [done|]. split; [done|]. destruct err as [err|].
  - left. rewrite Hd. split; [by destruct Hs|]. exists w2. split; [done|]. simpl. rewrite E. by eexists.
  - right. rewrite Hd. destruct Hs as [-> _]. split; [intros; by rewrite lookup_delete_ne|].
    apply lookup_delete_eq.
Qed.

(** C3: [processItem] returns and does with a queued item exactly what the
    verdict on it asks for: an item that Trakt accepts is removed; one that it
    refuses is queued again, with one attempt more, the answer as its last
    error and its next attempt after 30 seconds doubled for every earlier
    attempt, while it had fewer than four; with the fifth refusal it is a
    permanent failure and its owner is told, exactly once; an item whose member
    or payload cannot be read is given up at once without a word.  The item
    stays as it was only when the store refuses that very write, and no other
    item ever changes.  Conditions: a store that keeps [RetryStoreLaws], the
    item as the queue has it, with fewer than five attempts, a store that does
    not answer with neither member nor error, and a payload that is not null. *)
Theorem processItem_lifecycle (wk : Worker W) (item it : RetryQueueItem) (w : W) :
  w_notifier wk = Some nf → TrimSpace (RQ_ID item) = RQ_ID item →
  queue w !! RQ_ID item = Some it → RQ_AttemptCount it = RQ_AttemptCount item →
  0 ≤ RQ_AttemptCount item < 5 →
  (Store_GetGroupMember (RQ_GroupMemberID item) w).1 ≠ Ok None →
  (∀ why, unmarshal_body (RQ_Payload item) ≠ DPanic why) →
  ∃ w', processItem wk item w = Ret w' ∧ item_effect (verdict_on item w) item it w w'.
Proof using RL.
  intros Hnf Ht Hq Hc Ha Hm Hp. unfold processItem, verdict_on.
  pose proof (law_get (RQ_GroupMemberID item) w) as Hg.
  destruct (Store_GetGroupMember _ w) as [r w1]. simpl in Hm.
  assert (∀ why, ∃ w', (let '(now, w2) := time_Now w1 in
    let '(_, w3) := MarkFailure (RQ_ID item) WorkerMaxRetryAttempts now why true w2 in Ret w3) = Ret w' ∧
    item_effect (Unreadable why) item it w w') as Hgive.
  { intros why. destruct (time_Now w1) as [now w2] eqn:En.
    destruct (MarkFailure _ _ _ _ _ w2) as [err w3] eqn:E. exists w3. split; [done|].
    eapply item_effect_failure; [exact Ht|exact Hq|exact Hc|exact Hg|exact En| |exact E|done|simpl; lia].
    done. }
  destruct r as [[member|]|e]; [|done|by apply Hgive].
  destruct (unmarshal_body _) as [body| |why]; [|by apply Hgive|by edestruct Hp].
  pose proof (law_send "stop" (set_Body body emptyCacheItem) (GM_AccessToken member) w1) as Hs.
  destruct (ScrobbleFromQueue _ _ _ w1) as [[err|] w2]; cbn [fst]; cycle 1.
  { unfold MarkSuccess. destruct (Store_MarkRetrySuccess _ w2) as [err w3] eqn:E. exists w3.
    destruct (time_Now w2) as [now w2'] eqn:En.
    split; [done|]. eapply item_effect_sent; [exact Ht|by eapply same_trans|exact En|exact E]. }
  rewrite wrap64_small by (unfold int64_min, int64_max; lia). unfold WorkerMaxRetryAttempts.
  assert (same w w2) as Hsame by eauto using same_trans.
  destruct (time_Now w2) as [now w3] eqn:En. case_bool_decide as H4.
  - rewrite (proj2 (Z.leb_le _ _)) by lia. destruct (MarkFailure _ _ _ _ _ w3) as [merr w4] eqn:E. rewrite Hnf.
    pose proof (law_notify (RQ_FamilyGroupID item) (GM_ID member) (GM_TraktUsername member)
      (extractMediaTitle body) (Error err) w4) as Hno.
    destruct (NotifyPermanentFailure nf _ _ _ _ _ w4) as [nerr w5]. destruct Hno as [Hqo Hnn].
    exists w5. split; [done|]. eapply item_effect_failure; [exact Ht|exact Hq|exact Hc|exact Hsame|exact En| |exact E|done|simpl; lia].
    simpl. split_and!; try done. lia.
  - rewrite (proj2 (Z.leb_gt _ _)) by lia. destruct (MarkFailure _ _ _ _ _ w3) as [merr w4] eqn:E.
    exists w4. split; [done|]. 
    eapply item_effect_failure; [exact Ht|exact Hq|exact Hc|exact Hsame|exact En| |exact E|done|simpl; lia].
    simpl. split_and!; try done. unfold time_Add. f_equal. rewrite calculateBackoff_eq by lia.
    replace (RQ_AttemptCount item + 1 - 1) with (RQ_AttemptCount item) by lia.
    assert (2 ^ RQ_AttemptCount item ≤ 2 ^ 3) by (apply Z.pow_le_mono_r; lia).
    unfold Minute, Second in *. lia.
Qed.

(** Rounds of retries of one item: each round processes the item as the queue
    has it. *)
Fixpoint retry_rounds (wk : Worker W) (n : nat) (id : string) (w : W) : outcome W :=
  match n with
  | O => Ret w
  | S n =>
      match queue w !! id with
      | None => Ret w
      | Some it => w ← processItem wk it w; retry_rounds wk n id w
      end
  end.

(** An outage of Trakt: every scrobble fails, everything else works.  [I]
    describes the worlds met during the outage, [id] is the item and [mid] its
    member. *)
Definition outage (I : W → Prop) (id mid : string) : Prop :=
  (∀ w, I w → I (time_Now w).2) ∧
  (∀ w, I w → I (Store_GetGroupMember mid w).2 ∧ ∃ m, (Store_GetGroupMember mid w).1 = Ok (Some m)) ∧
  (∀ a c t w, I w → I (ScrobbleFromQueue a c t w).2 ∧ ∃ e, (ScrobbleFromQueue a c t w).1 = Some e) ∧
  (∀ g m u t e w, I w → I (NotifyPermanentFailure nf g m u t e w).2) ∧
  (∀ a t e p w, I w → is_Some (queue w !! id) →
     I (Store_MarkRetryFailure id a t e p w).2 ∧ (Store_MarkRetryFailure id a t e p w).1 = None).

Lemma MarkFailure_outage I mid id a t e p w it :
  outage I id mid → I w → TrimSpace id = id → queue w !! id = Some it →
  ∃ w' it', MarkFailure id a t e p w = (None, w') ∧ I w' ∧ notes w' = notes w ∧
    queue w' !! id = Some it' ∧ RQ_ID it' = RQ_ID it ∧ RQ_GroupMemberID it' = RQ_GroupMemberID it ∧
    RQ_Payload it' = RQ_Payload it ∧ RQ_AttemptCount it' = (if p then 5 else a) ∧
    RQ_Status it' = (if p then "permanent_failure" else "queued").
Proof using RL.
  intros (_ & _ & _ & _ & Hmark) HI Ht Hq.
  destruct (Hmark a t e p w HI ltac:(by rewrite Hq)) as [HI' Hm].
  pose proof (MarkFailure_law id a t e p w Ht) as Hl. unfold MarkFailure in *.
  destruct (Store_MarkRetryFailure id a t e p w) as [x w']. simpl in *. subst x. exists w'.
  destruct Hl as [Hn [[_ [? ?]]|(it0 & it' & _ & Hq0 & Hq4 & Hid & _ & Hg & Hp & Hc & Hst & _)]]; [done|].
  simplify_eq. exists it'. rewrite Hq4, lookup_insert_eq. by split_and!.
Qed.

Lemma processItem_outage I wk it w body :
  outage I (RQ_ID it) (RQ_GroupMemberID it) → I w → w_notifier wk = Some nf →
  TrimSpace (RQ_ID it) = RQ_ID it →
  queue w !! RQ_ID it = Some it → 0 ≤ RQ_AttemptCount it < 5 →
  unmarshal_body (RQ_Payload it) = DOk body →
  ∃ w' it', processItem wk it w = Ret w' ∧ I w' ∧ queue w' !! RQ_ID it = Some it' ∧
    RQ_ID it' = RQ_ID it ∧ RQ_GroupMemberID it' = RQ_GroupMemberID it ∧
    RQ_Payload it' = RQ_Payload it ∧ RQ_AttemptCount it' = RQ_AttemptCount it + 1 ∧
    (if decide (RQ_AttemptCount it = 4)
     then RQ_Status it' = "permanent_failure" ∧ notes w' = S (notes w)
     else RQ_Status it' = "queued" ∧ notes w' = notes w).
Proof using RL.
  intros Hout HI Hnf Ht Hq Ha Hb. pose proof Hout as (Hnow & Hmem & Hsend & Hnot & _).
  unfold processItem.
  pose proof (law_get (RQ_GroupMemberID it) w) as Hg. destruct (Hmem w HI) as [HI1 [m Hm]].
  destruct (Store_GetGroupMember _ w) as [r w1]. simpl in Hm, HI1. subst r. rewrite Hb.
  pose proof (law_send "stop" (set_Body body emptyCacheItem) (GM_AccessToken m) w1) as Hs.
  destruct (Hsend "stop" (set_Body body emptyCacheItem) (GM_AccessToken m) w1 HI1) as [HI2 [e He]].
  destruct (ScrobbleFromQueue _ _ _ w1) as [err w2]. simpl in He, HI2. subst err.
  rewrite wrap64_small by (unfold int64_min, int64_max; lia). unfold WorkerMaxRetryAttempts.
  pose proof (law_now w2) as Hn. specialize (Hnow w2 HI2).
  destruct (time_Now w2) as [now w3]. simpl in Hnow.
  assert (same w w3) as Hsame by eauto using same_trans.
  assert (queue w3 !! RQ_ID it = Some it) as Hq3 by by destruct Hsame as [-> _].
  destruct Hsame as [_ Hnotes].
  destruct (Z.leb_spec 5 (RQ_AttemptCount it + 1)) as [H5|Hlt];
    match goal with |- context [MarkFailure ?i ?a ?t ?e ?p w3] =>
      destruct (MarkFailure_outage I _ i a t e p w3 it Hout Hnow Ht Hq3)
        as (w4 & it' & -> & HI4 & Hn4 & Hq4 & ? & ? & ? & Hc & Hst) end.
  - rewrite Hnf. match goal with |- context [NotifyPermanentFailure nf ?g ?i ?u ?t ?e w4] =>
      pose proof (law_notify g i u t e w4) as Hno; pose proof (Hnot g i u t e w4 HI4) as HI5;
      destruct (NotifyPermanentFailure nf g i u t e w4) as [nerr w5] end.
    destruct Hno as [Hqo Hnn]. exists w5, it'. rewrite Hqo, decide_True by lia.
    rewrite Hnn, Hn4, Hnotes. split_and!; try done. lia.
  - exists w4, it'. rewrite decide_False by lia. rewrite Hn4, Hnotes. by split_and!.
Qed.

(** C4: during an outage of Trakt an item that has failed [a < 5] times is
    retried exactly [5 - a] more times; then it is a permanent failure with
    five attempts, and its owner has been notified exactly once. *)
Theorem outage_gives_up_after_five (I : W → Prop) (wk : Worker W) (n : nat) (it : RetryQueueItem)
    (w : W) (body : ScrobbleBody) :
  outage I (RQ_ID it) (RQ_GroupMemberID it) → I w → w_notifier wk = Some nf →
  TrimSpace (RQ_ID it) = RQ_ID it → queue w !! RQ_ID it = Some it →
  0 ≤ RQ_AttemptCount it → Z.of_nat (S n) = 5 - RQ_AttemptCount it →
  unmarshal_body (RQ_Payload it) = DOk body →
  ∃ w' it', retry_rounds wk (S n) (RQ_ID it) w = Ret w' ∧ queue w' !! RQ_ID it = Some it' ∧
    RQ_AttemptCount it' = 5 ∧ RQ_Status it' = "permanent_failure" ∧ notes w' = S (notes w).
Proof using RL.
  intros Hout HI Hnf. revert it w Hout HI.
  induction n as [|n IH]; intros it w Hout HI Ht Hq Ha Hn Hb;
    destruct (processItem_outage I wk it w body Hout HI Hnf Ht Hq ltac:(lia) Hb)
      as (w1 & it1 & Hp & HI1 & Hq1 & Hid & Hgm & Hpay & Hc & Hst);
    cbn [retry_rounds]; rewrite Hq, Hp; simpl.
  - rewrite decide_True in Hst by lia. exists w1, it1. split_and!; try done; [lia|tauto|tauto].
  - rewrite decide_False in Hst by lia. destruct Hst as [_ Hnotes].
    destruct (IH it1 w1) as (w' & it' & Hr & ? & ? & ? & Hn'); rewrite ?Hid, ?Hpay, ?Hgm in *; try done; try lia.
    exists w', it'. rewrite <-Hnotes. done.
Qed.
End WorkerProofs.

(** ** Backoff *)

(** For the attempts the worker can reach, and up to 29, the delay is
    [min(30s * 2^(attempt-1), 30min)] as documented, it is what
    [ScheduleNextAttempt] of the store uses for the same attempt, and it never
    decreases.  At attempt 30 the product overflows and the delay is negative:
    the bound 29 is the best one. *)
Lemma calculateBackoff_spec (attempt : Z) :
  1 ≤ attempt ≤ 29 →
  calculateBackoff attempt = Z.min (30 * Second * 2 ^ (attempt - 1)) (30 * Minute) ∧
  (attempt ≤ 5 → calculateBackoff attempt = nextRetryDelay (attempt - 1) (30 * Second)) ∧
  30 * Second ≤ calculateBackoff attempt ≤ 30 * Minute ∧
  (attempt < 29 → calculateBackoff attempt ≤ calculateBackoff (attempt + 1)) ∧
  (attempt = 29 → calculateBackoff (attempt + 1) < 0).
Proof.
  intros Ha. assert (1 ≤ 2 ^ (attempt - 1)) by (change 1 with (2 ^ 0); apply Z.pow_le_mono_r; lia).
  rewrite calculateBackoff_eq by done. split_and!; [done|..].
  - intros. rewrite nextRetryDelay_eq by (unfold Second; lia). done.
  - unfold Minute, Second in *. lia.
  - unfold Minute, Second in *. lia.
  - intros. rewrite calculateBackoff_eq by lia.
    assert (2 ^ (attempt - 1) ≤ 2 ^ (attempt + 1 - 1)) by (apply Z.pow_le_mono_r; lia).
    unfold Minute, Second in *. lia.
  - intros ->. by vm_compute.
Qed.

Lemma calculateBackoff_spec_witness :
  calculateBackoff 4 = 4 * Minute ∧ calculateBackoff 4 = nextRetryDelay 3 (30 * Second).
Proof.
  destruct (calculateBackoff_spec 4 ltac:(lia)) as (H1 & H2 & _). split.
  - rewrite H1. reflexivity.
  - apply H2. lia.
Defined.

(** ** PostgreSQL as the worker's store *)

(** The database, the number of calls made so far (each call has its own
    environment) and the permanent failures notified: [notify.Notifier] only
    logs them. *)
Record World := mkWorld {
  wd_db : Db;
  wd_calls : nat;
  wd_notes : list (string * string);
}.

Section PgWorld.
Context `{UnicodeTables, PG : PgServer, PL : !PgServerLaws PG}.
(** The environment of each call and the answers of Trakt. *)
Context (envs : nat → Env) (trakt : nat → string → CacheItem → string → option error).

Definition pg_call {A} (f : Env → Db → A * Db) (w : World) : A * World :=
  let '(a, db) := f (envs (wd_calls w)) (wd_db w) in
  (a, mkWorld db (S (wd_calls w)) (wd_notes w)).

#[local] Instance pg_retry_store : RetryStore World := {
  Store_GetGroupMember id := pg_call (λ env db,
    (match GetGroupMember env id db with Ok m => Ok (Some m) | Err e => Err e end, db));
  Store_EnqueueRetryItem item := pg_call (λ env db,
    let '(_, err, db) := EnqueueRetryItem env item db in (err, db));
  Store_ListDueRetryItems now limit := pg_call (λ env db, ListDueRetryItems env now limit db);
  Store_MarkRetrySuccess id := pg_call (λ env db, MarkRetrySuccess env id db);
  Store_MarkRetryFailure id a t e p := pg_call (λ env db, MarkRetryFailure env id a t e p db);
  time_Now := pg_call (λ env db, (clock env, db));
}.

#[local] Instance pg_trakt : TraktScrobbler World := {
  ScrobbleFromQueue action item token w :=
    (trakt (wd_calls w) action item token, mkWorld (wd_db w) (S (wd_calls w)) (wd_notes w));
}.

(** [notify.Notifier.NotifyPermanentFailure] *)
Definition log_notifier : Notifier World := mkNotifier (λ groupID memberID _ mediaTitle _ w,
  (None, mkWorld (wd_db w) (wd_calls w) ((memberID, mediaTitle) :: wd_notes w))).

Definition pg_queue (w : World) : gmap string RetryQueueItem :=
  map_imap (λ id r, Some (scanRetryRow (id, r))) (retry_queue_items (wd_db w)).
Definition pg_notes (w : World) : nat := List.length (wd_notes w).

Lemma pg_queue_lookup w id :
  pg_queue w !! id = (λ r, scanRetryRow (id, r)) <$> retry_queue_items (wd_db w) !! id.
Proof. unfold pg_queue. rewrite map_lookup_imap. by destruct (_ !! id). Qed.

(** [PostgresqlStore] keeps the promises the worker relies on, whatever
    statements fail, if the driver always reports the affected rows. *)
Lemma pg_retry_store_laws :
  (∀ i, fault (envs i) RowsAffected = None) →
  RetryStoreLaws World pg_queue pg_notes log_notifier timestamp.
Proof.
  intros Hra. split.
  - intros id w. done.
  - intros w. done.
  - intros a c t w. done.
  - intros g m u t e w. done.
  - intros id w Ht. simpl. unfold pg_call, MarkRetrySuccess. rewrite Ht.
    case_bool_decide as He; [done|]. unfold affected_or, statement, delete_retry_item.
    destruct (fault _ (Stmt 0)); [done|]. unfold exists_in.
    case_bool_decide as Hex; rewrite Hra; simpl; [|done]. split; [done|].
    apply map_eq. intros j. rewrite pg_queue_lookup. simpl.
    rewrite !lookup_delete. case_decide; [done|]. by rewrite pg_queue_lookup.
  - intros id a t e p w Ht. simpl. unfold pg_call, MarkRetryFailure. rewrite Ht.
    case_bool_decide as He; [done|]. unfold affected_or, statement, update_retry_failure.
    destruct (fault _ (Stmt 0)); [done|].
    destruct (retry_queue_items (wd_db w) !! id) as [r|] eqn:E; rewrite Hra; simpl; [|done].
    split; [done|]. eexists _, _. rewrite pg_queue_lookup, E. simpl. split; [done|].
    split.
    + apply map_eq. intros j. rewrite pg_queue_lookup. simpl. rewrite !lookup_insert.
      case_decide; [by subst|]. by rewrite pg_queue_lookup.
    + simpl. unfold MaxRetryAttempts. rewrite null_nullableString. by destruct p.
Qed.
End PgWorld.

(** ** Examples *)

#[local] Existing Instances ascii_tables memory_server tree_text.

(** A household whose item has failed three times, while Trakt answers 503. *)
Definition heat : ScrobbleBody :=
  mkBody 97 (Some (mkMovie (Some "Heat") (Some 1995) emptyIds)) None None.
Definition heat_item : RetryQueueItem :=
  mkRQ "r1" "fg" "gm" (json_print (ScrobbleBody_MarshalJSON heat)) 3 (1700000000 * Second) ""
    "queued" (1700000000 * Second) (1700000000 * Second).
Definition heat_world : World :=
  mkWorld (EnqueueRetryItem ok_env (Some heat_item) member_db).2 0 [].
Definition down (n : nat) (action : string) (item : CacheItem) (token : string) : option error :=
  Some (Errorf "503").
#[local] Instance store_ok : RetryStore World := pg_retry_store (λ _, ok_env).
#[local] Instance trakt_down : TraktScrobbler World := pg_trakt down.
#[local] Instance heat_laws : RetryStoreLaws World pg_queue pg_notes log_notifier timestamp :=
  pg_retry_store_laws (λ _, ok_env) down (λ _, eq_refl).
Definition heat_worker : Worker World := NewWorker (Some log_notifier) 0 0.

Lemma heat_outage :
  outage pg_queue log_notifier (λ w, is_Some (group_members (wd_db w) !! "gm")) "r1" "gm".
Proof.
  split_and!.
  - done.
  - intros w Hw. split; [done|]. simpl. unfold GetGroupMember.
    change (TrimSpace "gm") with "gm". rewrite (query_row_key (PL:=memory_server_laws)) by done. simpl. destruct Hw as [r ->]. by eexists.
  - intros a c t w Hw. split; [done|]. by eexists.
  - done.
  - intros a t e p w Hw [it Hq]. rewrite pg_queue_lookup in Hq.
    destruct (retry_queue_items (wd_db w) !! "r1") as [r|] eqn:E; [|done].
    simpl. unfold pg_call, MarkRetryFailure, affected_or, statement, update_retry_failure.
    change (TrimSpace "r1") with "r1". simpl. by rewrite E.
Defined.

Lemma outage_gives_up_after_five_witness :
  ∃ w' it', retry_rounds pg_queue heat_worker 2 "r1" heat_world = Ret w' ∧
    pg_queue w' !! "r1" = Some it' ∧ RQ_AttemptCount it' = 5 ∧
    RQ_Status it' = "permanent_failure" ∧ pg_notes w' = 1%nat.
Proof.
  apply (outage_gives_up_after_five pg_queue pg_notes log_notifier timestamp _ heat_worker 1 heat_item heat_world heat
           heat_outage); try (vm_compute; reflexivity).
  - vm_compute. by eexists.
  - vm_compute. discriminate.
Defined.

Lemma heat_verdict : verdict_on heat_item heat_world = TryAgain "503".
Proof. vm_compute. reflexivity. Qed.

Lemma processItem_lifecycle_witness :
  ∃ w', processItem heat_worker heat_item heat_world = Ret w' ∧
    item_effect pg_queue pg_notes timestamp (TryAgain "503") heat_item heat_item heat_world w'.
Proof.
  rewrite <-heat_verdict.
  apply (processItem_lifecycle pg_queue pg_notes log_notifier timestamp heat_worker heat_item heat_item heat_world);
    try (vm_compute; reflexivity).
  - split; [vm_compute; discriminate|vm_compute; reflexivity].
  - vm_compute. discriminate.
  - intros why. vm_compute. discriminate.
Defined.
