(* ===== verification/Health.v ===== *)
(** * The adaptive health checker: [lib/trakt/health.go]

    The state of [HealthChecker] with its buffered channel as a list of the
    values not yet received, the operations as functions of the clock readings
    they take (each call of [time.Now] and [time.Since] is a reading of its
    own), and the loop as steps.  [hist] records every value sent, received or
    not. *)

From S2P Require Import Prelude GoLib.

Open Scope Z_scope.

Definition ShortHealthCheckInterval : Duration := 5 * Minute.
Definition LongHealthCheckInterval : Duration := 60 * Minute.
Definition ExtendedOutageThreshold : Duration := 20 * Minute.

Record HealthCheckState := mkHealth {
  Mode : string;
  DowntimeSince : Time;
  NextCheckAt : Time;
  ConsecutiveFailures : Z;
  CheckInterval : Duration;
}.

Record HealthChecker := mkChecker {
  h_state : HealthCheckState;
  stateChan : list string;
  hist : list string;
}.

(** The capacity of [stateChan]. *)
Definition chanCapacity : nat := 10.

Definition NewHealthChecker : HealthChecker :=
  mkChecker (mkHealth "live" zeroTime zeroTime 0 ShortHealthCheckInterval) [] [].

(** [select { case h.stateChan <- v: default: }] *)
Definition emit (v : string) (h : HealthChecker) : HealthChecker :=
  if (List.length (stateChan h) <? chanCapacity)%nat
  then mkChecker (h_state h) (stateChan h ++ [v]) (hist h ++ [v])
  else h.

(** [calculateInterval] with the clock reading of [time.Since]. *)
Definition calculateInterval (st : HealthCheckState) (now : Time) : Duration :=
  if bool_decide (Mode st = "live") then ShortHealthCheckInterval else
  let elapsed := time_Sub now (DowntimeSince st) in
  if elapsed <? ExtendedOutageThreshold then ShortHealthCheckInterval
  else LongHealthCheckInterval.

Definition NextInterval (h : HealthChecker) (now : Time) : Duration :=
  calculateInterval (h_state h) now.

Definition RecordSuccess (now : Time) (h : HealthChecker) : HealthChecker :=
  let previousMode := Mode (h_state h) in
  let st := mkHealth "live" (DowntimeSince (h_state h))
              (time_Add now ShortHealthCheckInterval) 0 ShortHealthCheckInterval in
  let h := mkChecker st (stateChan h) (hist h) in
  if bool_decide (previousMode = "queue") then emit "live" h else h.

(** [now1]: start of the downtime; [now2]: elapsed time; [now3]: next check. *)
Definition RecordFailure (now1 now2 now3 : Time) (h : HealthChecker) : HealthChecker :=
  let st := h_state h in
  let h :=
    if bool_decide (Mode st = "live") then
      emit "queue" (mkChecker (mkHealth "queue" now1 (NextCheckAt st) 1 (CheckInterval st))
                     (stateChan h) (hist h))
    else
      mkChecker (mkHealth (Mode st) (DowntimeSince st) (NextCheckAt st)
                   (wrap64 (ConsecutiveFailures st + 1)) (CheckInterval st))
        (stateChan h) (hist h) in
  let st := h_state h in
  let interval := calculateInterval st now2 in
  mkChecker (mkHealth (Mode st) (DowntimeSince st) (time_Add now3 interval)
               (ConsecutiveFailures st) interval)
    (stateChan h) (hist h).

(** [CheckHealth]: [trakt] is the client, if any, reduced to the answer of its
    [HealthCheck] at this moment. *)
Definition CheckHealth (trakt : option (option error)) : bool :=
  match trakt with
  | None => false
  | Some (Some _) => false
  | Some None => true
  end.

Definition GetState (h : HealthChecker) : HealthCheckState := h_state h.

(** What happens to a running checker: a tick of the loop (one iteration of
    [runHealthCheckLoop]), or the consumer receiving a value. *)
Inductive health_event :=
| Tick (trakt : option (option error)) (now1 now2 now3 : Time)
| Receive.

Definition health_step (e : health_event) (h : HealthChecker) : HealthChecker :=
  match e with
  | Tick trakt now1 now2 now3 =>
      if CheckHealth trakt then RecordSuccess now1 h else RecordFailure now1 now2 now3 h
  | Receive => mkChecker (h_state h) (tail (stateChan h)) (hist h)
  end.

Definition run_health (es : list health_event) (h : HealthChecker) : HealthChecker :=
  foldl (λ h e, health_step e h) h es.

(** ** Invariant *)

(** The values sent alternate, starting with [v]. *)
Fixpoint alternating (v : string) (l : list string) : Prop :=
  match l with
  | [] => True
  | x :: l => x = v ∧ alternating (if bool_decide (v = "queue") then "live" else "queue") l
  end.

Record health_ok (h : HealthChecker) : Prop := {
  mode_ok : Mode (h_state h) = "live" ∨ Mode (h_state h) = "queue";
  interval_ok : CheckInterval (h_state h) = ShortHealthCheckInterval ∨
                CheckInterval (h_state h) = LongHealthCheckInterval;
  live_short : Mode (h_state h) = "live" →
    ConsecutiveFailures (h_state h) = 0 ∧ CheckInterval (h_state h) = ShortHealthCheckInterval;
  chan_ok : (List.length (stateChan h) ≤ chanCapacity)%nat ∧ stateChan h `suffix_of` hist h;
}.

(** Every value was sent: the channel was never full at a change of mode. *)
Definition lossless (h : HealthChecker) : Prop :=
  alternating "queue" (hist h) ∧
  Mode (h_state h) = default "live" (last (hist h)).

(** The channel has room whenever [e] may send. *)
Definition has_room (h : HealthChecker) : Prop := (List.length (stateChan h) < chanCapacity)%nat.

Fixpoint roomy (es : list health_event) (h : HealthChecker) : Prop :=
  match es with
  | [] => True
  | e :: es => has_room h ∧ roomy es (health_step e h)
  end.

(** ** Lemmas *)

Lemma calculateInterval_cases st now :
  calculateInterval st now = ShortHealthCheckInterval ∨
  calculateInterval st now = LongHealthCheckInterval.
Proof. unfold calculateInterval. repeat case_match; auto. Qed.

Lemma emit_state v h : h_state (emit v h) = h_state h.
Proof. unfold emit. by case_match. Qed.

Lemma emit_chan v h :
  (List.length (stateChan h) ≤ chanCapacity)%nat ∧ stateChan h `suffix_of` hist h →
  (List.length (stateChan (emit v h)) ≤ chanCapacity)%nat ∧ stateChan (emit v h) `suffix_of` hist (emit v h).
Proof.
  unfold emit. destruct (Nat.ltb_spec (List.length (stateChan h)) chanCapacity); simpl; [|done].
  intros [? [k Hk]]. rewrite length_app; simpl. split; [lia|]. exists k. by rewrite app_assoc, <-Hk.
Qed.

Lemma health_step_ok e h : health_ok h → health_ok (health_step e h).
Proof.
  intros [Hm Hi Hl Hc]. destruct e as [trakt n1 n2 n3|]; simpl.
  - destruct (CheckHealth trakt).
    + unfold RecordSuccess. case_bool_decide; split; rewrite ?emit_state; simpl; auto using emit_chan.
    + unfold RecordFailure. case_bool_decide as Hlive; split; simpl; rewrite ?emit_state; simpl;
        auto using calculateInterval_cases, emit_chan; try done.
  - split; simpl; auto. destruct Hc as [Hc Hs]. destruct (stateChan h) as [|v l]; simpl in *; [done|].
    split; [lia|]. etrans; [|exact Hs]. by apply suffix_cons_r.
Qed.

Lemma alternating_snoc v l x :
  alternating v l →
  x = (if bool_decide (default (if bool_decide (v = "queue") then "live" else "queue") (last l) = "queue")
       then "live" else "queue") →
  (v = "live" ∨ v = "queue") → alternating v (l ++ [x]).
Proof.
  revert v. induction l as [|y l IH]; intros v; simpl.
  - intros _ -> [->| ->]; done.
  - intros [-> Hl] Hx Hv. split; [done|]. apply IH; [done| |destruct Hv as [->| ->]; auto].
    rewrite Hx. destruct l as [|z l]; [destruct Hv as [->| ->]; done|].
    change (last (v :: z :: l)) with (last (z :: l)).
    destruct (last (z :: l)) eqn:E; [done|]. by apply last_None in E.
Qed.

Lemma emit_room v h : has_room h → emit v h = mkChecker (h_state h) (stateChan h ++ [v]) (hist h ++ [v]).
Proof. unfold emit, has_room. intros Hr. by rewrite (proj2 (Nat.ltb_lt _ _)). Qed.

Lemma health_step_lossless e h : health_ok h → has_room h → lossless h → lossless (health_step e h).
Proof.
  intros [Hm _ _ _] Hr [Ha Hl]. destruct e as [trakt n1 n2 n3|]; simpl; [|done].
  destruct (CheckHealth trakt).
  - unfold RecordSuccess. case_bool_decide as Hq.
    + rewrite emit_room by done. split; simpl; [|by rewrite last_snoc].
      apply alternating_snoc; auto. rewrite bool_decide_eq_true_2; [done|]. simpl. congruence.
    + split; [done|]. simpl. rewrite <-Hl. by destruct Hm.
  - unfold RecordFailure. case_bool_decide as Hq.
    + rewrite emit_room by done. split; simpl; [|by rewrite last_snoc].
      apply alternating_snoc; auto. rewrite bool_decide_eq_false_2; [done|]. simpl.
      rewrite <-Hl, Hq. done.
    + split; [done|]. simpl. done.
Qed.

Lemma NewHealthChecker_ok : health_ok NewHealthChecker.
Proof. split; simpl; auto. split; [unfold chanCapacity; lia|done]. Qed.

(** ** Properties *)

(** in every state a checker can reach, the mode is live or queue, the
    interval is 5 or 60 minutes, live mode means no counted failure and the
    short interval, and the channel holds at most ten values, which are the
    latest ones sent. *)
Lemma health_reachable_ok (es : list health_event) : health_ok (run_health es NewHealthChecker).
Proof.
  unfold run_health. generalize NewHealthChecker_ok. generalize NewHealthChecker.
  induction es as [|e es IH]; intros h Hh; simpl; [done|]. by apply IH, health_step_ok.
Qed.

(** C28: as long as the channel has room whenever the checker runs, the values it
    sends alternate between queue and live, starting with queue, and the last
    one is the current mode: a consumer that keeps up knows the mode. *)
Theorem health_emissions_faithful (es : list health_event) :
  roomy es NewHealthChecker → lossless (run_health es NewHealthChecker).
Proof.
  assert (lossless NewHealthChecker) as H0 by done. revert H0.
  unfold run_health. generalize NewHealthChecker_ok. generalize NewHealthChecker.
  induction es as [|e es IH]; intros h Hh Hl; simpl; [done|]. intros [Hr Hrs].
  apply IH; auto using health_step_ok, health_step_lossless.
Qed.

Lemma health_emissions_faithful_witness :
  hist (run_health [Tick None 0 0 0; Receive; Tick (Some None) 9 9 9; Receive] NewHealthChecker) =
    ["queue"; "live"] ∧
  lossless (run_health [Tick None 0 0 0; Receive; Tick (Some None) 9 9 9; Receive] NewHealthChecker).
Proof.
  split; [reflexivity|]. apply (health_emissions_faithful
    [Tick None 0 0 0; Receive; Tick (Some None) 9 9 9; Receive]).
  vm_compute. repeat split; lia.
Defined.

(** in queue mode the next interval is 5 minutes until the outage has
    lasted 20 minutes and 60 minutes from then on; one success brings live
    mode and 5 minutes back. *)
Lemma adaptive_interval (h : HealthChecker) (now1 now2 now3 : Time) :
  Mode (h_state h) = "queue" →
  let since := DowntimeSince (h_state h) in
  CheckInterval (h_state (RecordFailure now1 now2 now3 h)) =
    (if decide (now2 - since < 20 * Minute) then 5 * Minute else 60 * Minute) ∧
  DowntimeSince (h_state (RecordFailure now1 now2 now3 h)) = since ∧
  NextCheckAt (h_state (RecordFailure now1 now2 now3 h)) =
    now3 + CheckInterval (h_state (RecordFailure now1 now2 now3 h)) ∧
  h_state (RecordSuccess now1 h) =
    mkHealth "live" since (now1 + 5 * Minute) 0 (5 * Minute) ∧
  ∀ now, NextInterval (RecordSuccess now1 h) now = 5 * Minute.
Proof.
  intros Hm since. unfold RecordFailure, RecordSuccess, NextInterval. rewrite Hm. simpl.
  rewrite emit_state. simpl. split_and!; try done.
  unfold calculateInterval. simpl. fold since.
  pose proof (time_Sub_lt now2 since (20 * Minute)) as Hlt.
  assert (int64_min < 20 * Minute ≤ int64_max) as Hr by by vm_compute.
  specialize (Hlt Hr). unfold ExtendedOutageThreshold.
  case_match eqn:E; rewrite ?Z.ltb_lt, ?Z.ltb_ge in E; case_decide; try done; exfalso; tauto || (apply Hlt in H; lia).
Qed.

Lemma adaptive_interval_witness :
  CheckInterval (h_state (RecordFailure 0 (20 * Minute) (20 * Minute)
    (RecordFailure 0 0 0 NewHealthChecker))) = 60 * Minute.
Proof.
  pose proof (proj1 (adaptive_interval (RecordFailure 0 0 0 NewHealthChecker) 0 (20 * Minute)
    (20 * Minute) eq_refl)) as H. rewrite H. reflexivity.
Defined.
