(* ===== verification/Trakt.v ===== *)
(** * The Trakt client: [lib/trakt/main.go], [structs.go] and the webhook
      structures of [plexhooks/structs.go] it reads

    What the client does is split in two: the decision taken from a webhook
    and the cached state ([getAction], [handleShow], [handleMovie],
    [ParseWebhookForScrobble], the first half of [Handle]), and the requests
    with their outcome.  The HTTP client, the storage and the clock act on a
    world [W] through the classes [Http] and [ScrobbleStore]; [net/url] is the
    class [UrlText]. *)

From S2P Require Import Prelude GoLib Float Json Instances Common Entities Buffers.

Open Scope Z_scope.

(** ** Webhooks: the fields of the payload that the program reads *)

Record ExternalGUID := mkGuid { GUID_ID : string }.

Record Metadata := mkMetadata {
  LibrarySectionType : string;
  MD_RatingKey : string;
  ExternalGUIDs : list ExternalGUID;
  GUID : string;
  MD_Type : string;
  MD_Title : string;
  GrandparentTitle : string;
  MD_Index : Z;
  ParentIndex : Z;
  ViewOffset : Z;
  MD_Year : Z;
  MD_Duration : Z;
}.

Record Account := mkAccount { Account_ID : Z; Account_Title : string }.
Record Server := mkServer { Server_Title : string; Server_UUID : string }.
Record Player := mkPlayer { Player_Title : string; Player_UUID : string }.

Record Webhook := mkWebhook {
  Hook_Event : string;
  Hook_User : bool;
  Hook_Owner : bool;
  Hook_Account : Account;
  Hook_Metadata : Metadata;
  Hook_Server : Server;
  Hook_Player : Player;
}.

(** ** Constants *)

Definition TheTVDBService := "tvdb".
Definition TheMovieDbService := "tmdb".
Definition IMDBService := "imdb".
Definition ProgressThreshold : Z := 90.
Definition actionStart := "start".
Definition actionPause := "pause".
Definition actionStop := "stop".

(** ** What the client uses *)

(** [url.Parse]: the scheme and the host, or an error. *)
Class UrlText := { url_Parse : string → result (string * string) }.

Record request := mkRequest {
  req_method : string;
  req_url : string;
  req_headers : list (string * string);
  req_body : string;
}.
Record response := mkResponse {
  StatusCode : Z;
  resp_Status : string;
  (** the body as far as it arrives, and the error that cut it short *)
  resp_body : string;
  resp_read_err : option error;
}.

(** [httpClient.Do] *)
Class Http (W : Type) := { Do : request → W → result response * W }.

(** The methods of [store.Store] the client calls, the monitoring log and the
    clock.  Writing the cache may panic. *)
Class ScrobbleStore (W : Type) := {
  Store_GetScrobbleBody : string → string → W → CacheItem * W;
  Store_WriteScrobbleBody : CacheItem → W → outcome W;
  Store_EnqueueScrobble : QueuedScrobbleEvent → W → option error * W;
  Store_GetQueueSize : string → W → result Z * W;
  queueEventLog_Append : QueueLogEvent → W → outcome W;
  store_Now : W → Time * W;
}.

Record Trakt := mkTrakt {
  ClientId : string;
  clientSecret : string;
  has_queueEventLog : bool;
}.

Definition New (clientId clientSecret : string) : Trakt := mkTrakt clientId clientSecret false.
Definition SetQueueEventLog (t : Trakt) : Trakt := mkTrakt (ClientId t) (clientSecret t) true.

(** ** Errors of a broadcast *)

Record BroadcastError := mkBroadcastError {
  BE_Member : GroupMember;
  BE_Err : error;
  BE_HTTPStatus : Z;
  BE_EventID : string;
  BE_MediaTitle : string;
}.

Definition BroadcastError_Error (b : BroadcastError) : string :=
  if 0 <? BE_HTTPStatus b
  then "member " +:+ GM_TraktUsername (BE_Member b) +:+ " (HTTP " +:+ Itoa (BE_HTTPStatus b) +:+ "): " +:+
       Error (BE_Err b)
  else "member " +:+ GM_TraktUsername (BE_Member b) +:+ ": " +:+ Error (BE_Err b).

Definition StatusOK : Z := 200.
Definition StatusCreated : Z := 201.
Definition StatusTooManyRequests : Z := 429.
Definition StatusBadGateway : Z := 502.
Definition StatusServiceUnavailable : Z := 503.
Definition StatusGatewayTimeout : Z := 504.

Definition IsRetryable (b : BroadcastError) : bool :=
  (BE_HTTPStatus b =? 0) || (BE_HTTPStatus b =? StatusTooManyRequests) ||
  (BE_HTTPStatus b =? StatusServiceUnavailable) || (BE_HTTPStatus b =? StatusBadGateway) ||
  (BE_HTTPStatus b =? StatusGatewayTimeout).

(** The status codes that mean "try again later" in [scrobbleRequest],
    [ScrobbleFromQueue] and [BroadcastScrobble]. *)
Definition transientStatus (code : Z) : bool :=
  (code =? StatusServiceUnavailable) || (code =? StatusBadGateway) ||
  (code =? StatusGatewayTimeout) || (code =? StatusTooManyRequests).
Definition successStatus (code : Z) : bool := (code =? StatusOK) || (code =? StatusCreated).

(** ** Identifying the media *)

(** One external id of a webhook, filled into [ids]; the flag says whether it
    was usable.  [guid.ID[:4]] names the service, [guid.ID[7:]] the id. *)
Definition add_guid (acc : Ids * bool) (guid : ExternalGUID) : Ids * bool :=
  let '(ids, isValid) := acc in
  let id := GUID_ID guid in
  if len id <? 8 then (ids, isValid) else
  let service := slice_to 4 id in
  let rest := slice_from 7 id in
  if bool_decide (service = TheMovieDbService) then
    match Atoi rest with
    | None => (ids, isValid)
    | Some n => (mkIds (Ids_Trakt ids) (Ids_Tvdb ids) (Ids_Imdb ids) (Some n) (Ids_Slug ids), true)
    end
  else if bool_decide (service = TheTVDBService) then
    match Atoi rest with
    | None => (ids, isValid)
    | Some n => (mkIds (Ids_Trakt ids) (Some n) (Ids_Imdb ids) (Ids_Tmdb ids) (Ids_Slug ids), true)
    end
  else if bool_decide (service = IMDBService) then
    (mkIds (Ids_Trakt ids) (Ids_Tvdb ids) (Some rest) (Ids_Tmdb ids) (Ids_Slug ids), true)
  else (ids, isValid).

(** [episodeRegex]: the leftmost [digits/digits/digits].  A digit group is the
    whole run of digits, since it must be followed by a slash. *)
Definition match_here (l : list ascii) : option (string * string * string) :=
  let '(a, l) := span_digits l in
  match a, l with
  | _ :: _, "/"%char :: l =>
      let '(b, l) := span_digits l in
      match b, l with
      | _ :: _, "/"%char :: l =>
          let '(c, _) := span_digits l in
          match c with
          | _ :: _ => Some (of_bytes a, of_bytes b, of_bytes c)
          | [] => None
          end
      | _, _ => None
      end
  | _, _ => None
  end.
Fixpoint episodeRegex (l : list ascii) : option (string * string * string) :=
  match match_here l with
  | Some m => Some m
  | None => match l with [] => None | _ :: l => episodeRegex l end
  end.

(** [n, _ := strconv.Atoi(s)] on a run of digits: the largest [int] when the
    value does not fit. *)
Definition Atoi_clamped (s : string) : Z := default int64_max (Atoi s).

Section Media.
Context `{UrlText}.

Definition findEpisode (md : Metadata) : option ScrobbleBody :=
  match url_Parse (GUID md) with
  | Err _ => None
  | Ok (scheme, host) =>
      let srv :=
        if HasSuffix scheme "tvdb" then TheTVDBService
        else if HasSuffix scheme "themoviedb" then TheMovieDbService
        else if HasSuffix scheme "hama" then
          if HasPrefix host "tvdb-" || HasPrefix host "tvdb2-" then TheTVDBService else ""
        else "" in
      if bool_decide (srv = "") then None else
      match episodeRegex (bytes (GUID md)) with
      | None => None
      | Some (show_id, season, number) =>
          let id := Atoi_clamped show_id in
          let ids := if bool_decide (srv = TheTVDBService)
                     then mkIds None (Some id) None None None
                     else mkIds None None None (Some id) None in
          Some (mkBody 0 None (Some (mkShow None None ids))
                  (Some (mkEpisode (Some (Atoi_clamped season)) (Some (Atoi_clamped number)) None None)))
      end
  end.

Definition findMovie (md : Metadata) : option ScrobbleBody :=
  if bool_decide (MD_Title md = "") || (MD_Year md =? 0) then None else
  Some (mkBody 0 (Some (mkMovie (Some (MD_Title md)) (Some (MD_Year md)) emptyIds)) None None).

Definition handleShow (md : Metadata) : option ScrobbleBody :=
  let '(ids, isValid) := foldl add_guid (emptyIds, false) (ExternalGUIDs md) in
  if isValid then Some (mkBody 0 None None (Some (mkEpisode None None None (Some ids))))
  else findEpisode md.

Definition handleMovie (md : Metadata) : option ScrobbleBody :=
  let '(ids, isValid) := foldl add_guid (emptyIds, false) (ExternalGUIDs md) in
  if isValid then Some (mkBody 0 (Some (mkMovie None None ids)) None None)
  else findMovie md.
End Media.

(** [int(math.Round(float64(offset) / float64(duration) * 100.0))] *)
Definition progress_of (viewOffset duration : Z) : Z :=
  round_to_int (fmul (fdiv (float_of_int viewOffset) (float_of_int duration)) (float_of_int 100)).

(** The action of an event, "" for one that is ignored, and the progress to
    report. *)
Definition action_of (event : string) (progress : Z) : string * Z :=
  if bool_decide (event ∈ ["media.play"; "media.resume"; "playback.started"]) then (actionStart, progress)
  else if bool_decide (event ∈ ["media.pause"; "media.stop"]) then
    (if ProgressThreshold <=? progress then actionStop else actionPause, progress)
  else if bool_decide (event = "media.scrobble") then
    (actionStop, if progress <? ProgressThreshold then ProgressThreshold else progress)
  else ("", progress).

Definition set_cache (player server key trigger : string) (b : ScrobbleBody) (c : CacheItem) : CacheItem :=
  mkCacheItem player server key trigger b (LastAction c).

Section Client.
Context {W : Type} `{UnicodeTables, JsonText, UrlText, Http W, ScrobbleStore W}.

Definition getAction (hook : Webhook) (w : W) : string * CacheItem * Z * W :=
  let md := Hook_Metadata hook in
  let '(item, w) := Store_GetScrobbleBody (Player_UUID (Hook_Player hook)) (MD_RatingKey md) w in
  let progress := if 0 <? MD_Duration md then progress_of (ViewOffset md) (MD_Duration md)
                  else Progress (Body item) in
  let '(action, progress) := action_of (Hook_Event hook) progress in
  (action, item, progress, w).

(** ** Requests *)

Definition api_headers (t : Trakt) (accessToken : string) : list (string * string) :=
  [("Content-Type", "application/json"); ("Authorization", "Bearer " +:+ accessToken);
   ("trakt-api-version", "2"); ("trakt-api-key", ClientId t)].

(** [http.NewRequest]: fails on a URL that does not parse. *)
Definition NewRequest (req : request) : result request :=
  match url_Parse (req_url req) with Err e => Err e | Ok _ => Ok req end.

Definition scrobble_post (t : Trakt) (action : string) (body : ScrobbleBody) (accessToken : string)
    : result request :=
  NewRequest (mkRequest "POST" ("https://api.trakt.tv/scrobble/" +:+ action) (api_headers t accessToken)
    (json_print (ScrobbleBody_MarshalJSON body))).

(** [json.NewDecoder(resp.Body).Decode(&body)] into an existing body. *)
Definition decode_body (resp : response) (b : ScrobbleBody) : dres ScrobbleBody :=
  j ← dres_of_option (json_parse_first (resp_body resp)); ScrobbleBody_UnmarshalJSON j b.

Definition enqueueScrobbleEvent (t : Trakt) (user : User) (item : CacheItem) (action : string) (w : W)
    : outcome W :=
  let event := mkEvent "" (U_ID user) (Body item) action (Progress (Body item)) zeroTime 0 zeroTime
                 (PlayerUuid item) (RatingKey item) in
  let '(err, w) := Store_EnqueueScrobble event w in
  match err with
  | Some _ => Ret w
  | None =>
      if has_queueEventLog t then
        let '(r, w) := Store_GetQueueSize (U_ID user) w in
        let queueSize := match r with Ok n => n | Err _ => 0 end in
        let '(now, w) := store_Now w in
        queueEventLog_Append (mkLogEvent now "queue_enqueue" (U_ID user) (U_Username user) (E_ID event)
                                queueSize 0 "" "") w
      else Ret w
  end.

Definition scrobbleRequest (t : Trakt) (action : string) (item : CacheItem) (user : User) (w : W)
    : outcome W :=
  match scrobble_post t action (Body item) (U_AccessToken user) with
  | Err _ => Ret w
  | Ok req =>
      match Do req w with
      | (Err _, w) => enqueueScrobbleEvent t user item action w
      | (Ok resp, w) =>
          if transientStatus (StatusCode resp) then enqueueScrobbleEvent t user item action w
          else if successStatus (StatusCode resp) then
            match decode_body resp (Body item) with
            | DPanic why => Panic why
            | DErr => Ret w
            | DOk body => Store_WriteScrobbleBody (set_Body body (set_LastAction action item)) w
            end
          else Ret w
      end
  end.

(** [ScrobbleFromQueue]: the result is the error, if any. *)
Definition ScrobbleFromQueue (t : Trakt) (action : string) (item : CacheItem) (accessToken : string) (w : W)
    : outcome (option error * W) :=
  match scrobble_post t action (Body item) accessToken with
  | Err err => Ret (Some (Wrapf "failed to build scrobble request: " err ""), w)
  | Ok req =>
      match Do req w with
      | (Err err, w) => Ret (Some (Wrapf "scrobble http error: " err ""), w)
      | (Ok resp, w) =>
          let status := Itoa (StatusCode resp) in
          if transientStatus (StatusCode resp)
          then Ret (Some (Errorf ("transient error: status " +:+ status)), w)
          else if successStatus (StatusCode resp) then
            match decode_body resp (Body item) with
            | DPanic why => Panic why
            | DErr => Ret (None, w)
            | DOk body =>
                w ← Store_WriteScrobbleBody (set_LastAction action (set_Body body item)) w;
                Ret (None, w)
            end
          else Ret (Some (Errorf ("scrobble failed with status " +:+ status)), w)
      end
  end.

Definition HealthCheck (t : Trakt) (w : W) : option error * W :=
  match NewRequest (mkRequest "GET" "https://api.trakt.tv/"
          [("trakt-api-version", "2"); ("trakt-api-key", ClientId t)] "") with
  | Err err => (Some (Wrapf "failed to create health check request: " err ""), w)
  | Ok req =>
      match Do req w with
      | (Err err, w) => (Some (Wrapf "health check request failed: " err ""), w)
      | (Ok resp, w) =>
          if (200 <=? StatusCode resp) && (StatusCode resp <? 400) then (None, w)
          else (Some (Errorf ("trakt API returned status " +:+ Itoa (StatusCode resp))), w)
      end
  end.

(** ** Webhooks *)

(** The media of a hook whose item changed: [None] when nothing is sent. *)
Definition media_of (md : Metadata) : option ScrobbleBody :=
  if bool_decide (LibrarySectionType md = "show") then handleShow md
  else if bool_decide (LibrarySectionType md = "movie") then handleMovie md
  else None.

(** [Handle] without its lock: the lock of the key
    [player:ratingKey] is taken before and released after. *)
Definition Handle (t : Trakt) (hook : option Webhook) (user : User) (w : W) : outcome W :=
  match hook with
  | None => Ret w
  | Some hook =>
      let md := Hook_Metadata hook in
      if bool_decide (Player_UUID (Hook_Player hook) = "") || bool_decide (MD_RatingKey md = "")
      then Ret w else
      let '(event, cache, progress, w) := getAction hook w in
      let send (body : ScrobbleBody) :=
        let item := set_cache (Player_UUID (Hook_Player hook)) (Server_UUID (Hook_Server hook))
                      (MD_RatingKey md) (Hook_Event hook) (set_Progress progress body) cache in
        scrobbleRequest t event item user w in
      if bool_decide (event = "") then Ret w
      else if bool_decide (ServerUuid cache = Server_UUID (Hook_Server hook)) then
        if bool_decide (LastAction cache = actionStop) ||
           bool_decide (LastAction cache = event) && (progress =? Progress (Body cache))
        then Ret w
        else send (Body cache)
      else
        match media_of md with
        | None => Ret w
        | Some body => send body
        end
  end.

Definition ParseWebhookForScrobble (hook : option Webhook) (w : W)
    : (ScrobbleBody * string * bool) * W :=
  let no := (emptyBody, "", false) in
  match hook with
  | None => (no, w)
  | Some hook =>
      let md := Hook_Metadata hook in
      if bool_decide (Player_UUID (Hook_Player hook) = "") || bool_decide (MD_RatingKey md = "")
      then (no, w) else
      let '(action, cache, progress, w) := getAction hook w in
      if bool_decide (action = "") then (no, w) else
      if bool_decide (ServerUuid cache = Server_UUID (Hook_Server hook)) then
        if bool_decide (LastAction cache = actionStop) ||
           bool_decide (LastAction cache = action) && (progress =? Progress (Body cache))
        then (no, w)
        else ((set_Progress progress (Body cache), action, true), w)
      else
        match media_of md with
        | None => (no, w)
        | Some body => ((set_Progress progress body, action, true), w)
        end
  end.

(** ** Broadcast *)

(** The goroutine of one member: the error and the status it reports. *)
Definition send_to (t : Trakt) (action : string) (body : ScrobbleBody) (m : GroupMember)
    (answer : request → result response) : option error * Z :=
  match scrobble_post t action body (GM_AccessToken m) with
  | Err err => (Some (Wrapf "build request: " err ""), 0)
  | Ok req =>
      match answer req with
      | Err err => (Some (Wrapf "http error: " err ""), 0)
      | Ok resp =>
          let code := StatusCode resp in
          if transientStatus code
          then (Some (Errorf ("transient error: HTTP " +:+ Itoa code)), code)
          else if successStatus code then (None, code)
          else (Some (Errorf ("HTTP " +:+ Itoa code +:+ ": " +:+ TrimSpace (resp_body resp))), code)
      end
  end.

(** [BroadcastScrobble]: one goroutine per member, each with its own request;
    [arrival] is the order in which their results reach the channel, and
    [answer m] what Trakt answers member [m]'s request. *)
Definition BroadcastScrobble (t : Trakt) (action : string) (body : ScrobbleBody)
    (members arrival : list GroupMember) (eventID mediaTitle : string)
    (answer : GroupMember → request → result response) : list BroadcastError :=
  match members with
  | [] => []
  | _ =>
      omap (λ m, match send_to t action body m (answer m) with
                 | (None, _) => None
                 | (Some err, status) => Some (mkBroadcastError m err status eventID mediaTitle)
                 end) arrival
  end.

(** ** Accounts *)

Record userSettings := mkSettings { US_Name : string; US_Display : string; US_Username : string }.
Definition dec_settings : decoder userSettings := dec_struct (find_field
  [("name", dec_at US_Name (λ v s, mkSettings v (US_Display s) (US_Username s)) dec_string);
   ("display", dec_at US_Display (λ v s, mkSettings (US_Name s) v (US_Username s)) dec_string);
   ("username", dec_at US_Username (λ v s, mkSettings (US_Name s) (US_Display s) v) dec_string)]).
Definition userSettingsResponse : decoder userSettings := dec_struct (find_field
  [("user", dec_settings)]).

(** The text of a JSON decoder's error is not modelled. *)
Definition json_error : error := Errorf "json".

Definition FetchDisplayName (t : Trakt) (accessToken : string) (w : W)
    : result (string * bool) * W :=
  if bool_decide (TrimSpace accessToken = "")
  then (Err (Errorf "missing access token for display name lookup"), w) else
  match NewRequest (mkRequest "GET" "https://api.trakt.tv/users/settings" (api_headers t accessToken) "") with
  | Err err => (Err err, w)
  | Ok req =>
      match Do req w with
      | (Err err, w) => (Err err, w)
      | (Ok resp, w) =>
          if negb (StatusCode resp =? StatusOK) then
            let summary := TrimSpace (resp_body resp) in
            let summary := if bool_decide (summary = "") then resp_Status resp else summary in
            (Err (Errorf ("trakt users/settings http " +:+ Itoa (StatusCode resp) +:+ ": " +:+ summary)), w)
          else
            match j ← dres_of_option (json_parse_first (resp_body resp));
                  userSettingsResponse j (mkSettings "" "" "") with
            | DOk u =>
                let name := TrimSpace (US_Name u) in
                let name := if bool_decide (name = "") then TrimSpace (US_Display u) else name in
                let name := if bool_decide (name = "") then TrimSpace (US_Username u) else name in
                (Ok (NormalizeDisplayName name), w)
            | _ => (Err json_error, w)
            end
      end
  end.

(** A JSON object as a [map[string]interface{}]: the last of equal keys wins. *)
Definition json_map (j : json) : option (gmap string json) :=
  match j with
  | JObj fs => Some (list_to_map (rev fs))
  | JNull => Some ∅
  | _ => None
  end.

(** Decoding into a [[]map[string]interface{}]. *)
Definition json_maps (j : json) : option (list (gmap string json)) :=
  match j with
  | JArr l => mapM json_map l
  | JNull => Some []
  | _ => None
  end.

(** [makeRequest]: an unauthenticated GET. *)
Definition makeRequest (t : Trakt) (url : string) (w : W) : result (list (gmap string json)) * W :=
  match NewRequest (mkRequest "GET" url
          [("Content-Type", "application/json"); ("trakt-api-version", "2"); ("trakt-api-key", ClientId t)] "") with
  | Err err => (Err err, w)
  | Ok req =>
      match Do req w with
      | (Err err, w) => (Err err, w)
      | (Ok resp, w) =>
          if negb (StatusCode resp =? StatusOK)
          then (Err (Errorf ("trakt GET " +:+ url +:+ ": " +:+ TrimSpace (resp_body resp))), w)
          else
            match j ← json_parse_first (resp_body resp); json_maps j with
            | Some results => (Ok results, w)
            | None => (Err json_error, w)
            end
      end
  end.

Definition json_str (m : gmap string json) (key dflt : string) : string :=
  match m !! key with Some (JStr s) => s | _ => dflt end.

Definition AuthRequest (t : Trakt) (redirectURI username code refreshToken grantType : string) (w : W)
    : (gmap string json * bool) * W :=
  let jsonValue := json_print (JObj
    [("client_id", JStr (ClientId t)); ("client_secret", JStr (clientSecret t)); ("code", JStr code);
     ("grant_type", JStr grantType); ("redirect_uri", JStr redirectURI);
     ("refresh_token", JStr refreshToken)]) in
  let failed kind desc : gmap string json := {["error" := JStr kind; "error_description" := JStr desc]} in
  let req := mkRequest "POST" "https://api.trakt.tv/oauth/token" [("Content-Type", "application/json")]
               jsonValue in
  match Do req w with
  | (Err err, w) => ((failed "http_error" (Error err), false), w)
  | (Ok resp, w) =>
      if negb (StatusCode resp =? StatusOK) then
        let readable := match resp_read_err resp with None => true | Some _ => false end in
        let '(detail, desc) :=
          if readable && (0 <? len (resp_body resp)) then
            match j ← json_parse (resp_body resp); json_map j with
            | Some m => (json_str m "error" "Unknown error", json_str m "error_description" "")
            | None => (resp_body resp, "")
            end
          else ("Unknown error", "") in
        (({["http_status" := JNum (Itoa (StatusCode resp)); "http_status_text" := JStr (resp_Status resp);
            "error" := JStr detail; "error_description" := JStr desc]}, false), w)
      else
        match j ← json_parse_first (resp_body resp); json_map j with
        | Some m => ((m, true), w)
        | None => ((failed "decode_error" (Error json_error), false), w)
        end
  end.
End Client.

(** ** Properties *)

Lemma transientStatus_spec code : transientStatus code = bool_decide (code ∈ [429; 502; 503; 504]).
Proof.
  apply eq_bool_prop_intro. rewrite bool_decide_spec, !elem_of_cons, elem_of_nil.
  unfold transientStatus, StatusServiceUnavailable, StatusBadGateway, StatusGatewayTimeout,
    StatusTooManyRequests.
  rewrite !orb_True, !Is_true_true, !Z.eqb_eq. tauto.
Qed.

Lemma successStatus_spec code : successStatus code = bool_decide (code ∈ [200; 201]).
Proof.
  apply eq_bool_prop_intro. rewrite bool_decide_spec, !elem_of_cons, elem_of_nil.
  unfold successStatus, StatusOK, StatusCreated. rewrite !orb_True, !Is_true_true, !Z.eqb_eq. tauto.
Qed.

Section ClientProofs.
Context {W : Type} `{UnicodeTables, JsonText, UrlText, Http W, ScrobbleStore W}.

(** C13: the single-user path and the family path take the same decision:
    [Handle] sends a scrobble exactly when [ParseWebhookForScrobble] says so,
    with the action and the body it returns, and otherwise does nothing but
    read the cache. *)
Theorem Handle_agrees_with_Parse (t : Trakt) (hook : option Webhook) (user : User) (w : W) :
  let '(body, action, ok, w') := ParseWebhookForScrobble hook w in
  if ok then ∃ item, Handle t hook user w = scrobbleRequest t action item user w' ∧ Body item = body ∧
    ∃ h, hook = Some h ∧ PlayerUuid item = Player_UUID (Hook_Player h) ∧
         RatingKey item = MD_RatingKey (Hook_Metadata h) ∧ ServerUuid item = Server_UUID (Hook_Server h) ∧
         PlayerUuid item ≠ "" ∧ RatingKey item ≠ "" ∧ action ≠ ""
  else Handle t hook user w = Ret w'.
Proof.
  unfold Handle, ParseWebhookForScrobble. destruct hook as [h|]; [|done].
  case_bool_decide as Hp; [done|]. case_bool_decide as Hk; [done|]. simpl.
  destruct (getAction h w) as [[[action cache] progress] w1].
  case_bool_decide as Ha; [done|]. case_bool_decide as Hs.
  - destruct (_ || _); [done|]. eexists; split; [done|]. split; [done|]. exists h. by split_and!.
  - destruct (media_of _) as [body|]; [|done].
    eexists; split; [done|]. split; [done|]. exists h. by split_and!.
Qed.

(** What a scrobble that Trakt does not take leaves behind: the store is asked
    once to queue the event with the user, action, body, progress, player and
    item of the scrobble; when it agrees and there is a monitoring log, one
    entry for the user is added to it. *)
Definition queued_for_later (t : Trakt) (action : string) (item : CacheItem) (user : User) (w : W)
    (result : outcome W) : Prop :=
  let '(err, w1) := Store_EnqueueScrobble
    (mkEvent "" (U_ID user) (Body item) action (Progress (Body item)) zeroTime 0 zeroTime
       (PlayerUuid item) (RatingKey item)) w in
  match err with
  | Some _ => result = Ret w1
  | None =>
      if has_queueEventLog t then
        ∃ size now w2 w3, Store_GetQueueSize (U_ID user) w1 = (size, w2) ∧ store_Now w2 = (now, w3) ∧
          result = queueEventLog_Append (mkLogEvent now "queue_enqueue" (U_ID user) (U_Username user) ""
            (match size with Ok n => n | Err _ => 0 end) 0 "" "") w3
      else result = Ret w1
  end.

Lemma enqueueScrobbleEvent_queues t user item action w :
  queued_for_later t action item user w (enqueueScrobbleEvent t user item action w).
Proof.
  unfold queued_for_later, enqueueScrobbleEvent. destruct (Store_EnqueueScrobble _ w) as [[err|] w1]; [done|].
  cbn [E_ID]. destruct (has_queueEventLog t); [|done].
  destruct (Store_GetQueueSize _ w1) as [size w2] eqn:Es. destruct (store_Now w2) as [now w3] eqn:En.
  by exists size, now, w2, w3.
Qed.

(** C14: [scrobbleRequest] sends one request, a POST to the address of the
    action with the body of the scrobble and the token of the user.  No answer
    or one of 429, 502, 503, 504 makes it ask the store once to queue exactly
    this scrobble, and nothing else but an entry in the monitoring log when the
    store agrees; a 200 or 201 with a readable body caches the returned body
    with the action as its last one; any other answer changes nothing. *)
Theorem scrobbleRequest_outcome (t : Trakt) (action : string) (item : CacheItem) (user : User) (w : W)
    (parts : string * string) :
  url_Parse ("https://api.trakt.tv/scrobble/" +:+ action) = Ok parts →
  let req := mkRequest "POST" ("https://api.trakt.tv/scrobble/" +:+ action) (api_headers t (U_AccessToken user))
               (json_print (ScrobbleBody_MarshalJSON (Body item))) in
  let '(answer, w') := Do req w in
  let result := scrobbleRequest t action item user w in
  match answer with
  | Err _ => queued_for_later t action item user w' result
  | Ok resp =>
      if decide (StatusCode resp ∈ [429; 502; 503; 504]) then queued_for_later t action item user w' result
      else if decide (StatusCode resp ∈ [200; 201]) then
        match decode_body resp (Body item) with
        | DOk body => result =
            Store_WriteScrobbleBody (mkCacheItem (PlayerUuid item) (ServerUuid item) (RatingKey item)
                                       (Trigger item) body action) w'
        | DErr => result = Ret w'
        | DPanic why => result = Panic why
        end
      else result = Ret w'
  end.
Proof.
  intros Hurl req. assert (scrobble_post t action (Body item) (U_AccessToken user) = Ok req) as Hr.
  { unfold scrobble_post, NewRequest. cbn [req_url]. by rewrite Hurl. }
  unfold scrobbleRequest. rewrite Hr. destruct (Do req w) as [[resp|e] w']; cbv zeta;
    [|apply enqueueScrobbleEvent_queues].
  rewrite transientStatus_spec, successStatus_spec.
  case_decide; [rewrite bool_decide_eq_true_2 by done; apply enqueueScrobbleEvent_queues|].
  rewrite bool_decide_eq_false_2 by done.
  case_decide; [rewrite bool_decide_eq_true_2 by done|by rewrite bool_decide_eq_false_2].
  by destruct (decode_body resp (Body item)).
Qed.

(** whatever order the members' goroutines finish in, the errors returned
    are those of the members whose request failed, one each; an error is
    retryable exactly when there was no answer or its status is 429, 502, 503
    or 504. *)
Lemma BroadcastScrobble_errors (t : Trakt) (action : string) (body : ScrobbleBody)
    (members arrival : list GroupMember) (eventID mediaTitle : string)
    (answer : GroupMember → request → result response) :
  arrival ≡ₚ members →
  let failed m := match send_to t action body m (answer m) with
                  | (None, _) => None
                  | (Some err, status) => Some (mkBroadcastError m err status eventID mediaTitle)
                  end in
  let errs := BroadcastScrobble t action body members arrival eventID mediaTitle answer in
  errs ≡ₚ omap failed members ∧
  (∀ m, m ∈ members → (send_to t action body m (answer m)).1 = None → ∀ b, b ∈ errs → BE_Member b ≠ m) ∧
  Forall (λ b, IsRetryable b = true ↔
    BE_HTTPStatus b = 0 ∨ BE_HTTPStatus b ∈ [429; 502; 503; 504]) errs.
Proof.
  intros Hp failed errs. assert (errs ≡ₚ omap failed members) as He.
  { unfold errs, BroadcastScrobble. destruct members as [|m ms]; [done|]. by apply omap_Permutation. }
  split_and!; [done| |].
  - intros m Hm Hok b Hb. rewrite He in Hb. apply list_elem_of_omap in Hb as (m' & _ & Hf).
    unfold failed in Hf. intros <-. destruct (send_to t action body m' (answer m')) as [[e|] st] eqn:E;
      simplify_eq. simpl in Hok. by rewrite E in Hok.
  - apply Forall_forall. intros b _. unfold IsRetryable, StatusServiceUnavailable, StatusBadGateway,
      StatusGatewayTimeout, StatusTooManyRequests.
    rewrite !orb_true_iff, !Z.eqb_eq, !elem_of_cons, elem_of_nil. tauto.
Qed.
End ClientProofs.

(** The action of a webhook event is start, pause or stop (or none); pause
    and stop events mean stop exactly from 90 percent on, and a scrobble event
    always reports a stop of at least 90 percent. *)
Lemma action_of_spec (event : string) (progress : Z) :
  let '(action, p) := action_of event progress in
  (action = "" ∨ action ∈ ["start"; "pause"; "stop"]) ∧
  (event ∈ ["media.play"; "media.resume"; "playback.started"] → action = "start" ∧ p = progress) ∧
  (event ∈ ["media.pause"; "media.stop"] →
     p = progress ∧ (action = "stop" ↔ 90 ≤ progress) ∧ (action = "pause" ↔ progress < 90)) ∧
  (event = "media.scrobble" → action = "stop" ∧ p = Z.max 90 progress).
Proof.
  assert (Hd : ∀ e, e ∈ ["media.pause"; "media.stop"] → e ∉ ["media.play"; "media.resume"; "playback.started"]).
  { intros e He. rewrite !elem_of_cons, elem_of_nil in *. destruct He as [->|[->|[]]]; by intros [|[|[]]]. }
  unfold action_of, actionStart, actionPause, actionStop, ProgressThreshold.
  case_bool_decide as H1; [|case_bool_decide as H2; [|case_bool_decide as H3]].
  - split_and!; [right; vm_compute; repeat constructor|done| |].
    + intros H2. by apply Hd in H2.
    + intros ->. rewrite !elem_of_cons, elem_of_nil in H1. by destruct H1 as [|[|[|[]]]].
  - split_and!; [|done| |].
    + right. case_match; vm_compute; repeat constructor.
    + intros _. case_match eqn:E; rewrite ?Z.leb_le, ?Z.leb_gt in E; split_and!; try done; split; done || lia.
    + intros ->. rewrite !elem_of_cons, elem_of_nil in H2. by destruct H2 as [|[|[]]].
  - split_and!; [right; vm_compute; repeat constructor|done|done|].
    intros _. split; [done|]. case_match eqn:E; rewrite ?Z.ltb_lt, ?Z.ltb_ge in E; lia.
  - split_and!; [by left|done|done|done].
Qed.

(** ** External ids *)

(** The id a webhook entry carries for a service. *)
Definition entry_of (service : string) (guid : ExternalGUID) : option string :=
  if (8 <=? len (GUID_ID guid)) && bool_decide (slice_to 4 (GUID_ID guid) = service)
  then Some (slice_from 7 (GUID_ID guid)) else None.
Definition number_of (service : string) (guid : ExternalGUID) : option Z :=
  entry_of service guid ≫= Atoi.

Arguments entry_of : simpl never.
Arguments number_of : simpl never.
Definition or_else {A} (new old : option A) : option A :=
  match new with Some a => Some a | None => old end.
Definition some_b {A} (o : option A) : bool := match o with Some _ => true | None => false end.

Lemma add_guid_step ids v g :
  add_guid (ids, v) g =
  (mkIds (Ids_Trakt ids) (or_else (number_of "tvdb" g) (Ids_Tvdb ids))
     (or_else (entry_of "imdb" g) (Ids_Imdb ids)) (or_else (number_of "tmdb" g) (Ids_Tmdb ids))
     (Ids_Slug ids),
   v || some_b (number_of "tmdb" g) || some_b (number_of "tvdb" g) || some_b (entry_of "imdb" g)).
Proof.
  unfold add_guid, number_of, entry_of, TheMovieDbService, TheTVDBService, IMDBService.
  destruct (Z.ltb_spec (len (GUID_ID g)) 8) as [Hl|Hl].
  { rewrite (proj2 (Z.leb_gt _ _)) by lia. simpl. rewrite !orb_false_r. by destruct ids. }
  rewrite (proj2 (Z.leb_le _ _)) by lia. simpl.
  generalize (slice_to 4 (GUID_ID g)); intros service.
  destruct (decide (service = "tmdb")) as [->|]; [simpl|destruct (decide (service = "tvdb")) as [->|];
    [simpl|destruct (decide (service = "imdb")) as [->|]; [simpl|]]];
    rewrite ?bool_decide_eq_false_2 by done; simpl;
    try destruct (Atoi _); simpl; rewrite ?orb_true_r, ?orb_false_r; by destruct ids.
Qed.

Lemma last_or_else {A B} (f : A → option B) l x old :
  or_else (last (omap f (l ++ [x]))) old = or_else (f x) (or_else (last (omap f l)) old).
Proof.
  rewrite omap_app. simpl. destruct (f x); simpl; [by rewrite last_snoc|by rewrite app_nil_r].
Qed.

Lemma omap_snoc_ne {A B} (f : A → option B) l x :
  omap f (l ++ [x]) ≠ [] ↔ omap f l ≠ [] ∨ some_b (f x) = true.
Proof.
  rewrite omap_app. simpl. destruct (f x); simpl; [|rewrite app_nil_r; split; [auto|by intros [?|?]]].
  split; [auto|]. intros _ E. by apply app_nil in E as [_ ?].
Qed.

(** What the loop over the external ids computes: per service the last usable
    entry. *)
Lemma add_guids_spec guids ids0 v0 :
  let '(ids, valid) := foldl add_guid (ids0, v0) guids in
  ids = mkIds (Ids_Trakt ids0) (or_else (last (omap (number_of "tvdb") guids)) (Ids_Tvdb ids0))
          (or_else (last (omap (entry_of "imdb") guids)) (Ids_Imdb ids0))
          (or_else (last (omap (number_of "tmdb") guids)) (Ids_Tmdb ids0)) (Ids_Slug ids0) ∧
  (valid = true ↔ v0 = true ∨ omap (number_of "tmdb") guids ≠ [] ∨
     omap (number_of "tvdb") guids ≠ [] ∨ omap (entry_of "imdb") guids ≠ []).
Proof.
  induction guids as [|g guids IH] using rev_ind.
  { simpl. split; [by destruct ids0|]. tauto. }
  rewrite foldl_app. destruct (foldl add_guid (ids0, v0) guids) as [ids valid].
  destruct IH as [-> Hv]. cbn [foldl]. rewrite add_guid_step. simpl. rewrite !last_or_else.
  split; [done|]. rewrite !omap_snoc_ne, !orb_true_iff, Hv. clear.
  generalize (omap (number_of "tmdb") guids ≠ []), (omap (number_of "tvdb") guids ≠ []),
    (omap (entry_of "imdb") guids ≠ []). tauto.
Qed.

Lemma Itoa_nonempty n : (1 ≤ String.length (Itoa n))%nat.
Proof.
  unfold Itoa. rewrite length_of_bytes. destruct (Z.ltb_spec n 0); simpl; [lia|].
  destruct (nat_digits_spec n) as (a & l & -> & _); simpl; lia.
Qed.

Definition guid_entry (service id : string) : ExternalGUID := mkGuid (service +:+ "://" +:+ id).

Lemma entry_of_guid_entry service service' id :
  String.length service = 4%nat → (1 ≤ String.length id)%nat →
  entry_of service' (guid_entry service id) = if decide (service = service') then Some id else None.
Proof.
  intros Hs Hid. unfold entry_of, guid_entry. simpl.
  assert (slice_to 4 (service +:+ "://" +:+ id) = service) as ->.
  { rewrite <-Hs. apply slice_to_app. }
  assert (slice_from 7 (service +:+ "://" +:+ id) = id) as ->.
  { rewrite string_app_assoc. replace 7%nat with (String.length (service +:+ "://")); [apply slice_from_app|].
    rewrite <-length_bytes, bytes_app, length_app, length_bytes, Hs. done. }
  assert (8 <=? len (service +:+ "://" +:+ id) = true) as ->.
  { apply Z.leb_le. unfold len. rewrite <-length_bytes, !bytes_app, !length_app, !length_bytes, Hs.
    simpl. lia. }
  simpl. case_decide; case_bool_decide; done.
Qed.

Lemma number_of_guid_entry service service' n :
  String.length service = 4%nat → 0 ≤ n ≤ int64_max →
  number_of service' (guid_entry service (Itoa n)) = if decide (service = service') then Some n else None.
Proof.
  intros Hs Hn. unfold number_of. rewrite entry_of_guid_entry by (done || apply Itoa_nonempty).
  case_decide; [|done]. cbn [mbind option_bind]. apply Atoi_Itoa.
  assert (int64_min ≤ 0) by done. lia.
Qed.

(** When the webhook lists the IMDb, TMDB and TVDB ids of a movie, in any
    order, the scrobble carries exactly these three ids. *)
Lemma handleMovie_external_ids `{UrlText} (md : Metadata) (imdb : string) (tmdb tvdb : Z) :
  (1 ≤ String.length imdb)%nat → 0 ≤ tmdb ≤ int64_max → 0 ≤ tvdb ≤ int64_max →
  ExternalGUIDs md ≡ₚ [guid_entry "imdb" imdb; guid_entry "tmdb" (Itoa tmdb); guid_entry "tvdb" (Itoa tvdb)] →
  handleMovie md = Some (mkBody 0 (Some (mkMovie None None
    (mkIds None (Some tvdb) (Some imdb) (Some tmdb) None))) None None).
Proof.
  intros Hi Hm Hv Hp. unfold handleMovie.
  pose proof (add_guids_spec (ExternalGUIDs md) emptyIds false) as Hs.
  destruct (foldl _ _ _) as [ids valid]. destruct Hs as [-> Hvalid].
  assert (Hone : ∀ {B} (f : ExternalGUID → option B) x,
    omap f [guid_entry "imdb" imdb; guid_entry "tmdb" (Itoa tmdb); guid_entry "tvdb" (Itoa tvdb)] = [x] →
    omap f (ExternalGUIDs md) = [x]).
  { intros B f x E. apply Permutation_singleton_r. rewrite <-E. by apply omap_Permutation. }
  assert (number_of "tmdb" (guid_entry "imdb" imdb) = None ∧ number_of "tvdb" (guid_entry "imdb" imdb) = None)
    as [Hn1 Hn2] by (unfold number_of; by rewrite !entry_of_guid_entry).
  assert (omap (number_of "tmdb") (ExternalGUIDs md) = [tmdb]) as E1.
  { apply Hone. simpl. by rewrite Hn1, !number_of_guid_entry. }
  assert (omap (number_of "tvdb") (ExternalGUIDs md) = [tvdb]) as E2.
  { apply Hone. simpl. by rewrite Hn2, !number_of_guid_entry. }
  assert (omap (entry_of "imdb") (ExternalGUIDs md) = [imdb]) as E3.
  { apply Hone. simpl. by rewrite !entry_of_guid_entry by (done || apply Itoa_nonempty). }
  rewrite E1, E2, E3 in *. simpl. destruct valid; [done|]. destruct Hvalid as [_ Hx].
  discriminate Hx. by right; left.
Qed.

(** ** Examples *)

(** A network with one answer, and the records of what was cached and queued. *)
Record Net := mkNet {
  net_answer : result response;
  net_cached : list CacheItem;
  net_queued : list QueuedScrobbleEvent;
}.
#[local] Instance net_http : Http Net := { Do _ w := (net_answer w, w) }.
#[local] Instance net_store : ScrobbleStore Net := {
  Store_GetScrobbleBody _ _ w := (emptyCacheItem, w);
  Store_WriteScrobbleBody c w := Ret (mkNet (net_answer w) (c :: net_cached w) (net_queued w));
  Store_EnqueueScrobble e w :=
    (validateEvent e, match validateEvent e with
                      | Some _ => w
                      | None => mkNet (net_answer w) (net_cached w) (e :: net_queued w)
                      end);
  Store_GetQueueSize _ w := (Ok (Z.of_nat (List.length (net_queued w))), w);
  queueEventLog_Append _ w := Ret w;
  store_Now w := (0, w);
}.
#[local] Instance plain_urls : UrlText := { url_Parse s := Ok ("https", "api.trakt.tv") }.
#[local] Existing Instances ascii_tables tree_text.

Definition movie_hook (event : string) (offset duration : Z) : Webhook :=
  mkWebhook event true true (mkAccount 1 "Sam")
    (mkMetadata "movie" "42" [guid_entry "tmdb" "949"] "" "movie" "Heat" "" 0 0 offset 1995 duration)
    (mkServer "home" "server") (mkPlayer "tv" "player").
Definition sam : User := mkUser "u1" "sam" "token" "refresh" "Sam" 0 0 true.
Definition unavailable : Net := mkNet (Ok (mkResponse 503 "503" "" None)) [] [].

Lemma handleMovie_external_ids_witness :
  handleMovie (mkMetadata "movie" "42"
      [guid_entry "tvdb" "12"; guid_entry "imdb" "tt0113277"; guid_entry "tmdb" "949"]
      "" "movie" "Heat" "" 0 0 0 1995 0) =
    Some (mkBody 0 (Some (mkMovie None None (mkIds None (Some 12) (Some "tt0113277") (Some 949) None))) None None).
Proof.
  apply (handleMovie_external_ids (mkMetadata "movie" "42"
      [guid_entry "tvdb" "12"; guid_entry "imdb" "tt0113277"; guid_entry "tmdb" "949"]
      "" "movie" "Heat" "" 0 0 0 1995 0) "tt0113277" 949 12).
  - simpl. lia.
  - unfold int64_max. lia.
  - unfold int64_max. lia.
  - simpl. rewrite Permutation_swap. apply perm_skip. apply Permutation_swap.
Defined.

(** A pause that Trakt cannot take is queued. *)
Definition heat_item : CacheItem :=
  mkCacheItem "player" "server" "42" "media.pause" (mkBody 35 (Some (mkMovie (Some "Heat") (Some 1995) emptyIds)) None None) "start".
Definition heat_event : QueuedScrobbleEvent :=
  mkEvent "" "u1" (Body heat_item) "pause" 35 zeroTime 0 zeroTime "player" "42".

Lemma scrobbleRequest_outcome_witness :
  scrobbleRequest (New "id" "secret") "pause" heat_item sam unavailable =
  Ret (mkNet (net_answer unavailable) [] [heat_event]).
Proof.
  pose proof (scrobbleRequest_outcome (New "id" "secret") "pause" heat_item sam unavailable
                ("https", "api.trakt.tv") eq_refl) as Hout.
  vm_compute in Hout. exact Hout.
Defined.

Lemma BroadcastScrobble_errors_witness :
  let m1 := mkGM "a" "fg" "A" "ann" "t1" "" None "authorized" 0 in
  let m2 := mkGM "b" "fg" "B" "bob" "t2" "" None "authorized" 0 in
  let answer m (_ : request) : result response :=
    if bool_decide (GM_ID m = "a") then Ok (mkResponse 201 "" "" None) else Err (Errorf "no route") in
  (BE_Member <$> BroadcastScrobble (New "id" "secret") "stop" emptyBody [m1; m2] [m2; m1] "e" "Heat" answer)
    ≡ₚ [m2].
Proof.
  intros m1 m2 answer.
  destruct (BroadcastScrobble_errors (New "id" "secret") "stop" emptyBody [m1; m2] [m2; m1] "e" "Heat" answer)
    as [Hp _]; [apply Permutation_swap|].
  rewrite Hp. vm_compute. done.
Defined.

(** a view offset past the end of the media gives a progress above 100: the
    event that is then queued during an outage of Trakt is refused by
    [validateEvent], and the scrobble is lost without a trace. *)
Lemma overlong_progress_lost :
  progress_of 6060000 6000000 = 101 ∧
  Handle (New "id" "secret") (Some (movie_hook "media.stop" 6060000 6000000)) sam unavailable = Ret unavailable ∧
  ∃ e, Handle (New "id" "secret") (Some (movie_hook "media.stop" 6000000 6000000)) sam unavailable =
    Ret (mkNet (net_answer unavailable) [] [e]) ∧ E_Progress e = 100.
Proof. split_and!; [by vm_compute|by vm_compute|]. eexists. split; by vm_compute. Qed.
