(* ===== verification/Drain.v ===== *)
(** * Draining the scrobble queue: [main.go], lines 124-229 and 3150-3394

    [DrainStateTracker] and the functions that send queued events once Trakt
    is back: [sendEventWithRetry], [drainUserQueue], [initiateQueueDrain].
    The store, the Trakt client, the clock and the monitoring log act on a
    world [W] through [DrainStore]; what the drain relies on is
    [DrainFrame] and [DrainDelete].  The tracker is threaded next to the world. *)

From S2P Require Import Prelude GoLib Float Json Instances Common Entities Buffers Trakt.

Open Scope Z_scope.

(** ** The drain tracker *)

Record UserDrainInfo := mkDrainInfo {
  DI_UserID : string;
  DI_StartedAt : Time;
  DI_EventsProcessed : Z;
  DI_EventsFailed : Z;
  DI_NextRetryAt : option Time;
}.

Record DrainStateTracker := mkTracker {
  activeUsers : gmap string UserDrainInfo;
  lastHealthCheck : Time;
  tracker_mode : string;
}.

Definition NewDrainStateTracker : DrainStateTracker := mkTracker ∅ zeroTime "live".

Definition RecordDrainStart (userID : string) (now : Time) (d : DrainStateTracker) : DrainStateTracker :=
  mkTracker (<[userID := mkDrainInfo userID now 0 0 None]> (activeUsers d)) (lastHealthCheck d)
    (tracker_mode d).
Definition RecordDrainComplete (userID : string) (d : DrainStateTracker) : DrainStateTracker :=
  mkTracker (delete userID (activeUsers d)) (lastHealthCheck d) (tracker_mode d).
Definition RecordEvent (userID : string) (success : bool) (d : DrainStateTracker) : DrainStateTracker :=
  match activeUsers d !! userID with
  | None => d
  | Some i =>
      let i := if success
               then mkDrainInfo (DI_UserID i) (DI_StartedAt i) (wrap64 (DI_EventsProcessed i + 1))
                      (DI_EventsFailed i) (DI_NextRetryAt i)
               else mkDrainInfo (DI_UserID i) (DI_StartedAt i) (DI_EventsProcessed i)
                      (wrap64 (DI_EventsFailed i + 1)) (DI_NextRetryAt i) in
      mkTracker (<[userID := i]> (activeUsers d)) (lastHealthCheck d) (tracker_mode d)
  end.
Definition GetUserInfo (userID : string) (d : DrainStateTracker) : option UserDrainInfo :=
  activeUsers d !! userID.
(** Go's iteration order over a map is unspecified; here key order. *)
Definition GetAllActiveUsers (d : DrainStateTracker) : list string := (map_to_list (activeUsers d)).*1.
Definition SetMode (mode : string) (d : DrainStateTracker) : DrainStateTracker :=
  mkTracker (activeUsers d) (lastHealthCheck d) mode.
Definition GetMode (d : DrainStateTracker) : string := tracker_mode d.
Definition UpdateHealthCheck (now : Time) (d : DrainStateTracker) : DrainStateTracker :=
  mkTracker (activeUsers d) now (tracker_mode d).
Definition GetLastHealthCheck (d : DrainStateTracker) : Time := lastHealthCheck d.

(** ** Errors worth a retry *)

Definition isTransientError `{UnicodeTables} (err : option error) : bool :=
  match err with
  | None => false
  | Some err =>
      let errStr := ToLower (Error err) in
      Contains errStr "503" || Contains errStr "502" || Contains errStr "504" ||
      Contains errStr "429" || Contains errStr "timeout" || Contains errStr "connection refused"
  end.

(** ** What the drain uses *)

Class DrainStore (W : Type) := {
  D_ListUsersWithQueuedEvents : W → result (list string) * W;
  D_DequeueScrobbles : string → Z → W → result (list QueuedScrobbleEvent) * W;
  D_DeleteQueuedScrobble : string → W → option error * W;
  D_UpdateQueuedScrobbleRetry : string → Z → W → option error * W;
  D_GetUser : string → W → option User * W;
  (** [traktSrv.ScrobbleFromQueue] *)
  D_ScrobbleFromQueue : string → CacheItem → string → W → option error * W;
  D_Append : QueueLogEvent → W → W;
  D_Now : W → Time * W;
  D_Sleep : Duration → W → W;
}.

Section Drain.
Context {W : Type} `{UnicodeTables, DrainStore W}.

Definition sendScrobble (action : string) (item : CacheItem) (user : User) (w : W) : option error * W :=
  D_ScrobbleFromQueue action item (U_AccessToken user) w.

Definition backoffSchedule : list Duration :=
  [1 * Second; 2 * Second; 4 * Second; 8 * Second; 16 * Second].

(** The loop of [sendEventWithRetry] from attempt [attempt], [n] attempts
    being left. *)
Fixpoint send_attempts (n : nat) (attempt : Z) (event : QueuedScrobbleEvent) (w : W)
    : option error * W :=
  match n with
  | O => (Some (Errorf "max retries exceeded"), w)
  | S n =>
      let '(user, w) := D_GetUser (E_UserID event) w in
      match user with
      | None => (Some (Errorf ("user not found: " +:+ E_UserID event)), w)
      | Some user =>
          let cacheItem := mkCacheItem (E_PlayerUUID event) "" (E_RatingKey event) ""
                             (E_ScrobbleBody event) "" in
          let '(err, w) := sendScrobble (E_Action event) cacheItem user w in
          match err with
          | None => (None, w)
          | Some e =>
              if negb (isTransientError err) then (Some e, w) else
              let w := if attempt <? 4 then
                         let '(_, w) := D_UpdateQueuedScrobbleRetry (E_ID event) (attempt + 1) w in
                         D_Sleep (default 0 (backoffSchedule !! Z.to_nat attempt)) w
                       else w in
              send_attempts n (attempt + 1) event w
          end
      end
  end.

Definition sendEventWithRetry (event : QueuedScrobbleEvent) (w : W) : option error * W :=
  send_attempts 5 0 event w.

Definition log_event (op userID eventID err : string) (w : W) : W :=
  let '(now, w) := D_Now w in D_Append (mkLogEvent now op userID "" eventID 0 0 err "") w.

(** The counters of [drainUserQueue]. *)
Record drain_counts := mkCounts { successCount : Z; failureCount : Z }.
Abbreviation drain_state := (W * DrainStateTracker * drain_counts)%type.

(** One event of a batch: send, account, delete, wait. *)
Definition drainEvent (userID : string) (event : QueuedScrobbleEvent) (st : drain_state) : drain_state :=
  let '(w, d, c) := st in
  let '(_, w) := D_Now w in
  let '(err, w) := sendEventWithRetry event w in
  let '(w, d, c) :=
    match err with
    | Some e =>
        (log_event "queue_event_failed" userID (E_ID event) (Error e) w,
         RecordEvent userID false d, mkCounts (successCount c) (wrap64 (failureCount c + 1)))
    | None =>
        (log_event "queue_event_scrobbled" userID (E_ID event) "" w,
         RecordEvent userID true d, mkCounts (wrap64 (successCount c + 1)) (failureCount c))
    end in
  let '(_, w) := D_DeleteQueuedScrobble (E_ID event) w in
  (D_Sleep (100 * 1000000) w, d, c).

(** The loop over batches of 100; [fuel] bounds the number of batches, [None]
    meaning it did not suffice. *)
Fixpoint drainBatches (fuel : nat) (userID : string) (st : drain_state) : option drain_state :=
  match fuel with
  | O => None
  | S fuel =>
      let '(w, d, c) := st in
      match D_DequeueScrobbles userID 100 w with
      | (Err _, w) => Some (w, d, c)
      | (Ok [], w) => Some (w, d, c)
      | (Ok events, w) => drainBatches fuel userID (foldl (λ st e, drainEvent userID e st) (w, d, c) events)
      end
  end.

Definition drainUserQueue (fuel : nat) (userID : string) (st : W * DrainStateTracker)
    : option (W * DrainStateTracker * drain_counts) :=
  let '(w, d) := st in
  let '(_, w) := D_Now w in
  let '(now, w) := D_Now w in
  let d := RecordDrainStart userID now d in
  let w := log_event "queue_drain_user_start" userID "" "" w in
  match drainBatches fuel userID (w, d, mkCounts 0 0) with
  | None => None
  | Some (w, d, c) => Some (w, RecordDrainComplete userID d, c)
  end.

(** The users one after the other, in the order the store lists them; the
    program runs one goroutine per user. *)
Fixpoint drainUsers (fuel : nat) (userIDs : list string) (st : W * DrainStateTracker)
    : option (W * DrainStateTracker) :=
  match userIDs with
  | [] => Some st
  | u :: userIDs =>
      match drainUserQueue fuel u st with
      | None => None
      | Some (w, d, _) => drainUsers fuel userIDs (w, d)
      end
  end.

Definition initiateQueueDrain (fuel : nat) (st : W * DrainStateTracker)
    : option (W * DrainStateTracker) :=
  let '(w, d) := st in
  match D_ListUsersWithQueuedEvents w with
  | (Err _, w) => Some (w, d)
  | (Ok userIDs, w) => drainUsers fuel userIDs (w, d)
  end.
End Drain.

(** ** What the drain relies on *)

(** [Inv] holds of the worlds the drain works in, [pending w u] are the ids of
    the user's queued events and [sends w] counts the requests to Trakt so
    far.  [kept w w']: neither the queues nor the count changed. *)
Definition kept {W : Type} (Inv : W → Prop) (pending : W → string → gset string) (sends : W → nat)
    (w w' : W) : Prop :=
  Inv w' ∧ (∀ u, pending w' u = pending w u) ∧ sends w' = sends w.

(** Every call but the deletion leaves the queues alone (the retry count, of a
    queued event); a batch is made of distinct pending events, as many as there
    are up to the limit, for the users the store can name ([known]). *)
Class DrainFrame (W : Type) `{DS : DrainStore W} (Inv : W → Prop)
    (pending : W → string → gset string) (sends : W → nat) (known : string → Prop) : Prop := {
  drain_dequeue u n w : Inv w → known u → 0 < n ≤ int64_max →
    let '(r, w') := D_DequeueScrobbles u n w in
    kept Inv pending sends w w' ∧
    ∃ events, r = Ok events ∧ NoDup (E_ID <$> events) ∧
      list_to_set (E_ID <$> events) ⊆ pending w u ∧
      Z.of_nat (List.length events) = n `min` Z.of_nat (size (pending w u));
  drain_retry id n u w : Inv w → id ∈ pending w u → 1 ≤ n ≤ 4 →
    kept Inv pending sends w (D_UpdateQueuedScrobbleRetry id n w).2;
  drain_user u w : Inv w → kept Inv pending sends w (D_GetUser u w).2;
  drain_send a c t w : Inv w →
    let w' := (D_ScrobbleFromQueue a c t w).2 in
    Inv w' ∧ (∀ u, pending w' u = pending w u) ∧ sends w' = S (sends w);
  drain_append e w : Inv w → kept Inv pending sends w (D_Append e w);
  drain_now w : Inv w → kept Inv pending sends w (D_Now w).2;
  drain_sleep t w : Inv w → kept Inv pending sends w (D_Sleep t w);
}.

(** The deletion of a queued event removes it and no other. *)
Class DrainDelete (W : Type) `{DS : DrainStore W} (Inv : W → Prop)
    (pending : W → string → gset string) (sends : W → nat) : Prop :=
  drain_delete id u w : Inv w → id ∈ pending w u →
    let w' := (D_DeleteQueuedScrobble id w).2 in
    Inv w' ∧ sends w' = sends w ∧ ∀ v, pending w' v = pending w v ∖ {[id]}.

(** ** Lemmas *)

Section DrainProofs.
Context {W : Type} `{UnicodeTables, DS : DrainStore W}.
Context (Inv : W → Prop) (pending : W → string → gset string) (sends : W → nat).
Context (known : string → Prop) {DF : DrainFrame W Inv pending sends known}.

Abbreviation same := (kept Inv pending sends).

Lemma kept_trans w1 w2 w3 : same w1 w2 → same w2 w3 → same w1 w3.
Proof.
  intros (_ & Hp & Hs) (Hi & Hp' & Hs'). split; [done|]. split; [|congruence].
  intros u. by rewrite Hp', Hp.
Qed.

Lemma kept_refl w : Inv w → same w w.
Proof. by split. Qed.

Lemma send_attempts_law n attempt event owner w :
  Inv w → E_ID event ∈ pending w owner → 0 ≤ attempt →
  let w' := (send_attempts n attempt event w).2 in
  Inv w' ∧ (∀ u, pending w' u = pending w u) ∧ (sends w ≤ sends w' ≤ sends w + n)%nat.
Proof using DF.
  revert attempt w. induction n as [|n IH]; intros attempt w Hi Ho Ha; simpl; [split_and!; [done..|lia|lia]|].
  destruct (drain_user (E_UserID event) w Hi) as (Hi1 & Hp1 & Hs1).
  destruct (D_GetUser _ w) as [[user|] w1]; simpl in *; [|split_and!; [done..|lia|lia]].
  unfold sendScrobble.
  match goal with |- context [D_ScrobbleFromQueue ?a ?c ?t w1] =>
    destruct (drain_send a c t w1 Hi1) as (Hi2 & Hp2 & Hs2);
    destruct (D_ScrobbleFromQueue a c t w1) as [err w2] end.
  simpl in *.
  assert (Hp : ∀ u, pending w2 u = pending w u) by (intros u; by rewrite Hp2, Hp1).
  destruct err as [e|]; [|split_and!; [done..|simpl; lia|simpl; lia]].
  destruct (negb _); [split_and!; [done..|simpl; lia|simpl; lia]|].
  set (w3 := if attempt <? 4 then _ else w2).
  assert (same w2 w3) as (Hi3 & Hp3 & Hs3).
  { unfold w3. destruct (Z.ltb_spec attempt 4); [|by apply kept_refl].
    pose proof (drain_retry (E_ID event) (attempt + 1) owner w2 Hi2 ltac:(by rewrite Hp) ltac:(lia)) as Hr.
    destruct (D_UpdateQueuedScrobbleRetry _ _ w2) as [r w4].
    eapply kept_trans; [exact Hr|]. apply drain_sleep, Hr. }
  destruct (IH (attempt + 1) w3 Hi3 ltac:(by rewrite Hp3, Hp) ltac:(lia)) as (Hi' & Hp' & Hs').
  split_and!; [done|intros u; by rewrite Hp', Hp3|lia..].
Qed.

Lemma log_event_law op u id e w : Inv w → same w (log_event op u id e w).
Proof using DF.
  intros Hi. unfold log_event. pose proof (drain_now w Hi) as Hn. destruct (D_Now w) as [now w1].
  eapply kept_trans; [exact Hn|]. apply drain_append, Hn.
Qed.

(** One event, before its deletion: what was sent and counted. *)
Lemma drainEvent_split userID event owner w d c :
  Inv w → E_ID event ∈ pending w owner →
  ∃ w1 d' c', drainEvent userID event (w, d, c) =
      (D_Sleep (100 * 1000000) (D_DeleteQueuedScrobble (E_ID event) w1).2, d', c') ∧
    Inv w1 ∧ (∀ u, pending w1 u = pending w u) ∧ (sends w1 ≤ sends w + 5)%nat ∧
    (c' = mkCounts (wrap64 (successCount c + 1)) (failureCount c) ∨
     c' = mkCounts (successCount c) (wrap64 (failureCount c + 1))).
Proof using DF.
  intros Hi Ho. unfold drainEvent. destruct (drain_now w Hi) as (Hi1 & Hp1 & Hs1).
  destruct (D_Now w) as [now w1]. simpl in *. unfold sendEventWithRetry.
  destruct (send_attempts_law 5 0 event owner w1 Hi1 ltac:(by rewrite Hp1) ltac:(lia)) as (Hi2 & Hp2 & Hs2).
  destruct (send_attempts 5 0 event w1) as [err w2]. simpl in *.
  destruct err as [e|];
    match goal with |- context [log_event ?o userID (E_ID event) ?m w2] =>
      destruct (log_event_law o userID (E_ID event) m w2 Hi2) as (Hi3 & Hp3 & Hs3);
      set (w3 := log_event o userID (E_ID event) m w2) in * end;
    exists w3; destruct (D_DeleteQueuedScrobble (E_ID event) w3) as [derr w4];
    (eexists _, _; split; [done|]; split_and!; [done|intros u; by rewrite Hp3, Hp2, Hp1|lia|auto]).
Qed.

(** A batch that finds something. *)
Lemma dequeue_nonempty userID w :
  Inv w → known userID → pending w userID ≠ ∅ →
  ∃ e events w', D_DequeueScrobbles userID 100 w = (Ok (e :: events), w') ∧ same w w' ∧
    list_to_set (E_ID <$> e :: events) ⊆ pending w' userID.
Proof using DF.
  intros Hi Hkn Hne. pose proof (drain_dequeue userID 100 w Hi Hkn ltac:(by vm_compute)) as Hd.
  destruct (D_DequeueScrobbles userID 100 w) as [r w'].
  destruct Hd as (Hk & [|e events] & -> & _ & Hsub & Hl); cycle 1.
  { exists e, events, w'. split; [done|]. split; [done|]. destruct Hk as (_ & -> & _). done. }
  destruct Hne. apply leibniz_equiv, size_empty_inv. simpl in Hl. lia.
Qed.

Section Deleting.
Context {DD : DrainDelete W Inv pending sends}.

(** One event: gone from the queue, the other users untouched, one counter up. *)
Lemma drainEvent_law userID event owner w d c :
  Inv w → E_ID event ∈ pending w owner →
  let '(w', d', c') := drainEvent userID event (w, d, c) in
  Inv w' ∧ (∀ u, pending w' u = pending w u ∖ {[E_ID event]}) ∧
  (sends w' ≤ sends w + 5)%nat ∧
  (c' = mkCounts (wrap64 (successCount c + 1)) (failureCount c) ∨
   c' = mkCounts (successCount c) (wrap64 (failureCount c + 1))).
Proof using DF DD.
  intros Hi Ho.
  destruct (drainEvent_split userID event owner w d c Hi Ho) as (w1 & d' & c' & -> & Hi1 & Hp1 & Hs1 & Hc).
  destruct (drain_delete (E_ID event) owner w1 Hi1 ltac:(by rewrite Hp1)) as (Hi2 & Hs2 & Hp2).
  destruct (drain_sleep (100 * 1000000) _ Hi2) as (Hi3 & Hp3 & Hs3).
  split_and!; [done| |lia|done]. intros u. by rewrite Hp3, Hp2, Hp1.
Qed.

(** No event is queued for two users. *)
Definition ids_unique (w : W) : Prop :=
  ∀ u v id, id ∈ pending w u → id ∈ pending w v → u = v.

Definition total (c : drain_counts) : Z := successCount c + failureCount c.
Definition counts_ok (c : drain_counts) (n : Z) : Prop :=
  0 ≤ successCount c ∧ 0 ≤ failureCount c ∧ total c = n.

Lemma counts_step c c' n :
  counts_ok c n → n < int64_max →
  (c' = mkCounts (wrap64 (successCount c + 1)) (failureCount c) ∨
   c' = mkCounts (successCount c) (wrap64 (failureCount c + 1))) →
  counts_ok c' (n + 1).
Proof.
  unfold counts_ok, total. intros (?&?&?) ? [->| ->]; simpl;
    rewrite wrap64_small by (unfold int64_min, int64_max in *; lia); lia.
Qed.

#[local] Arguments drainEvent : simpl never.

(** The events of a batch, one after the other. *)
Lemma drain_batch_law userID events : ∀ w d c n,
  Inv w → NoDup (E_ID <$> events) → list_to_set (E_ID <$> events) ⊆ pending w userID →
  counts_ok c n → n + Z.of_nat (List.length events) ≤ int64_max →
  let '(w', d', c') := foldl (λ st e, drainEvent userID e st) (w, d, c) events in
  Inv w' ∧ (∀ u, pending w' u = pending w u ∖ list_to_set (E_ID <$> events)) ∧
  (sends w' ≤ sends w + 5 * List.length events)%nat ∧
  counts_ok c' (n + Z.of_nat (List.length events)).
Proof using DF DD.
  induction events as [|e events IH]; intros w d c n Hi Hnd Hsub Hc Hn; simpl in *.
  { rewrite Z.add_0_r. split_and!; [done| |lia|apply Hc..]. intros u. by rewrite difference_empty_L. }
  apply NoDup_cons in Hnd as [Hfresh Hnd].
  pose proof (drainEvent_law userID e userID w d c Hi ltac:(apply Hsub, elem_of_union_l; by apply elem_of_singleton)) as He.
  destruct (drainEvent userID e (w, d, c)) as [[w1 d1] c1]. destruct He as (Hi1 & Hp1 & Hs1 & Hc1).
  assert (list_to_set (E_ID <$> events) ⊆ pending w1 userID) as Hsub1.
  { rewrite Hp1. intros id Hid. apply elem_of_difference. split; [by apply Hsub, elem_of_union_r|].
    rewrite elem_of_singleton. intros ->. by apply elem_of_list_to_set in Hid. }
  specialize (IH w1 d1 c1 (n + 1) Hi1 Hnd Hsub1 (counts_step _ _ _ Hc ltac:(lia) Hc1) ltac:(lia)).
  match type of IH with context [foldl ?f ?st events] => destruct (foldl f st events) as [[w' d'] c'] end.
  destruct IH as (Hi' & Hp' & Hs' & Hc').
  replace (n + Z.of_nat (S (List.length events))) with (n + 1 + Z.of_nat (List.length events)) by lia.
  split; [done|]. split; [|split; [lia|done]].
  intros u. by rewrite Hp', Hp1, difference_difference_l_L.
Qed.

(** What draining [userID] leaves of the other users' queues. *)
Definition drained (userID : string) (w w' : W) : Prop :=
  pending w' userID = ∅ ∧ ∀ v, v ≠ userID → pending w' v = pending w v.

Lemma batch_others userID (ids : gset string) w w' :
  ids_unique w → ids ⊆ pending w userID → (∀ u, pending w' u = pending w u ∖ ids) →
  ids_unique w' ∧ ∀ v, v ≠ userID → pending w' v = pending w v.
Proof.
  intros Hu Hsub Hp. split.
  - intros u v id. rewrite !Hp, !elem_of_difference. intros [? _] [? _]. eauto.
  - intros v Hv. rewrite Hp. apply difference_disjoint_L, elem_of_disjoint.
    intros id Hin Hids. apply Hv. eapply Hu; [exact Hin|by apply Hsub].
Qed.

Lemma drainBatches_law userID : known userID → ∀ fuel w d c n,
  Inv w → ids_unique w → counts_ok c n →
  n + Z.of_nat (size (pending w userID)) ≤ int64_max →
  (size (pending w userID) < fuel)%nat →
  ∃ w' d' c', drainBatches fuel userID (w, d, c) = Some (w', d', c') ∧
    Inv w' ∧ drained userID w w' ∧
    (sends w' ≤ sends w + 5 * size (pending w userID))%nat ∧
    counts_ok c' (n + Z.of_nat (size (pending w userID))).
Proof using DF DD.
  intros Hkn. induction fuel as [|fuel IH]; intros w d c n Hi Hu Hc Hn Hf; [lia|]. cbn [drainBatches].
  pose proof (drain_dequeue userID 100 w Hi Hkn ltac:(by vm_compute)) as Hd.
  destruct (D_DequeueScrobbles userID 100 w) as [r w1].
  destruct Hd as ((Hi1 & Hp1 & Hs1) & events & -> & Hnd & Hsub & Hlen).
  assert (Hu1 : ids_unique w1) by (intros u v id; rewrite !Hp1; apply Hu).
  destruct events as [|e events].
  - assert (pending w userID = ∅) as Hnil by (apply leibniz_equiv, size_empty_inv; simpl in Hlen; lia).
    exists w1, d, c. unfold drained. rewrite Hp1, Hnil, size_empty, Z.add_0_r.
    split; [done|]. split; [done|]. split; [by split; [|intros v _; rewrite Hp1]|]. split; [lia|done].
  - assert (Hsz : size (list_to_set (C:=gset string) (E_ID <$> e :: events)) = List.length (e :: events)).
    { rewrite size_list_to_set by done. by rewrite length_fmap. }
    pose proof (drain_batch_law userID (e :: events) w1 d c n Hi1 Hnd ltac:(by rewrite Hp1) Hc ltac:(lia)) as Hb.
    match type of Hb with context [foldl ?f ?st (e :: events)] =>
      destruct (foldl f st (e :: events)) as [[w2 d2] c2] eqn:Efold end.
    destruct Hb as (Hi2 & Hp2 & Hs2 & Hc2).
    destruct (batch_others userID _ w1 w2 Hu1 ltac:(by rewrite Hp1) Hp2) as [Hu2 Ho2].
    assert (Hrest : (size (pending w2 userID) + List.length (e :: events))%nat = size (pending w userID)).
    { rewrite Hp2, Hp1, size_difference, Hsz by done. lia. }
    destruct (IH w2 d2 c2 _ Hi2 Hu2 Hc2) as (w' & d' & c' & Hrun & Hi' & [He' Ho'] & Hs' & Hc');
      [lia|simpl in Hrest; lia|].
    exists w', d', c'. split; [exact Hrun|]. split; [done|].
    split; [split; [done|intros v Hv; by rewrite Ho', Ho2, Hp1]|]. split; [lia|].
    by replace (n + Z.of_nat (size (pending w userID)))
      with (n + Z.of_nat (List.length (e :: events)) + Z.of_nat (size (pending w2 userID))) by lia.
Qed.

Lemma drainUserQueue_law (fuel : nat) (userID : string) (w : W) (d : DrainStateTracker) :
  Inv w → known userID → ids_unique w → Z.of_nat (size (pending w userID)) ≤ int64_max →
  (size (pending w userID) < fuel)%nat →
  ∃ w' d' c, Inv w' ∧ drainUserQueue fuel userID (w, d) = Some (w', d', c) ∧
    pending w' userID = ∅ ∧ (∀ v, v ≠ userID → pending w' v = pending w v) ∧
    (sends w' ≤ sends w + 5 * size (pending w userID))%nat ∧
    successCount c + failureCount c = Z.of_nat (size (pending w userID)) ∧
    GetUserInfo userID d' = None.
Proof using DF DD.
  intros Hi Hkn Hu Hn Hf. unfold drainUserQueue.
  pose proof (drain_now w Hi) as H1. destruct (D_Now w) as [t1 w1].
  pose proof (drain_now w1 ltac:(apply H1)) as H2. destruct (D_Now w1) as [now w2].
  pose proof (log_event_law "queue_drain_user_start" userID "" "" w2 ltac:(apply H2)) as H3.
  set (w3 := log_event _ _ _ _ w2) in *.
  assert (same w w3) as (Hi3 & Hp & Hs) by (eapply kept_trans; [|exact H3]; by eapply kept_trans).
  destruct (drainBatches_law userID Hkn fuel w3 (RecordDrainStart userID now d) (mkCounts 0 0) 0)
    as (w' & d' & c' & -> & Hi' & [He Ho] & Hs' & Hc'); rewrite ?Hp in *; try done.
  { intros u v id. rewrite !Hp. apply Hu. }
  exists w', (RecordDrainComplete userID d'), c'.
  split_and!; [done|done|done|intros v Hv; by rewrite Ho, Hp|lia|apply Hc'|].
  unfold GetUserInfo, RecordDrainComplete. simpl. by rewrite lookup_delete_eq.
Qed.
(** C11: draining a user's queue terminates (one batch per event is enough),
    leaves the queue empty and the other users' queues alone, makes at most
    five requests per event, counts every event exactly once as a success or
    as a failure, and clears the user's entry in the drain tracker. *)
Theorem drainUserQueue_empties (fuel : nat) (userID : string) (w : W) (d : DrainStateTracker) :
  Inv w → known userID → ids_unique w → Z.of_nat (size (pending w userID)) ≤ int64_max →
  (size (pending w userID) < fuel)%nat →
  ∃ w' d' c, drainUserQueue fuel userID (w, d) = Some (w', d', c) ∧
    pending w' userID = ∅ ∧ (∀ v, v ≠ userID → pending w' v = pending w v) ∧
    (sends w' ≤ sends w + 5 * size (pending w userID))%nat ∧
    successCount c + failureCount c = Z.of_nat (size (pending w userID)) ∧
    GetUserInfo userID d' = None.
Proof using DF DD.
  intros. destruct (drainUserQueue_law fuel userID w d) as (w' & d' & c & _ & ?); [done..|by exists w', d', c].
Qed.
End Deleting.

(** ** Deletions that fail *)

(** The store refuses to delete, and says so or not. *)
Definition delete_refused : Prop :=
  ∀ id w, Inv w → kept Inv pending sends w (D_DeleteQueuedScrobble id w).2.

Lemma drain_batch_stuck userID events : delete_refused → ∀ w d c,
  Inv w → list_to_set (E_ID <$> events) ⊆ pending w userID →
  Inv (foldl (λ st e, drainEvent userID e st) (w, d, c) events).1.1 ∧
  ∀ u, pending (foldl (λ st e, drainEvent userID e st) (w, d, c) events).1.1 u = pending w u.
Proof using DF.
  intros Hdel. induction events as [|e events IH]; intros w d c Hi Hsub; [done|]. cbn [foldl].
  destruct (drainEvent_split userID e userID w d c Hi) as (w1 & d' & c' & -> & Hi1 & Hp1 & _ & _).
  { apply Hsub. simpl. apply elem_of_union_l. by apply elem_of_singleton. }
  destruct (Hdel (E_ID e) w1 Hi1) as (Hi2 & Hp2 & _).
  destruct (drain_sleep (100 * 1000000) _ Hi2) as (Hi3 & Hp3 & _).
  destruct (IH _ d' c' Hi3) as [HI Hp].
  { rewrite Hp3, Hp2, Hp1. etrans; [|exact Hsub]. simpl. apply union_subseteq_r. }
  split; [done|]. intros u. by rewrite Hp, Hp3, Hp2.
Qed.

Lemma drainBatches_stuck userID fuel : delete_refused → ∀ w d c,
  Inv w → known userID → pending w userID ≠ ∅ → drainBatches fuel userID (w, d, c) = None.
Proof using DF.
  intros Hdel. induction fuel as [|fuel IH]; intros w d c Hi Hkn Hne; [done|]. cbn [drainBatches].
  destruct (dequeue_nonempty userID w Hi Hkn Hne) as (e & events & w' & -> & (Hi' & Hp' & _) & Hsub).
  destruct (drain_batch_stuck userID (e :: events) Hdel w' d c Hi' Hsub) as [Hi2 Hp2].
  destruct (foldl _ _ (e :: events)) as [[w2 d2] c2] eqn:E. simpl in Hi2, Hp2.
  rewrite <-(IH w2 d2 c2); [by f_equal|done|done|]. by rewrite Hp2, Hp'.
Qed.

(** Nothing bounds the drain when the store cannot delete: with an event in
    the user's queue and every deletion refused, the loop sends the same
    events again for ever, whatever Trakt answers (no number of batches
    suffices for [drainUserQueue] to return). *)
Lemma drain_diverges_without_delete (userID : string) (fuel : nat) (w : W) (d : DrainStateTracker) :
  delete_refused → Inv w → known userID → pending w userID ≠ ∅ → drainUserQueue fuel userID (w, d) = None.
Proof using DF.
  intros Hdel Hi Hkn Hne. unfold drainUserQueue.
  pose proof (drain_now w Hi) as H1. destruct (D_Now w) as [t1 w1].
  pose proof (drain_now w1 ltac:(apply H1)) as H2. destruct (D_Now w1) as [now w2].
  pose proof (log_event_law "queue_drain_user_start" userID "" "" w2 ltac:(apply H2)) as H3.
  assert (same w (log_event "queue_drain_user_start" userID "" "" w2)) as (Hi3 & Hp & _)
    by (eapply kept_trans; [|exact H3]; by eapply kept_trans).
  by rewrite drainBatches_stuck by (by rewrite ?Hp).
Qed.
End DrainProofs.

(** ** The errors of [ScrobbleFromQueue] *)

(** The two error messages of [ScrobbleFromQueue] that carry a status. *)
Definition queue_error (code : Z) : error :=
  if transientStatus code then Errorf ("transient error: status " +:+ Itoa code)
  else Errorf ("scrobble failed with status " +:+ Itoa code).

Lemma queue_error_transient `{UnicodeTables} :
  Forall (λ code, isTransientError (Some (queue_error code)) =
                  bool_decide (code ∈ [429; 502; 503; 504])) (seqZ 100 900).
Proof. apply (bool_decide_unpack _). vm_compute. exact I. Qed.

(** The drain retries exactly what the client calls transient: for an answer
    with status [code] (three digits) other than 200 and 201,
    [ScrobbleFromQueue] returns an error that [isTransientError] accepts if
    and only if the status is 429, 502, 503 or 504. *)
Lemma drain_retries_transient_status {W : Type}
    `{UnicodeTables, JsonText, UrlText, Http W, ScrobbleStore W}
    (t : Trakt) (action : string) (item : CacheItem) (token : string) (w w' : W)
    (req : request) (resp : response) :
  scrobble_post t action (Body item) token = Ok req → Do req w = (Ok resp, w') →
  100 ≤ StatusCode resp < 1000 → StatusCode resp ∉ [200; 201] →
  ∃ err, ScrobbleFromQueue t action item token w = Ret (Some err, w') ∧
    (isTransientError (Some err) = true ↔ StatusCode resp ∈ [429; 502; 503; 504]).
Proof.
  intros Hp Hd Hc Hs. exists (queue_error (StatusCode resp)). split.
  - unfold ScrobbleFromQueue, queue_error. rewrite Hp, Hd, successStatus_spec.
    destruct (transientStatus (StatusCode resp)); [done|]. by rewrite bool_decide_eq_false_2.
  - pose proof queue_error_transient as Hf. rewrite Forall_forall in Hf.
    rewrite Hf by (apply elem_of_seqZ; lia). apply bool_decide_eq_true.
Qed.

(** ** Examples *)

(** A store in memory whose Trakt always gives the same answer; [can_delete]
    says whether deletions work. *)
Record Mem := mkMem {
  mem_queue : list QueuedScrobbleEvent;
  mem_sends : nat;
}.
Definition mem_of (u : string) (q : list QueuedScrobbleEvent) : list QueuedScrobbleEvent :=
  filter (λ e, E_UserID e = u) q.

Definition mem_store (can_delete : bool) (answer : option error) : DrainStore Mem := {|
  D_ListUsersWithQueuedEvents w := (Ok (remove_dups (E_UserID <$> mem_queue w)), w);
  D_DequeueScrobbles u n w := (Ok (take (Z.to_nat n) (mem_of u (mem_queue w))), w);
  D_DeleteQueuedScrobble id w :=
    if can_delete then (None, mkMem (filter (λ e, E_ID e ≠ id) (mem_queue w)) (mem_sends w))
    else (Some (Errorf "read-only file system"), w);
  D_UpdateQueuedScrobbleRetry id n w := (None, w);
  D_GetUser u w := (Some (mkUser u "sam" "token" "refresh" "" 0 0 true), w);
  D_ScrobbleFromQueue a c t w := (answer, mkMem (mem_queue w) (S (mem_sends w)));
  D_Append e w := w;
  D_Now w := (0, w);
  D_Sleep t w := w;
|}.

Definition mem_pending (w : Mem) (u : string) : gset string := list_to_set (E_ID <$> mem_of u (mem_queue w)).
Definition mem_inv (w : Mem) : Prop := NoDup (E_ID <$> mem_queue w).

Lemma mem_frame can_delete answer :
  DrainFrame Mem (DS:=mem_store can_delete answer) mem_inv mem_pending mem_sends (λ _, True).
Proof.
  split; try done. intros u n w Hi _ Hn.
  assert (Hnd : NoDup (E_ID <$> mem_of u (mem_queue w))).
  { eapply sublist_NoDup; [exact Hi|]. apply fmap_sublist, sublist_filter. }
  simpl. split; [done|]. eexists; split; [done|]. unfold mem_pending. rewrite fmap_take. split_and!.
  - eapply sublist_NoDup; [exact Hnd|apply sublist_take].
  - intros id. rewrite !elem_of_list_to_set. intros (i & ? & _)%elem_of_take. by eapply list_elem_of_lookup_2.
  - rewrite size_list_to_set by done. rewrite length_take, length_fmap. lia.
Qed.

Lemma mem_delete answer : DrainDelete Mem (DS:=mem_store true answer) mem_inv mem_pending mem_sends.
Proof.
  intros id u0 w Hi _. simpl. split_and!; [|done|].
  - eapply sublist_NoDup; [exact Hi|]. apply fmap_sublist, sublist_filter.
  - intros u. apply set_eq. intros x. unfold mem_pending, mem_of. simpl.
    rewrite elem_of_difference, !elem_of_list_to_set, elem_of_singleton, !list_elem_of_fmap.
    setoid_rewrite list_elem_of_filter. setoid_rewrite list_elem_of_filter. naive_solver.
Qed.

Definition mem0 : Mem := mkMem [sample_event "1"; sample_event "2"] 0.

Lemma drainUserQueue_empties_witness :
  ∃ w' d' c, drainUserQueue (H:=ascii_tables) (H0:=mem_store true (Some (Errorf "503"))) 3 "user"
      (mem0, NewDrainStateTracker) = Some (w', d', c) ∧
    mem_pending w' "user" = ∅ ∧ (mem_sends w' ≤ 10)%nat ∧ successCount c + failureCount c = 2.
Proof.
  destruct (drainUserQueue_empties (H:=ascii_tables) (DS:=mem_store true (Some (Errorf "503")))
              mem_inv mem_pending mem_sends (λ _, True) (DF:=mem_frame _ _) (DD:=mem_delete _) 3 "user" mem0
              NewDrainStateTracker)
    as (w' & d' & c & H1 & H2 & _ & H3 & H4 & _).
  - unfold mem_inv. apply (bool_decide_unpack _). by vm_compute.
  - exact I.
  - intros u v id. unfold mem_pending, mem_of, mem0. simpl. rewrite !filter_cons, filter_nil. simpl.
    destruct (decide ("user" = u)), (decide ("user" = v)); simpl; try congruence; set_solver.
  - by vm_compute.
  - vm_compute. lia.
  - exists w', d', c. split_and!; [exact H1|exact H2|exact H3|exact H4].
Defined.

Lemma drain_diverges_without_delete_witness :
  drainUserQueue (H:=ascii_tables) (H0:=mem_store false None) (Z.to_nat 1000000) "user"
    (mem0, NewDrainStateTracker) = None.
Proof.
  apply (drain_diverges_without_delete (H:=ascii_tables) (DS:=mem_store false None)
           mem_inv mem_pending mem_sends (λ _, True) (DF:=mem_frame _ _)).
  - intros id w Hi. done.
  - unfold mem_inv. apply (bool_decide_unpack _). by vm_compute.
  - exact I.
  - vm_compute. discriminate.
Defined.

#[local] Existing Instances ascii_tables tree_text net_http net_store plain_urls.

Lemma drain_retries_transient_status_witness :
  ∃ err, ScrobbleFromQueue (New "id" "secret") "stop" emptyCacheItem "token" unavailable =
      Ret (Some err, unavailable) ∧
    (isTransientError (Some err) = true ↔ 503 ∈ [429; 502; 503; 504]).
Proof.
  apply (drain_retries_transient_status (New "id" "secret") "stop" emptyCacheItem "token" unavailable unavailable
    (mkRequest "POST" ("https://api.trakt.tv/scrobble/" +:+ "stop") (api_headers (New "id" "secret") "token")
       (json_print (ScrobbleBody_MarshalJSON emptyBody)))
    (mkResponse 503 "503" "" None)).
  - reflexivity.
  - reflexivity.
  - simpl. lia.
  - rewrite !not_elem_of_cons. simpl. split_and!; [lia..|apply not_elem_of_nil].
Defined.
