(* ===== verification/DrainSystem.v ===== *)
(** * The drain system with its goroutines: [startQueueDrainSystem] of [main.go]

    The program drains the queue from several goroutines at once: one that
    starts a drain two seconds after start-up, one for every report of the
    health checker that Trakt is back, and one for each user that a drain
    finds.  Here each of them is a program counter ([goro]) that makes one call
    at a time on the shared store, the goroutines, the health checker and the
    listener take turns in any order, and requests that change the queue may
    come in between (PgRequests.v says which those are).  A goroutine that is left alone computes what Drain.v says
    ([alone_drains]).  Cancellation of the context, which only the end of the
    program causes, is left out. *)

From S2P Require Import Prelude GoLib Float Json Instances Common Entities Buffers Trakt Health Drain.

Open Scope Z_scope.

(** ** Goroutines *)

Inductive goro :=
(** the goroutine of the start-up, and [initiateQueueDrain] *)
| GBoot
| GInit
(** [drainUserQueue]: before its first line, before a batch, before the check
    for stale events *)
| GStart (u : string)
| GFetch (u : string) (c : drain_counts)
| GEvent (u : string) (e : QueuedScrobbleEvent) (rest : list QueuedScrobbleEvent) (c : drain_counts)
(** [sendEventWithRetry]: before reading the user, before the request, before
    the retry count is stored *)
| GUser (u : string) (e : QueuedScrobbleEvent) (rest : list QueuedScrobbleEvent) (attempt : Z) (c : drain_counts)
| GPost (u : string) (e : QueuedScrobbleEvent) (rest : list QueuedScrobbleEvent) (attempt : Z) (user : User) (c : drain_counts)
| GRetry (u : string) (e : QueuedScrobbleEvent) (rest : list QueuedScrobbleEvent) (attempt : Z) (c : drain_counts)
(** with the outcome of an event, and before its deletion *)
| GRecord (u : string) (e : QueuedScrobbleEvent) (rest : list QueuedScrobbleEvent) (err : option error) (c : drain_counts)
| GDelete (u : string) (e : QueuedScrobbleEvent) (rest : list QueuedScrobbleEvent) (c : drain_counts)
(** the deferred [RecordDrainComplete], and the end *)
| GFinish (u : string) (c : drain_counts)
| GDone.

Section Goroutines.
Context {W : Type} `{UnicodeTables, DrainStore W}.

(** The next event of a batch, or the next batch. *)
Definition next_event (u : string) (events : list QueuedScrobbleEvent) (c : drain_counts) : goro :=
  match events with [] => GFetch u c | e :: rest => GEvent u e rest c end.

(** What a goroutine does next: itself afterwards, the goroutines it starts,
    and the shared state. *)
Definition goro_step (g : goro) (st : W * DrainStateTracker) : goro * list goro * (W * DrainStateTracker) :=
  let '(w, d) := st in
  match g with
  | GBoot => (GInit, [], (D_Sleep (2 * Second) w, d))
  | GInit =>
      match D_ListUsersWithQueuedEvents w with
      | (Err _, w) => (GDone, [], (w, d))
      | (Ok userIDs, w) => (GDone, GStart <$> userIDs, (w, d))
      end
  | GStart u =>
      let '(_, w) := D_Now w in
      let '(now, w) := D_Now w in
      (GFetch u (mkCounts 0 0), [], (log_event "queue_drain_user_start" u "" "" w, RecordDrainStart u now d))
  | GFetch u c =>
      match D_DequeueScrobbles u 100 w with
      | (Err _, w) | (Ok [], w) => (GFinish u c, [], (w, d))
      | (Ok (e :: rest), w) => (GEvent u e rest c, [], (w, d))
      end
  | GEvent u e rest c => let '(_, w) := D_Now w in (GUser u e rest 0 c, [], (w, d))
  | GUser u e rest attempt c =>
      match D_GetUser (E_UserID e) w with
      | (None, w) => (GRecord u e rest (Some (Errorf ("user not found: " +:+ E_UserID e))) c, [], (w, d))
      | (Some user, w) => (GPost u e rest attempt user c, [], (w, d))
      end
  | GPost u e rest attempt user c =>
      let item := mkCacheItem (E_PlayerUUID e) "" (E_RatingKey e) "" (E_ScrobbleBody e) "" in
      let '(err, w) := sendScrobble (E_Action e) item user w in
      (match err with
       | None => GRecord u e rest None c
       | Some _ =>
           if negb (isTransientError err) then GRecord u e rest err c
           else if attempt <? 4 then GRetry u e rest attempt c
           else GRecord u e rest (Some (Errorf "max retries exceeded")) c
       end, [], (w, d))
  | GRetry u e rest attempt c =>
      let '(_, w) := D_UpdateQueuedScrobbleRetry (E_ID e) (attempt + 1) w in
      (GUser u e rest (attempt + 1) c, [],
       (D_Sleep (default 0 (backoffSchedule !! Z.to_nat attempt)) w, d))
  | GRecord u e rest err c =>
      match err with
      | Some x => (GDelete u e rest (mkCounts (successCount c) (wrap64 (failureCount c + 1))), [],
                   (log_event "queue_event_failed" u (E_ID e) (Error x) w, RecordEvent u false d))
      | None => (GDelete u e rest (mkCounts (wrap64 (successCount c + 1)) (failureCount c)), [],
                 (log_event "queue_event_scrobbled" u (E_ID e) "" w, RecordEvent u true d))
      end
  | GDelete u e rest c =>
      let '(_, w) := D_DeleteQueuedScrobble (E_ID e) w in
      (next_event u rest c, [], (D_Sleep (100 * 1000000) w, d))
  | GFinish u c => (GDone, [], (w, RecordDrainComplete u d))
  | GDone => (GDone, [], (w, d))
  end.

(** ** The system *)

(** [s_outcomes] records what became of an event each time one is accounted for. *)
Record system := mkSystem {
  s_world : W;
  s_tracker : DrainStateTracker;
  s_health : HealthChecker;
  s_goros : list goro;
  s_outcomes : list (string * option error);
}.

Definition startQueueDrainSystem (w : W) (d : DrainStateTracker) : system :=
  mkSystem w d NewHealthChecker [GBoot] [].

Definition outcome_of (g : goro) : list (string * option error) :=
  match g with GRecord _ e _ err _ => [(E_ID e, err)] | _ => [] end.

(** Goroutine [i] makes a step. *)
Definition run_goro (i : nat) (s : system) : system :=
  match s_goros s !! i with
  | None => s
  | Some g =>
      let '(g', new, (w, d)) := goro_step g (s_world s, s_tracker s) in
      mkSystem w d (s_health s) (<[i := g']> (s_goros s) ++ new) (s_outcomes s ++ outcome_of g)
  end.

(** The loop of [startQueueDrainSystem] receives a state. *)
Definition listen (s : system) : system :=
  match stateChan (s_health s) with
  | [] => s
  | v :: _ =>
      mkSystem (s_world s) (s_tracker s) (health_step Receive (s_health s))
        (s_goros s ++ (if bool_decide (v = "live") then [GInit] else [])) (s_outcomes s)
  end.

Definition tick (trakt : option (option error)) (now1 now2 now3 : Time) (s : system) : system :=
  mkSystem (s_world s) (s_tracker s) (health_step (Tick trakt now1 now2 now3) (s_health s)) (s_goros s) (s_outcomes s).

(** What can happen next; [arrive] is what requests do to the store meanwhile. *)
Inductive sys_step (arrive : W → W → Prop) (s : system) : system → Prop :=
| step_goro i g : s_goros s !! i = Some g → g ≠ GDone → sys_step arrive s (run_goro i s)
| step_listen v l : stateChan (s_health s) = v :: l → sys_step arrive s (listen s)
| step_tick trakt n1 n2 n3 : sys_step arrive s (tick trakt n1 n2 n3 s)
| step_arrive w : arrive (s_world s) w →
    sys_step arrive s (mkSystem w (s_tracker s) (s_health s) (s_goros s) (s_outcomes s)).

Definition nothing_arrives (w w' : W) : Prop := False.
Definition finished (s : system) : Prop := Forall (λ g, g = GDone) (s_goros s).

(** ** A goroutine on its own *)

Fixpoint alone (n : nat) (g : goro) (st : W * DrainStateTracker) : goro * (W * DrainStateTracker) :=
  match n with
  | O => (g, st)
  | S n => let '(g, _, st) := goro_step g st in alone n g st
  end.

Lemma alone_add n m g st : alone (n + m) g st = let '(g, st) := alone n g st in alone m g st.
Proof.
  revert g st. induction n as [|n IH]; intros g st; [done|]. simpl.
  destruct (goro_step g st) as [[g' new] st']. apply IH.
Qed.

Definition reaches (g : goro) (st : W * DrainStateTracker) (g' : goro) (st' : W * DrainStateTracker) : Prop :=
  ∃ n, alone n g st = (g', st').

Lemma reaches_step g st g' new st' g2 st2 :
  goro_step g st = (g', new, st') → reaches g' st' g2 st2 → reaches g st g2 st2.
Proof. intros E [n Hn]. exists (S n). simpl. by rewrite E. Qed.

Lemma reaches_trans g st g1 st1 g2 st2 : reaches g st g1 st1 → reaches g1 st1 g2 st2 → reaches g st g2 st2.
Proof. intros [n Hn] [m Hm]. exists (n + m)%nat. by rewrite alone_add, Hn. Qed.

Lemma reaches_refl g st : reaches g st g st.
Proof. by exists 0%nat. Qed.

Lemma send_alone u e rest c d : ∀ n attempt w, attempt = 5 - Z.of_nat n → (0 < n ≤ 5)%nat →
  reaches (GUser u e rest attempt c) (w, d) (GRecord u e rest (send_attempts n attempt e w).1 c)
    ((send_attempts n attempt e w).2, d).
Proof.
  induction n as [|n IH]; intros attempt w Ha Hn; [lia|]. cbn [send_attempts].
  destruct (D_GetUser (E_UserID e) w) as [[user|] w1] eqn:Eu;
    (eapply reaches_step; [simpl; rewrite Eu; reflexivity|]); [|apply reaches_refl].
  destruct (sendScrobble _ _ user w1) as [[x|] w2] eqn:Es;
    (eapply reaches_step; [simpl; rewrite Es; reflexivity|]); [|apply reaches_refl].
  destruct (negb (isTransientError (Some x))); [apply reaches_refl|].
  destruct (Z.ltb_spec attempt 4); cycle 1.
  { destruct n; [|lia]. apply reaches_refl. }
  destruct (D_UpdateQueuedScrobbleRetry _ _ w2) as [r w3] eqn:Er.
  eapply reaches_step; [simpl; rewrite Er; reflexivity|]. apply IH; lia.
Qed.

Lemma event_alone u e rest w d c :
  let '(w', d', c') := drainEvent u e (w, d, c) in
  reaches (GEvent u e rest c) (w, d) (next_event u rest c') (w', d').
Proof.
  unfold drainEvent. destruct (D_Now w) as [now w1] eqn:En. unfold sendEventWithRetry.
  pose proof (send_alone u e rest c d 5 0 w1 eq_refl ltac:(lia)) as Hsend.
  destruct (send_attempts 5 0 e w1) as [err w2]. simpl in Hsend.
  destruct err as [x|];
    match goal with |- context [D_DeleteQueuedScrobble _ ?w3] =>
      destruct (D_DeleteQueuedScrobble (E_ID e) w3) as [r w4] eqn:Ed end;
    (eapply reaches_step; [simpl; rewrite En; reflexivity|]); (eapply reaches_trans; [exact Hsend|]);
    (eapply reaches_step; [reflexivity|]); (eapply reaches_step; [simpl; rewrite Ed; reflexivity|]); apply reaches_refl.
Qed.

Lemma batch_alone u rest : ∀ w d c,
  let '(w', d', c') := foldl (λ st e, drainEvent u e st) (w, d, c) rest in
  reaches (next_event u rest c) (w, d) (GFetch u c') (w', d').
Proof.
  induction rest as [|e rest IH]; intros w d c; [apply reaches_refl|]. cbn [foldl next_event].
  pose proof (event_alone u e rest w d c) as He. destruct (drainEvent u e (w, d, c)) as [[w1 d1] c1].
  specialize (IH w1 d1 c1). destruct (foldl _ _ rest) as [[w2 d2] c2]. by eapply reaches_trans.
Qed.

Lemma batches_alone u fuel : ∀ w d c w' d' c',
  drainBatches fuel u (w, d, c) = Some (w', d', c') → reaches (GFetch u c) (w, d) (GFinish u c') (w', d').
Proof.
  induction fuel as [|fuel IH]; intros w d c w' d' c' E; [done|]. cbn [drainBatches] in E.
  destruct (D_DequeueScrobbles u 100 w) as [[[|e rest]|x] w1] eqn:Ed; simplify_eq;
    (eapply reaches_step; [simpl; rewrite Ed; reflexivity|]); [apply reaches_refl| |apply reaches_refl].
  pose proof (batch_alone u (e :: rest) w1 d c) as Hb.
  destruct (foldl _ _ (e :: rest)) as [[w2 d2] c2]. eapply reaches_trans; [exact Hb|]. by apply IH.
Qed.

(** A goroutine of [drainUserQueue] that runs on its own does what the
    function says. *)
Lemma alone_drains fuel u w d w' d' c :
  drainUserQueue fuel u (w, d) = Some (w', d', c) → reaches (GStart u) (w, d) GDone (w', d').
Proof.
  unfold drainUserQueue. intros E. destruct (D_Now w) as [t1 w1] eqn:E1. destruct (D_Now w1) as [t2 w2] eqn:E2.
  eapply reaches_step; [simpl; rewrite E1, E2; reflexivity|].
  destruct (drainBatches fuel u _) as [[[w3 d3] c3]|] eqn:Eb; [|done]. simplify_eq.
  eapply reaches_trans; [by eapply batches_alone|]. eapply reaches_step; [reflexivity|]. apply reaches_refl.
Qed.
End Goroutines.

(** The event a goroutine is about to delete. *)
Definition deleting (g : goro) : gset string :=
  match g with GDelete _ e _ _ => {[E_ID e]} | _ => ∅ end.

(** ** Nothing leaves the queue unaccounted for *)

(** What a store does to the queue, whether or not a call succeeds: only a
    deletion removes events, and no other than the one that it names. *)
Class DrainKeeps (W : Type) `{DS : DrainStore W} (pending : W → string → gset string) : Prop := {
  keeps_list w u : pending w u ⊆ pending (D_ListUsersWithQueuedEvents w).2 u;
  keeps_dequeue v n w u : pending w u ⊆ pending (D_DequeueScrobbles v n w).2 u;
  keeps_retry id n w u : pending w u ⊆ pending (D_UpdateQueuedScrobbleRetry id n w).2 u;
  keeps_user v w u : pending w u ⊆ pending (D_GetUser v w).2 u;
  keeps_send a c t w u : pending w u ⊆ pending (D_ScrobbleFromQueue a c t w).2 u;
  keeps_append e w u : pending w u ⊆ pending (D_Append e w) u;
  keeps_now w u : pending w u ⊆ pending (D_Now w).2 u;
  keeps_sleep t w u : pending w u ⊆ pending (D_Sleep t w) u;
  keeps_delete id w u : pending w u ⊆ pending (D_DeleteQueuedScrobble id w).2 u ∪ {[id]};
}.

Section NotLost.
Context {W : Type} `{UnicodeTables, DS : DrainStore W}.
(** The requests that arrive, and what they do to the store. *)
Context {R : Type} (request : R → W → W).

(** An event about to be deleted has been accounted for. *)
Definition accounted (s : @system W) : gset string := list_to_set (s_outcomes s).*1.
Definition recorded (s : @system W) : Prop := Forall (λ g, deleting g ⊆ accounted s) (s_goros s).

Lemma run_goro_spec i g (s : @system W) :
  s_goros s !! i = Some g →
  ∃ g' new w d, goro_step g (s_world s, s_tracker s) = (g', new, (w, d)) ∧
    run_goro i s = mkSystem w d (s_health s) (<[i := g']> (s_goros s) ++ new) (s_outcomes s ++ outcome_of g).
Proof.
  intros Hg. unfold run_goro. rewrite Hg. destruct (goro_step g _) as [[g' new] [w d]]. by exists g', new, w, d.
Qed.

(** The next program counter deletes what has just been accounted for, if anything. *)
Lemma goro_step_deleting g (st : W * DrainStateTracker) g' new st' :
  goro_step g st = (g', new, st') →
  deleting g' ⊆ list_to_set (outcome_of g).*1 ∧ Forall (λ g, deleting g = ∅) new.
Proof.
  destruct st as [w d]. intros E. destruct g; simpl in E; repeat case_match; simplify_eq;
    rewrite ?Forall_fmap; split; try done; try (by apply Forall_true); simpl; try set_solver.
  by destruct rest.
Qed.

(** Whose turn it is: a goroutine, the listener, a check of the health checker
    or a request.  A turn of somebody who has nothing to do changes nothing. *)
Inductive turn :=
| TGoro (i : nat)
| TListen
| TTick (trakt : option (option error)) (now1 now2 now3 : Time)
| TRequest (r : R).

Definition take_turn (s : @system W) (a : turn) : system :=
  match a with
  | TGoro i => run_goro i s
  | TListen => listen s
  | TTick trakt n1 n2 n3 => tick trakt n1 n2 n3 s
  | TRequest r => mkSystem (request r (s_world s)) (s_tracker s) (s_health s) (s_goros s) (s_outcomes s)
  end.
Definition take_turns (turns : list turn) (s : @system W) : system := foldl take_turn s turns.

Lemma take_turn_outcomes a s : accounted s ⊆ accounted (take_turn s a).
Proof.
  destruct a as [i| |trakt n1 n2 n3|r]; [|by simpl; unfold listen; case_match|done|done]. simpl.
  destruct (s_goros s !! i) as [g|] eqn:Hl; [|unfold run_goro; by rewrite Hl].
  destruct (run_goro_spec i g s Hl) as (g' & new & w & d & E & ->).
  unfold accounted. simpl. rewrite fmap_app, list_to_set_app_L. set_solver.
Qed.

Lemma take_turn_recorded a s : recorded s → recorded (take_turn s a).
Proof.
  intros Hr. destruct a as [i| |trakt n1 n2 n3|r]; [| |done|done]; simpl.
  - destruct (s_goros s !! i) as [g|] eqn:Hl; [|unfold run_goro; by rewrite Hl].
    destruct (run_goro_spec i g s Hl) as (g' & new & w & d & E & ->).
    destruct (goro_step_deleting _ _ _ _ _ E) as [Hd' Hnd].
    unfold recorded, accounted in *. simpl. rewrite fmap_app, list_to_set_app_L. apply Forall_app. split.
    + apply Forall_insert; [|set_solver]. eapply Forall_impl; [exact Hr|]. set_solver.
    + eapply Forall_impl; [exact Hnd|]. simpl. intros g0 ->. set_solver.
  - unfold listen. case_match; [done|]. unfold recorded. simpl. apply Forall_app. split; [done|].
    case_bool_decide; repeat constructor. simpl. set_solver.
Qed.

Lemma take_turns_recorded turns : ∀ s, recorded s → recorded (take_turns turns s).
Proof. induction turns as [|a turns IH]; intros s Hr; [done|]. by apply IH, take_turn_recorded. Qed.

Lemma start_recorded w d : recorded (startQueueDrainSystem w d).
Proof. repeat constructor. set_solver. Qed.

Lemma elem_of_accounted s id : id ∈ accounted s ↔ ∃ err, (id, err) ∈ s_outcomes s.
Proof.
  unfold accounted. rewrite elem_of_list_to_set, list_elem_of_fmap. split.
  - intros ([id' err] & -> & Hin). by exists err.
  - intros (err & Hin). by exists (id, err).
Qed.
Context (pending : W → string → gset string) {DK : DrainKeeps W pending}.

Lemma keeps_log op v id e w u : pending w u ⊆ pending (log_event op v id e w) u.
Proof using DK.
  unfold log_event. pose proof (keeps_now w u) as Hn. destruct (D_Now w) as [now w1].
  etrans; [exact Hn|apply keeps_append].
Qed.

(** One step of a goroutine. *)
Lemma goro_step_keeps g w d g' new w' d' u :
  goro_step g (w, d) = (g', new, (w', d')) → pending w u ⊆ pending w' u ∪ deleting g.
Proof using DK.
  intros E. cut (pending w u ∖ deleting g ⊆ pending w' u).
  { intros Hs x Hx. destruct (decide (x ∈ deleting g)); set_solver. }
  destruct g; simpl in E; cbn [deleting]; rewrite ?difference_empty_L.
  - simplify_eq. apply keeps_sleep.
  - pose proof (keeps_list w u) as Hk. destruct (D_ListUsersWithQueuedEvents w) as [[?|?] ?]; by simplify_eq.
  - pose proof (keeps_now w u) as H1. destruct (D_Now w) as [t1 w1].
    pose proof (keeps_now w1 u) as H2. destruct (D_Now w1) as [t2 w2]. simplify_eq.
    etrans; [exact H1|]. etrans; [exact H2|]. apply keeps_log.
  - pose proof (keeps_dequeue u0 100 w u) as Hk.
    destruct (D_DequeueScrobbles u0 100 w) as [[[|??]|?] ?]; by simplify_eq.
  - pose proof (keeps_now w u) as H1. destruct (D_Now w) as [t1 w1]. by simplify_eq.
  - pose proof (keeps_user (E_UserID e) w u) as Hk. destruct (D_GetUser _ w) as [[?|] ?]; by simplify_eq.
  - unfold sendScrobble in E. match type of E with context [D_ScrobbleFromQueue ?a ?c ?t w] =>
      pose proof (keeps_send a c t w u) as Hk; destruct (D_ScrobbleFromQueue a c t w) as [err w2] end.
    by simplify_eq.
  - pose proof (keeps_retry (E_ID e) (attempt + 1) w u) as Hk.
    destruct (D_UpdateQueuedScrobbleRetry _ _ w) as [r w1]. simplify_eq. etrans; [exact Hk|apply keeps_sleep].
  - destruct err; simplify_eq; apply keeps_log.
  - pose proof (keeps_delete (E_ID e) w u) as Hk. destruct (D_DeleteQueuedScrobble _ w) as [r w1].
    simplify_eq. etrans; [|apply keeps_sleep]. set_solver.
  - by simplify_eq.
  - by simplify_eq.
Qed.

(** A request that takes the event away. *)
Definition takes_away (r : R) (w : W) (u id : string) : Prop :=
  id ∈ pending w u ∧ id ∉ pending (request r w) u.

Lemma take_turn_accounts a s u id :
  recorded s → id ∈ pending (s_world s) u →
  id ∈ pending (s_world (take_turn s a)) u ∨ id ∈ accounted (take_turn s a) ∨
  ∃ r, a = TRequest r ∧ takes_away r (s_world s) u id.
Proof using DK.
  intros Hr Hid. pose proof (take_turn_outcomes a s) as Ho.
  destruct a as [i| |trakt n1 n2 n3|r]; simpl in *.
  - destruct (s_goros s !! i) as [g|] eqn:Hl; [|left; unfold run_goro; by rewrite Hl].
    assert (deleting g ⊆ accounted s) as Hgr by (unfold recorded in Hr; rewrite Forall_lookup in Hr; eauto).
    destruct (run_goro_spec i g s Hl) as (g' & new & w & d & E & Hrun).
    pose proof (goro_step_keeps _ _ _ _ _ _ _ u E id Hid) as Hk. rewrite Hrun in *. simpl. set_solver.
  - left. unfold listen. by case_match.
  - by left.
  - destruct (decide (id ∈ pending (request r (s_world s)) u)); [by left|]. right. right. by exists r.
Qed.

(** Whatever the order of the turns, an event that has left the queue of its
    user was accounted for by a goroutine, as sent or as given up, or taken
    away by one of the requests. *)
Lemma turns_account u id turns : ∀ s,
  recorded s → id ∈ pending (s_world s) u ∨ id ∈ accounted s →
  id ∈ pending (s_world (take_turns turns s)) u ∨ id ∈ accounted (take_turns turns s) ∨
  ∃ before r after, turns = before ++ TRequest r :: after ∧
    takes_away r (s_world (take_turns before s)) u id.
Proof using DK.
  induction turns as [|a turns IH]; intros s Hr Hst; [tauto|].
  assert ((id ∈ pending (s_world (take_turn s a)) u ∨ id ∈ accounted (take_turn s a)) ∨
    ∃ r, a = TRequest r ∧ takes_away r (s_world s) u id) as [Hn|(r & -> & Ht)].
  { destruct Hst as [Hid|Ha]; [destruct (take_turn_accounts a s u id Hr Hid); tauto|].
    left. right. by apply take_turn_outcomes. }
  - destruct (IH _ (take_turn_recorded a s Hr) Hn) as [?|[?|(b & r & c & -> & Ht)]]; [by left|by right; left|].
    right. right. by exists (a :: b), r, c.
  - right. right. by exists [], r, turns.
Qed.

End NotLost.
Arguments turn : clear implicits.

(** ** Several goroutines on one store *)

(** What the goroutines rely on when they share the store: updating or
    deleting an event that another goroutine has deleted does nothing, and
    every user with events is listed. *)
Class DrainShared (W : Type) `{DS : DrainStore W} (Inv : W → Prop)
    (pending : W → string → gset string) (sends : W → nat) (known : string → Prop) : Prop := {
  shared_list w : Inv w →
    let '(r, w') := D_ListUsersWithQueuedEvents w in
    kept Inv pending sends w w' ∧
    ∃ us, r = Ok us ∧ (∀ u, pending w u ≠ ∅ → u ∈ us) ∧ Forall known us;
  shared_retry id n w : Inv w → 1 ≤ n ≤ 4 → kept Inv pending sends w (D_UpdateQueuedScrobbleRetry id n w).2;
  shared_delete id w : Inv w →
    let w' := (D_DeleteQueuedScrobble id w).2 in
    Inv w' ∧ sends w' = sends w ∧ ∀ v, pending w' v = pending w v ∖ {[id]};
}.

(** The user a goroutine drains, and the events of its batch. *)
Definition user_of (g : goro) : option string :=
  match g with
  | GStart u | GFetch u _ | GEvent u _ _ _ | GUser u _ _ _ _ | GPost u _ _ _ _ _ | GRetry u _ _ _ _
  | GRecord u _ _ _ _ | GDelete u _ _ _ => Some u
  | _ => None
  end.
Definition held (g : goro) : list QueuedScrobbleEvent :=
  match g with
  | GEvent _ e rest _ | GUser _ e rest _ _ | GPost _ e rest _ _ _ | GRetry _ e rest _ _ | GRecord _ e rest _ _
  | GDelete _ e rest _ => e :: rest
  | _ => []
  end.
(** A goroutine that has still to list the users. *)
Definition initiator (g : goro) : bool := match g with GBoot | GInit => true | _ => false end.

(** Attempts are counted from 0 to 4. *)
Definition attempts_ok (g : goro) : Prop :=
  match g with
  | GUser _ _ _ a _ | GPost _ _ _ a _ _ => 0 ≤ a ≤ 4
  | GRetry _ _ _ a _ => 0 ≤ a < 4
  | _ => True
  end.

(** The calls that are left until the batch of a goroutine is done. *)
Definition rank (g : goro) : nat :=
  match g with
  | GEvent _ _ _ _ => 17
  | GUser _ _ _ a _ => 4 + 3 * Z.to_nat (4 - a)
  | GPost _ _ _ a _ _ => 3 + 3 * Z.to_nat (4 - a)
  | GRetry _ _ _ a _ => 2 + 3 * Z.to_nat (4 - a)
  | GRecord _ _ _ _ _ => 2
  | GDelete _ _ _ _ => 1
  | GStart _ => 3
  | GFetch _ _ => 2
  | GFinish _ _ => 1
  | _ => 0
  end.

Section Concurrent.
Context {W : Type} `{UnicodeTables, DS : DrainStore W}.
Context (Inv : W → Prop) (pending : W → string → gset string) (sends : W → nat) (known : string → Prop).
Context {DF : DrainFrame W Inv pending sends known} {SH : DrainShared W Inv pending sends known}.

Definition goro_ok (g : goro) : Prop := attempts_ok g ∧ ∀ u, user_of g = Some u → known u.
Definition sys_ok (s : @system W) : Prop := Inv (s_world s) ∧ Forall goro_ok (s_goros s).

(** One step of a goroutine: what it deletes leaves the queue, and nothing else does. *)
Lemma goro_step_world g w d g' new w' d' :
  goro_step g (w, d) = (g', new, (w', d')) → Inv w → goro_ok g →
  Inv w' ∧ (∀ v, pending w' v = pending w v ∖ deleting g) ∧ goro_ok g' ∧ Forall goro_ok new.
Proof using DF SH.
  intros E Hi [Ha Hk].
  assert (∀ w', kept Inv pending sends w w' → Inv w' ∧ ∀ v, pending w' v = pending w v ∖ ∅) as K.
  { intros w1 (? & Hp & _). split; [done|]. intros v. by rewrite Hp, difference_empty_L. }
  rewrite (assoc (∧)). destruct g; simpl in E.
  - simplify_eq. split; [|done]. apply K, drain_sleep, Hi.
  - pose proof (shared_list w Hi) as Hl. destruct (D_ListUsersWithQueuedEvents w) as [r w1].
    destruct Hl as (Hkept & us & -> & _ & Hus). simplify_eq. split; [by apply K|]. split; [done|].
    apply Forall_fmap. eapply Forall_impl; [exact Hus|]. intros u Hu. split; [done|]. by intros ? [= <-].
  - pose proof (drain_now w Hi) as H1. destruct (D_Now w) as [t1 w1].
    pose proof (drain_now w1 ltac:(apply H1)) as H2. destruct (D_Now w1) as [t2 w2]. simplify_eq.
    split; [|by split; [split; [|exact Hk]|]]. apply K. eapply kept_trans; [|apply (log_event_law Inv pending sends known), H2].
    by eapply kept_trans.
  - pose proof (drain_dequeue u 100 w Hi (Hk u eq_refl) ltac:(by vm_compute)) as Hd.
    destruct (D_DequeueScrobbles u 100 w) as [r w1]. destruct Hd as (Hkept & events & -> & _).
    destruct events as [|e rest]; simplify_eq; (split; [by apply K|]); (split; [|done]); by split.
  - pose proof (drain_now w Hi) as H1. destruct (D_Now w) as [t1 w1]. simplify_eq. split; [by apply K|].
    split; [|done]. split; [simpl; lia|exact Hk].
  - pose proof (drain_user (E_UserID e) w Hi) as H1. destruct (D_GetUser (E_UserID e) w) as [[user|] w1];
      simplify_eq; (split; [by apply K|]); (split; [|done]); by split.
  - unfold sendScrobble in E.
    match type of E with context [D_ScrobbleFromQueue ?a ?c ?t w] =>
      destruct (drain_send a c t w Hi) as (Hi2 & Hp2 & _); destruct (D_ScrobbleFromQueue a c t w) as [err w2] end.
    simplify_eq. cbn [deleting].
    split; [split; [done|]; intros v; by rewrite Hp2, difference_empty_L|]. split; [|done].
    simpl in Ha. destruct err as [x|]; [|by split]. destruct (negb _); [by split|].
    destruct (Z.ltb_spec attempt 4); split; done || (simpl; lia).
  - simpl in Ha. pose proof (shared_retry (E_ID e) (attempt + 1) w Hi ltac:(lia)) as Hr.
    destruct (D_UpdateQueuedScrobbleRetry (E_ID e) (attempt + 1) w) as [r w1]. simplify_eq.
    split; [|split; [split; [simpl; lia|exact Hk]|done]]. apply K. eapply kept_trans; [exact Hr|].
    apply drain_sleep, Hr.
  - destruct err; simplify_eq; (split; [apply K; by apply (log_event_law Inv pending sends known)|]); (split; [|done]); by split.
  - pose proof (shared_delete (E_ID e) w Hi) as Hdel.
    destruct (D_DeleteQueuedScrobble (E_ID e) w) as [r w1]. destruct Hdel as (Hi1 & _ & Hp1). simpl in Hi1, Hp1.
    simplify_eq. destruct (drain_sleep (100 * 1000000) w1 Hi1) as (Hi2 & Hp2 & _).
    split; [split; [done|]; intros v; by rewrite Hp2, Hp1|]. split; [|done].
    destruct rest; (split; [done|exact Hk]).
  - simplify_eq. split; [by apply K, kept_refl|done].
  - simplify_eq. split; [by apply K, kept_refl|done].
Qed.

(** An upper bound of the calls a goroutine has still to make: those for the
    batch it holds and those for the events it may find afterwards. *)
Definition ids (events : list QueuedScrobbleEvent) : gset string := list_to_set (E_ID <$> events).
Definition weight (w : W) (g : goro) : nat :=
  rank g + 18 * List.length (tail (held g)) + (match held g with [] => 0 | _ => 3 end) +
  match user_of g with Some u => 19 * size (pending w u ∖ ids (held g)) | None => 0 end.

Lemma weight_mono w w' g : (∀ u, pending w' u ⊆ pending w u) → (weight w' g ≤ weight w g)%nat.
Proof.
  intros Hp. unfold weight. destruct (user_of g) as [u|]; [|done].
  pose proof (subseteq_size (pending w' u ∖ ids (held g)) (pending w u ∖ ids (held g)) ltac:(set_solver)). lia.
Qed.

Lemma ids_cons e rest : ids (e :: rest) = {[E_ID e]} ∪ ids rest.
Proof. done. Qed.

Lemma ids_nil : ids [] = ∅.
Proof. done. Qed.

Lemma ids_size events (P : gset string) :
  NoDup (E_ID <$> events) → ids events ⊆ P → (size (P ∖ ids events) + List.length events = size P)%nat.
Proof.
  intros Hnd Hsub. rewrite size_difference by done. pose proof (subseteq_size _ _ Hsub) as Hs. unfold ids in *.
  rewrite size_list_to_set, length_fmap in * by done. lia.
Qed.

(** Each step of a drain uses up weight. *)
Lemma weight_decreases g w d g' new w' d' :
  goro_step g (w, d) = (g', new, (w', d')) → Inv w → goro_ok g → initiator g = false → g ≠ GDone →
  new = [] ∧ (weight w' g' < weight w g)%nat.
Proof using DF SH.
  intros E Hi Hg Hin Hd. destruct (goro_step_world _ _ _ _ _ _ _ E Hi Hg) as (_ & Hp & Hg' & _).
  destruct Hg as [Ha Hk]. unfold weight.
  destruct g; try done; simpl in E, Ha, Hp.
  - destruct (D_Now w) as [t1 w1]. destruct (D_Now w1) as [t2 w2]. simplify_eq. split; [done|]. simpl.
    rewrite Hp, !difference_empty_L. lia.
  - pose proof (drain_dequeue u 100 w Hi (Hk u eq_refl) ltac:(by vm_compute)) as Hdq.
    destruct (D_DequeueScrobbles u 100 w) as [r w1]. destruct Hdq as (_ & events & -> & Hnd & Hsub & Hlen).
    destruct events as [|e rest]; simplify_eq; (split; [done|]); simpl; [lia|].
    rewrite Hp, difference_empty_L, ids_nil, difference_empty_L. pose proof (ids_size (e :: rest) _ Hnd Hsub) as Hs.
    simpl in Hs. lia.
  - destruct (D_Now w) as [t1 w1]. simplify_eq. split; [done|]. simpl. rewrite Hp, difference_empty_L. lia.
  - destruct (D_GetUser (E_UserID e) w) as [[user|] w1]; simplify_eq; (split; [done|]); simpl;
      rewrite Hp, difference_empty_L; lia.
  - destruct (sendScrobble _ _ user w) as [err w2]. simplify_eq. split; [done|].
    destruct err as [x|]; [destruct (negb _); [|destruct (Z.ltb_spec attempt 4)]|]; simpl;
      rewrite Hp, difference_empty_L; lia.
  - destruct (D_UpdateQueuedScrobbleRetry _ _ w) as [r w1]. simplify_eq. split; [done|]. simpl.
    rewrite Hp, difference_empty_L. lia.
  - destruct err; simplify_eq; (split; [done|]); simpl; rewrite Hp, difference_empty_L; lia.
  - destruct (D_DeleteQueuedScrobble (E_ID e) w) as [r w1]. simplify_eq. split; [done|].
    destruct rest as [|e' rest]; simpl; rewrite Hp, difference_difference_l_L, (ids_cons e); [|lia].
    lia.
  - simplify_eq. split; [done|]. simpl. lia.
Qed.

(** ** Invariants of the system *)

(** Requests leave a store that keeps its promises. *)
Definition keeps_inv (arrive : W → W → Prop) : Prop := ∀ w w', arrive w w' → Inv w → Inv w'.

Lemma sys_step_ok arrive s s' : keeps_inv arrive → sys_ok s → sys_step arrive s s' → sys_ok s'.
Proof using DF SH.
  intros Harr [Hi Hg] Hs. destruct Hs as [i g Hl Hd|v l Hc|trakt n1 n2 n3|w Hw].
  - destruct (run_goro_spec i g s Hl) as (g' & new & w & d & E & ->).
    assert (goro_ok g) as Hgg by (rewrite Forall_lookup in Hg; eauto).
    destruct (goro_step_world _ _ _ _ _ _ _ E Hi Hgg) as (Hi' & _ & Hg' & Hn).
    split; [done|]. simpl. apply Forall_app. split; [by apply Forall_insert|done].
  - unfold listen. rewrite Hc. split; [done|]. simpl. apply Forall_app. split; [done|].
    case_bool_decide; by repeat constructor.
  - done.
  - split; [by eapply Harr|done].
Qed.

Lemma sys_run_ok arrive s s' : keeps_inv arrive → rtc (sys_step arrive) s s' → sys_ok s → sys_ok s'.
Proof using DF SH. intros Harr. induction 1; eauto using sys_step_ok. Qed.

Lemma start_ok w d : Inv w → sys_ok (startQueueDrainSystem w d).
Proof. intros Hi. split; [done|]; repeat constructor; simpl; done. Qed.

(** ** Who drains a user *)

(** Somebody will look at the queue of [u] again, or it is empty. *)
Definition covered (s : @system W) (u : string) : Prop :=
  pending (s_world s) u = ∅ ∨ ∃ i g, s_goros s !! i = Some g ∧ user_of g = Some u.
Definition all_covered (s : @system W) : Prop :=
  (∃ i g, s_goros s !! i = Some g ∧ initiator g = true) ∨ ∀ u, covered s u.

Lemma goro_step_user g w d g' new w' d' u :
  goro_step g (w, d) = (g', new, (w', d')) → Inv w → goro_ok g → user_of g = Some u →
  user_of g' = Some u ∨ pending w' u = ∅.
Proof using DF SH.
  intros E Hi Hg Hu. destruct (goro_step_world _ _ _ _ _ _ _ E Hi Hg) as (_ & Hp & _).
  destruct Hg as [_ Hk]. destruct g; simplify_eq/=; repeat case_match; simplify_eq/=; auto;
    try (by destruct rest; auto).
  all: right; match goal with HD : D_DequeueScrobbles ?v 100 ?w0 = _ |- _ =>
    pose proof (drain_dequeue v 100 w0 Hi (Hk v eq_refl) ltac:(by vm_compute)) as Hd; rewrite HD in Hd end;
    destruct Hd as (_ & events & ? & _ & _ & Hl); simplify_eq/=.
  rewrite Hp, difference_empty_L. apply leibniz_equiv, size_empty_inv. lia.
Qed.

(** A goroutine that does not make the step is still there after it. *)
Lemma run_goro_other i j g g0 s :
  s_goros s !! i = Some g → s_goros s !! j = Some g0 → i ≠ j → s_goros (run_goro (W:=W) i s) !! j = Some g0.
Proof.
  intros Hi Hj Hne. destruct (run_goro_spec i g s Hi) as (g' & new & w & d & _ & ->). simpl.
  apply lookup_app_l_Some. by rewrite list_lookup_insert_ne.
Qed.

Lemma covered_run i g s u :
  sys_ok s → s_goros s !! i = Some g → covered s u → covered (run_goro i s) u.
Proof using DF SH.
  intros [Hi Hg] Hl Hc. destruct (run_goro_spec i g s Hl) as (g' & new & w & d & E & Hrun).
  assert (goro_ok g) as Hgg by (rewrite Forall_lookup in Hg; eauto).
  destruct (goro_step_world _ _ _ _ _ _ _ E Hi Hgg) as (_ & Hp & _).
  destruct Hc as [He|(j & g0 & Hj & Hu)].
  { left. rewrite Hrun. simpl. rewrite Hp, He. set_solver. }
  destruct (decide (i = j)) as [->|Hne].
  - simplify_eq. destruct (goro_step_user _ _ _ _ _ _ _ u E Hi Hgg Hu) as [Hu'|He]; [right|left; by rewrite Hrun].
    exists j, g'. split; [|done]. rewrite Hrun. simpl. apply lookup_app_l_Some.
    apply list_lookup_insert_eq. by eapply lookup_lt_Some.
  - right. exists j, g0. split; [|done]. by eapply run_goro_other.
Qed.

(** The goroutines of a drain cover all users once it has listed them. *)
Lemma all_covered_step s s' :
  sys_ok s → all_covered s → sys_step nothing_arrives s s' → all_covered s'.
Proof using DF SH.
  intros Hok Hc Hs. destruct Hs as [i g Hl Hd|v l Hv| |]; [| |done|done]; cycle 1.
  { unfold listen. rewrite Hv. destruct Hc as [(j & g & Hj & Hg)|Hc].
    - left. exists j, g. split; [|done]. simpl. by apply lookup_app_l_Some.
    - right. intros u. destruct (Hc u) as [?|(j & g & Hj & Hg)]; [by left|]. right. exists j, g.
      split; [|done]. simpl. by apply lookup_app_l_Some. }
  destruct Hc as [(j & g0 & Hj & Hg)|Hc]; [|right; intros u; by eapply covered_run].
  destruct (decide (i = j)) as [<-|Hne]; [|left; exists j, g0; split; [by eapply run_goro_other|done]].
  rewrite Hj in Hl. injection Hl as <-. destruct (run_goro_spec i g0 s Hj) as (g' & new & w & d & E & ->).
  assert (i < List.length (s_goros s))%nat as Hlt by (by eapply lookup_lt_Some).
  destruct g0; try done; simpl in E.
  - simplify_eq. left. exists i, GInit. split; [|done]. simpl. apply lookup_app_l_Some.
    by apply list_lookup_insert_eq.
  - destruct Hok as [Hi _]. pose proof (shared_list _ Hi) as Hlist.
    destruct (D_ListUsersWithQueuedEvents (s_world s)) as [r w1]. destruct Hlist as ((_ & Hp & _) & us & -> & Hall & _).
    simplify_eq. right. intros u. destruct (decide (pending (s_world s) u = ∅)) as [He|Hne].
    { left. simpl. by rewrite Hp. }
    right. apply Hall, list_elem_of_lookup in Hne as [k Hk].
    exists (List.length (s_goros s) + k)%nat, (GStart u). split; [|done]. simpl.
    rewrite lookup_app_r by (rewrite length_insert; lia). rewrite length_insert.
    replace (_ + k - _)%nat with k by lia. by rewrite list_lookup_fmap, Hk.
Qed.

Lemma nothing_keeps_inv : keeps_inv nothing_arrives.
Proof. by intros ? ?. Qed.

Lemma all_covered_run s s' :
  rtc (sys_step nothing_arrives) s s' → sys_ok s → all_covered s → all_covered s'.
Proof using DF SH.
  induction 1 as [|s s1 s2 Hs _ IH]; intros Hok Hc; [done|].
  apply IH; [by eapply sys_step_ok, Hs; [apply nothing_keeps_inv|]|]. by apply (all_covered_step s s1).
Qed.

Lemma covered_finished s : all_covered s → finished s → ∀ u, pending (s_world s) u = ∅.
Proof.
  intros Hc Hf u. unfold finished in Hf. rewrite Forall_lookup in Hf.
  destruct Hc as [(i & g & Hi & Hg)|Hc]; [by rewrite (Hf _ _ Hi) in Hg|].
  destruct (Hc u) as [?|(i & g & Hi & Hg)]; [done|]. by rewrite (Hf _ _ Hi) in Hg.
Qed.

(** ** The theorems *)

(** C9: the drain at start-up and every report that Trakt is back empty the
    queue: once all goroutines have ended without further events arriving, no
    user has a queued event, whatever the order of their steps was and however
    many drains ran at once. *)
Theorem restored_queue_drained (arrive : W → W → Prop) (w : W) (d : DrainStateTracker) (s s' : @system W) (l : list string) :
  keeps_inv arrive → Inv w → rtc (sys_step arrive) (startQueueDrainSystem w d) s →
  s = startQueueDrainSystem w d ∧ rtc (sys_step nothing_arrives) s s' ∨
  stateChan (s_health s) = "live" :: l ∧ rtc (sys_step nothing_arrives) (listen s) s' →
  finished s' → ∀ u, pending (s_world s') u = ∅.
Proof using DF SH.
  intros Ha Hi H1 H2 Hf.
  assert (sys_ok s) as Hok by (eapply sys_run_ok; [exact Ha|exact H1|by apply start_ok]).
  apply covered_finished; [|done]. destruct H2 as [[-> H2]|[Hc H2]].
  - eapply all_covered_run; [exact H2|done|]. left. by exists 0%nat, GBoot.
  - eapply all_covered_run; [exact H2| |].
    + eapply sys_step_ok; [exact Ha|exact Hok|]. by eapply step_listen.
    + left. exists (List.length (s_goros s)), GInit.
      split; [|done]. unfold listen. rewrite Hc. simpl. by apply list_lookup_middle.
Qed.

(** Steps of goroutines that are past the listing of users. *)
Definition drain_step (s s' : @system W) : Prop :=
  ∃ i g, s_goros s !! i = Some g ∧ g ≠ GDone ∧ s' = run_goro i s.
Definition total_weight (s : @system W) : nat := sum_list_with (weight (s_world s)) (s_goros s).

Lemma sum_insert (f f' : goro → nat) gs i g g' :
  gs !! i = Some g → (∀ g, f' g ≤ f g)%nat → (f' g' < f g)%nat → (sum_list_with f' (<[i:=g']> gs) < sum_list_with f gs)%nat.
Proof.
  intros Hi Hle Hlt. revert i Hi. induction gs as [|g0 gs IH]; intros [|i] Hi; simplify_eq/=.
  - assert (sum_list_with f' gs ≤ sum_list_with f gs)%nat; [|lia]. clear -Hle.
    induction gs as [|g1 gs IH]; simpl; [done|]. specialize (Hle g1). lia.
  - specialize (IH i Hi). specialize (Hle g0). lia.
Qed.

Lemma drain_step_weight s s' :
  sys_ok s → Forall (λ g, initiator g = false) (s_goros s) → drain_step s s' →
  sys_ok s' ∧ Forall (λ g, initiator g = false) (s_goros s') ∧ (total_weight s' < total_weight s)%nat.
Proof using DF SH.
  intros [Hi Hg] Hn (i & g & Hl & Hd & ->). destruct (run_goro_spec i g s Hl) as (g' & new & w & d & E & ->).
  assert (goro_ok g ∧ initiator g = false) as [Hgg Hng] by (rewrite Forall_lookup in Hg, Hn; eauto).
  destruct (goro_step_world _ _ _ _ _ _ _ E Hi Hgg) as (Hi' & Hp & Hg' & _).
  destruct (weight_decreases _ _ _ _ _ _ _ E Hi Hgg Hng Hd) as [-> Hlt]. rewrite app_nil_r. split_and!.
  - split; [done|]. by apply Forall_insert.
  - apply Forall_insert; [done|]. simpl. destruct g; simpl in E; repeat case_match; simplify_eq/=; try done.
    by destruct rest.
  - unfold total_weight. simpl. eapply sum_insert; [done| |done]. intros g0. apply weight_mono.
    intros u. rewrite Hp. set_solver.
Qed.

(** C10: goroutines that drain the same store at once always come to an end:
    in any order of their steps they make no more than [total_weight] calls
    (at most nineteen for each event a goroutine can still find, and three),
    and when all have ended the queues of the users they drained are empty. *)
Theorem concurrent_drains_end (s s' : @system W) (n : nat) :
  sys_ok s → Forall (λ g, initiator g = false) (s_goros s) → nsteps drain_step n s s' →
  (n ≤ total_weight s)%nat ∧
  (finished s' → ∀ i g u, s_goros s !! i = Some g → user_of g = Some u → pending (s_world s') u = ∅).
Proof using DF SH.
  intros Hok Hn Hs. split.
  - induction Hs as [|n s s1 s2 Hs _ IH]; [lia|].
    destruct (drain_step_weight s s1 Hok Hn Hs) as (Hok1 & Hn1 & Hlt). specialize (IH Hok1 Hn1). lia.
  - intros Hf i g u Hi Hu. assert (covered s u) as Hc by (right; eauto). clear i g Hi Hu.
    induction Hs as [s|n s s1 s2 Hs _ IH].
    + destruct Hc as [?|(i & g & Hi & Hg)]; [done|]. unfold finished in Hf. rewrite Forall_lookup in Hf.
      by rewrite (Hf _ _ Hi) in Hg.
    + destruct (drain_step_weight s s1 Hok Hn Hs) as (Hok1 & Hn1 & _). apply IH; [done..|].
      destruct Hs as (i & g & Hi & _ & ->). by eapply covered_run.
Qed.
End Concurrent.

(** ** Schedules *)

Section Schedules.
Context {W : Type} `{UnicodeTables, DrainStore W}.

Inductive action :=
| Run (i : nat)
| Listen
| Check (trakt : option (option error)) (now : Time).

Definition is_done (g : goro) : bool := match g with GDone => true | _ => false end.

(** The state after an action, if it is possible. *)
Definition act (a : action) (s : @system W) : option (@system W) :=
  match a with
  | Run i => g ← s_goros s !! i; if is_done g then None else Some (run_goro i s)
  | Listen => match stateChan (s_health s) with [] => None | _ => Some (listen s) end
  | Check trakt now => Some (tick trakt now now now s)
  end.
Definition schedule (actions : list action) (s : @system W) : option (@system W) :=
  foldl (λ s a, s ← s; act a s) (Some s) actions.

Lemma act_step a s s' : act a s = Some s' → sys_step nothing_arrives s s'.
Proof.
  destruct a as [i| |trakt now]; simpl.
  - destruct (s_goros s !! i) as [g|] eqn:Hi; [|done]. simpl. destruct (is_done g) eqn:Hd; [done|].
    intros [= <-]. eapply step_goro; [done|]. by intros ->.
  - destruct (stateChan (s_health s)) as [|v l] eqn:Hc; [done|]. intros [= <-]. by eapply step_listen.
  - intros [= <-]. apply step_tick.
Qed.

Lemma schedule_cons a actions s s' :
  schedule (a :: actions) s = Some s' → ∃ s1, act a s = Some s1 ∧ schedule actions s1 = Some s'.
Proof.
  unfold schedule. simpl. destruct (act a s) as [s1|]; [by exists s1|]. intros E. exfalso. revert E.
  induction actions; [done|]. done.
Qed.

Lemma schedule_run actions : ∀ s s', schedule actions s = Some s' → rtc (sys_step nothing_arrives) s s'.
Proof.
  induction actions as [|a actions IH]; intros s s' E; [by injection E as <-; apply rtc_refl|].
  apply schedule_cons in E as (s1 & E1 & E2). eapply rtc_l; [by eapply act_step|]. by apply IH.
Qed.

Lemma schedule_drains idx : ∀ s s', schedule (Run <$> idx) s = Some s' → nsteps drain_step (List.length idx) s s'.
Proof.
  induction idx as [|i idx IH]; intros s s' E; [by injection E as <-; apply nsteps_O|].
  apply schedule_cons in E as (s1 & E1 & E2). eapply nsteps_l; [|by apply IH]. simpl in E1.
  destruct (s_goros s !! i) as [g|] eqn:Hi; [|done]. simpl in E1. destruct (is_done g) eqn:Hd; [done|].
  injection E1 as <-. exists i, g. split_and!; [done| |done]. by intros ->.
Qed.
End Schedules.

(** ** Examples: a store in memory and a Trakt that accepts everything *)

Lemma mem_shared answer :
  DrainShared Mem (DS:=mem_store true answer) mem_inv mem_pending mem_sends (λ _, True).
Proof.
  split; [|done|].
  - intros w Hi. simpl. split; [done|]. eexists. split; [done|]. split; [|by apply Forall_true].
    intros u Hu. apply elem_of_remove_dups. destruct (mem_of u (mem_queue w)) as [|e l] eqn:E.
    { destruct Hu. unfold mem_pending. by rewrite E. }
    assert (e ∈ mem_of u (mem_queue w)) as He by (rewrite E; left).
    apply list_elem_of_filter in He as [<- He]. by apply list_elem_of_fmap_2.
  - intros id w Hi. simpl. split_and!; [|done|].
    + eapply sublist_NoDup; [exact Hi|]. apply fmap_sublist, sublist_filter.
    + intros u. apply set_eq. intros x. unfold mem_pending, mem_of. simpl.
      rewrite elem_of_difference, !elem_of_list_to_set, elem_of_singleton, !list_elem_of_fmap.
      setoid_rewrite list_elem_of_filter. setoid_rewrite list_elem_of_filter. naive_solver.
Qed.

#[local] Existing Instance ascii_tables.
#[local] Instance accepting : DrainStore Mem := mem_store true None.
#[local] Existing Instances mem_frame mem_shared.

Definition mem1 : Mem := mkMem [sample_event "1"] 0.
Definition booted : system := startQueueDrainSystem mem1 NewDrainStateTracker.

(** The drain of the start-up alone. *)
Definition one_drain : list action := Run <$> [0; 0; 1; 1; 1; 1; 1; 1; 1; 1; 1]%nat.
(** The same drain, with an outage that ends while it runs. *)
Definition two_drains : list action :=
  (Run <$> [0; 0; 1; 1]%nat) ++ [Check (Some (Some (Errorf "503"))) 0; Check (Some None) 0; Listen; Listen] ++
  (Run <$> [2; 3; 3; 1; 1; 1; 1; 1; 1; 1; 3; 3; 3; 3; 3; 3; 3]%nat).

(** C38: nothing keeps two drains of the same user apart: when Trakt comes back
    while the drain of the start-up is running, both read the same queued event
    and both send it, so that Trakt counts it twice. *)
Theorem scrobbled_twice :
  ∃ s, rtc (sys_step nothing_arrives) booted s ∧ finished s ∧ mem_queue (s_world booted) = [sample_event "1"] ∧
    s_outcomes s = [("e1", None); ("e1", None)] ∧ mem_sends (s_world s) = 2%nat.
Proof.
  destruct (schedule two_drains booted) as [s|] eqn:E; [|vm_compute in E; discriminate].
  exists s. split; [by eapply schedule_run|]. vm_compute in E. injection E as <-.
  split; [by repeat constructor|]. done.
Qed.

Lemma mem1_ok : mem_inv (s_world booted).
Proof. apply (bool_decide_unpack _). by vm_compute. Qed.

Lemma restored_queue_drained_witness :
  ∃ s, rtc (sys_step nothing_arrives) booted s ∧ finished s ∧ mem_pending (s_world s) "user" = ∅.
Proof.
  destruct (schedule two_drains booted) as [s|] eqn:E; [|vm_compute in E; discriminate].
  exists s. assert (rtc (sys_step nothing_arrives) booted s) as Hrun by (by eapply schedule_run).
  assert (finished s) as Hf by (vm_compute in E; injection E as <-; repeat constructor).
  split; [exact Hrun|]. split; [exact Hf|].
  apply (restored_queue_drained mem_inv mem_pending mem_sends (λ _, True) nothing_arrives mem1 NewDrainStateTracker
           booted s []).
  - apply nothing_keeps_inv.
  - exact mem1_ok.
  - apply rtc_refl.
  - left. split; [reflexivity|exact Hrun].
  - exact Hf.
Defined.

Definition two_goroutines : system :=
  mkSystem mem1 NewDrainStateTracker NewHealthChecker [GStart "user"; GStart "user"] [].
Definition alternate : list nat := mjoin (replicate 9 [0; 1]%nat).

Lemma concurrent_drains_end_witness :
  ∃ s, nsteps drain_step 18 two_goroutines s ∧ mem_pending (s_world s) "user" = ∅ ∧
    (18 ≤ total_weight mem_pending two_goroutines)%nat.
Proof.
  destruct (schedule (Run <$> alternate) two_goroutines) as [s|] eqn:E; [|vm_compute in E; discriminate].
  assert (nsteps drain_step 18 two_goroutines s) as Hrun by exact (schedule_drains alternate _ _ E).
  assert (finished s) as Hf by (vm_compute in E; injection E as <-; repeat constructor).
  exists s. split; [exact Hrun|].
  destruct (concurrent_drains_end mem_inv mem_pending mem_sends (λ _, True) two_goroutines s 18) as [Hn Hp].
  - split; [exact mem1_ok|]. repeat constructor.
  - repeat constructor.
  - exact Hrun.
  - split; [|exact Hn]. apply (Hp Hf 0%nat (GStart "user")); reflexivity.
Defined.
