(* ===== verification/PgDrain.v ===== *)
(** * The drain on the PostgreSQL store

    [PostgresqlStore] (PgStore.v) as the store of the drain (Drain.v): the
    promises [DrainFrame] and [DrainDelete] hold when the statements succeed
    and every queued body can be decoded, whatever Trakt answers, and the
    theorems of Drain.v then hold of the database. *)

From S2P Require Import Prelude GoLib Float Json Instances Common Entities Buffers Pg PgFamily PgStore Trakt Health Drain DrainSystem.

Open Scope Z_scope.

(** The database, the number of calls made so far (each has its own
    environment), the requests sent and the monitoring log. *)
Record DrainWorld := mkDrainWorld {
  dw_db : Db;
  dw_calls : nat;
  dw_sends : nat;
  dw_log : list QueueLogEvent;
}.

Section PgDrain.
Context `{UnicodeTables, PG : PgServer, PL : !PgServerLaws PG, JsonText}.
(** The environment of each call and the answers of Trakt. *)
Context (envs : nat → Env) (trakt : nat → string → CacheItem → string → option error).

Definition drain_call {A} (f : Env → Db → A * Db) (w : DrainWorld) : A * DrainWorld :=
  let '(a, db) := f (envs (dw_calls w)) (dw_db w) in
  (a, mkDrainWorld db (S (dw_calls w)) (dw_sends w) (dw_log w)).

(** A panic of [DequeueScrobbles] or [GetUser] would end the program; it is an
    error here, and [drain_inv] excludes it. *)
#[local] Instance pg_drain_store : DrainStore DrainWorld := {
  D_ListUsersWithQueuedEvents := drain_call (λ env db, (ListUsersWithQueuedEvents env db, db));
  D_DequeueScrobbles u n := drain_call (λ env db,
    (match DequeueScrobbles env u n db with Ret r => r | Panic why => Err (Errorf why) end, db));
  D_DeleteQueuedScrobble id := drain_call (λ env db, DeleteQueuedScrobble env id db);
  D_UpdateQueuedScrobbleRetry id n := drain_call (λ env db, UpdateQueuedScrobbleRetry env id n db);
  D_GetUser id := drain_call (λ env db,
    (match GetUser env id db with Ret u => u | Panic _ => None end, db));
  D_ScrobbleFromQueue action item token w :=
    (trakt (dw_calls w) action item token,
     mkDrainWorld (dw_db w) (S (dw_calls w)) (S (dw_sends w)) (dw_log w));
  D_Append e w := mkDrainWorld (dw_db w) (dw_calls w) (dw_sends w) (dw_log w ++ [e]);
  D_Now := drain_call (λ env db, (clock env, db));
  D_Sleep _ w := w;
}.

(** The queued events of a user. *)
Definition pg_pending (w : DrainWorld) (u : string) : gset string :=
  list_to_set (user_events u (dw_db w)).*1.

(** Every queued body decodes. *)
Definition decodable (db : Db) : Prop :=
  map_Forall (λ k r, ∃ e, scan_event (k, r) = Ret (Some e)) (queued_scrobbles db).
Definition drain_inv (w : DrainWorld) : Prop := decodable (dw_db w).

Lemma elem_of_pending w u id :
  id ∈ pg_pending w u ↔ ∃ r, queued_scrobbles (dw_db w) !! id = Some r ∧ Q_user_id r = u.
Proof using PL.
  unfold pg_pending. rewrite elem_of_list_to_set, list_elem_of_fmap. split.
  - intros ([k r] & -> & Hin). exists r. by apply user_events_spec in Hin.
  - intros (r & Hr). exists (id, r). split; [done|]. by apply user_events_spec.
Qed.

Lemma pg_pending_size w u : size (pg_pending w u) = List.length (user_events u (dw_db w)).
Proof using PL.
  unfold pg_pending. rewrite size_list_to_set by apply user_events_NoDup. by rewrite length_fmap.
Qed.

Lemma pg_pending_unique w : ids_unique pg_pending w.
Proof using PL. intros u v id. rewrite !elem_of_pending. intros (r & ? & <-) (r' & ? & <-). congruence. Qed.

Lemma scan_event_id row e : scan_event row = Ret (Some e) → E_ID e = row.1.
Proof.
  unfold scan_event. destruct (json_parse _); [|done].
  destruct (ScrobbleBody_UnmarshalJSON _ _); intros; by simplify_eq.
Qed.

Lemma scan_events_all rows :
  Forall (λ row, ∃ e, scan_event row = Ret (Some e)) rows →
  ∃ events, scan_events rows = Ret events ∧ E_ID <$> events = rows.*1.
Proof.
  induction 1 as [|row rows [e He] _ (events & Hev & Hid)]; [by exists []|].
  exists (e :: events). split; [|by rewrite !fmap_cons, Hid, (scan_event_id _ _ He)].
  cbn [scan_events]. rewrite He. simpl. by rewrite Hev.
Qed.

Lemma pg_dequeue env u n db :
  (∀ p, fault env p = None) → decodable db → 0 ≤ n →
  ∃ events, DequeueScrobbles env u n db = Ret (Ok events) ∧
    E_ID <$> events = take (Z.to_nat n) (user_events u db).*1.
Proof using PL.
  intros Hf Hd Hn. unfold DequeueScrobbles. rewrite statement_quiet by done.
  destruct (Z.ltb_spec n 0); [lia|].
  destruct (scan_events_all (take (Z.to_nat n) (user_events u db))) as (events & -> & Hid).
  { apply Forall_take, Forall_forall. intros [k r] [Hk _]%user_events_spec. exact (Hd k r Hk). }
  exists events. simpl. rewrite Hf, Hid, fmap_take. done.
Qed.

(** Changing the attempts of a row changes neither the queues nor the bodies. *)
Lemma pg_retry_kept id n t w calls sends log :
  drain_inv w → 1 ≤ n ≤ 4 → ∀ db, update_scrobble_retry id n t (dw_db w) = Ok (tt, db) →
  drain_inv (mkDrainWorld db calls sends log) ∧
  ∀ u, pg_pending (mkDrainWorld db calls sends log) u = pg_pending w u.
Proof using PL.
  intros Hi Hn db. unfold update_scrobble_retry.
  destruct (queued_scrobbles (dw_db w) !! id) as [r|] eqn:E; [|intros; simplify_eq; by destruct w].
  unfold check. rewrite bool_decide_eq_true_2 by lia. simpl. intros [= <-]. split.
  - apply map_Forall_insert_2; [|exact Hi]. destruct (Hi _ _ E) as [e He]. revert He.
    unfold scan_event. simpl. destruct (json_parse _); [|done].
    destruct (ScrobbleBody_UnmarshalJSON _ _); [|done..]. by eexists.
  - intros u. apply set_eq. intros x. rewrite !elem_of_pending. simpl. rewrite lookup_insert.
    case_decide as Hx; [subst x|done]. split.
    + intros (r' & [= <-] & <-). by exists r.
    + intros (r' & E' & <-). simplify_eq. by eexists.
Qed.

(** Updates and deletions of events, queued or not. *)
Lemma pg_retry_any id n w :
  (∀ i p, fault (envs i) p = None) → drain_inv w → 1 ≤ n ≤ 4 →
  kept drain_inv pg_pending dw_sends w (D_UpdateQueuedScrobbleRetry id n w).2.
Proof using PL.
  intros Hf Hi Hn. simpl. unfold drain_call, UpdateQueuedScrobbleRetry. rewrite statement_quiet by done.
  destruct (update_scrobble_retry _ _ _ _) as [[[] db]|e] eqn:E; simpl; [|done].
  by destruct (pg_retry_kept id n _ w (S (dw_calls w)) (dw_sends w) (dw_log w) Hi Hn db E).
Qed.

Lemma pg_delete_any id w :
  (∀ i p, fault (envs i) p = None) → drain_inv w →
  let w' := (D_DeleteQueuedScrobble id w).2 in
  drain_inv w' ∧ dw_sends w' = dw_sends w ∧ ∀ v, pg_pending w' v = pg_pending w v ∖ {[id]}.
Proof using PL.
  intros Hf Hi. simpl. unfold drain_call, DeleteQueuedScrobble. rewrite statement_quiet by done.
  simpl. split_and!; [by apply map_Forall_delete|done|]. intros u. apply set_eq. intros x.
  rewrite elem_of_difference, elem_of_singleton, !elem_of_pending. simpl. rewrite lookup_delete.
  case_decide; naive_solver.
Qed.

(** [PostgresqlStore] keeps the promises the drain relies on. *)
Lemma pg_drain_frame :
  (∀ i p, fault (envs i) p = None) → DrainFrame DrainWorld drain_inv pg_pending dw_sends (λ _, True).
Proof using PL.
  intros Hf. split.
  - intros u n w Hi _ Hn. simpl. unfold drain_call.
    destruct (pg_dequeue (envs (dw_calls w)) u n (dw_db w) (Hf _) Hi ltac:(lia)) as (events & -> & Hid).
    split; [done|]. exists events. split; [done|]. rewrite Hid, pg_pending_size. split_and!.
    + eapply sublist_NoDup; [apply user_events_NoDup|apply sublist_take].
    + intros id. unfold pg_pending. rewrite !elem_of_list_to_set.
      intros (i & ? & _)%elem_of_take. by eapply list_elem_of_lookup_2.
    + rewrite <-(length_fmap E_ID), Hid, length_take, length_fmap. lia.
  - intros id n u w Hi _ Hn. by apply pg_retry_any.
  - done.
  - done.
  - done.
  - done.
  - done.
Qed.

Lemma pg_drain_delete :
  (∀ i p, fault (envs i) p = None) → DrainDelete DrainWorld drain_inv pg_pending dw_sends.
Proof using PL.
  intros Hf id u0 w Hi _. by apply pg_delete_any.
Qed.

(** Nor do goroutines that share it disturb each other beyond the events they
    delete: the theorems of DrainSystem.v hold of it. *)
Lemma pg_drain_shared :
  (∀ i p, fault (envs i) p = None) → DrainShared DrainWorld drain_inv pg_pending dw_sends (λ _, True).
Proof using PL.
  intros Hf. split.
  - intros w Hi. simpl. unfold drain_call, ListUsersWithQueuedEvents. rewrite statement_quiet by done. simpl.
    rewrite Hf. split; [done|]. eexists. split; [done|]. split; [|by apply Forall_true].
    intros u Hu. apply set_choose_L in Hu as [id Hid]. apply elem_of_pending in Hid as (r & Hr & <-).
    apply elem_of_remove_dups, list_elem_of_fmap_2. apply (list_elem_of_fmap_2 snd _ (id, r)).
    rewrite heap_scan_perm. by apply elem_of_map_to_list.
  - intros id n w Hi Hn. by apply pg_retry_any.
  - intros id w Hi. by apply pg_delete_any.
Qed.

(** On a PostgreSQL store whose statements succeed and whose queued bodies
    decode, draining a user with [n] queued events returns after at most
    [n + 1] batches, with no row of the user left, every other user's rows
    still there, at most [5 n] requests sent and each event counted once. *)
Lemma pg_drain_empties (userID : string) (w : DrainWorld) (d : DrainStateTracker) :
  (∀ i p, fault (envs i) p = None) → decodable (dw_db w) →
  Z.of_nat (List.length (user_events userID (dw_db w))) ≤ int64_max →
  let n := List.length (user_events userID (dw_db w)) in
  ∃ w' d' c, drainUserQueue (S n) userID (w, d) = Some (w', d', c) ∧
    (∀ id r, queued_scrobbles (dw_db w') !! id = Some r → Q_user_id r ≠ userID) ∧
    (∀ id r, queued_scrobbles (dw_db w) !! id = Some r → Q_user_id r ≠ userID →
       ∃ r', queued_scrobbles (dw_db w') !! id = Some r' ∧ Q_user_id r' = Q_user_id r) ∧
    (dw_sends w' ≤ dw_sends w + 5 * n)%nat ∧
    successCount c + failureCount c = Z.of_nat n.
Proof using PL.
  intros Hf Hd Hn n. pose proof (pg_drain_frame Hf) as DF. pose proof (pg_drain_delete Hf) as DD.
  destruct (drainUserQueue_law drain_inv pg_pending dw_sends (λ _, True) (S n) userID w d)
    as (w' & d' & c & _ & Hrun & He & Ho & Hs & Hc & _);
    [done|done|apply pg_pending_unique|by rewrite pg_pending_size|rewrite pg_pending_size; unfold n; lia|].
  rewrite pg_pending_size in Hs, Hc. exists w', d', c. split; [done|]. split_and!; [| |done|done].
  - intros id r Hr Hu. assert (id ∈ pg_pending w' userID) as Hin by (apply elem_of_pending; by exists r).
    rewrite He in Hin. by apply not_elem_of_empty in Hin.
  - intros id r Hr Hu. assert (id ∈ pg_pending w (Q_user_id r)) as Hin by (apply elem_of_pending; by exists r).
    rewrite <-Ho in Hin by done. apply elem_of_pending in Hin as (r' & ? & ?). by exists r'.
Qed.
End PgDrain.

(** ** Example *)

#[local] Existing Instances ascii_tables memory_server tree_text.

Definition two_events_world : DrainWorld := mkDrainWorld two_events_db 0 0 [].

Lemma pg_drain_empties_witness :
  ∃ w' d' c, drainUserQueue (H0:=pg_drain_store (λ _, ok_env) (λ _ _ _ _, Some (Errorf "503"))) 3 "user"
      (two_events_world, NewDrainStateTracker) = Some (w', d', c) ∧
    (dw_sends w' ≤ 10)%nat ∧ successCount c + failureCount c = 2.
Proof.
  destruct (pg_drain_empties (PL:=memory_server_laws) (λ _, ok_env) (λ _ _ _ _, Some (Errorf "503")) "user"
              two_events_world NewDrainStateTracker) as (w' & d' & c & H1 & _ & _ & H2 & H3).
  - done.
  - apply (map_Forall_to_list _ _), Forall_forall. intros [k r] Hin.
    assert (Forall (λ kr, match scan_event kr with Ret (Some _) => true | _ => false end = true)
              (map_to_list (queued_scrobbles two_events_db))) as Hall.
    { apply (bool_decide_unpack _). vm_compute. exact I. }
    rewrite Forall_forall in Hall. specialize (Hall _ Hin). simpl.
    destruct (scan_event (k, r)) as [[e|]|]; [by exists e|done..].
  - vm_compute. discriminate.
  - exists w', d', c. split_and!; [exact H1|exact H2|exact H3].
Defined.
