(* ===== verification/PgRequests.v ===== *)
(** * Requests that reach the PostgreSQL queue while it is drained

    The goroutines of the drain (DrainSystem.v) on the PostgreSQL store
    (PgDrain.v), with the operations of the store (PgInvariant.v) coming from
    requests in between: what can become of a queued event.  Statements may
    fail, for the drain and for the requests alike. *)

From S2P Require Import Prelude GoLib Float Json Instances Common Entities Buffers Fallback Pg PgFamily PgStore PgInvariant Trakt Health Drain DrainSystem PgDrain.

Open Scope Z_scope.

Section Requests.
Context `{UnicodeTables, PG : PgServer, PL : !PgServerLaws PG, JsonText}.
Context (envs : nat → Env) (trakt : nat → string → CacheItem → string → option error).
#[local] Instance drain_store : DrainStore DrainWorld := pg_drain_store envs trakt.

(** A request runs an operation of the store, under any environment. *)
Definition pg_request (r : Env * op) (w : DrainWorld) : DrainWorld :=
  mkDrainWorld (run_op r.1 r.2 (dw_db w)) (dw_calls w) (dw_sends w) (dw_log w).

(** The operations that are meant to remove the event [id] of user [u]: an
    enqueue of the same user that finds the queue full and the event at its
    head, the deletion of the user, the purge of its queue, and the deletion of
    the event. *)
Definition removes (o : op) (db : Db) (u id : string) : Prop :=
  match o with
  | OpStoreEvent e =>
      E_UserID e = u ∧ (1000 ≤ List.length (user_events u db))%nat ∧ head (user_events u db).*1 = Some id
  | OpDeleteUser v _ | OpPurgeQueueForUser v => v = u
  | OpDeleteQueuedScrobble i => i = id
  | _ => False
  end.

#[local] Instance removes_dec o db u id : Decision (removes o db u id).
Proof. destruct o; simpl; apply _. Defined.

Definition queued (db : Db) (u id : string) : Prop :=
  ∃ r, queued_scrobbles db !! id = Some r ∧ Q_user_id r = u.

(** ** What a statement does to the queue *)

(** A statement that keeps the event, when it succeeds. *)
Lemma statement_queued {A} env n (f : Db → result (A * Db)) db u id :
  (∀ a db', f db = Ok (a, db') → queued db' u id) → queued db u id → queued (statement env n f db).2 u id.
Proof.
  intros Hf Hq. unfold statement. destruct (fault env (Stmt n)); [done|].
  destruct (f db) as [[a db']|] eqn:E; simpl; eauto.
Qed.

Lemma queued_same db db' u id : queued_scrobbles db' = queued_scrobbles db → queued db u id → queued db' u id.
Proof. unfold queued. by intros ->. Qed.

Lemma queued_insert_fresh db k r u id :
  exists_in (queued_scrobbles db) k = false → queued db u id →
  queued (set_queued_scrobbles (<[k := r]> (queued_scrobbles db)) db) u id.
Proof.
  unfold exists_in. intros Hk (r0 & Hr & Hu). exists r0. split; [|done]. simpl.
  rewrite lookup_insert_ne; [done|]. intros ->. apply bool_decide_eq_false_1 in Hk. apply Hk. by exists r0.
Qed.

Ltac open_ok E :=
  repeat match type of E with
  | mbind _ (check _ ?b) = Ok _ => destruct b eqn:?; simpl in E; [|discriminate]
  | (if ?b then _ else _) = Ok _ => destruct b eqn:?; simpl in E
  | match ?b with Some _ => _ | None => _ end = Ok _ => destruct b eqn:?; simpl in E
  end.

Lemma insert_scrobble_queued k r db u id a db' :
  insert_scrobble k r db = Ok (a, db') → queued db u id → queued db' u id.
Proof.
  intros E Hq. unfold insert_scrobble in E. open_ok E; simplify_eq; [|done].
  apply queued_insert_fresh; [by apply negb_true_iff|done].
Qed.

Lemma update_retry_queued k n t db u id a db' :
  update_scrobble_retry k n t db = Ok (a, db') → queued db u id → queued db' u id.
Proof.
  intros E (r & Hr & Hu). unfold update_scrobble_retry in E.
  destruct (queued_scrobbles db !! k) as [r0|] eqn:Ek; [|simplify_eq; by exists r].
  open_ok E. injection E as <- <-. unfold queued. simpl. destruct (decide (k = id)) as [->|Hne].
  - rewrite lookup_insert_eq. eexists. split; [done|]. simpl. congruence.
  - rewrite lookup_insert_ne by done. by exists r.
Qed.

Lemma delete_where_queued (P : ScrobbleRow → bool) db u id :
  (∀ r, Q_user_id r = u → P r = false) → queued db u id →
  queued (set_queued_scrobbles (delete_where P (queued_scrobbles db)) db) u id.
Proof.
  intros HP (r & Hr & Hu). exists r. split; [|done]. simpl. unfold delete_where.
  apply map_lookup_filter_Some. split; [done|]. simpl. by rewrite HP.
Qed.

Lemma GetQueueSize_counts env k u db n :
  GetQueueSize env k u db = Ok n → n = Z.of_nat (List.length (user_events u db)).
Proof. unfold GetQueueSize, statement. destruct (fault env (Stmt k)); simpl; intros; by simplify_eq. Qed.

Lemma evict_queued env n e db u id :
  ¬ (E_UserID e = u ∧ head (user_events u db).*1 = Some id) → queued db u id →
  queued (statement env n (evict_oldest (E_UserID e)) db).2 u id.
Proof using PL.
  intros Hno Hq. apply statement_queued; [|done]. intros ? db' [= _ <-].
  destruct (user_events (E_UserID e) db) as [|[k r] l] eqn:Eu; [done|].
  destruct Hq as (r0 & Hr & Hu). exists r0. split; [|done]. simpl. apply lookup_delete_Some. split; [|done].
  intros ->. apply Hno. assert ((id, r) ∈ user_events (E_UserID e) db) as Hin by (rewrite Eu; left).
  apply user_events_spec in Hin as [Hk Hue]. simplify_eq. split; [done|]. rewrite <-Hue in Eu. by rewrite Eu.
Qed.

Lemma storeEvent_queued env e db u id :
  ¬ removes (OpStoreEvent e) db u id → queued db u id → queued (storeEvent env e db).2 u id.
Proof using PL.
  intros Hno Hq. unfold storeEvent.
  assert (∀ db1, queued db1 u id →
    queued (statement env 2 (insert_scrobble (E_ID e) (scrobble_row e)) db1).2 u id) as Hins.
  { intros db1 H1. apply statement_queued; [|done]. intros a db' E. by eapply insert_scrobble_queued. }
  apply Hins. destruct (GetQueueSize env 0 (E_UserID e) db) as [n|err] eqn:En; [|done].
  apply GetQueueSize_counts in En as ->. destruct (Z.leb_spec maxQueuePerUser
    (Z.of_nat (List.length (user_events (E_UserID e) db)))) as [Hfull|]; [|done].
  apply evict_queued; [|done]. intros [Hu Hh]. apply Hno. unfold maxQueuePerUser in Hfull. simpl.
  rewrite Hu in *. split_and!; [done|lia|done].
Qed.

(** ** What an operation does to the queue *)

Ltac same_queue :=
  apply statement_queued; [|done];
  let E := fresh "E" in intros ? ? E;
  unfold insert_family_group, delete_family_group, insert_group_member, update_group_member,
    delete_group_member, insert_retry_item, delete_retry_item, update_retry_failure, update_retry_status,
    upsert_user, insert_notification, update_dismissed, delete_notification in E;
  open_ok E; simplify_eq; first [done | eapply queued_same; [|eassumption]; reflexivity].

(** The operations on the other tables. *)
Lemma family_op_queued env o db u id :
  match o with
  | OpWriteUser _ | OpDeleteUser _ _ | OpStoreEvent _ | OpDeleteQueuedScrobble _
  | OpUpdateQueuedScrobbleRetry _ _ | OpPurgeQueueForUser _ | OpListDueRetryItems _ _ => False
  | _ => True
  end → queued db u id → queued (run_op env o db) u id.
Proof.
  intros Ho Hq. destruct o; try done; cbn [run_op];
    unfold CreateFamilyGroup, DeleteFamilyGroup, AddGroupMember, UpdateGroupMember, RemoveGroupMember,
      EnqueueRetryItem, MarkRetrySuccess, MarkRetryFailure, CreateNotification, DismissNotification,
      DeleteNotification;
    repeat match goal with
    | |- context [match ?x with Some _ => _ | None => _ end] => destruct x; try done
    | |- context [let '(_, _) := ?x in _] => first [is_var x|destruct x as [[?|] [?|]]; try done]
    | |- context [if ?b then _ else _] => destruct b; try done
    end.
  all: match goal with |- queued ?d ?u ?id => match d with context [statement ?env 0 ?f ?db] =>
         assert (queued (statement env 0 f db).2 u id) by same_queue;
         unfold affected_or; destruct (statement env 0 f db) as [[?|?] ?] end end;
       simpl; repeat case_match; by simplify_eq/=.
Qed.

Lemma ListDueRetryItems_queued env now limit db u id :
  queued db u id → queued (ListDueRetryItems env now limit db).2 u id.
Proof.
  intros Hq. unfold ListDueRetryItems. destruct (fault env BeginTx); [done|].
  unfold statement at 1. destruct (fault env (Stmt 0)); [done|]. simpl.
  destruct (fault env RowsErr); [done|]. case_bool_decide; [by destruct (fault env Commit)|].
  match goal with |- context [statement env 1 ?f db] => assert (queued (statement env 1 f db).2 u id) by same_queue end.
  destruct (statement _ _ _ _) as [[?|?] ?]; [|done]. by destruct (fault env Commit).
Qed.

Lemma run_op_queued env o db u id :
  ¬ removes o db u id → queued db u id → queued (run_op env o db) u id.
Proof using PL.
  intros Hno Hq. destruct o; try (by apply family_op_queued); cbn [run_op].
  - by apply ListDueRetryItems_queued.
  - unfold WriteUser. match goal with |- context [statement env 0 ?f db] =>
      assert (queued (statement env 0 f db).2 u id) as Hs by same_queue;
      by destruct (statement env 0 f db) as [[?|?] ?] end.
  - unfold DeleteUser. match goal with |- context [statement env 0 ?f db] =>
      assert (queued (statement env 0 f db).2 u id) as Hs; [|by destruct (statement env 0 f db) as [[?|?] ?]] end.
    apply statement_queued; [|done]. intros ? db' [= _ <-].
    apply (delete_where_queued _ (set_users _ db)); [|done].
    intros r Hr. apply bool_decide_eq_false_2. simpl in Hno. congruence.
  - by apply storeEvent_queued.
  - unfold DeleteQueuedScrobble. match goal with |- context [statement env 0 ?f db] =>
      assert (queued (statement env 0 f db).2 u id) as Hs; [|by destruct (statement env 0 f db) as [[?|?] ?]] end.
    apply statement_queued; [|done]. intros ? db' [= _ <-].
    destruct Hq as (r & Hr & Hu). exists r. split; [|done]. simpl. by rewrite lookup_delete_ne.
  - unfold UpdateQueuedScrobbleRetry. match goal with |- context [statement env 0 ?f db] =>
      assert (queued (statement env 0 f db).2 u id) as Hs; [|by destruct (statement env 0 f db) as [[?|?] ?]] end.
    apply statement_queued; [|done]. intros a db' E. by eapply update_retry_queued.
  - unfold PurgeQueueForUser. destruct (GetQueueSize _ _ _ _); [|done].
    match goal with |- context [statement env 1 ?f db] =>
      assert (queued (statement env 1 f db).2 u id) as Hs; [|by destruct (statement env 1 f db) as [[?|?] ?]] end.
    apply statement_queued; [|done]. intros ? db' [= _ <-]. apply delete_where_queued; [|done].
    intros r Hr. apply bool_decide_eq_false_2. simpl in Hno. congruence.
Qed.
(** ** The drain and the requests *)

Lemma elem_pending w u id : id ∈ pg_pending w u ↔ queued (dw_db w) u id.
Proof using PL. apply elem_of_pending. Qed.

#[local] Instance pg_drain_keeps : DrainKeeps DrainWorld pg_pending.
Proof using PL.
  split; try done.
  - intros id n w u x. rewrite !elem_pending. intros Hq. simpl. unfold drain_call.
    pose proof (run_op_queued (envs (dw_calls w)) (OpUpdateQueuedScrobbleRetry id n) (dw_db w) u x
      ltac:(simpl; tauto) Hq) as Ho. cbn [run_op] in Ho.
    by destruct (UpdateQueuedScrobbleRetry _ id n (dw_db w)) as [r db].
  - intros id w u x. rewrite elem_of_union, elem_of_singleton, !elem_pending. intros Hq.
    destruct (decide (x = id)) as [->|Hne]; [by right|left]. simpl. unfold drain_call.
    pose proof (run_op_queued (envs (dw_calls w)) (OpDeleteQueuedScrobble id) (dw_db w) u x
      ltac:(simpl; congruence) Hq) as Ho. cbn [run_op] in Ho.
    by destruct (DeleteQueuedScrobble _ id (dw_db w)) as [r db].
Qed.

(** C8: on PostgreSQL, whatever statements fail and in whatever order the
    goroutines of the drains, the health checks, the listener and the
    operations that requests run on the store take turns, an event that is
    queued at some moment is later still queued for its user, or a drain has
    accounted for it, as sent or as given up, or a request removed it on
    purpose: an enqueue of the same user that found a thousand events and this
    one at the head of the queue, the deletion of the user, the purge of its
    queue or the deletion of the event. *)
Theorem queued_events_not_lost (w : DrainWorld) (d : DrainStateTracker)
    (earlier later : list (turn (Env * op))) (u id : string) :
  let s := take_turns pg_request earlier (startQueueDrainSystem w d) in
  let s' := take_turns pg_request later s in
  queued (dw_db (s_world s)) u id →
  queued (dw_db (s_world s')) u id ∨
  (∃ err, (id, err) ∈ s_outcomes s') ∨
  ∃ l env o l', later = l ++ TRequest (env, o) :: l' ∧
    removes o (dw_db (s_world (take_turns pg_request l s))) u id.
Proof using PL.
  intros s s'. rewrite <-!elem_pending, <-elem_of_accounted. intros Hq.
  destruct (turns_account pg_request pg_pending u id later s) as [?|[?|(l & [env o] & l' & Hl & Hin & Hout)]];
    [apply take_turns_recorded, start_recorded|by left|by left|by right; left|right; right].
  exists l, env, o, l'. split; [done|]. rewrite elem_pending in Hin, Hout. simpl in Hout.
  destruct (removes_dec o (dw_db (s_world (take_turns pg_request l s))) u id) as [|Hno]; [done|].
  destruct Hout. by apply run_op_queued.
Qed.
End Requests.

(** ** Example *)

#[local] Existing Instances ascii_tables memory_server tree_text.
#[local] Instance accepting_store : DrainStore DrainWorld :=
  pg_drain_store (λ _, ok_env) (λ _ _ _ _, None).

(** A third event is queued before the drain of the start-up sends the first;
    then the user purges its queue. *)
Definition third_event : list (turn (Env * op)) :=
  [TRequest (ok_env, OpStoreEvent (sample_event "9"))].
Definition drain_and_purge : list (turn (Env * op)) :=
  (TGoro <$> [0; 0; 1; 1; 1; 1; 1; 1; 1]%nat) ++ [TRequest (ok_env, OpPurgeQueueForUser "user")].
Definition before_purge : system :=
  take_turns pg_request third_event (startQueueDrainSystem two_events_world NewDrainStateTracker).
Definition after_purge : system := take_turns pg_request drain_and_purge before_purge.

Lemma after_purge_state :
  queued_scrobbles (dw_db (s_world after_purge)) = ∅ ∧ s_outcomes after_purge = [("e8", None)].
Proof. split; vm_compute; reflexivity. Qed.

Lemma queued_events_not_lost_witness :
  queued_scrobbles (dw_db (s_world after_purge)) = ∅ ∧
  (queued (dw_db (s_world after_purge)) "user" "e9" ∨
   (∃ err, ("e9", err) ∈ s_outcomes after_purge) ∨
   ∃ l env o l', drain_and_purge = l ++ TRequest (env, o) :: l' ∧
     removes o (dw_db (s_world (take_turns pg_request l before_purge))) "user" "e9").
Proof.
  split; [apply after_purge_state|].
  apply (queued_events_not_lost (PL:=memory_server_laws) (λ _, ok_env) (λ _ _ _ _, None)
           two_events_world NewDrainStateTracker third_event drain_and_purge "user" "e9").
  unfold queued. vm_compute. eexists. split; reflexivity.
Defined.
