(* ===== verification/Delivery.v ===== *)
(** * From a refused scrobble to its delivery

    The Trakt client (Trakt.v), the PostgreSQL store (PgStore.v) and the drain
    (Drain.v) put together: a scrobble that Trakt cannot take is written to the
    queue by [scrobbleRequest], read back by the drain when Trakt is back, and
    sent as the request it would have been.  [Home] is the program's state that
    the three share; each call of the store has an environment of its own, each
    request an answer of its own. *)

From S2P Require Import Prelude GoLib Float Json Instances Common Entities Buffers Fallback Pg Jsonb PgFamily PgStore Trakt Health Drain PgDrain.

Open Scope Z_scope.

(** ** The program around its queue *)

Record Home := mkHome {
  h_store : PostgresqlStore;
  h_calls : nat;
  h_sent : list request;
  h_log : QueueEventLog;
}.
Abbreviation h_db h := (storage (h_store h)).

Section Home.
Context `{UnicodeTables, PG : PgServer, JT : JsonText, UrlText}.
Context (envs : nat → Env) (answer : nat → request → result response) (t : Trakt).

(** A call of the store that touches the database only. *)
Definition on_db {A} (f : Env → Db → A * Db) (h : Home) : A * Home :=
  let '(a, db) := f (envs (h_calls h)) (h_db h) in
  (a, mkHome (set_storage db (h_store h)) (S (h_calls h)) (h_sent h) (h_log h)).
Definition append (e : QueueLogEvent) (h : Home) : outcome Home :=
  l ← Log_Append e (h_log h); Ret (mkHome (h_store h) (h_calls h) (h_sent h) l).

#[local] Instance home_http : Http Home := {
  Do req h := (answer (List.length (h_sent h)) req,
               mkHome (h_store h) (h_calls h) (h_sent h ++ [req]) (h_log h));
}.

(** An enqueue that panics or never returns is an error here; the theorems
    show that it returns. *)
#[local] Instance home_scrobbles : ScrobbleStore Home := {
  Store_GetScrobbleBody player key h := (GetScrobbleBody player key, h);
  Store_WriteScrobbleBody item h :=
    Ret (mkHome (set_storage (WriteScrobbleBody item (h_db h)) (h_store h)) (h_calls h) (h_sent h) (h_log h));
  Store_EnqueueScrobble event h :=
    match EnqueueScrobble envs 1 event (h_calls h, h_store h) with
    | Some (Ret (err, (k, s))) => (err, mkHome s k (h_sent h) (h_log h))
    | Some (Panic why) => (Some (Errorf why), h)
    | None => (Some (Errorf "stack overflow"), h)
    end;
  Store_GetQueueSize u := on_db (λ env db, (GetQueueSize env 0 u db, db));
  queueEventLog_Append := append;
  store_Now := on_db (λ env db, (clock env, db));
}.

#[local] Instance home_drain : DrainStore Home := {
  D_ListUsersWithQueuedEvents := on_db (λ env db, (ListUsersWithQueuedEvents env db, db));
  D_DequeueScrobbles u n := on_db (λ env db,
    (match DequeueScrobbles env u n db with Ret r => r | Panic why => Err (Errorf why) end, db));
  D_DeleteQueuedScrobble id := on_db (λ env db, DeleteQueuedScrobble env id db);
  D_UpdateQueuedScrobbleRetry id n := on_db (λ env db, UpdateQueuedScrobbleRetry env id n db);
  D_GetUser id := on_db (λ env db, (match GetUser env id db with Ret u => u | Panic _ => None end, db));
  D_ScrobbleFromQueue action item token h :=
    match ScrobbleFromQueue t action item token h with Ret r => r | Panic why => (Some (Errorf why), h) end;
  D_Append e h := match append e h with Ret h => h | Panic _ => h end;
  D_Now := on_db (λ env db, (clock env, db));
  D_Sleep _ h := h;
}.

(** ** Circumstances *)

(** The statements succeed; the addresses of the program are well-formed; from
    the [k]-th request on Trakt accepts what it is sent, with an answer other
    than a JSON [null]. *)
Definition quiet_calls : Prop := ∀ i p, fault (envs i) p = None.
Definition addresses : Prop := ∀ action, action ∈ ["start"; "pause"; "stop"] →
  ∃ parts, url_Parse ("https://api.trakt.tv/scrobble/" +:+ action) = Ok parts.
Definition accepting (k : nat) : Prop := ∀ n req, (k ≤ n)%nat →
  ∃ resp, answer n req = Ok resp ∧ successStatus (StatusCode resp) = true ∧
    json_parse_first (resp_body resp) ≠ Some JNull.

(** The request of an action, and the token a user has now. *)
Definition post_of (action : string) (body : ScrobbleBody) (token : string) : request :=
  mkRequest "POST" ("https://api.trakt.tv/scrobble/" +:+ action) (api_headers t token)
    (json_print (ScrobbleBody_MarshalJSON body)).
Definition token_of (u : string) (db : Db) : string :=
  match users db !! u with Some r => UR_access r | None => "" end.
Definition post_event (token : string) (e : QueuedScrobbleEvent) : request :=
  post_of (E_Action e) (E_ScrobbleBody e) token.

(** [h'] is [h] after the events [ids] were deleted and [reqs] were sent. *)
Definition moved (h : Home) (ids : list string) (reqs : list request) (h' : Home) : Prop :=
  users (h_db h') = users (h_db h) ∧
  (∀ id, queued_scrobbles (h_db h') !! id =
     if bool_decide (id ∈ ids) then None else queued_scrobbles (h_db h) !! id) ∧
  h_sent h' = h_sent h ++ reqs.

(** ** Lemmas *)

Lemma post_of_ok action body token :
  addresses → action ∈ ["start"; "pause"; "stop"] → scrobble_post t action body token = Ok (post_of action body token).
Proof. intros Ha Hin. unfold scrobble_post, NewRequest. simpl. by destruct (Ha action Hin) as [parts ->]. Qed.

Lemma moved_refl h : moved h [] [] h.
Proof. split_and!; [done|done|by rewrite app_nil_r]. Qed.

Lemma moved_trans h1 ids reqs h2 ids' reqs' h3 :
  moved h1 ids reqs h2 → moved h2 ids' reqs' h3 → moved h1 (ids ++ ids') (reqs ++ reqs') h3.
Proof.
  intros (Hu & Hq & Hs) (Hu' & Hq' & Hs'). split_and!; [congruence| |by rewrite Hs', Hs, app_assoc].
  intros id. rewrite Hq', Hq. repeat case_bool_decide; set_solver.
Qed.

(** Calls that read, and log entries, move nothing. *)
Lemma on_db_reads {A} (f : Env → Db → A) h : moved h [] [] (on_db (λ env db, (f env db, db)) h).2.
Proof. split_and!; [done|done|]. simpl. by rewrite app_nil_r. Qed.

Lemma log_event_moves op u id err h : moved h [] [] (log_event op u id err h).
Proof.
  unfold log_event. simpl. unfold append. destruct (Log_Append _ _); split_and!; simpl; try done; by rewrite app_nil_r.
Qed.

(** The next request is accepted. *)
Lemma ScrobbleFromQueue_accepted action item token h :
  addresses → accepting (List.length (h_sent h)) → action ∈ ["start"; "pause"; "stop"] →
  ∃ h', D_ScrobbleFromQueue action item token h = (None, h') ∧ moved h [] [post_of action (Body item) token] h'.
Proof.
  intros Had Hac Ha. simpl. unfold ScrobbleFromQueue. rewrite post_of_ok by done. simpl.
  destruct (Hac (List.length (h_sent h)) (post_of action (Body item) token)) as (resp & -> & Hs & Hn); [done|].
  assert (transientStatus (StatusCode resp) = false) as ->.
  { unfold successStatus in Hs. apply orb_true_iff in Hs as [Hc|Hc]; apply Z.eqb_eq in Hc as ->; reflexivity. }
  rewrite Hs. unfold decode_body. destruct (json_parse_first _) as [j|]; simpl.
  - destruct (ScrobbleBody_UnmarshalJSON j (Body item)) as [b| |why] eqn:E; simpl.
    + by eexists.
    + by eexists.
    + apply ScrobbleBody_panics_on_null in E as ->. by destruct Hn.
  - by eexists.
Qed.

Section Delivery.
Context {PL : PgServerLaws PG}.

Lemma GetUser_known env u r db :
  (∀ p, fault env p = None) → users db !! u = Some r → GetUser env u db = Ret (Some (scan_user (u, r))).
Proof using PL. intros Hf Hu. unfold GetUser. rewrite query_row_key by done. by rewrite Hu. Qed.

(** One event of the drain, when Trakt accepts. *)
Lemma drainEvent_accepted u e h d c r :
  quiet_calls → addresses → accepting (List.length (h_sent h)) →
  E_Action e ∈ ["start"; "pause"; "stop"] → users (h_db h) !! E_UserID e = Some r →
  ∃ h', drainEvent u e (h, d, c) =
      (h', RecordEvent u true d, mkCounts (wrap64 (successCount c + 1)) (failureCount c)) ∧
    moved h [E_ID e] [post_event (UR_access r) e] h'.
Proof using PL.
  intros Hf Had Hac Ha Hu. unfold drainEvent.
  destruct (D_Now h) as [now0 h0] eqn:E0. assert (moved h [] [] h0) as M0.
  { change h0 with (now0, h0).2. rewrite <-E0. apply (on_db_reads (λ env _, clock env)). }
  unfold sendEventWithRetry. cbn [send_attempts].
  destruct (D_GetUser (E_UserID e) h0) as [user h1] eqn:E1. assert (moved h0 [] [] h1 ∧ user = Some (scan_user (E_UserID e, r))) as [M1 ->].
  { simpl in E1. unfold on_db in E1. rewrite GetUser_known with (r := r) in E1; [|apply Hf|by rewrite (proj1 M0)].
    injection E1 as <- <-. split; [|done]. split_and!; [done|done|]. simpl. by rewrite app_nil_r. }
  pose proof (moved_trans _ _ _ _ _ _ _ M0 M1) as M. simpl in M. unfold sendScrobble.
  destruct (ScrobbleFromQueue_accepted (E_Action e) (mkCacheItem (E_PlayerUUID e) "" (E_RatingKey e) "" (E_ScrobbleBody e) "")
    (U_AccessToken (scan_user (E_UserID e, r))) h1) as (h2 & -> & M2); [done| |done|].
  { destruct M as (_ & _ & ->). by rewrite app_nil_r. }
  pose proof (moved_trans _ _ _ _ _ _ _ M (moved_trans _ _ _ _ _ _ _ M2 (log_event_moves "queue_event_scrobbled" u (E_ID e) "" h2))) as M3.
  set (h3 := log_event _ _ _ _ h2) in *. simpl. unfold on_db, DeleteQueuedScrobble. rewrite statement_quiet by apply Hf.
  simpl. eexists. split; [reflexivity|]. destruct M3 as (Hu3 & Hq3 & Hs3). split_and!; [done| |done].
  intros id. simpl. rewrite lookup_delete. case_bool_decide as Hid.
  - apply list_elem_of_singleton in Hid as ->. by rewrite decide_True.
  - rewrite decide_False by set_solver. rewrite Hq3. rewrite bool_decide_false; [done|]. apply not_elem_of_nil.
Qed.

(** A batch. *)
Lemma drain_batch_accepted u r events : ∀ h d c,
  quiet_calls → addresses → accepting (List.length (h_sent h)) → users (h_db h) !! u = Some r →
  Forall (λ e, E_Action e ∈ ["start"; "pause"; "stop"] ∧ E_UserID e = u) events →
  0 ≤ successCount c → successCount c + Z.of_nat (List.length events) ≤ int64_max →
  ∃ h' d', foldl (λ st e, drainEvent u e st) (h, d, c) events =
      (h', d', mkCounts (successCount c + Z.of_nat (List.length events)) (failureCount c)) ∧
    moved h (E_ID <$> events) (post_event (UR_access r) <$> events) h'.
Proof using PL.
  induction events as [|e events IH]; intros h d c Hf Had Hac Hu Hall Hc Hn.
  { exists h, d. split; [|apply moved_refl]. simpl. destruct c; simpl. do 2 f_equal. lia. }
  apply Forall_cons in Hall as [[Ha He] Hall].
  destruct (drainEvent_accepted u e h d c r) as (h1 & E1 & M1); [done..|by rewrite He|].
  cbn [foldl]. rewrite E1. simpl in Hn. rewrite wrap64_small by (unfold int64_min; lia).
  destruct (IH h1 (RecordEvent u true d) (mkCounts (successCount c + 1) (failureCount c))) as (h2 & d2 & E2 & M2);
    simpl; try done; try lia.
  - intros n req Hle. apply Hac. destruct M1 as (_ & _ & Hs). rewrite Hs, length_app in Hle. lia.
  - by rewrite (proj1 M1).
  - exists h2, d2. split; [|exact (moved_trans _ _ _ _ _ _ _ M1 M2)]. rewrite E2. simpl. do 2 f_equal. lia.
Qed.

(** The queue without a batch that was its beginning. *)
Lemma rest_of_queue u n h h' reqs :
  moved h (take n (user_events u (h_db h))).*1 reqs h' →
  user_events u (h_db h') ≡ₚ drop n (user_events u (h_db h)).
Proof using PL.
  intros (_ & Hq & _). pose proof (user_events_NoDup u (h_db h)) as Hn. set (rows := user_events u (h_db h)) in *.
  apply NoDup_Permutation.
  - eapply NoDup_fmap_1, user_events_NoDup.
  - apply (NoDup_fmap_1 fst). rewrite fmap_drop. eapply sublist_NoDup; [exact Hn|apply sublist_drop].
  - intros [k r]. rewrite user_events_spec, Hq. rewrite <-(take_drop n rows), fmap_app in Hn.
    apply NoDup_app in Hn as (_ & Hdis & _). assert ((k, r) ∈ rows ↔ _) as Hr by apply user_events_spec.
    rewrite <-(take_drop n rows), elem_of_app in Hr. split.
    + intros [Hk Hu]. case_bool_decide as Hin; [done|]. destruct (proj2 Hr (conj Hk Hu)) as [Ht|]; [|done].
      destruct Hin. by apply (list_elem_of_fmap_2 fst) in Ht.
    + intros Hd. rewrite bool_decide_false; [by apply Hr; right|].
      intros Hin. apply (Hdis _ Hin). by apply (list_elem_of_fmap_2 fst) in Hd.
Qed.

Lemma scan_events_app rows rows' events events' :
  scan_events rows = Ret events → scan_events rows' = Ret events' → scan_events (rows ++ rows') = Ret (events ++ events').
Proof.
  revert events. induction rows as [|row rows IH]; intros events; simpl; [by intros [= <-]|].
  destruct (scan_event row) as [oe|]; simpl; [|done]. destruct (scan_events rows) as [es|]; simpl; [|done].
  intros [= <-] Hs. rewrite (IH es eq_refl Hs). simpl. by destruct oe.
Qed.

(** What the rows of a well-formed queue give. *)
Definition sendable_queue (db : Db) : Prop :=
  decodable db ∧ map_Forall (λ _ r, Q_action r ∈ ["start"; "pause"; "stop"]) (queued_scrobbles db).

Lemma sendable_moved h ids reqs h' : moved h ids reqs h' → sendable_queue (h_db h) → sendable_queue (h_db h').
Proof.
  intros (_ & Hq & _) [Hd Ha]. assert (queued_scrobbles (h_db h') ⊆ queued_scrobbles (h_db h)) as Hsub.
  { apply map_subseteq_spec. intros k r. rewrite Hq. by case_bool_decide. }
  split; intros k r Hk; eapply lookup_weaken in Hk; eauto.
Qed.

Lemma batch_of_queue env u db :
  (∀ p, fault env p = None) → sendable_queue db →
  ∃ events, DequeueScrobbles env u 100 db = Ret (Ok events) ∧
    scan_events (take 100 (user_events u db)) = Ret events ∧
    E_ID <$> events = (take 100 (user_events u db)).*1 ∧
    Forall (λ e, E_Action e ∈ ["start"; "pause"; "stop"] ∧ E_UserID e = u) events.
Proof using PL.
  intros Hf [Hd Ha]. destruct (scan_events_all (take 100 (user_events u db))) as (events & Hs & Hid).
  { apply Forall_take, Forall_forall. intros [k r] [Hk _]%user_events_spec. exact (Hd k r Hk). }
  exists events. split_and!; [|done|done|].
  - unfold DequeueScrobbles. rewrite statement_quiet by done. simpl. change (Z.to_nat 100) with 100%nat.
    rewrite Hs. simpl. by rewrite Hf.
  - destruct (scan_events_spec _ _ Hs) as (_ & Hall & _). eapply Forall_impl; [exact Hall|].
    intros e (r & Hin & Hu & _ & Hact & _). apply elem_of_take in Hin as (i & Hi & _).
    apply list_elem_of_lookup_2, user_events_spec in Hi as [Hk <-]. split; [|done]. rewrite Hact. exact (Ha _ _ Hk).
Qed.

(** The rows a drain has sent: a batch, and the rows of what was left. *)
Lemma sorted_batches u n db rows :
  rows ≡ₚ drop n (user_events u db) → StronglySorted (key_le Q_created_at) rows →
  take n (user_events u db) ++ rows ≡ₚ user_events u db ∧
  StronglySorted (key_le Q_created_at) (take n (user_events u db) ++ rows).
Proof using PL.
  intros Hp Hs. split; [by rewrite Hp, take_drop|].
  pose proof (order_asc_sorted Q_created_at (select (λ _ r, bool_decide (Q_user_id r = u)) (queued_scrobbles db))) as Ho.
  change (order_asc _ _) with (user_events u db) in Ho.
  rewrite <-(take_drop n (user_events u db)) in Ho at 1. apply StronglySorted_app in Ho as (Hle & Ht & _).
  apply StronglySorted_app. split_and!; [|done|done]. intros x y Hx Hy. rewrite Hp in Hy. by apply Hle.
Qed.

Lemma drainBatches_accepted u r : ∀ fuel h d c,
  quiet_calls → addresses → accepting (List.length (h_sent h)) → sendable_queue (h_db h) →
  (user_events u (h_db h) ≠ [] → users (h_db h) !! u = Some r) →
  (List.length (user_events u (h_db h)) < fuel)%nat → 0 ≤ successCount c →
  successCount c + Z.of_nat (List.length (user_events u (h_db h))) ≤ int64_max →
  ∃ h' d' rows events,
    drainBatches fuel u (h, d, c) =
      Some (h', d', mkCounts (successCount c + Z.of_nat (List.length (user_events u (h_db h)))) (failureCount c)) ∧
    rows ≡ₚ user_events u (h_db h) ∧ StronglySorted (key_le Q_created_at) rows ∧ scan_events rows = Ret events ∧
    moved h rows.*1 (post_event (UR_access r) <$> events) h'.
Proof using PL.
  induction fuel as [|fuel IH]; intros h d c Hf Had Hac Hq Hu Hlt Hc Hn; [lia|].
  destruct (batch_of_queue (envs (h_calls h)) u (h_db h) (Hf _) Hq) as (events & Hdq & Hsc & Hid & Hall).
  cbn [drainBatches]. simpl (D_DequeueScrobbles _ _ _). unfold on_db. rewrite Hdq.
  set (h1 := mkHome _ _ _ _). assert (moved h [] [] h1) as M1.
  { split_and!; [done|done|]. simpl. by rewrite app_nil_r. }
  assert (List.length events = List.length (take 100 (user_events u (h_db h)))) as Hle.
  { apply (f_equal List.length) in Hid. by rewrite !length_fmap in Hid. }
  destruct events as [|e events].
  { assert (user_events u (h_db h) = []) as E by (by destruct (user_events u (h_db h))).
    exists h1, d, [], []. rewrite E. simpl. split_and!; [|done|constructor|done|done].
    by rewrite Z.add_0_r; destruct c. }
  assert (user_events u (h_db h) ≠ []) as Hne by (by destruct (user_events u (h_db h))).
  assert (List.length (take 100 (user_events u (h_db h))) ≤ List.length (user_events u (h_db h)))%nat as Hle2
    by (rewrite length_take; lia).
  destruct (drain_batch_accepted u r (e :: events) h1 d c) as (h2 & d2 & -> & M2);
    [done|done|done|by apply Hu|done|done|lia|].
  pose proof (moved_trans _ _ _ _ _ _ _ M1 M2) as M. rewrite !app_nil_l, Hid in M.
  pose proof (rest_of_queue _ _ _ _ _ M) as Hrest.
  pose proof (Permutation_length Hrest) as Hlen. rewrite length_drop in Hlen. rewrite length_take in Hle. cbn [List.length] in Hle.
  destruct (IH h2 d2 (mkCounts (successCount c + Z.of_nat (List.length (e :: events))) (failureCount c)))
    as (h3 & d3 & rows & es & E3 & Hp & Hs & Hsc3 & M3); cbn [successCount failureCount List.length] in *; try done; try lia.
  - intros n req Hle3. apply Hac. destruct M as (_ & _ & Hs). rewrite Hs, length_app in Hle3. lia.
  - by eapply sendable_moved.
  - intros _. rewrite (proj1 M). by apply Hu.
  - rewrite Hrest in Hp. destruct (sorted_batches u 100 (h_db h) rows Hp Hs) as [Hp4 Hs4].
    exists h3, d3, (take 100 (user_events u (h_db h)) ++ rows), ((e :: events) ++ es). split_and!; [|done|done| |].
    + rewrite E3. do 3 f_equal. lia.
    + by apply scan_events_app.
    + rewrite !fmap_app. exact (moved_trans _ _ _ _ _ _ _ M M3).
Qed.

(** A whole drain. *)
Lemma drainUser_accepted u h d :
  quiet_calls → addresses → accepting (List.length (h_sent h)) → sendable_queue (h_db h) →
  (user_events u (h_db h) ≠ [] → is_Some (users (h_db h) !! u)) →
  Z.of_nat (List.length (user_events u (h_db h))) ≤ int64_max →
  let n := List.length (user_events u (h_db h)) in
  ∃ h' d' rows events,
    drainUserQueue (S n) u (h, d) = Some (h', d', mkCounts (Z.of_nat n) 0) ∧
    rows ≡ₚ user_events u (h_db h) ∧ StronglySorted (key_le Q_created_at) rows ∧ scan_events rows = Ret events ∧
    moved h rows.*1 (post_event (token_of u (h_db h)) <$> events) h' ∧ user_events u (h_db h') = [].
Proof using PL.
  intros Hf Had Hac Hq Hu Hn n. unfold drainUserQueue.
  destruct (D_Now h) as [now0 h0] eqn:E0. assert (moved h [] [] h0) as M0.
  { change h0 with (now0, h0).2. rewrite <-E0. apply (on_db_reads (λ env _, clock env)). }
  destruct (D_Now h0) as [now1 h1] eqn:E1. assert (moved h0 [] [] h1) as M1.
  { change h1 with (now1, h1).2. rewrite <-E1. apply (on_db_reads (λ env _, clock env)). }
  pose proof (moved_trans _ _ _ _ _ _ _ M0 (moved_trans _ _ _ _ _ _ _ M1
    (log_event_moves "queue_drain_user_start" u "" "" h1))) as M. set (h2 := log_event _ _ _ _ h1) in *.
  assert (h_db h2 = h_db h) as Hdb.
  { unfold h2, log_event. simpl. unfold append. injection E0 as _ <-. injection E1 as _ <-. by destruct (Log_Append _ _). }
  assert (h_sent h2 = h_sent h) as Hsent by (destruct M as (_ & _ & ->); by rewrite app_nil_r).
  set (r := default (mkUserRow "" "" "" None 0 None) (users (h_db h) !! u)).
  destruct (drainBatches_accepted u r (S n) h2 (RecordDrainStart u now1 d) (mkCounts 0 0))
    as (h3 & d3 & rows & events & E3 & Hp & Hs & Hsc & M3);
    rewrite ?Hdb, ?Hsent; cbn [successCount]; try done; try (unfold n; lia).
  { intros Hne. unfold r. by destruct (Hu Hne) as [? ->]. }
  rewrite Hdb in *. rewrite E3. exists h3, (RecordDrainComplete u d3), rows, events. split_and!; try done.
  - assert (UR_access r = token_of u (h_db h)) as <-.
    { unfold r, token_of. by destruct (users (h_db h) !! u). }
    exact (moved_trans _ _ _ _ _ _ _ M M3).
  - destruct M3 as (_ & Hq3 & _). apply elem_of_nil_inv. intros [k x] [Hk Hx]%user_events_spec.
    rewrite Hq3 in Hk. case_bool_decide as Hin; [done|]. rewrite Hdb in Hk. destruct Hin.
    apply (list_elem_of_fmap_2 fst _ (k, x)). rewrite Hp. by apply user_events_spec.
Qed.

Lemma integrity_sendable db : integrity db → decodable db → sendable_queue db.
Proof. intros Hi Hd. split; [done|]. intros k r Hk. by destruct (scrobble_check db Hi k r Hk). Qed.

Lemma integrity_known u db : integrity db → user_events u db ≠ [] → is_Some (users db !! u).
Proof using PL.
  intros Hi Hne. destruct (user_events u db) as [|[k r] l] eqn:E; [done|].
  assert ((k, r) ∈ user_events u db) as [Hk <-]%user_events_spec by (rewrite E; by left). exact (scrobble_user db Hi k r Hk).
Qed.

(** C6: when Trakt accepts again, a drain delivers the whole queue of a user:
    it sends one request for every queued event, in the order in which they
    were queued, with the stored action and body and the token the user has
    now; it counts as many successes, leaves nothing of the user in the queue
    and the events of other users as they are. *)
Theorem queue_sent_in_order (u : string) (h : Home) (d : DrainStateTracker) :
  quiet_calls → addresses → accepting (List.length (h_sent h)) → integrity (h_db h) → decodable (h_db h) →
  Z.of_nat (List.length (user_events u (h_db h))) ≤ int64_max →
  let n := List.length (user_events u (h_db h)) in
  ∃ h' d' rows events,
    drainUserQueue (S n) u (h, d) = Some (h', d', mkCounts (Z.of_nat n) 0) ∧
    rows ≡ₚ user_events u (h_db h) ∧ StronglySorted (key_le Q_created_at) rows ∧ scan_events rows = Ret events ∧
    h_sent h' = h_sent h ++ (post_event (token_of u (h_db h)) <$> events) ∧
    user_events u (h_db h') = [] ∧
    ∀ id row, Q_user_id row ≠ u →
      queued_scrobbles (h_db h') !! id = Some row ↔ queued_scrobbles (h_db h) !! id = Some row.
Proof using PL.
  intros Hf Had Hac Hi Hd Hn n.
  destruct (drainUser_accepted u h d) as (h' & d' & rows & events & E & Hp & Hs & Hsc & (Hu & Hq & Hsent) & He);
    [done..|by apply integrity_sendable|by apply integrity_known|done|].
  exists h', d', rows, events. split_and!; try done. intros id row Hne. rewrite Hq. case_bool_decide as Hin; [|done].
  split; [done|]. intros Hk. apply list_elem_of_fmap in Hin as ([k x] & -> & Hin). rewrite Hp in Hin.
  apply user_events_spec in Hin as [Hk' <-]. simpl in Hk. congruence.
Qed.

(** ** A refused scrobble *)

(** The answers that mean an outage. *)
Definition outage (r : result response) : Prop :=
  match r with Ok resp => transientStatus (StatusCode resp) = true | Err _ => True end.

(** A scrobble that the store takes: a known user without a fallback buffer, an
    event that passes validation, a body that JSONB keeps, a queue that is not
    full and an unused id. *)
Record takes (h : Home) (user : User) (action : string) (item : CacheItem) (id : string) : Prop := {
  takes_user : is_Some (users (h_db h) !! U_ID user) ∧ U_ID user ≠ "" ∧ fallbackBuffers (h_store h) !! U_ID user = None;
  takes_event : action ∈ ["start"; "pause"; "stop"] ∧ 0 ≤ Progress (Body item) ≤ 100 ∧
    PlayerUuid item ≠ "" ∧ RatingKey item ≠ "";
  takes_body : Body_int (Body item) ∧ plain (ScrobbleBody_MarshalJSON (Body item)) = true;
  takes_room : Z.of_nat (List.length (user_events (U_ID user) (h_db h))) < maxQueuePerUser;
  takes_id : generateEventID (rnd (envs (h_calls h))) = Ok id ∧ id ≠ "" ∧ queued_scrobbles (h_db h) !! id = None;
  takes_log : ∃ l, ring_rep 100 (Log_events (h_log h)) l;
}.

(** The queue holds an event of the same player and media item. *)
Definition taken_slot (h : Home) (item : CacheItem) : Prop :=
  ∃ k r, queued_scrobbles (h_db h) !! k = Some r ∧ Q_player_uuid r = PlayerUuid item ∧ Q_rating_key r = RatingKey item.

(** The event of the call. *)
Definition queued_event (now : Time) (user : User) (action : string) (item : CacheItem) (id : string) : QueuedScrobbleEvent :=
  mkEvent id (U_ID user) (Body item) action (Progress (Body item)) now 0 zeroTime (PlayerUuid item) (RatingKey item).
Abbreviation now_of h := (clock (envs (h_calls h))).

Lemma prepareEvent_takes h user action item id :
  takes h user action item id →
  prepareEvent (envs (h_calls h)) (mkEvent "" (U_ID user) (Body item) action (Progress (Body item)) zeroTime 0 zeroTime
    (PlayerUuid item) (RatingKey item)) = Ok (queued_event (now_of h) user action item id).
Proof.
  intros [(_ & Hu & _) (Ha & Hp & Hpl & Hr) _ _ (Hg & Hid & _) _]. unfold prepareEvent, prepare. simpl. rewrite Hg. simpl.
  unfold validateEvent. simpl. rewrite (bool_decide_false _ Hu), (bool_decide_true _ Ha), (bool_decide_false _ Hpl), (bool_decide_false _ Hr). simpl.
  destruct (Z.ltb_spec (Progress (Body item)) 0); [lia|]. destruct (Z.ltb_spec 100 (Progress (Body item))); [lia|]. done.
Qed.

(** What the statements make of it: a row in a free slot, nothing in a taken
    one. *)
Lemma insert_checks h user action item id :
  takes h user action item id →
  let e := queued_event (now_of h) user action item id in
  ∀ db, insert_scrobble id (scrobble_row e) db =
    if none_with (same_slot (scrobble_row e)) (queued_scrobbles db) then
      _ ← check unique_violation (negb (exists_in (queued_scrobbles db) id));
      _ ← check foreign_key_violation (exists_in (users db) (U_ID user));
      Ok (tt, set_queued_scrobbles (<[id := scrobble_row e]> (queued_scrobbles db)) db)
    else Ok (tt, db).
Proof.
  intros [_ (Ha & Hp & _) _ _ _ _] e db. unfold insert_scrobble, check at 1 2 3. cbn [e queued_event scrobble_row
    E_Action E_Progress E_RetryCount E_UserID Q_action Q_progress Q_retry_count Q_user_id].
  by rewrite !bool_decide_true by (done || lia).
Qed.

Lemma storeEvent_insert h user action item id :
  quiet_calls → takes h user action item id →
  let e := queued_event (now_of h) user action item id in
  storeEvent (envs (h_calls h)) e (h_db h) =
    match insert_scrobble id (scrobble_row e) (h_db h) with
    | Ok (a, db) => (Ok a, db)
    | Err err => (Err err, h_db h)
    end.
Proof.
  intros Hf Ht e. unfold storeEvent, GetQueueSize. rewrite !statement_quiet by apply Hf. cbn [e queued_event E_UserID].
  by rewrite (proj2 (Z.leb_gt _ _) (takes_room _ _ _ _ _ Ht)).
Qed.

Lemma storeEvent_free h user action item id :
  quiet_calls → takes h user action item id → ¬ taken_slot h item →
  let e := queued_event (now_of h) user action item id in
  storeEvent (envs (h_calls h)) e (h_db h) =
    (Ok tt, set_queued_scrobbles (<[id := scrobble_row e]> (queued_scrobbles (h_db h))) (h_db h)).
Proof.
  intros Hf Ht Hsl e. unfold e. rewrite (storeEvent_insert _ _ _ _ _ Hf Ht), (insert_checks _ _ _ _ _ Ht).
  rewrite (proj2 (none_with_spec _ _)); cycle 1.
  { intros k r Hk. unfold same_slot. cbn. apply andb_false_iff.
    destruct (decide (PlayerUuid item = Q_player_uuid r)); [right|left]; apply bool_decide_eq_false; [|done].
    intros E'. destruct Hsl. by exists k, r. }
  destruct (takes_id _ _ _ _ _ Ht) as (_ & _ & Hid). destruct (takes_user _ _ _ _ _ Ht) as [Hu _].
  assert (exists_in (queued_scrobbles (h_db h)) id = false) as ->.
  { apply bool_decide_eq_false. rewrite Hid. by intros []. }
  simpl. by rewrite (proj2 (exists_in_spec _ _) Hu).
Qed.

Lemma storeEvent_taken h user action item id :
  quiet_calls → takes h user action item id → taken_slot h item →
  storeEvent (envs (h_calls h)) (queued_event (now_of h) user action item id) (h_db h) = (Ok tt, h_db h).
Proof.
  intros Hf Ht (k & r & Hk & Hp & Hr). rewrite (storeEvent_insert _ _ _ _ _ Hf Ht), (insert_checks _ _ _ _ _ Ht).
  assert (none_with (same_slot (scrobble_row (queued_event (now_of h) user action item id)))
            (queued_scrobbles (h_db h)) = false) as ->; [|done].
  apply not_true_iff_false. rewrite none_with_spec. intros Hn. specialize (Hn k r Hk). revert Hn.
  unfold same_slot. cbn. by rewrite Hp, Hr, !bool_decide_true.
Qed.

Lemma enqueue_takes h user action item id db :
  takes h user action item id →
  storeEvent (envs (h_calls h)) (queued_event (now_of h) user action item id) (h_db h) = (Ok tt, db) →
  EnqueueScrobble envs 1 (mkEvent "" (U_ID user) (Body item) action (Progress (Body item)) zeroTime 0 zeroTime
    (PlayerUuid item) (RatingKey item)) (h_calls h, h_store h) =
  Some (Ret (None, (S (h_calls h), set_storage db (h_store h)))).
Proof.
  intros Ht Hst. unfold EnqueueScrobble. cbn [enqueueWith]. unfold tryStore.
  rewrite (prepareEvent_takes _ _ _ _ _ Ht), Hst. cbv beta iota.
  unfold flushWith. cbn [snd set_storage fallbackBuffers queued_event E_UserID].
  by rewrite (proj2 (proj2 (takes_user _ _ _ _ _ Ht))).
Qed.

Lemma append_ok e h : (∃ l, ring_rep 100 (Log_events (h_log h)) l) →
  ∃ h', append e h = Ret h' ∧ h_store h' = h_store h ∧ h_sent h' = h_sent h ∧
    ∃ l, ring_rep 100 (Log_events (h_log h)) l ∧ ring_rep 100 (Log_events (h_log h')) (last_n 100 (l ++ [e])).
Proof.
  intros [l Hl]. unfold append, Log_Append. destruct (ring_Put_rep 100 _ _ e ltac:(lia) Hl) as (r' & -> & Hr).
  eexists. split_and!; [done..|]. by exists l.
Qed.

(** The monitoring log of [h1] is that of [h] and the report of an enqueue. *)
Definition reported_queued (user : User) (h h1 : Home) : Prop :=
  if has_queueEventLog t then
    ∃ l e, ring_rep 100 (Log_events (h_log h)) l ∧ ring_rep 100 (Log_events (h_log h1)) (last_n 100 (l ++ [e])) ∧
      L_Operation e = "queue_enqueue" ∧ L_UserID e = U_ID user ∧ L_Error e = ""
  else h_log h1 = h_log h.

(** An outage hands the scrobble to the store. *)
Lemma scrobbleRequest_queued h user action item id db :
  addresses → takes h user action item id →
  storeEvent (envs (h_calls h)) (queued_event (now_of h) user action item id) (h_db h) = (Ok tt, db) →
  let req := post_of action (Body item) (U_AccessToken user) in
  outage (answer (List.length (h_sent h)) req) →
  ∃ h1, scrobbleRequest t action item user h = Ret h1 ∧ h_sent h1 = h_sent h ++ [req] ∧
    h_store h1 = set_storage db (h_store h) ∧ reported_queued user h h1.
Proof.
  intros Had Ht Hst req Hout. pose proof (proj1 (takes_event _ _ _ _ _ Ht)) as Ha. unfold scrobbleRequest.
  rewrite post_of_ok by done. fold req. cbn [Do home_http].
  set (h0 := mkHome (h_store h) (h_calls h) (h_sent h ++ [req]) (h_log h)).
  assert (∃ h1, enqueueScrobbleEvent t user item action h0 = Ret h1 ∧ h_sent h1 = h_sent h ++ [req] ∧
    h_store h1 = set_storage db (h_store h) ∧ reported_queued user h h1) as He.
  { unfold reported_queued, enqueueScrobbleEvent. cbn [Store_EnqueueScrobble home_scrobbles].
    change (h_calls h0, h_store h0) with (h_calls h, h_store h). rewrite (enqueue_takes _ _ _ _ _ _ Ht Hst).
    destruct (has_queueEventLog t); [|by eexists]. cbn. unfold on_db. cbn.
    match goal with |- context [append ?e ?h] => destruct (append_ok e h) as (h1 & -> & Hs & Hse & l & Hl & Hl1) end.
    { exact (takes_log _ _ _ _ _ Ht). }
    exists h1. split_and!; [done|by rewrite Hse|by rewrite Hs|by eexists l, _]. }
  destruct (answer _ req) as [resp|]; [simpl in Hout; by rewrite Hout|done].
Qed.

(** C36: the queue has one place for a player and a media item: during an
    outage the store answers a scrobble for an item that already has an event
    in the queue without an error, and the monitoring log, when there is one,
    reports it as queued, but the store is exactly as before.  So the [stop]
    that marks a film as watched is lost when its [start] could not be sent. *)
Theorem later_scrobble_dropped (h : Home) (user : User) (action : string) (item : CacheItem) (id : string) :
  let req := post_of action (Body item) (U_AccessToken user) in
  quiet_calls → addresses → takes h user action item id → taken_slot h item →
  outage (answer (List.length (h_sent h)) req) →
  (Store_EnqueueScrobble (mkEvent "" (U_ID user) (Body item) action (Progress (Body item)) zeroTime 0 zeroTime
    (PlayerUuid item) (RatingKey item)) h).1 = None ∧
  ∃ h1, scrobbleRequest t action item user h = Ret h1 ∧ h_sent h1 = h_sent h ++ [req] ∧ h_store h1 = h_store h ∧
    reported_queued user h h1.
Proof.
  intros req Hf Had Ht Hsl Hout. pose proof (storeEvent_taken _ _ _ _ _ Hf Ht Hsl) as Hst. split.
  { cbn [Store_EnqueueScrobble home_scrobbles]. by rewrite (enqueue_takes _ _ _ _ _ _ Ht Hst). }
  destruct (scrobbleRequest_queued h user action item id (h_db h) Had Ht Hst Hout) as (h1 & E & Hs & Hst1 & Hl).
  exists h1. split_and!; [done|done| |done]. rewrite Hst1. by destruct (h_store h).
Qed.

(** The queue with one more event. *)
Lemma user_events_insert u id r db :
  queued_scrobbles db !! id = None → Q_user_id r = u →
  user_events u (set_queued_scrobbles (<[id := r]> (queued_scrobbles db)) db) ≡ₚ (id, r) :: user_events u db.
Proof using PL.
  intros Hid Hu. apply NoDup_Permutation.
  - eapply NoDup_fmap_1, user_events_NoDup.
  - apply NoDup_cons. split; [|eapply NoDup_fmap_1, user_events_NoDup].
    intros [Hk _]%user_events_spec. congruence.
  - intros [k x]. rewrite elem_of_cons, !user_events_spec. simpl. rewrite lookup_insert. case_decide as E; [subst k|]; naive_solver.
Qed.

Lemma scan_events_omap rows events :
  scan_events rows = Ret events →
  events = omap (λ row, match scan_event row with Ret (Some e) => Some e | _ => None end) rows.
Proof.
  revert events. induction rows as [|row rows IH]; intros events; simpl; [by intros [= <-]|].
  destruct (scan_event row) as [[e|]|]; simpl; [..|done]; destruct (scan_events rows) as [es|]; simpl; try done;
    intros [= <-]; by rewrite (IH es eq_refl).
Qed.

Lemma scan_events_perm rows rows' events events' :
  rows ≡ₚ rows' → scan_events rows = Ret events → scan_events rows' = Ret events' → events ≡ₚ events'.
Proof. intros Hp ->%scan_events_omap ->%scan_events_omap. by rewrite Hp. Qed.

Lemma decodable_scan u db : decodable db → ∃ events, scan_events (user_events u db) = Ret events.
Proof using PL.
  intros Hd. destruct (scan_events_all (user_events u db)) as (events & Hs & _); [|by exists events].
  apply Forall_forall. intros [k r] [Hk _]%user_events_spec. exact (Hd k r Hk).
Qed.

Context {JL : JsonTextLaws JT} {JB : JsonbLaws PG JT}.

(** The event as it comes back. *)
Lemma scan_queued_event h user action item id :
  takes h user action item id →
  ∃ e, scan_event (id, scrobble_row (queued_event (now_of h) user action item id)) = Ret (Some e) ∧
    E_Action e = action ∧ E_ScrobbleBody e = Body item.
Proof using JL JB.
  intros Ht. destruct (takes_body _ _ _ _ _ Ht) as [Hi Hpl]. destruct (takes_event _ _ _ _ _ Ht) as (_ & Hp & _).
  destruct (jsonb_body (Body item) Hi Hp Hpl) as (j & Hj & Hd). unfold scan_event. simpl. rewrite Hj, Hd. by eexists.
Qed.

(** C2: an outage delays a scrobble and loses nothing: a scrobble that Trakt
    refuses (no connection, 429, 502, 503, 504) and the store takes is queued,
    and when Trakt accepts again a drain sends, exactly once, the request with
    the same action and body, under the token the user has by then, together
    with whatever else was queued for the user, and empties the queue. *)
Theorem refused_scrobble_delivered (h : Home) (d : DrainStateTracker) (user : User) (action : string)
    (item : CacheItem) (id : string) :
  let u := U_ID user in
  let n := List.length (user_events u (h_db h)) in
  let req := post_of action (Body item) (U_AccessToken user) in
  quiet_calls → addresses → integrity (h_db h) → decodable (h_db h) → takes h user action item id →
  ¬ taken_slot h item → outage (answer (List.length (h_sent h)) req) → accepting (S (List.length (h_sent h))) →
  ∃ h1 h2 d' e old events,
    scrobbleRequest t action item user h = Ret h1 ∧
    drainUserQueue (S (S n)) u (h1, d) = Some (h2, d', mkCounts (Z.of_nat (S n)) 0) ∧
    E_Action e = action ∧ E_ScrobbleBody e = Body item ∧
    scan_events (user_events u (h_db h)) = Ret old ∧ events ≡ₚ e :: old ∧
    h_sent h2 = h_sent h ++ req :: (post_event (token_of u (h_db h)) <$> events) ∧
    user_events u (h_db h2) = [].
Proof using PL JL JB.
  intros u n req Hf Had Hi Hd Ht Hsl Hout Hac.
  destruct (scrobbleRequest_queued h user action item id _ Had Ht (storeEvent_free _ _ _ _ _ Hf Ht Hsl) Hout)
    as (h1 & E1 & Hs1 & Hst1 & _). apply (f_equal storage) in Hst1 as Hdb1. simpl in Hdb1. clear Hst1.
  destruct (scan_queued_event _ _ _ _ _ Ht) as (e & He & Hea & Heb).
  destruct (takes_id _ _ _ _ _ Ht) as (_ & _ & Hid). destruct (takes_user _ _ _ _ _ Ht) as [Hu _].
  set (row := scrobble_row _) in *.
  assert (user_events u (h_db h1) ≡ₚ (id, row) :: user_events u (h_db h)) as Hp1.
  { rewrite Hdb1. by apply user_events_insert. }
  assert (List.length (user_events u (h_db h1)) = S n) as Hn1 by (by rewrite Hp1).
  destruct (integrity_sendable _ Hi Hd) as [_ Hact].
  destruct (drainUser_accepted u h1 d) as (h2 & d2 & rows & events & E2 & Hp & _ & Hsc & (_ & _ & Hs2) & Hend);
    rewrite ?Hn1, ?Hdb1; try done.
  - rewrite Hs1, length_app. simpl. by rewrite Nat.add_1_r.
  - split; apply map_Forall_insert_2; [by exists e|done|exact (proj1 (takes_event _ _ _ _ _ Ht))|done].
  - pose proof (takes_room _ _ _ _ _ Ht) as Hroom. fold u n in Hroom. unfold maxQueuePerUser, int64_max in *. lia.
  - destruct (decodable_scan u _ Hd) as [old Hold]. rewrite Hn1 in E2.
    exists h1, h2, d2, e, old, events. split_and!; try done.
    + apply (scan_events_perm rows ((id, row) :: user_events u (h_db h))); [by rewrite Hp|done|].
      cbn [scan_events]. rewrite He. simpl. by rewrite Hold.
    + rewrite Hs2, Hs1, <-app_assoc. simpl. unfold token_of. by rewrite Hdb1.
Qed.
End Delivery.
End Home.

(** ** Examples *)

#[local] Existing Instances ascii_tables memory_server tree_text.
#[local] Instance trakt_urls : UrlText := { url_Parse s := Ok ("https", "api.trakt.tv") }.

Definition home_env : nat → Env := λ _, quiet (1700000000 * Second) "id".
(** Trakt is away for the first request and back for the others. *)
Definition away_once (n : nat) (req : request) : result response :=
  Ok (mkResponse (if bool_decide (n = 0%nat) then 503 else 201) "" "" None).
Definition client : Trakt := SetQueueEventLog (New "id" "secret").
Definition home_of (s : PostgresqlStore) (sent : list request) : Home := mkHome s 0 sent (NewQueueEventLog 100).

Lemma integrity_empty : integrity NewPostgresqlClient.
Proof. split; unfold foreign; simpl; intros *; rewrite ?lookup_empty; try done; by rewrite map_Forall_to_list. Qed.

Lemma integrity_user_db : integrity user_db.
Proof.
  exact (integrity_upsert_user "user" (mkUserRow "Sam" "acc" "ref" (Some "Sam S.") (1700000000 * Second)
    (Some (1700000000 * Second))) NewPostgresqlClient tt user_db integrity_empty eq_refl).
Qed.

Lemma integrity_two_events : integrity two_events_db.
Proof.
  apply (integrity_insert_scrobble (E_ID (sample_event "8")) (scrobble_row (sample_event "8")) (storeEvent ok_env (sample_event "7") user_db).2 tt);
    [|vm_compute; reflexivity].
  apply (integrity_insert_scrobble (E_ID (sample_event "7")) (scrobble_row (sample_event "7")) user_db tt); [|vm_compute; reflexivity].
  exact integrity_user_db.
Qed.

Lemma decodable_eval db :
  forallb (λ kr, match scan_event kr with Ret (Some _) => true | _ => false end) (map_to_list (queued_scrobbles db)) = true →
  decodable db.
Proof.
  intros Hb k r Hk. rewrite forallb_forall in Hb. specialize (Hb (k, r)).
  destruct (scan_event (k, r)) as [[e|]|]; [by exists e|..];
    (discriminate Hb; apply list_elem_of_In, elem_of_map_to_list; exact Hk).
Qed.

Lemma home_quiet : quiet_calls home_env.
Proof. done. Qed.
Lemma trakt_addresses : addresses.
Proof. intros action _. by eexists. Qed.
Lemma back_again : accepting away_once 1.
Proof.
  intros n req Hn. eexists. split; [reflexivity|]. rewrite bool_decide_false by lia. split; [done|]. vm_compute. discriminate.
Qed.

Definition first_request : request := post_of client "stop" emptyBody "acc".

Lemma queue_sent_in_order_witness :
  ∃ h' d' rows events,
    drainUserQueue (H0:=home_drain home_env away_once client) 3 "user"
      (home_of (NewPostgresqlStore two_events_db) [first_request], NewDrainStateTracker) =
      Some (h', d', mkCounts 2 0) ∧
    rows ≡ₚ user_events "user" two_events_db ∧ scan_events rows = Ret events ∧
    h_sent h' = [first_request] ++ (post_event client "acc" <$> events) ∧ user_events "user" (h_db h') = [].
Proof.
  destruct (queue_sent_in_order (PL:=memory_server_laws) home_env away_once client "user"
    (home_of (NewPostgresqlStore two_events_db) [first_request]) NewDrainStateTracker home_quiet trakt_addresses back_again
    integrity_two_events ltac:(apply decodable_eval; vm_compute; reflexivity) ltac:(vm_compute; discriminate))
    as (h' & d' & rows & events & H1 & H2 & _ & H3 & H4 & H5 & _).
  exists h', d', rows, events. split_and!; [exact H1|exact H2|exact H3|exact H4|exact H5].
Defined.

(** The scrobble of a film that was seen to the end. *)
Definition seen_item : CacheItem :=
  mkCacheItem "player" "server" "42" "" (mkBody 95 (Some (mkMovie (Some "Heat") (Some 1995) emptyIds)) None None) "".
Definition quiet_home : Home := home_of user_store [].
Definition first_id : string := match generateEventID (Ok (replicate 16 0)) with Ok id => id | Err _ => "" end.

Lemma seen_item_taken : takes home_env quiet_home sample_user "stop" seen_item first_id.
Proof.
  split.
  - split_and!; [vm_compute; by eexists|done|reflexivity].
  - split_and!; [|simpl; lia|simpl; lia|done|done]. apply (bool_decide_unpack _). vm_compute. exact I.
  - split; [|vm_compute; reflexivity]. split_and!; [|done|done]. intros m [= <-]. vm_compute. by split_and!.
  - vm_compute. reflexivity.
  - split_and!; [vm_compute; reflexivity|done|vm_compute; reflexivity].
  - exists []. exact (ring_New_rep 100).
Qed.

Lemma free_place : ¬ taken_slot quiet_home seen_item.
Proof.
  intros (k & r & Hk & _). change (queued_scrobbles (h_db quiet_home)) with (∅ : gmap string ScrobbleRow) in Hk.
  by rewrite lookup_empty in Hk.
Qed.

Lemma refused_scrobble_delivered_witness :
  ∃ h1 h2 d' e old events,
    scrobbleRequest (H2:=home_http away_once) (H3:=home_scrobbles home_env) client "stop" seen_item sample_user quiet_home = Ret h1 ∧
    drainUserQueue (H0:=home_drain home_env away_once client) 2 "user" (h1, NewDrainStateTracker) =
      Some (h2, d', mkCounts 1 0) ∧
    E_Action e = "stop" ∧ E_ScrobbleBody e = Body seen_item ∧
    scan_events (user_events "user" (h_db quiet_home)) = Ret old ∧ events ≡ₚ e :: old ∧
    h_sent h2 = post_of client "stop" (Body seen_item) "acc" :: (post_event client "acc" <$> events) ∧
    user_events "user" (h_db h2) = [].
Proof.
  exact (refused_scrobble_delivered (PL:=memory_server_laws) (JL:=tree_text_laws) (JB:=memory_server_jsonb tree_text)
    home_env away_once client quiet_home NewDrainStateTracker sample_user "stop" seen_item first_id
    home_quiet trakt_addresses integrity_user_db ltac:(apply decodable_eval; vm_compute; reflexivity)
    seen_item_taken free_place eq_refl back_again).
Defined.

(** The film again, with its start still in the queue. *)
Definition started : QueuedScrobbleEvent :=
  mkEvent "e42" "user" (mkBody 1 (Some (mkMovie (Some "Heat") (Some 1995) emptyIds)) None None)
    "start" 1 (1700000000 * Second) 0 zeroTime "player" "42".
Definition started_home : Home :=
  home_of (NewPostgresqlStore (storeEvent ok_env started user_db).2) [].

Lemma seen_item_taken_again : takes home_env started_home sample_user "stop" seen_item first_id.
Proof.
  destruct seen_item_taken as [[_ Hu] He Hb _ [Hi1 [Hi2 _]] Hl].
  split; [split; [vm_compute; by eexists|done]|done|done|vm_compute; reflexivity|split_and!; [done|done|vm_compute; reflexivity]|done].
Qed.

Lemma later_scrobble_dropped_witness :
  (Store_EnqueueScrobble (ScrobbleStore:=home_scrobbles home_env)
    (mkEvent "" "user" (Body seen_item) "stop" (Progress (Body seen_item)) zeroTime 0 zeroTime "player" "42")
    started_home).1 = None ∧
  ∃ h1, scrobbleRequest (H2:=home_http away_once) (H3:=home_scrobbles home_env) client "stop" seen_item sample_user started_home
      = Ret h1 ∧
    h_sent h1 = [post_of client "stop" (Body seen_item) "acc"] ∧ h_store h1 = h_store started_home ∧
    reported_queued client sample_user started_home h1.
Proof.
  apply (later_scrobble_dropped home_env away_once client started_home sample_user "stop" seen_item first_id
    home_quiet trakt_addresses seen_item_taken_again).
  2: reflexivity.
  exists "e42", (scrobble_row started). split_and!; [vm_compute; reflexivity|done|done].
Defined.
