(* ===== verification/Queue.v ===== *)
(** * The scrobble queue as an abstract specification

    What [Store] of [lib/store/main.go] promises of its queue methods, with a
    finite map from event ids to events as the state: a batch holds the first
    events of a user in an order of the store (by the second of creation for the
    disk and Redis stores), deletion and update concern one event.  [QueueRefines]
    says that a store implements it; the drain (Drain.v) then works on any such
    store. *)

From S2P Require Import Prelude GoLib Float Json Instances Common Entities Buffers Fallback Trakt Drain.

Open Scope Z_scope.

(** ** The specification *)

Abbreviation Queue := (gmap string QueuedScrobbleEvent).

Definition of_user (u : string) (m : Queue) : list QueuedScrobbleEvent :=
  filter (λ e, E_UserID e = u) (map_to_list m).*2.

(** Creation order as far as the disk and Redis stores keep it: by the whole
    second, in any order within it ([store/main.go] promises the order of the
    timestamps; [RedisQueue.same_second_reversed] shows the difference). *)
Definition second_before (a b : QueuedScrobbleEvent) : Prop := Unix (E_CreatedAt a) ≤ Unix (E_CreatedAt b).

(** [events] are the first [limit] events of [u] in the order [le] (all of them
    when there are fewer). *)
Definition first_by (le : QueuedScrobbleEvent → QueuedScrobbleEvent → Prop) (m : Queue) (u : string) (limit : Z)
    (events : list QueuedScrobbleEvent) : Prop :=
  ∃ rest, events ++ rest ≡ₚ of_user u m ∧ StronglySorted le (events ++ rest) ∧
    Z.of_nat (List.length events) = Z.max 0 limit `min` Z.of_nat (List.length (of_user u m)).
Abbreviation oldest := (first_by second_before).

(** Events are stored under their id. *)
Definition keyed (m : Queue) : Prop := map_Forall (λ id e, E_ID e = id) m.

(** What evicting the oldest event of a full queue leaves. *)
Definition evicted (u : string) (m m' : Queue) : Prop :=
  if decide (Z.of_nat (List.length (of_user u m)) < maxQueuePerUser) then m' = m
  else ∃ e, oldest m u 1 [e] ∧ m' = delete (E_ID e) m.

(** The events that survive the text of a store: valid, with integers of the
    program's widths, timestamps of the years 0-9999 and texts of valid UTF-8. *)
Definition storable `{TimeText} (e : QueuedScrobbleEvent) : Prop :=
  validateEvent e = None ∧ (Event_int e ∧ json_wf (json_of_Event e) = true) ∧
  time_in_range (E_CreatedAt e) = true ∧ time_in_range (E_LastAttempt e) = true.

(** ** The interface *)

Class QueueStore (W : Type) := {
  q_DequeueScrobbles : string → Z → W → outcome (result (list QueuedScrobbleEvent)) * W;
  q_DeleteQueuedScrobble : string → W → option error * W;
  q_UpdateQueuedScrobbleRetry : Time → string → Z → W → outcome (option error) * W;
}.

(** [q_inv] holds of the stores that [q_abs] describes, [q_user] of the user ids
    the store can name. *)
Class QueueRefines (W : Type) `{QS : QueueStore W} (q_inv : W → Prop) (q_abs : W → Queue)
    (q_user : string → Prop) : Prop := {
  q_keyed w : q_inv w → keyed (q_abs w);
  q_dequeue u limit w : q_inv w → q_user u → 0 < limit ≤ int64_max →
    ∃ events w', q_DequeueScrobbles u limit w = (Ret (Ok events), w') ∧
      q_inv w' ∧ q_abs w' = q_abs w ∧ oldest (q_abs w) u limit events;
  q_delete id w : q_inv w → is_Some (q_abs w !! id) →
    ∃ w', q_DeleteQueuedScrobble id w = (None, w') ∧ q_inv w' ∧ q_abs w' = delete id (q_abs w);
  q_update now id n e w : q_inv w → q_abs w !! id = Some e → time_in_range now = true →
    int64_min ≤ n ≤ int64_max →
    ∃ w', q_UpdateQueuedScrobbleRetry now id n w = (Ret None, w') ∧ q_inv w' ∧
      q_abs w' = <[id := set_E_Retry n now e]> (q_abs w);
}.

(** ** Lemmas *)

Lemma elem_of_user u m e : keyed m → e ∈ of_user u m ↔ m !! E_ID e = Some e ∧ E_UserID e = u.
Proof.
  intros Hk. unfold of_user. rewrite list_elem_of_filter, list_elem_of_fmap. split.
  - intros (Hu & [id e'] & -> & Hin). simpl in *. apply elem_of_map_to_list in Hin as Hl.
    by rewrite (Hk _ _ Hl).
  - intros [Hl Hu]. split; [done|]. exists (E_ID e, e). split; [done|]. by apply elem_of_map_to_list.
Qed.

Lemma map_to_list_ids m : keyed m → E_ID <$> (map_to_list m).*2 = (map_to_list m).*1.
Proof.
  intros Hk. rewrite <-list_fmap_compose.
  apply list_fmap_ext. intros i [id e] Hi. simpl.
  apply list_elem_of_lookup_2, elem_of_map_to_list in Hi. by apply Hk.
Qed.

Lemma of_user_NoDup_ids u m : keyed m → NoDup (E_ID <$> of_user u m).
Proof.
  intros Hk. eapply sublist_NoDup; [|apply fmap_sublist, sublist_filter].
  rewrite map_to_list_ids by done. apply NoDup_fst_map_to_list.
Qed.

Lemma of_user_NoDup u m : keyed m → NoDup (of_user u m).
Proof. intros Hk. by eapply NoDup_fmap_1, of_user_NoDup_ids. Qed.

(** A sorted enumeration of a user's events gives the oldest ones as a prefix. *)
Lemma oldest_take le m u limit es :
  es ≡ₚ of_user u m → StronglySorted le es → first_by le m u limit (take (Z.to_nat limit) es).
Proof.
  intros Hp Hs. exists (drop (Z.to_nat limit) es). rewrite take_drop. split_and!; [done..|].
  rewrite length_take, Hp. lia.
Qed.

Lemma StronglySorted_weaken {A} (le le' : A → A → Prop) l :
  (∀ a b, le a b → le' a b) → StronglySorted le l → StronglySorted le' l.
Proof. intros Hle. induction 1 as [|a l _ IH Ha]; constructor; [done|]. eapply Forall_impl; [exact Ha|auto]. Qed.

Lemma first_by_weaken (le le' : QueuedScrobbleEvent → QueuedScrobbleEvent → Prop) m u limit es :
  (∀ a b, le a b → le' a b) → first_by le m u limit es → first_by le' m u limit es.
Proof. intros Hle (rest & Hp & Hs & Hl). exists rest. split_and!; [done| |done]. by eapply StronglySorted_weaken. Qed.

Lemma oldest_one m u es :
  keyed m → 0 < Z.of_nat (List.length (of_user u m)) → oldest m u 1 es →
  ∃ e, es = [e] ∧ m !! E_ID e = Some e ∧ E_UserID e = u.
Proof.
  intros Hk Hn (rest & Hp & _ & Hl). destruct es as [|e [|]]; simpl in Hl; [lia| |lia].
  exists e. split; [done|]. apply elem_of_user; [done|]. rewrite <-Hp. left.
Qed.

Lemma of_user_none u m : keyed m → of_user u m = [] → filter (λ ie, E_UserID ie.2 ≠ u) m = m.
Proof.
  intros Hk Hn. apply map_filter_id. intros id e He Hu. simpl in Hu.
  assert (e ∈ of_user u m) as Hin by (apply elem_of_user; [done|]; by rewrite (Hk _ _ He)).
  rewrite Hn in Hin. by apply not_elem_of_nil in Hin.
Qed.

(** ** The text of an event *)

Section EventText.
Context `{UT : UnicodeTables, TT : TimeText, TL : !TimeTextLaws TT, JT : JsonText, JL : !JsonTextLaws JT}.

Definition event_data (e : QueuedScrobbleEvent) : string := json_print (json_of_Event e).

Lemma storable_retry n t e :
  storable e → time_in_range t = true → int64_min ≤ n ≤ int64_max → storable (set_E_Retry n t e).
Proof using TL.
  intros (Hv & [(Hb & Hp & _) Hj] & H1 & _) Ht Hn. split_and!; [done..| |done|done].
  pose proof (valid_utf8_ascii _ (time_text_ascii t)) as Htt. pose proof (json_wf_int n Hn) as Hin. revert Hj.
  unfold json_of_Event, enc_struct, present, always. cbn [omap list_omap id set_E_Retry
    E_ID E_UserID E_ScrobbleBody E_Action E_Progress E_CreatedAt E_RetryCount E_LastAttempt E_PlayerUUID E_RatingKey].
  cbn [json_wf forallb fst snd]. rewrite !andb_true_iff. tauto.
Qed.

Lemma serialize_storable e : storable e → serializeEvent e = Ok (event_data e).
Proof. intros (_ & _ & H1 & H2). unfold serializeEvent. by rewrite H1, H2. Qed.

Lemma deserialize_storable e : storable e → deserializeEvent (event_data e) = Ret (Ok e).
Proof using TL JL.
  intros (Hv & [Hi Hj] & H1 & H2). unfold deserializeEvent, event_data. rewrite json_parse_print by done.
  by rewrite dec_Event_enc by (done || by apply validateEvent_progress).
Qed.

Lemma event_data_inj e e' : storable e → storable e' → event_data e = event_data e' → e = e'.
Proof using UT TL JL.
  intros He He' E. apply deserialize_storable in He, He'. rewrite E in He. congruence.
Qed.
End EventText.

(** ** The drain on a store that implements the specification *)

(** The queue, the users (a world of their own), the number of calls, what was
    handed to the Trakt client (action, item and token), and the monitoring
    log. *)
Record QueueWorld (W X : Type) := mkQueueWorld {
  qw_store : W;
  qw_users : X;
  qw_calls : nat;
  qw_sent : list (string * CacheItem * string);
  qw_log : list QueueLogEvent;
}.
Arguments mkQueueWorld {W X} qw_store qw_users qw_calls qw_sent qw_log.
Arguments qw_store {W X} q.
Arguments qw_users {W X} q.
Arguments qw_calls {W X} q.
Arguments qw_sent {W X} q.
Arguments qw_log {W X} q.

Definition qw_sends {W X} (w : QueueWorld W X) : nat := List.length (qw_sent w).

Section QueueDrain.
Context `{UnicodeTables} {W X : Type} `{QS : QueueStore W}.
(** Reading a user; the ids [ListUsersWithQueuedEvents] gives; the clock; the
    answers of Trakt. *)
Context (get_user : string → X → option User * X) (list_users : W → result (list string) * W)
  (clock : nat → Time) (trakt : nat → string → CacheItem → string → option error).

Definition on_store {A} (f : W → A * W) (w : QueueWorld W X) : A * QueueWorld W X :=
  let '(a, s) := f (qw_store w) in
  (a, mkQueueWorld s (qw_users w) (S (qw_calls w)) (qw_sent w) (qw_log w)).

(** A panic of the store would end the program; it is an error here, and
    [q_inv] excludes it. *)
Definition queue_drain_store : DrainStore (QueueWorld W X) := {|
  D_ListUsersWithQueuedEvents := on_store list_users;
  D_DequeueScrobbles u n w :=
    let '(r, w) := on_store (q_DequeueScrobbles u n) w in
    (match r with Ret r => r | Panic why => Err (Errorf why) end, w);
  D_DeleteQueuedScrobble id := on_store (q_DeleteQueuedScrobble id);
  D_UpdateQueuedScrobbleRetry id n w :=
    let '(r, w) := on_store (q_UpdateQueuedScrobbleRetry (clock (qw_calls w)) id n) w in
    (match r with Ret r => r | Panic why => Some (Errorf why) end, w);
  D_GetUser id w :=
    let '(u, x) := get_user id (qw_users w) in
    (u, mkQueueWorld (qw_store w) x (S (qw_calls w)) (qw_sent w) (qw_log w));
  D_ScrobbleFromQueue action item token w :=
    (trakt (qw_calls w) action item token,
     mkQueueWorld (qw_store w) (qw_users w) (S (qw_calls w)) (qw_sent w ++ [(action, item, token)]) (qw_log w));
  D_Append e w := mkQueueWorld (qw_store w) (qw_users w) (qw_calls w) (qw_sent w) (qw_log w ++ [e]);
  D_Now w := (clock (qw_calls w),
              mkQueueWorld (qw_store w) (qw_users w) (S (qw_calls w)) (qw_sent w) (qw_log w));
  D_Sleep _ w := w;
|}.

Context (q_inv : W → Prop) (q_abs : W → Queue) (q_user : string → Prop)
  {QR : QueueRefines W q_inv q_abs q_user}.

Definition qw_inv (w : QueueWorld W X) : Prop := q_inv (qw_store w).
Definition qw_pending (w : QueueWorld W X) (u : string) : gset string :=
  list_to_set (E_ID <$> of_user u (q_abs (qw_store w))).

Lemma qw_pending_size w u :
  qw_inv w → size (qw_pending w u) = List.length (of_user u (q_abs (qw_store w))).
Proof using QR.
  intros Hi. unfold qw_pending. rewrite size_list_to_set by (apply of_user_NoDup_ids, q_keyed, Hi).
  by rewrite length_fmap.
Qed.

Lemma elem_of_qw_pending w u id :
  qw_inv w → id ∈ qw_pending w u ↔ ∃ e, q_abs (qw_store w) !! id = Some e ∧ E_UserID e = u.
Proof using QR.
  intros Hi. pose proof (q_keyed (qw_store w) Hi) as Hk. unfold qw_pending.
  rewrite elem_of_list_to_set, list_elem_of_fmap. split.
  - intros (e & -> & He). exists e. by apply elem_of_user.
  - intros (e & He & Hu). assert (E_ID e = id) as <- by (by apply Hk). exists e. split; [done|].
    by apply elem_of_user.
Qed.

Lemma qw_pending_unique w : qw_inv w → ids_unique qw_pending w.
Proof using QR.
  intros Hi u v id. rewrite !elem_of_qw_pending by done.
  intros (e & He & <-) (e' & He' & <-). congruence.
Qed.

(** The sets of pending ids depend on the abstract queue only. *)
Lemma qw_pending_abs w w' u :
  q_abs (qw_store w') = q_abs (qw_store w) → qw_pending w' u = qw_pending w u.
Proof. unfold qw_pending. by intros ->. Qed.

Lemma queue_drain_frame :
  (∀ i, time_in_range (clock i) = true) →
  DrainFrame (DS:=queue_drain_store) (QueueWorld W X) qw_inv qw_pending qw_sends q_user.
Proof using QR.
  intros Hclock. split.
  - intros u n w Hi Hu Hn. simpl. unfold on_store.
    destruct (q_dequeue u n (qw_store w) Hi Hu Hn) as (events & s & -> & Hi' & Ha & rest & Hp & _ & Hl).
    split; [split; [done|]; split; [|done]; intros v; by apply qw_pending_abs|].
    exists events. split; [done|]. rewrite qw_pending_size by done. split_and!.
    + pose proof (of_user_NoDup_ids u _ (q_keyed (qw_store w) Hi)) as Hnd. rewrite <-Hp, fmap_app in Hnd.
      by apply NoDup_app in Hnd as [? _].
    + unfold qw_pending. intros id. rewrite !elem_of_list_to_set. rewrite <-Hp, fmap_app, elem_of_app. auto.
    + rewrite Hl. lia.
  - intros id n u w Hi Hin Hn. simpl. unfold on_store.
    apply elem_of_qw_pending in Hin as (e & He & Hu); [|done].
    destruct (q_update (clock (qw_calls w)) id n e (qw_store w) Hi He (Hclock _)) as (s & -> & Hi' & Ha).
    { unfold int64_min, int64_max. lia. }
    simpl. split; [done|]. split; [|done]. intros v. apply set_eq. intros x.
    rewrite !elem_of_qw_pending by done. simpl. rewrite Ha, lookup_insert.
    case_decide as Hx; [subst x|done]. split.
    + intros (e' & [= <-] & <-). by exists e.
    + intros (e' & E' & <-). simplify_eq. by eexists.
  - intros u w Hi. simpl. by destruct (get_user u (qw_users w)).
  - intros a c t w Hi. split_and!; [done|done|]. unfold qw_sends. simpl. rewrite length_app. simpl. lia.
  - done.
  - done.
  - done.
Qed.

Lemma queue_drain_delete :
  DrainDelete (DS:=queue_drain_store) (QueueWorld W X) qw_inv qw_pending qw_sends.
Proof using QR.
  intros id u w Hi Hin. simpl. unfold on_store.
  apply elem_of_qw_pending in Hin as (e & He & Hu); [|done].
  destruct (q_delete id (qw_store w) Hi) as (s & -> & Hi' & Ha); [by eexists|].
  simpl. split_and!; [done..|]. intros v. apply set_eq. intros x.
  rewrite elem_of_difference, elem_of_singleton, !elem_of_qw_pending by done. simpl.
  rewrite Ha, lookup_delete. case_decide as Hx; [subst x|].
  - split; [by intros (? & ? & _)|by intros [_ []]].
  - split; [intros ?; split; [done|congruence]|by intros [? _]].
Qed.

(** Draining a user of any store that implements the queue. *)
Lemma queue_drain_empties (userID : string) (w : QueueWorld W X) (d : DrainStateTracker) :
  (∀ i, time_in_range (clock i) = true) → q_inv (qw_store w) → q_user userID →
  Z.of_nat (List.length (of_user userID (q_abs (qw_store w)))) ≤ int64_max →
  let n := List.length (of_user userID (q_abs (qw_store w))) in
  ∃ w' d' c, drainUserQueue (H0:=queue_drain_store) (S n) userID (w, d) = Some (w', d', c) ∧
    of_user userID (q_abs (qw_store w')) = [] ∧
    (∀ id e, q_abs (qw_store w) !! id = Some e → E_UserID e ≠ userID →
       ∃ e', q_abs (qw_store w') !! id = Some e' ∧ E_UserID e' = E_UserID e) ∧
    (qw_sends w' ≤ qw_sends w + 5 * n)%nat ∧
    successCount c + failureCount c = Z.of_nat n.
Proof using QR.
  intros Hclock Hi Hu Hn n. pose proof (queue_drain_frame Hclock) as DF. pose proof queue_drain_delete as DD.
  destruct (drainUserQueue_law (DS:=queue_drain_store) qw_inv qw_pending qw_sends q_user (S n) userID w d)
    as (w' & d' & c & Hi' & Hrun & He & Ho & Hs & Hc & _);
    [done|done|by apply qw_pending_unique|by rewrite qw_pending_size|rewrite qw_pending_size by done; unfold n; lia|].
  rewrite qw_pending_size in Hs, Hc by done. exists w', d', c. split; [done|]. split_and!; [| |done|done].
  - destruct (of_user userID (q_abs (qw_store w'))) as [|e l] eqn:E; [done|].
    assert (E_ID e ∈ qw_pending w' userID) as Hin by (unfold qw_pending; rewrite E; simpl; by apply elem_of_union_l, elem_of_singleton).
    rewrite He in Hin. by apply not_elem_of_empty in Hin.
  - intros id e Hl Hne. assert (id ∈ qw_pending w (E_UserID e)) as Hin by (apply elem_of_qw_pending; eauto).
    rewrite <-Ho in Hin by done. apply elem_of_qw_pending in Hin; [|done]. done.
Qed.
(** *** When Trakt accepts *)

(** The user whose queue is drained is known, with the given token, whatever
    [users_ok] users were read before, and every request succeeds. *)
Section Accepting.
#[local] Existing Instance queue_drain_store.
Context (u token : string) (users_ok : X → Prop).
Hypothesis user_known : ∀ x, users_ok x →
  ∃ user x', get_user u x = (Some user, x') ∧ users_ok x' ∧ U_AccessToken user = token.
Hypothesis accepted : ∀ i a c s, trakt i a c s = None.

Definition sent_of (e : QueuedScrobbleEvent) : string * CacheItem * string :=
  (E_Action e, mkCacheItem (E_PlayerUUID e) "" (E_RatingKey e) "" (E_ScrobbleBody e) "", token).

(** [w'] is [w] after the events [ids] were deleted and [sent] were sent. *)
Definition carried (w : QueueWorld W X) (ids : list string) (sent : list (string * CacheItem * string))
    (w' : QueueWorld W X) : Prop :=
  q_inv (qw_store w') ∧ users_ok (qw_users w') ∧
  (∀ id, q_abs (qw_store w') !! id = if bool_decide (id ∈ ids) then None else q_abs (qw_store w) !! id) ∧
  qw_sent w' = qw_sent w ++ sent.

Lemma carried_refl w : q_inv (qw_store w) → users_ok (qw_users w) → carried w [] [] w.
Proof. intros Hi Hu. split_and!; [done|done|done|by rewrite app_nil_r]. Qed.

Lemma carried_trans w1 ids sent w2 ids' sent' w3 :
  carried w1 ids sent w2 → carried w2 ids' sent' w3 → carried w1 (ids ++ ids') (sent ++ sent') w3.
Proof.
  intros (_ & _ & Hq & Hs) (Hi & Hu & Hq' & Hs'). split_and!; [done|done| |by rewrite Hs', Hs, app_assoc].
  intros id. rewrite Hq', Hq. repeat case_bool_decide; set_solver.
Qed.

Lemma drainEvent_delivers e w d c :
  q_inv (qw_store w) → users_ok (qw_users w) → E_UserID e = u → is_Some (q_abs (qw_store w) !! E_ID e) →
  ∃ w', drainEvent u e (w, d, c) =
      (w', RecordEvent u true d, mkCounts (wrap64 (successCount c + 1)) (failureCount c)) ∧
    carried w [E_ID e] [sent_of e] w'.
Proof using QR user_known accepted.
  intros Hi Hu He Hin. unfold drainEvent, sendEventWithRetry. cbn [send_attempts]. rewrite He.
  destruct (user_known (qw_users w) Hu) as (user & x & Hg & Hx & Htok).
  cbn. unfold sendScrobble. rewrite Hg. cbn. rewrite accepted. unfold log_event. cbn. unfold on_store. cbn.
  destruct (q_delete (E_ID e) (qw_store w) Hi Hin) as (s & -> & Hi' & Ha).
  eexists. split; [reflexivity|]. split_and!; [done|done| |cbn; unfold sent_of; by rewrite Htok].
  cbn. rewrite Ha. intros id. rewrite lookup_delete.
  case_bool_decide as Hid; case_decide as Hid'; try done; set_solver.
Qed.

Lemma drain_batch_delivers events : ∀ w d c,
  q_inv (qw_store w) → users_ok (qw_users w) → NoDup (E_ID <$> events) →
  Forall (λ e, E_UserID e = u ∧ is_Some (q_abs (qw_store w) !! E_ID e)) events →
  0 ≤ successCount c → successCount c + Z.of_nat (List.length events) ≤ int64_max →
  ∃ w' d', foldl (λ st e, drainEvent u e st) (w, d, c) events =
      (w', d', mkCounts (successCount c + Z.of_nat (List.length events)) (failureCount c)) ∧
    carried w (E_ID <$> events) (sent_of <$> events) w'.
Proof using QR user_known accepted.
  induction events as [|e events IH]; intros w d c Hi Hu Hnd Hall Hc Hn.
  { exists w, d. split; [|by apply carried_refl]. simpl. destruct c; simpl. do 2 f_equal. lia. }
  apply Forall_cons in Hall as [[He Hin] Hall]. rewrite fmap_cons in Hnd. apply NoDup_cons in Hnd as [Hne Hnd].
  destruct (drainEvent_delivers e w d c Hi Hu He Hin) as (w1 & E1 & M1).
  cbn [foldl]. rewrite E1. simpl in Hn. rewrite wrap64_small by (unfold int64_min; lia).
  destruct M1 as (Hi1 & Hu1 & Hq1 & Hs1).
  destruct (IH w1 (RecordEvent u true d) (mkCounts (successCount c + 1) (failureCount c))) as (w2 & d2 & E2 & M2);
    simpl; try done; try lia.
  - apply Forall_forall. intros e' Hin'. rewrite Forall_forall in Hall. destruct (Hall e' Hin') as [He' Hl].
    split; [done|]. rewrite Hq1, bool_decide_false; [done|]. rewrite list_elem_of_singleton. intros E.
    apply Hne. rewrite <-E. by apply list_elem_of_fmap_2.
  - exists w2, d2. split; [rewrite E2; simpl; do 2 f_equal; lia|].
    exact (carried_trans w [_] [_] w1 _ _ w2 (conj Hi1 (conj Hu1 (conj Hq1 Hs1))) M2).
Qed.

(** What is left of the queue after its oldest events. *)
Lemma rest_after events rest w sent w' :
  q_inv (qw_store w) → events ++ rest ≡ₚ of_user u (q_abs (qw_store w)) →
  carried w (E_ID <$> events) sent w' → of_user u (q_abs (qw_store w')) ≡ₚ rest.
Proof using QR.
  intros Hi Hp (Hi' & _ & Hq & _). pose proof (q_keyed _ Hi) as Hk. pose proof (q_keyed _ Hi') as Hk'.
  pose proof (of_user_NoDup_ids u _ Hk) as Hnd. rewrite <-Hp, fmap_app in Hnd. apply NoDup_app in Hnd as (_ & Hdis & Hnd).
  apply NoDup_Permutation; [by apply of_user_NoDup|by eapply NoDup_fmap_1|]. intros e.
  assert (e ∈ events ++ rest ↔ q_abs (qw_store w) !! E_ID e = Some e ∧ E_UserID e = u) as He
    by (rewrite Hp; by apply elem_of_user).
  rewrite elem_of_user by done. rewrite Hq. rewrite elem_of_app in He. split.
  - intros [Hl Hu]. case_bool_decide as Hin; [done|]. destruct (proj2 He (conj Hl Hu)) as [Hev|]; [|done].
    destruct Hin. by apply list_elem_of_fmap_2.
  - intros Hr. rewrite bool_decide_false; [by apply He; right|]. intros Hin. apply (Hdis _ Hin). by apply list_elem_of_fmap_2.
Qed.
Lemma drainBatches_delivers : ∀ fuel w d c,
  q_inv (qw_store w) → users_ok (qw_users w) → q_user u →
  (List.length (of_user u (q_abs (qw_store w))) < fuel)%nat → 0 ≤ successCount c →
  successCount c + Z.of_nat (List.length (of_user u (q_abs (qw_store w)))) ≤ int64_max →
  ∃ w' d' events,
    drainBatches fuel u (w, d, c) =
      Some (w', d', mkCounts (successCount c + Z.of_nat (List.length (of_user u (q_abs (qw_store w))))) (failureCount c)) ∧
    events ≡ₚ of_user u (q_abs (qw_store w)) ∧ StronglySorted second_before events ∧
    carried w (E_ID <$> events) (sent_of <$> events) w'.
Proof using QR user_known accepted.
  induction fuel as [|fuel IH]; intros w d c Hi Hx Hu Hlt Hc Hn; [lia|].
  cbn [drainBatches]. cbn [D_DequeueScrobbles queue_drain_store]. unfold on_store.
  destruct (q_dequeue u 100 (qw_store w) Hi Hu ltac:(unfold int64_max; lia)) as (events & s & -> & Hi1 & Ha & rest & Hp & Hs & Hl).
  set (w1 := mkQueueWorld s _ _ _ _). assert (carried w [] [] w1) as M1.
  { split_and!; [done|done| |by rewrite app_nil_r]. intros id. cbn. by rewrite Ha. }
  pose proof (Permutation_length Hp) as Hlen. rewrite length_app in Hlen.
  destruct events as [|e events].
  { cbn [List.length] in Hl, Hlen. exists w1, d, []. destruct (of_user u (q_abs (qw_store w))); cbn [List.length] in *; [|lia].
    rewrite Z.add_0_r. destruct c. by split_and!; [..|constructor|]. }
  destruct (drain_batch_delivers (e :: events) w1 d c) as (w2 & d2 & -> & M2); try done.
  - pose proof (of_user_NoDup_ids u _ (q_keyed _ Hi)) as Hnd. rewrite <-Hp, fmap_app in Hnd. by apply NoDup_app in Hnd as [? _].
  - apply Forall_forall. intros e' Hin. assert (e' ∈ of_user u (q_abs (qw_store w))) as He by (rewrite <-Hp; set_solver).
    apply elem_of_user in He as [Hk He]; [|by apply q_keyed]. cbn [w1 qw_store]. rewrite Ha. by split; [|eexists].
  - lia.
  - pose proof (carried_trans _ _ _ _ _ _ _ M1 M2) as M. rewrite !app_nil_l in M.
    pose proof (rest_after (e :: events) rest w _ w2 Hi Hp M) as Hrest. pose proof (Permutation_length Hrest) as Hlen2.
    cbn [List.length] in Hl, Hlen, Hn, Hlt, IH |- *.
    pose proof (proj1 M) as Hi2. pose proof (proj1 (proj2 M)) as Hx2.
    destruct (IH w2 d2 (mkCounts (successCount c + Z.of_nat (S (List.length events))) (failureCount c)))
      as (w3 & d3 & es & E3 & Hp3 & Hs3 & M3); cbn [successCount failureCount]; try done; try lia.
    cbn [successCount failureCount] in E3. rewrite E3.
    exists w3, d3, ((e :: events) ++ es). rewrite Hrest in Hp3. split_and!.
    + do 3 f_equal. lia.
    + by rewrite Hp3.
    + apply StronglySorted_app in Hs as (Hle & Hs1 & _). apply StronglySorted_app. split_and!; [|done|done].
      intros x y Hx' Hy. rewrite Hp3 in Hy. by apply Hle.
    + rewrite !fmap_app. exact (carried_trans _ _ _ _ _ _ _ M M3).
Qed.
(** Draining a user of any store that implements the queue, while Trakt
    accepts: each event is sent once, oldest first, and nothing but the user's
    events leaves the queue. *)
Lemma queue_delivered (w : QueueWorld W X) (d : DrainStateTracker) :
  q_inv (qw_store w) → users_ok (qw_users w) → q_user u →
  Z.of_nat (List.length (of_user u (q_abs (qw_store w)))) ≤ int64_max →
  let n := List.length (of_user u (q_abs (qw_store w))) in
  ∃ w' d' events,
    drainUserQueue (S n) u (w, d) = Some (w', d', mkCounts (Z.of_nat n) 0) ∧
    events ≡ₚ of_user u (q_abs (qw_store w)) ∧ StronglySorted second_before events ∧
    qw_sent w' = qw_sent w ++ (sent_of <$> events) ∧
    q_abs (qw_store w') = filter (λ ie, E_UserID ie.2 ≠ u) (q_abs (qw_store w)).
Proof using QR user_known accepted.
  intros Hi Hx Hu Hn n. unfold drainUserQueue, log_event. cbn [D_Now D_Append queue_drain_store qw_store qw_users qw_calls qw_sent qw_log].
  set (w1 := mkQueueWorld (qw_store w) _ _ _ _).
  destruct (drainBatches_delivers (S n) w1 (RecordDrainStart u (clock (S (qw_calls w))) d) (mkCounts 0 0))
    as (w2 & d2 & events & E & Hp & Hs & (Hi2 & _ & Hq & Hsent)); cbn [w1 qw_store qw_users successCount]; try done;
    try (unfold n; lia).
  cbn [w1 qw_store successCount failureCount] in *. rewrite E. eexists _, _, events. split_and!; try done.
  pose proof (q_keyed _ Hi) as Hk. apply map_eq. intros id. rewrite Hq, map_lookup_filter.
  destruct (q_abs (qw_store w) !! id) as [e|] eqn:El; simpl; [|by case_bool_decide].
  assert (E_ID e = id) as Hid by (by apply Hk).
  assert (id ∈ E_ID <$> events ↔ E_UserID e = u) as Hin.
  { rewrite list_elem_of_fmap. split.
    - intros (e' & Hid' & He'). rewrite Hp in He'. apply elem_of_user in He' as [Hl <-]; [|done].
      rewrite <-Hid' in Hl. congruence.
    - intros He. exists e. split; [done|]. rewrite Hp. apply elem_of_user; [done|]. by rewrite Hid. }
  case_bool_decide as Hb; [rewrite option_guard_False|rewrite option_guard_True]; naive_solver.
Qed.
End Accepting.
End QueueDrain.

(** ** Examples *)

Definition uuid_event (n : string) : QueuedScrobbleEvent :=
  set_E_ID ("00000000-0000-4000-8000-00000000000" +:+ n) (sample_event n).
Definition sample_sources : Sources := mkSources (Ok (replicate 16 0)) (1700000000 * Second).

Lemma uuid_event_storable : storable (H:=decimal_time) (uuid_event "1").
Proof.
  split; [reflexivity|]. split; [split; [|vm_compute; reflexivity]|split; reflexivity].
  unfold Event_int, Body_int, Ids_int, int64_opt, int64_min, int64_max. simpl.
  split; [|lia]. split; [|done]. intros m [= <-]. simpl. lia.
Qed.
