(* ===== verification/DiskQueue.v ===== *)
(** * The disk store implements the scrobble queue

    Refinement of the abstract queue (Queue.v) by the directory tree of
    [DiskStore] (Disk.v): the files below [keystore/queue] are the queued
    events, named after their creation second and id, so that the order of
    names is the order of creation and an id occurs in the name of its own
    event only. *)

From S2P Require Import Prelude GoLib Float Json Instances Common Entities Buffers Codec Fallback Fs Disk Trakt Drain Queue.

Open Scope Z_scope.

(** ** File names *)

Definition dash : ascii := "-"%char.

(** The text form 8-4-4-4-12 of a UUID. *)
Definition uuid_text (s : string) : Prop :=
  ∃ g1 g2 g3 g4 g5 : list ascii,
    bytes s = g1 ++ dash :: g2 ++ dash :: g3 ++ dash :: g4 ++ dash :: g5 ∧
    (List.length <$> [g1; g2; g3; g4; g5]) = [8; 4; 4; 4; 12]%nat ∧
    Forall (Forall (λ a, is_hex a = true)) [g1; g2; g3; g4; g5].

Lemma uuid_v4_text s : uuid_v4 s → uuid_text s.
Proof.
  intros (g1 & g2 & g3 & g4 & g5 & -> & Hl & Hh & _). exists g1, g2, g3, g4, g5.
  by rewrite bytes_of_bytes.
Qed.

Lemma hex_not_dash l : Forall (λ a, is_hex a = true) l → Forall (λ a, a ≠ dash) l.
Proof. intros Hl. eapply Forall_impl; [exact Hl|]. by intros a Ha ->. Qed.

(** Where the dashes of a list are. *)
Definition dashes (l : list ascii) (i : nat) : Prop := l !! i = Some dash.

Lemma no_dash l i : Forall (λ a, a ≠ dash) l → ¬ dashes l i.
Proof. intros Hl Hi. rewrite Forall_lookup in Hl. by apply (Hl _ _ Hi). Qed.

Lemma dashes_app l k i :
  Forall (λ a, a ≠ dash) l →
  dashes (l ++ dash :: k) i ↔ i = List.length l ∨ (List.length l < i ∧ dashes k (i - S (List.length l)))%nat.
Proof.
  intros Hl. unfold dashes. destruct (decide (i < List.length l)%nat) as [Hi|Hi].
  - rewrite lookup_app_l by done. split; [intros Hd; by apply no_dash in Hd|lia].
  - rewrite lookup_app_r by lia. destruct (i - List.length l)%nat as [|j] eqn:E.
    + split; [left; lia|done].
    + simpl. replace (i - S (List.length l))%nat with j by lia. split; [right; split; [lia|done]|].
      intros [->|[_ ?]]; [lia|done].
Qed.

Lemma uuid_dashes s k i :
  uuid_text s → Forall (λ a, a ≠ dash) k →
  dashes (bytes s ++ k) i ↔ i ∈ [8; 13; 18; 23]%nat.
Proof.
  intros (g1 & g2 & g3 & g4 & g5 & -> & Hl & Hh) Hk. simpl in Hl. injection Hl as L1 L2 L3 L4 L5.
  apply Forall_cons in Hh as [H1 Hh]. apply Forall_cons in Hh as [H2 Hh].
  apply Forall_cons in Hh as [H3 Hh]. apply Forall_cons in Hh as [H4 Hh].
  apply Forall_cons in Hh as [H5 _].
  repeat (rewrite <-app_assoc; simpl).
  rewrite !dashes_app by (by apply hex_not_dash). rewrite L1, L2, L3, L4.
  assert (∀ j, ¬ dashes (g5 ++ k) j) as Hn.
  { intros j. apply no_dash, Forall_app. split; [by apply hex_not_dash|done]. }
  rewrite !elem_of_cons, elem_of_nil. split.
  - intros [?|[? [?|[? [?|[? [?|[? Hd]]]]]]]]; [lia..|by apply Hn in Hd].
  - intros Hi. destruct (decide (i = 8)%nat); [lia|]. right. split; [lia|].
    destruct (decide (i = 13)%nat); [lia|]. right. split; [lia|].
    destruct (decide (i = 18)%nat); [lia|]. right. split; [lia|]. lia.
Qed.

Lemma uuid_length s : uuid_text s → List.length (bytes s) = 36%nat.
Proof.
  intros (g1 & g2 & g3 & g4 & g5 & -> & Hl & _). simpl in Hl. injection Hl as L1 L2 L3 L4 L5.
  rewrite !length_app. simpl. rewrite !length_app. simpl. rewrite !length_app. simpl.
  rewrite !length_app. simpl. lia.
Qed.

(** An id occurs in a file name only as the id of that file. *)
Lemma id_in_filename (secs id id' : string) :
  Forall (λ a, a ≠ dash) (bytes secs) → uuid_text id → uuid_text id' →
  Contains (secs +:+ "-" +:+ id' +:+ ".json") id = true → id = id'.
Proof.
  intros Hs Hid Hid' Hc. unfold Contains in Hc. apply contains_b_spec in Hc as (k1 & k2 & E).
  rewrite !bytes_app in E. change (bytes "-") with [dash] in E.
  set (n := List.length (bytes secs)). set (o := List.length k1).
  assert (Hjson : Forall (λ a, a ≠ dash) (bytes ".json")) by (repeat constructor; done).
  assert (Hpos : ∀ i, i ∈ [8; 13; 18; 23]%nat → (o + i)%nat = n ∨ ∃ j, j ∈ [8; 13; 18; 23]%nat ∧ (o + i = n + 1 + j)%nat).
  { intros i Hi.
    assert (dashes (bytes id ++ []) i) as Hd by (apply uuid_dashes; [done|constructor|done]).
    rewrite app_nil_r in Hd.
    assert (dashes (k1 ++ bytes id ++ k2) (o + i)) as Hd'.
    { unfold dashes. rewrite lookup_app_r by (unfold o; lia). unfold o.
      rewrite Nat.add_comm, Nat.add_sub. by apply lookup_app_l_Some. }
    rewrite <-E in Hd'. simpl in Hd'. apply dashes_app in Hd' as [Hd'|[Hlt Hd']]; [by left|right|done].
    apply uuid_dashes in Hd'; [|done..]. eexists; split; [exact Hd'|]. fold n in Hlt |- *. lia. }
  assert (Ho : o = (n + 1)%nat).
  { pose proof (Hpos 8%nat ltac:(repeat constructor)) as P8.
    pose proof (Hpos 13%nat ltac:(repeat constructor)) as P13.
    pose proof (Hpos 18%nat ltac:(repeat constructor)) as P18.
    pose proof (Hpos 23%nat ltac:(repeat constructor)) as P23.
    setoid_rewrite elem_of_cons in P8. setoid_rewrite elem_of_cons in P13.
    repeat setoid_rewrite elem_of_cons in P8. repeat setoid_rewrite elem_of_cons in P13.
    repeat setoid_rewrite elem_of_cons in P18. repeat setoid_rewrite elem_of_cons in P23.
    setoid_rewrite elem_of_nil in P8. setoid_rewrite elem_of_nil in P13.
    setoid_rewrite elem_of_nil in P18. setoid_rewrite elem_of_nil in P23.
    destruct P8 as [P8|(j8 & J8 & P8)], P13 as [P13|(j13 & J13 & P13)],
      P18 as [P18|(j18 & J18 & P18)], P23 as [P23|(j23 & J23 & P23)]; lia. }
  change (bytes secs ++ [dash] ++ bytes id' ++ bytes ".json")
    with (bytes secs ++ [dash] ++ (bytes id' ++ bytes ".json")) in E.
  rewrite app_assoc in E.
  apply app_inj_1 in E as [_ E]; [|rewrite length_app; simpl; fold n o; lia].
  apply app_inj_1 in E as [E _]; [|by rewrite !uuid_length]. by apply (inj bytes).
Qed.

(** Seconds of ten digits: from 9 September 2001 to 20 November 2286. *)
Definition ten_digits (n : Z) : Prop := 10 ^ 9 ≤ n < 10 ^ 10.

Lemma digit_range a d : digit a = Some d → 0 ≤ d ≤ 9 ∧ Z.of_N (N_of_ascii a) = d + 48.
Proof.
  unfold digit. destruct ((48 <=? N_of_ascii a) && (N_of_ascii a <=? 57))%N eqn:E; [|done].
  apply andb_true_iff in E as [E1%N.leb_le E2%N.leb_le]. intros [= <-]. lia.
Qed.

Lemma digits_value_mono l1 l2 : ∀ r1 r2 a1 a2 v1 v2,
  List.length l1 = List.length l2 →
  digits_value a1 l1 = Some v1 → digits_value a2 l2 = Some v2 → a1 ≤ a2 →
  (a1 = a2 → String.le (of_bytes l1 +:+ r1) (of_bytes l2 +:+ r2)) → v1 ≤ v2.
Proof.
  revert l2. induction l1 as [|a l1 IH]; intros [|b l2] r1 r2 a1 a2 v1 v2 Hl H1 H2 Ha Hle;
    simplify_eq/=; [done|].
  destruct (digit a) as [d1|] eqn:D1; [|done]. destruct (digit b) as [d2|] eqn:D2; [|done].
  simpl in H1, H2. apply digit_range in D1 as [R1 N1]. apply digit_range in D2 as [R2 N2].
  destruct (decide (a1 = a2)) as [<-|]; cycle 1.
  { eapply (IH l2 r1 r2); [done|exact H1|exact H2|lia|]. intros; lia. }
  specialize (Hle eq_refl). unfold String.le, String.leb in Hle.
  change (of_bytes (a :: l1) +:+ r1) with (String a (of_bytes l1 +:+ r1)) in Hle.
  change (of_bytes (b :: l2) +:+ r2) with (String b (of_bytes l2 +:+ r2)) in Hle.
  simpl in Hle. unfold Ascii.compare in Hle.
  destruct (N.compare_spec (N_of_ascii a) (N_of_ascii b)) as [E|E|E]; [| |done].
  - eapply (IH l2 r1 r2); [done|exact H1|exact H2|lia|]. by intros _.
  - eapply (IH l2 r1 r2); [done|exact H1|exact H2|lia|]. lia.
Qed.

Lemma digits_value_bound l : ∀ a v, digits_value a l = Some v → 0 ≤ a →
  v < (a + 1) * 10 ^ Z.of_nat (List.length l).
Proof.
  induction l as [|x l IH]; intros a v Hv Ha; [simplify_eq/=; lia|].
  cbn [digits_value] in Hv. destruct (digit x) as [d|] eqn:D; [|done]. simpl in Hv.
  apply digit_range in D as [R _]. apply IH in Hv; [|lia].
  cbn [List.length]. rewrite Nat2Z.inj_succ, Z.pow_succ_r by lia. nia.
Qed.

Lemma nat_digits_ten n : ten_digits n → List.length (nat_digits n) = 10%nat.
Proof.
  intros Hn. unfold ten_digits in Hn.
  destruct (nat_digits_spec n) as (a & l & E & _ & Hv); [lia|].
  apply Nat.le_antisymm.
  - unfold nat_digits. apply (length_digits_of _ 9 n []). simpl. lia.
  - rewrite E. apply digits_value_bound in Hv; [|done].
    destruct (decide (List.length (a :: l) < 10)%nat) as [Hlt|]; [|lia].
    pose proof (Z.pow_le_mono_r 10 (Z.of_nat (List.length (a :: l))) 9 ltac:(lia) ltac:(lia)). lia.
Qed.

Lemma Itoa_ten n : ten_digits n → bytes (Itoa n) = nat_digits n.
Proof.
  unfold ten_digits, Itoa. intros. rewrite (proj2 (Z.ltb_ge n 0)) by lia. apply bytes_of_bytes.
Qed.

(** The order of file names is the order of creation. *)
Lemma filename_order n1 n2 r1 r2 :
  ten_digits n1 → ten_digits n2 → String.le (Itoa n1 +:+ r1) (Itoa n2 +:+ r2) → n1 ≤ n2.
Proof.
  intros H1 H2 Hle. pose proof (nat_digits_ten n1 H1) as L1. pose proof (nat_digits_ten n2 H2) as L2.
  unfold ten_digits in *.
  destruct (nat_digits_spec n1) as (a & l & E1 & _ & V1); [lia|].
  destruct (nat_digits_spec n2) as (b & k & E2 & _ & V2); [lia|].
  rewrite <-E1 in V1. rewrite <-E2 in V2.
  apply (digits_value_mono (nat_digits n1) (nat_digits n2) r1 r2 0 0); [congruence|done..|].
  intros _. unfold Itoa in Hle. by rewrite !(proj2 (Z.ltb_ge _ 0)) in Hle by lia.
Qed.

Lemma digit_not_dash l : Forall is_digit l → Forall (λ a, a ≠ dash) l.
Proof. intros Hl. eapply Forall_impl; [exact Hl|]. by intros a Ha ->. Qed.

(** ** Queued events *)

Section Names.
Context `{TimeText}.

(** The events the queue can hold: valid, printable, with a UUID, for a user
    whose id is a file name, created at a second of ten digits. *)
Definition good (e : QueuedScrobbleEvent) : Prop :=
  storable e ∧ uuid_text (E_ID e) ∧ plain (E_UserID e) ∧ ten_digits (Unix (E_CreatedAt e)).

Definition event_path (e : QueuedScrobbleEvent) : path := queueBasePath ++ [E_UserID e; event_filename e].

Lemma secs_not_dash e : good e → Forall (λ a, a ≠ dash) (bytes (Itoa (Unix (E_CreatedAt e)))).
Proof.
  intros (_ & _ & _ & Ht). rewrite Itoa_ten by done. unfold ten_digits in Ht.
  apply digit_not_dash, nat_digits_digits. lia.
Qed.

Lemma filename_plain e : good e → plain (event_filename e).
Proof.
  intros (_ & Hid & _ & Ht).
  assert (bytes (event_filename e) = nat_digits (Unix (E_CreatedAt e)) ++ dash :: bytes (E_ID e) ++ bytes ".json") as Eb.
  { unfold event_filename. rewrite !bytes_app, Itoa_ten by done. done. }
  pose proof (uuid_length _ Hid) as Hl. destruct Hid as (g1 & g2 & g3 & g4 & g5 & Eid & _ & Hh).
  apply plain_name; rewrite Eb.
  - rewrite length_app. simpl. rewrite length_app. lia.
  - assert (∀ l, Forall (λ a, is_hex a = true) l → Forall (λ a, a ≠ "/"%char) l) as Hx.
    { intros l Hf. eapply Forall_impl; [exact Hf|]. by intros a Ha ->. }
    rewrite !Forall_cons, Forall_nil in Hh. destruct Hh as (X1 & X2 & X3 & X4 & X5 & _).
    apply Forall_app. split.
    { eapply Forall_impl; [apply nat_digits_digits|by intros a Ha ->]. unfold ten_digits in Ht. lia. }
    constructor; [done|]. rewrite Eid. repeat (apply Forall_app || apply Forall_cons; split); auto; repeat constructor; done.
Qed.

Lemma filename_id e e' :
  good e → good e' → Contains (event_filename e) (E_ID e') = true → E_ID e' = E_ID e.
Proof.
  intros He He' Hc. pose proof He as (_ & Hid & _). pose proof He' as (_ & Hid' & _).
  exact (id_in_filename _ _ _ (secs_not_dash e He) Hid' Hid Hc).
Qed.

Lemma filename_contains_id e : Contains (event_filename e) (E_ID e) = true.
Proof.
  apply Contains_spec. exists (Itoa (Unix (E_CreatedAt e)) +:+ "-"), ".json".
  unfold event_filename. by rewrite !string_app_assoc.
Qed.

Lemma filename_inj e e' : good e → good e' → event_filename e = event_filename e' → E_ID e = E_ID e'.
Proof. intros He He' E. symmetry. apply filename_id; [done..|]. rewrite E. apply filename_contains_id. Qed.

Lemma event_path_inj e e' : good e → good e' → event_path e = event_path e' → E_ID e = E_ID e'.
Proof. intros He He' [= _ E]. by apply filename_inj. Qed.

Lemma filename_json e : HasSuffix (event_filename e) ".json" = true.
Proof.
  unfold HasSuffix, event_filename. rewrite !bytes_app, !app_assoc, rev_app_distr.
  apply prefix_b_spec. by apply prefix_app_r.
Qed.

Lemma entry_event fs e n : entry fs (event_path e) = Some n ↔ fs !! event_path e = Some n.
Proof. done. Qed.

Lemma queueDir_plain u : plain u → userQueueDir u = queueBasePath ++ [u].
Proof. intros Hu. apply join_plain; [by repeat constructor|done]. Qed.

Lemma eventPath_join e : good e → join (userQueueDir (E_UserID e)) (event_filename e) = event_path e.
Proof.
  intros He. pose proof He as (_ & _ & Hu & _). rewrite queueDir_plain by done.
  rewrite join_plain; [done| |by apply filename_plain].
  destruct Hu as (? & ? & ? & _). by repeat constructor.
Qed.

End Names.

(** ** The refinement relation *)

Section Refinement.
Context `{UnicodeTables, TT : TimeText, TL : !TimeTextLaws TT, JT : JsonText, JL : !JsonTextLaws JT}.

(** The files below the queue directory are the events of [m]. *)
Record disk_queue (fs : FS) (m : Queue) : Prop := {
  dq_wf : fs_wf fs;
  dq_base data : fs !! ["keystore"] ≠ Some (NFile data);
  dq_file q data : queueBasePath `prefix_of` q → fs !! q = Some (NFile data) →
    ∃ e, m !! E_ID e = Some e ∧ q = event_path e ∧ data = event_data e;
  dq_dir q : queueBasePath `prefix_of` q → fs !! q = Some NDir → (List.length q ≤ 3)%nat;
  dq_user u n : fs !! (queueBasePath ++ [u]) = Some n → plain u;
  dq_event id e : m !! id = Some e →
    E_ID e = id ∧ good e ∧ fs !! event_path e = Some (NFile (event_data e));
}.

Lemma dq_keyed fs m : disk_queue fs m → keyed m.
Proof. intros Hq id e He. by destruct (dq_event _ _ Hq _ _ He). Qed.

Lemma serialize_good e : good e → serializeEvent e = Ok (event_data e).
Proof. intros [He _]. by apply serialize_storable. Qed.

Lemma deserialize_good e : good e → deserializeEvent (event_data e) = Ret (Ok e).
Proof using TL JL. intros [He _]. by apply deserialize_storable. Qed.

(** Paths the queue keeps clear of files. *)
Lemma dq_no_file fs m u q data :
  disk_queue fs m → q `prefix_of` queueBasePath ++ [u] → entry fs q ≠ Some (NFile data).
Proof.
  intros Hq Hp He. apply entry_not_root in He as [_ He]; [|done].
  destruct (decide (queueBasePath `prefix_of` q)) as [Hb|Hb].
  - destruct (dq_file _ _ Hq _ _ Hb He) as (e & _ & -> & _).
    apply prefix_length in Hp. simpl in Hp. lia.
  - destruct Hp as [k Hk]. destruct q as [|x q]; [by destruct (dq_wf _ _ Hq _ _ He)|].
    destruct q as [|y q].
    + injection Hk as <- _. by apply (dq_base _ _ Hq) in He.
    + injection Hk as <- <- Hk. apply Hb. by exists q.
Qed.

Lemma dq_resolve fs m u :
  disk_queue fs m →
  resolve fs (queueBasePath ++ [u]) = inr NDir ∨
  (resolve fs (queueBasePath ++ [u]) = inl ENOENT ∧ children fs (queueBasePath ++ [u]) = []).
Proof.
  intros Hq. destruct (resolve_clear fs (queueBasePath ++ [u])) as [?|[? Hc]]; [apply Hq| |by left|right].
  - intros q data Hp. by eapply dq_no_file.
  - split; [done|]. destruct (children fs _) as [|[c b] l] eqn:E; [done|].
    assert ((c, b) ∈ children fs (queueBasePath ++ [u])) as Hin by (rewrite E; left).
    apply elem_of_children in Hin as (n & Hn & _). by rewrite Hc in Hn.
Qed.

(** The JSON files of a user, in the order [DequeueScrobbles] reads them. *)
Definition json_files (fs : FS) (u : string) : list DirEntry :=
  merge_sort name_le (List.filter is_json (children fs (queueBasePath ++ [u]))).

Lemma elem_of_json_files fs m u f :
  disk_queue fs m →
  f ∈ json_files fs u ↔ ∃ e, f = (event_filename e, false) ∧ m !! E_ID e = Some e ∧ E_UserID e = u.
Proof.
  intros Hq. unfold json_files. rewrite merge_sort_Permutation, list_elem_of_In, filter_In, <-list_elem_of_In.
  destruct f as [c b]. rewrite elem_of_children. split.
  - intros [(n & Hn & ->) Hj]. unfold is_json in Hj. simpl in Hj. destruct n as [|data]; [done|].
    assert (queueBasePath `prefix_of` (queueBasePath ++ [u]) ++ [c]) as Hp
      by (rewrite <-app_assoc; by apply prefix_app_r).
    destruct (dq_file _ _ Hq _ _ Hp Hn) as (e & He & [= -> ->] & _). by exists e.
  - intros (e & [= -> ->] & He & <-). destruct (dq_event _ _ Hq _ _ He) as (_ & Hg & Hf).
    split; [|unfold is_json; simpl; apply filename_json].
    exists (NFile (event_data e)). rewrite <-app_assoc. by split.
Qed.

Lemma json_files_sorted fs u : StronglySorted name_le (json_files fs u).
Proof. apply (StronglySorted_merge_sort _). Qed.

Lemma json_files_NoDup fs u : NoDup (json_files fs u).*1.
Proof.
  unfold json_files. rewrite merge_sort_Permutation.
  eapply sublist_NoDup; [apply (children_NoDup fs (queueBasePath ++ [u]))|]. apply fmap_sublist, filter_sublist.
Qed.

(** The files are the user's events in order of creation. *)
Lemma json_files_events fs m u :
  disk_queue fs m →
  ∃ es, json_files fs u = (λ e, (event_filename e, false)) <$> es ∧
    es ≡ₚ of_user u m ∧ StronglySorted second_before es ∧ Forall good es.
Proof.
  intros Hq. pose proof (dq_keyed _ _ Hq) as Hk.
  assert (∀ l, (∀ f, f ∈ l → f ∈ json_files fs u) →
    ∃ es, l = (λ e, (event_filename e, false)) <$> es ∧ Forall (λ e, m !! E_ID e = Some e ∧ E_UserID e = u) es) as Hex.
  { induction l as [|f l IH]; intros Hl; [exists []; by split|].
    destruct IH as (es & -> & Hes); [intros; apply Hl; by right|].
    destruct (proj1 (elem_of_json_files fs m u f Hq)) as (e & -> & He); [apply Hl; left|].
    exists (e :: es). by split; [|constructor]. }
  destruct (Hex (json_files fs u)) as (es & Hf & Hes); [done|]. exists es. split; [done|].
  assert (Forall good es) as Hg.
  { eapply Forall_impl; [exact Hes|]. intros e [He _]. by destruct (dq_event _ _ Hq _ _ He) as (_ & ? & _). }
  split_and!; [| |done].
  - pose proof (json_files_NoDup fs u) as Hnd. rewrite Hf, <-list_fmap_compose in Hnd.
    apply NoDup_Permutation; [by apply NoDup_fmap_1 in Hnd|by apply of_user_NoDup|].
    intros e. rewrite elem_of_user by done. rewrite Forall_forall in Hes. split; [apply Hes|].
    intros [He Hu]. assert ((event_filename e, false) ∈ json_files fs u) as Hin
      by (apply (elem_of_json_files fs m); eauto).
    rewrite Hf in Hin. apply list_elem_of_fmap in Hin as (e' & [= E] & Hin).
    destruct (Hes _ Hin) as [He' _]. rewrite Forall_forall in Hg.
    destruct (dq_event _ _ Hq _ _ He) as (_ & Hge & _).
    assert (E_ID e = E_ID e') as Hid by (apply filename_inj; auto). congruence.
  - pose proof (json_files_sorted fs u) as Hs. rewrite Hf in Hs.
    clear Hf Hes. induction es as [|e es IH]; [constructor|].
    rewrite fmap_cons in Hs. apply StronglySorted_cons in Hs as [Hall Hs]. apply Forall_cons in Hg as [He Hg].
    constructor; [by apply IH|]. rewrite Forall_fmap in Hall.
    apply Forall_forall. intros e' Hin. rewrite Forall_forall in Hall, Hg.
    specialize (Hall e' Hin). unfold name_le, event_filename in Hall. simpl in Hall.
    eapply filename_order; [apply He|by apply (Hg e' Hin)|exact Hall].
Qed.

(** ** The operations, on a disk that works *)

(** A read-only call: the file system is as before. *)
Definition same_fs (d d' : Disk) : Prop := d_fs d' = d_fs d.

Lemma absent_user m u d :
  disk_queue (d_fs d) m → plain u →
  ∃ b d', absent no_faults (userQueueDir u) d = (b, d') ∧ same_fs d d' ∧
    if b then children (d_fs d) (queueBasePath ++ [u]) = []
    else resolve (d_fs d) (queueBasePath ++ [u]) = inr NDir.
Proof.
  intros Hq Hu. rewrite queueDir_plain by done. unfold absent, os_Stat. rewrite os_call_quiet. cbn [fst snd].
  destruct (dq_resolve _ _ u Hq) as [->|[-> Hc]]; [by eexists false, _|].
  eexists true, _. split; [done|]. by split.
Qed.

Lemma json_files_length m u d :
  disk_queue (d_fs d) m →
  List.length (List.filter is_json (children (d_fs d) (queueBasePath ++ [u]))) =
  List.length (of_user u m).
Proof.
  intros Hq. destruct (json_files_events _ _ u Hq) as (es & Hf & <- & _).
  rewrite <-(length_fmap (λ e, (event_filename e, false)) es), <-Hf. unfold json_files.
  by rewrite merge_sort_Permutation.
Qed.

Lemma GetQueueSize_refines m u d :
  disk_queue (d_fs d) m → plain u →
  ∃ d', GetQueueSize no_faults u d = (Ok (Z.of_nat (List.length (of_user u m))), d') ∧ same_fs d d'.
Proof.
  intros Hq Hu. unfold GetQueueSize.
  destruct (absent_user m u d Hq Hu) as (b & d1 & -> & Hs & Hb).
  pose proof (json_files_length m u d Hq) as Hl. destruct b.
  - rewrite Hb in Hl. simpl in Hl. rewrite <-Hl. by exists d1.
  - rewrite queueDir_plain by done. unfold os_ReadDir. rewrite os_call_quiet. cbn [fst snd]. rewrite Hs, Hb.
    eexists; split; [by rewrite Hl|done].
Qed.

Lemma read_events_refines m u d es :
  disk_queue (d_fs d) m → plain u → Forall (λ e, m !! E_ID e = Some e ∧ E_UserID e = u) es →
  ∃ d', read_events no_faults (userQueueDir u) ((λ e, (event_filename e, false)) <$> es) d = (Ret es, d') ∧
    same_fs d d'.
Proof using TL JL.
  intros Hq Hu Hes. revert d Hq. induction Hes as [|e es [He Heu] _ IH]; intros d Hq; [by exists d|].
  destruct (dq_event _ _ Hq _ _ He) as (_ & Hg & Hf). rewrite fmap_cons. cbn [read_events fst].
  rewrite <-Heu, eventPath_join by done.
  unfold os_ReadFile. rewrite os_call_quiet. cbn [fst snd].
  rewrite (resolve_entry _ _ (NFile (event_data e))); [|apply Hq|by apply entry_event].
  rewrite deserialize_good by done. rewrite Heu.
  destruct (IH (mkDisk (d_fs d) (S (d_calls d))) Hq) as (d' & E & Hs). rewrite E.
  by exists d'.
Qed.

Lemma DequeueScrobbles_refines m u limit d :
  disk_queue (d_fs d) m → plain u →
  ∃ events d', DequeueScrobbles no_faults u limit d = (Ret (Ok events), d') ∧ same_fs d d' ∧
    oldest m u limit events.
Proof using TL JL.
  intros Hq Hu. unfold DequeueScrobbles.
  destruct (json_files_events _ _ u Hq) as (es & Hf & Hp & Hsort & Hg).
  destruct (absent_user m u d Hq Hu) as (b & d1 & -> & Hs & Hb). destruct b.
  - assert (of_user u m = []) as Hnil.
    { apply length_zero_iff_nil. rewrite <-(json_files_length m u d Hq), Hb. done. }
    exists [], d1. split_and!; [done..|]. exists []. rewrite Hnil. split_and!; [done|constructor|simpl; lia].
  - unfold os_ReadDir. rewrite os_call_quiet. cbn [fst snd]. rewrite queueDir_plain, Hs, Hb by done.
    change (merge_sort name_le _) with (json_files (d_fs d) u). rewrite Hf, <-fmap_take.
    rewrite <-queueDir_plain by done.
    destruct (read_events_refines m u (mkDisk (d_fs d) (S (d_calls d1))) (take (Z.to_nat limit) es))
      as (d2 & -> & Hs2); [done..| |].
    { apply Forall_take, Forall_forall. intros e. rewrite Hp. apply elem_of_user. by eapply dq_keyed. }
    simpl. eexists _, d2. split_and!; [done|exact Hs2|by apply oldest_take].
Qed.

(** Looking up a queued event by its id. *)
Lemma find_event_refines m id e d :
  disk_queue (d_fs d) m → m !! id = Some e →
  ∃ d', find_event no_faults id d = (Some (event_path e), d') ∧ same_fs d d'.
Proof.
  intros Hq He. destruct (dq_event _ _ Hq _ _ He) as (Hid & Hg & Hf). unfold find_event.
  assert (filepath_WalkDir no_faults queueBasePath d =
    (walk_order queueBasePath (d_fs d), mkDisk (d_fs d) (S (d_calls d)))) as ->.
  { unfold filepath_WalkDir. rewrite os_call_quiet. cbn [fst snd].
    rewrite (resolve_entry _ _ NDir); [done|apply Hq|].
    apply (entry_prefix _ _ [event_filename e] (E_UserID e) (NFile (event_data e))); [apply Hq|].
    by apply (entry_event _ e). }
  set (test := λ x : path * node, _).
  exists (mkDisk (d_fs d) (S (d_calls d))). split; [|done]. f_equal.
  destruct (List.find test (walk_order queueBasePath (d_fs d))) as [[q n]|] eqn:Efind.
  - apply find_some in Efind as [Hin Ht]. apply list_elem_of_In, elem_of_walk_order in Hin as [Hl Hp].
    unfold test in Ht. simpl in Ht. apply andb_true_iff in Ht as [Hd Ht].
    destruct n as [|data]; [done|]. destruct (dq_file _ _ Hq _ _ Hp Hl) as (e' & He' & -> & _).
    simpl in Ht. destruct (dq_event _ _ Hq _ _ He') as (_ & Hg' & _).
    rewrite <-Hid in Ht. apply filename_id in Ht; [|done..]. simpl. congruence.
  - exfalso. assert (test (event_path e, NFile (event_data e)) = false) as Ht.
    { apply (find_none _ _ Efind), list_elem_of_In, elem_of_walk_order. split; [done|by apply prefix_app_r]. }
    unfold test in Ht. simpl in Ht. rewrite <-Hid, filename_contains_id in Ht. done.
Qed.

(** Changing the file of an event of the queue. *)
Lemma disk_queue_insert fs m e :
  disk_queue fs m → good e → entry fs (queueBasePath ++ [E_UserID e]) = Some NDir →
  (∀ e', m !! E_ID e = Some e' → event_path e' = event_path e) →
  disk_queue (<[event_path e := NFile (event_data e)]> fs) (<[E_ID e := e]> m).
Proof.
  intros Hq Hg Hd Hsame. split.
  - apply fs_wf_insert; [apply Hq|done|done|]. right. intros Hdir.
    apply (dq_dir _ _ Hq) in Hdir; [simpl in Hdir; lia|by apply prefix_app_r].
  - intros data. rewrite lookup_insert_ne by done. apply Hq.
  - intros q data Hp. destruct (decide (event_path e = q)) as [<-|Hne].
    + rewrite lookup_insert_eq. intros [= <-]. exists e. by rewrite lookup_insert_eq.
    + rewrite lookup_insert_ne by done. intros Hl.
      destruct (dq_file _ _ Hq _ _ Hp Hl) as (e' & He' & -> & ->). exists e'. split; [|done].
      rewrite lookup_insert_ne; [done|]. intros E. rewrite <-E in He'. by rewrite (Hsame _ He') in Hne.
  - intros q Hp. destruct (decide (event_path e = q)) as [<-|Hne].
    + by rewrite lookup_insert_eq.
    + rewrite lookup_insert_ne by done. by apply Hq.
  - intros u n. rewrite lookup_insert_ne by done. apply Hq.
  - intros id e0. rewrite lookup_insert_Some. intros [[<- <-]|[Hne He0]].
    + by rewrite lookup_insert_eq.
    + destruct (dq_event _ _ Hq _ _ He0) as (Hid & Hg0 & Hf). split_and!; [done..|].
      rewrite lookup_insert_ne; [done|]. intros E. apply Hne.
      rewrite (event_path_inj e e0) by done. done.
Qed.

Lemma disk_queue_delete fs m id e :
  disk_queue fs m → m !! id = Some e → disk_queue (delete (event_path e) fs) (delete id m).
Proof.
  intros Hq He. destruct (dq_event _ _ Hq _ _ He) as (Hid & Hg & Hf). split.
  - apply fs_wf_delete; [apply Hq|]. intros c.
    destruct (fs !! (event_path e ++ [c])) as [n|] eqn:Ec; [|done]. exfalso.
    destruct (dq_wf _ _ Hq _ _ Ec) as [_ Hpar]. rewrite parent_snoc in Hpar.
    rewrite entry_event, Hf in Hpar. done.
  - intros data. rewrite lookup_delete_ne by done. apply Hq.
  - intros q data Hp [Hne Hl]%lookup_delete_Some.
    destruct (dq_file _ _ Hq _ _ Hp Hl) as (e' & He' & -> & ->). exists e'. split; [|done].
    rewrite lookup_delete_ne; [done|]. intros ->. by rewrite He' in He; simplify_eq.
  - intros q Hp [Hne Hl]%lookup_delete_Some. by apply (dq_dir _ _ Hq).
  - intros u n [_ Hl]%lookup_delete_Some. by apply (dq_user _ _ Hq u n).
  - intros id0 e0 [Hne He0]%lookup_delete_Some.
    destruct (dq_event _ _ Hq _ _ He0) as (Hid0 & Hg0 & Hf0). split_and!; [done..|].
    rewrite lookup_delete_ne; [done|]. intros E. apply Hne. rewrite <-Hid, <-Hid0.
    by apply event_path_inj.
Qed.

Lemma dq_user_dir fs m id e :
  disk_queue fs m → m !! id = Some e → entry fs (queueBasePath ++ [E_UserID e]) = Some NDir.
Proof.
  intros Hq He. destruct (dq_event _ _ Hq _ _ He) as (_ & _ & Hf).
  apply (entry_parent _ _ (event_filename e) (NFile (event_data e))); [apply Hq|].
  rewrite <-app_assoc. by apply (entry_event _ e).
Qed.

Lemma DeleteQueuedScrobble_refines m id e d :
  disk_queue (d_fs d) m → m !! id = Some e →
  ∃ d', DeleteQueuedScrobble no_faults id d = (None, d') ∧ d_fs d' = delete (event_path e) (d_fs d).
Proof.
  intros Hq He. destruct (dq_event _ _ Hq _ _ He) as (Hid & Hg & Hf). unfold DeleteQueuedScrobble.
  destruct (find_event_refines m id e d Hq He) as (d1 & -> & Hs). unfold os_Remove. rewrite os_call_quiet, Hs.
  rewrite (resolve_entry _ _ (NFile (event_data e))); [|apply Hq|by apply entry_event].
  simpl. by eexists.
Qed.

Lemma write_event fs m e data :
  disk_queue fs m → entry fs (queueBasePath ++ [E_UserID e]) = Some NDir →
  write_file (event_path e) data fs = (None, <[event_path e := NFile data]> fs).
Proof.
  intros Hq Hd. apply (write_file_ok fs (queueBasePath ++ [E_UserID e]) (event_filename e));
    [apply Hq|done|done|].
  intros Hdir. apply (dq_dir _ _ Hq) in Hdir; [simpl in Hdir; lia|by eexists [_; _]].
Qed.

Lemma good_retry n t e :
  good e → time_in_range t = true → int64_min ≤ n ≤ int64_max → good (set_E_Retry n t e).
Proof. intros [He Hrest] Ht Hn. split; [by apply storable_retry|exact Hrest]. Qed.

Lemma UpdateQueuedScrobbleRetry_refines m now id n e d :
  disk_queue (d_fs d) m → m !! id = Some e → time_in_range now = true → int64_min ≤ n ≤ int64_max →
  ∃ d', UpdateQueuedScrobbleRetry no_faults now id n d = (Ret None, d') ∧
    d_fs d' = <[event_path e := NFile (event_data (set_E_Retry n now e))]> (d_fs d).
Proof using TL JL.
  intros Hq He Ht Hn. destruct (dq_event _ _ Hq _ _ He) as (Hid & Hg & Hf).
  unfold UpdateQueuedScrobbleRetry. destruct (find_event_refines m id e d Hq He) as (d1 & -> & Hs).
  unfold os_ReadFile. rewrite os_call_quiet, Hs. cbn [fst snd].
  rewrite (resolve_entry _ _ (NFile (event_data e))); [|apply Hq|by apply entry_event].
  rewrite deserialize_good by done. rewrite serialize_good by (by apply good_retry).
  unfold os_WriteFile. rewrite os_call_quiet. cbn [d_fs fst snd].
  rewrite (write_event _ m e); [by eexists|done|by eapply dq_user_dir].
Qed.

Lemma disk_queue_update m now id n e d :
  disk_queue (d_fs d) m → m !! id = Some e → time_in_range now = true → int64_min ≤ n ≤ int64_max →
  disk_queue (<[event_path e := NFile (event_data (set_E_Retry n now e))]> (d_fs d))
    (<[id := set_E_Retry n now e]> m).
Proof.
  intros Hq He Ht Hn. destruct (dq_event _ _ Hq _ _ He) as (Hid & Hg & Hf).
  rewrite <-Hid. apply (disk_queue_insert (d_fs d) m (set_E_Retry n now e)); [done|by apply good_retry|
    by eapply (dq_user_dir _ _ id e)|].
  intros e'. simpl. rewrite Hid, He. by intros [= <-].
Qed.

(** Making the directory of a user. *)
Lemma disk_queue_mkdir fs m u :
  disk_queue fs m → plain u →
  ∃ fs', make_dirs [] (queueBasePath ++ [u]) fs = (None, fs') ∧ disk_queue fs' m ∧
    entry fs' (queueBasePath ++ [u]) = Some NDir.
Proof.
  intros Hq Hu. destruct (make_dirs [] (queueBasePath ++ [u]) fs) as [err fs'] eqn:E.
  destruct (make_dirs_spec _ _ _ _ _ E (dq_wf _ _ Hq)) as (Hw & Hk & Ha & Hd & Hs); [done|].
  assert (err = None) as -> by (apply Hs; intros q data Hp; by eapply dq_no_file).
  exists fs'. split; [done|]. split; [|by apply Hd].
  assert (Hold : ∀ q n, at_root q = false → fs' !! q = Some n → fs !! q = Some n ∨ (n = NDir ∧ q `prefix_of` queueBasePath ++ [u])).
  { intros q n Hr Hq'. destruct (fs !! q) as [n'|] eqn:Eq.
    - left. assert (entry fs' q = Some n') as Hn' by (apply Hk; unfold entry; by rewrite Hr).
      unfold entry in Hn'. rewrite Hr in Hn'. congruence.
    - right. apply (Ha q n); unfold entry; by rewrite Hr. }
  assert (Hnr : ∀ q n, fs' !! q = Some n → at_root q = false) by (intros q n Hl; by destruct (Hw _ _ Hl)).
  split.
  - done.
  - intros data Hf. apply Hold in Hf as [Hf|[? _]]; [by apply (dq_base _ _ Hq) in Hf|done|done].
  - intros q data Hp Hf. apply Hold in Hf as [Hf|[? _]]; [by apply (dq_file _ _ Hq)|done|by eapply Hnr].
  - intros q Hp Hf. apply Hold in Hf as [Hf|[_ Hpre]]; [by apply (dq_dir _ _ Hq)| |by eapply Hnr].
    apply prefix_length in Hpre. exact Hpre.
  - intros v n Hf. apply Hold in Hf as [Hf|[_ [k Hpre]]]; [by apply (dq_user _ _ Hq v n)| |done].
    by injection Hpre as -> _.
  - intros id e He. destruct (dq_event _ _ Hq _ _ He) as (? & ? & Hf). split_and!; [done..|].
    change (entry fs' (event_path e) = Some (NFile (event_data e))). by apply Hk.
Qed.

Lemma evictOldestEvent_refines m u d :
  disk_queue (d_fs d) m → plain u → 0 < Z.of_nat (List.length (of_user u m)) →
  ∃ e d', evictOldestEvent no_faults u d = (Ret None, d') ∧ oldest m u 1 [e] ∧
    disk_queue (d_fs d') (delete (E_ID e) m) ∧
    (∀ v, entry (d_fs d) (queueBasePath ++ [v]) = Some NDir → entry (d_fs d') (queueBasePath ++ [v]) = Some NDir).
Proof using TL JL.
  intros Hq Hu Hn. unfold evictOldestEvent.
  destruct (DequeueScrobbles_refines m u 1 d Hq Hu) as (es & d1 & -> & Hs & Ho).
  destruct (oldest_one m u es (dq_keyed _ _ Hq) Hn Ho) as (e & -> & He & _). unfold same_fs in Hs.
  destruct (DeleteQueuedScrobble_refines m (E_ID e) e d1) as (d2 & -> & Hd2); [by rewrite Hs|done|].
  exists e, d2. rewrite Hd2, Hs. split_and!; [done..| |].
  - by apply disk_queue_delete.
  - intros v. unfold entry. simpl. by rewrite lookup_delete_ne.
Qed.

(** One attempt to enqueue an event that can be queued. *)
Lemma tryStore_refines src event e m d :
  disk_queue (d_fs d) m → prepare (src_rnd src) (src_now src) event = Ok e → good e →
  m !! E_ID e = None →
  ∃ m' d', tryStore no_faults src event d = (Stored e, d') ∧ evicted (E_UserID e) m m' ∧
    disk_queue (d_fs d') (<[E_ID e := e]> m').
Proof using TL JL.
  intros Hq Hp Hg Hfresh. unfold tryStore. rewrite Hp, serialize_good by done.
  pose proof Hg as (_ & _ & Hu & _).
  rewrite (eventPath_join e Hg). rewrite queueDir_plain by done.
  unfold os_MkdirAll. rewrite os_call_quiet.
  destruct (disk_queue_mkdir (d_fs d) m (E_UserID e) Hq Hu) as (fs1 & -> & Hq1 & Hdir). cbn [fst snd errno_error fmap option_fmap option_map].
  destruct (GetQueueSize_refines m (E_UserID e) (mkDisk fs1 (S (d_calls d)))) as (d2 & -> & Hs2); [done..|].
  unfold same_fs in Hs2. simpl in Hs2.
  assert (∃ m' d3, (if maxQueuePerUser <=? Z.of_nat (List.length (of_user (E_UserID e) m))
                    then evictOldestEvent no_faults (E_UserID e) d2 else (Ret None, d2)) = (Ret None, d3) ∧
            evicted (E_UserID e) m m' ∧ disk_queue (d_fs d3) m' ∧ m' !! E_ID e = None ∧
            entry (d_fs d3) (queueBasePath ++ [E_UserID e]) = Some NDir) as (m' & d3 & -> & Hev & Hq3 & Hf3 & Hd3).
  { unfold evicted. destruct (Z.leb_spec maxQueuePerUser (Z.of_nat (List.length (of_user (E_UserID e) m)))) as [Hge|Hlt].
    - destruct (evictOldestEvent_refines m (E_UserID e) d2) as (e0 & d3 & Hev & Ho & Hq3 & Hk);
        [by rewrite Hs2|done|unfold maxQueuePerUser in Hge; lia|].
      exists (delete (E_ID e0) m), d3. rewrite decide_False by lia. split_and!; [done|eauto|done| |].
      + by apply lookup_delete_None; right.
      + apply Hk. by rewrite Hs2.
    - exists m, d2. rewrite decide_True by lia. rewrite Hs2. done. }
  unfold os_WriteFile. rewrite os_call_quiet. rewrite (write_event _ m' e) by done.
  exists m'. eexists; split; [done|]. split; [done|]. apply disk_queue_insert; [done..|].
  intros e'. by rewrite Hf3.
Qed.

(** ** The queue a file system holds *)

Definition file_event (n : node) : option (string * QueuedScrobbleEvent) :=
  match n with
  | NFile data => match deserializeEvent data with Ret (Ok e) => Some (E_ID e, e) | _ => None end
  | NDir => None
  end.
Definition queue_of (fs : FS) : Queue :=
  list_to_map (omap (λ qn, file_event qn.2) (walk_order queueBasePath fs)).

Lemma queue_of_refines fs m : disk_queue fs m → queue_of fs = m.
Proof using TL JL.
  intros Hq. apply map_eq. intros id. unfold queue_of.
  assert (Hin : ∀ e, (id, e) ∈ omap (λ qn, file_event qn.2) (walk_order queueBasePath fs) ↔ m !! id = Some e).
  { intros e. rewrite list_elem_of_omap. split.
    - intros ([q n] & Hw & Hfe). apply elem_of_walk_order in Hw as [Hl Hp]. simpl in Hfe.
      destruct n as [|data]; [done|]. destruct (dq_file _ _ Hq _ _ Hp Hl) as (e' & He' & -> & ->).
      destruct (dq_event _ _ Hq _ _ He') as (_ & Hg & _). simpl in Hfe. rewrite deserialize_good in Hfe by done.
      by simplify_eq.
    - intros He. destruct (dq_event _ _ Hq _ _ He) as (Hid & Hg & Hf).
      exists (event_path e, NFile (event_data e)). split.
      + apply elem_of_walk_order. split; [done|by apply prefix_app_r].
      + simpl. by rewrite deserialize_good, Hid by done. }
  destruct (m !! id) as [e|] eqn:He.
  - apply elem_of_list_to_map_1'; [|by apply Hin]. intros e' He'. apply Hin in He'. congruence.
  - apply not_elem_of_list_to_map_1. intros (x & Hx & Hx')%list_elem_of_fmap. destruct x as [id' e]. simpl in Hx. subst id'.
    apply Hin in Hx'. congruence.
Qed.

(** The disk store implements the queue. *)
#[local] Instance disk_queue_store : QueueStore Disk := {
  q_DequeueScrobbles := DequeueScrobbles no_faults;
  q_DeleteQueuedScrobble := DeleteQueuedScrobble no_faults;
  q_UpdateQueuedScrobbleRetry := UpdateQueuedScrobbleRetry no_faults;
}.

Definition disk_inv (d : Disk) : Prop := ∃ m, disk_queue (d_fs d) m.
Definition disk_abs (d : Disk) : Queue := queue_of (d_fs d).

Lemma disk_inv_abs d : disk_inv d → disk_queue (d_fs d) (disk_abs d).
Proof using TL JL. intros [m Hm]. unfold disk_abs. by rewrite (queue_of_refines _ _ Hm). Qed.

Lemma disk_inv_intro d m : disk_queue (d_fs d) m → disk_inv d ∧ disk_abs d = m.
Proof using TL JL. intros Hm. split; [by exists m|by apply queue_of_refines]. Qed.

Lemma disk_queue_refines : QueueRefines Disk disk_inv disk_abs plain.
Proof using TL JL.
  split.
  - intros d Hd. eapply dq_keyed, disk_inv_abs, Hd.
  - intros u limit d Hd Hu _. apply disk_inv_abs in Hd as Hq.
    destruct (DequeueScrobbles_refines _ u limit d Hq Hu) as (events & d' & E & Hs & Ho).
    exists events, d'. split; [exact E|]. unfold same_fs in Hs.
    destruct (disk_inv_intro d' (disk_abs d)) as [Hi Ha]; [by rewrite Hs|]. done.
  - intros id d Hd [e He]. apply disk_inv_abs in Hd as Hq.
    destruct (DeleteQueuedScrobble_refines _ id e d Hq He) as (d' & E & Hs). exists d'. split; [exact E|].
    apply disk_inv_intro. rewrite Hs. by apply disk_queue_delete.
  - intros now id n e d Hd He Ht Hn. apply disk_inv_abs in Hd as Hq.
    destruct (UpdateQueuedScrobbleRetry_refines _ now id n e d Hq He Ht Hn) as (d' & E & Hs).
    exists d'. split; [exact E|]. apply disk_inv_intro. rewrite Hs. by apply disk_queue_update.
Qed.

(** ** Purging and listing *)

Lemma disk_queue_purge fs m u :
  disk_queue fs m →
  disk_queue (filter (λ qn, below (queueBasePath ++ [u]) qn.1 = false) fs)
             (filter (λ ie, E_UserID ie.2 ≠ u) m).
Proof.
  intros Hq. set (keep := λ q, negb (below (queueBasePath ++ [u]) q)).
  assert (Hkeep : ∀ q n, filter (λ qn, below (queueBasePath ++ [u]) qn.1 = false) fs !! q = Some n ↔
                         fs !! q = Some n ∧ below (queueBasePath ++ [u]) q = false).
  { intros q n. apply map_lookup_filter_Some. }
  assert (Hbelow : ∀ e, below (queueBasePath ++ [u]) (event_path e) = bool_decide (E_UserID e = u)).
  { intros e. unfold below. apply bool_decide_ext. split.
    - intros [k Hk]. by injection Hk as -> _.
    - intros <-. by exists [event_filename e]. }
  split.
  - rewrite (filter_ext_keep (below (queueBasePath ++ [u]))). apply (fs_wf_filter keep); [apply Hq|].
    intros q _ _. unfold keep. rewrite !negb_true_iff. intros Hb.
    destruct (below _ (parent q)) eqn:E; [|done]. apply below_parent in E. congruence.
  - intros data [Hf _]%Hkeep. by apply (dq_base _ _ Hq) in Hf.
  - intros q data Hp [Hf Hb]%Hkeep. destruct (dq_file _ _ Hq _ _ Hp Hf) as (e & He & -> & ->).
    exists e. split; [|done]. apply map_lookup_filter_Some. split; [done|]. simpl.
    rewrite Hbelow in Hb. by apply bool_decide_eq_false in Hb.
  - intros q Hp [Hf _]%Hkeep. by apply (dq_dir _ _ Hq).
  - intros v n [Hf _]%Hkeep. by apply (dq_user _ _ Hq v n).
  - intros id e [He Hne]%map_lookup_filter_Some. simpl in Hne.
    destruct (dq_event _ _ Hq _ _ He) as (? & ? & Hf). split_and!; [done..|].
    apply Hkeep. split; [done|]. rewrite Hbelow. by apply bool_decide_eq_false.
Qed.

Lemma PurgeQueueForUser_refines m u d :
  disk_queue (d_fs d) m → plain u →
  ∃ d', PurgeQueueForUser no_faults u d = (Ok (Z.of_nat (List.length (of_user u m))), d') ∧
    disk_queue (d_fs d') (filter (λ ie, E_UserID ie.2 ≠ u) m).
Proof.
  intros Hq Hu. unfold PurgeQueueForUser.
  destruct (absent_user m u d Hq Hu) as (b & d1 & -> & Hs & Hb). unfold same_fs in Hs.
  pose proof (json_files_length m u d Hq) as Hl. destruct b.
  - rewrite Hb in Hl. simpl in Hl. rewrite <-Hl. exists d1. split; [done|].
    rewrite of_user_none; [by rewrite Hs|by eapply dq_keyed|by apply length_zero_iff_nil].
  - destruct (GetQueueSize_refines m u d1) as (d2 & -> & Hs2); [by rewrite Hs|done|]. unfold same_fs in Hs2.
    rewrite queueDir_plain by done. unfold os_RemoveAll. rewrite os_call_quiet.
    rewrite Hs2, Hs. rewrite bool_decide_eq_false_2 by done. rewrite Hb. simpl.
    eexists; split; [done|]. by apply disk_queue_purge.
Qed.

Lemma users_with_events_refines m entries : ∀ d,
  disk_queue (d_fs d) m → Forall (λ e : DirEntry, plain e.1) entries →
  ∃ d', users_with_events no_faults entries d =
      (List.map fst (List.filter (λ e, e.2 && negb (bool_decide (e.1 = ".gitkeep")) &&
                       negb (bool_decide (of_user e.1 m = []))) entries), d') ∧ same_fs d d'.
Proof.
  induction entries as [|[u b] entries IH]; intros d Hq Hp; [by exists d|].
  apply Forall_cons in Hp as [Hu Hp]. cbn [users_with_events List.filter fst snd].
  destruct (b && negb (bool_decide (u = ".gitkeep"))) eqn:E; [|by apply IH].
  destruct (GetQueueSize_refines m u d Hq Hu) as (d1 & -> & Hs1). unfold same_fs in Hs1.
  destruct (IH d1) as (d2 & -> & Hs2); [by rewrite Hs1|done|]. exists d2.
  split; [|unfold same_fs in *; congruence]. f_equal.
  destruct (of_user u m) as [|e l]; [done|]. simpl. done.
Qed.

Lemma ListUsersWithQueuedEvents_refines m d :
  disk_queue (d_fs d) m →
  ∃ ids d', ListUsersWithQueuedEvents no_faults d = (Ok ids, d') ∧ same_fs d d' ∧ NoDup ids ∧
    ∀ u, u ∈ ids ↔ of_user u m ≠ [] ∧ u ≠ ".gitkeep".
Proof.
  intros Hq. pose proof (dq_keyed _ _ Hq) as Hk. unfold ListUsersWithQueuedEvents, absent, os_Stat.
  rewrite os_call_quiet. cbn [fst snd].
  destruct (resolve_clear (d_fs d) queueBasePath) as [Hr|[Hr Hno]]; [apply Hq| |rewrite Hr|rewrite Hr].
  { intros q data Hp. apply (dq_no_file _ m ""); [done|]. etrans; [exact Hp|by apply prefix_app_r]. }
  - cbn [IsNotExist]. unfold os_ReadDir. rewrite os_call_quiet. cbn [fst snd d_fs]. rewrite Hr.
    destruct (users_with_events_refines m (children (d_fs d) queueBasePath)
      (mkDisk (d_fs d) (S (S (d_calls d))))) as (d' & E & Hs); [done| |].
    { apply Forall_forall. intros [u b] Hin. apply elem_of_children in Hin as (n & Hn & _).
      by apply (dq_user _ _ Hq u n). }
    cbn [d_calls]. rewrite E. eexists _, d'. split; [done|]. split; [exact Hs|]. split.
    + eapply sublist_NoDup; [apply (children_NoDup (d_fs d) queueBasePath)|]. apply fmap_sublist, filter_sublist.
    + intros u. rewrite list_elem_of_In, in_map_iff. setoid_rewrite filter_In.
      setoid_rewrite <-list_elem_of_In. split.
      * intros ([v b] & <- & Hin & Ht). simpl in *. rewrite !andb_true_iff, !negb_true_iff, !bool_decide_eq_false in Ht.
        tauto.
      * intros [Hu Hg]. destruct (of_user u m) as [|e l] eqn:Eu; [done|].
        assert (e ∈ of_user u m) as Hin by (rewrite Eu; left). apply elem_of_user in Hin as [He <-]; [|done].
        exists (E_UserID e, true). split; [done|]. split.
        -- apply elem_of_children. exists NDir. split; [|done]. exact (dq_user_dir _ _ _ _ Hq He).
        -- simpl. rewrite bool_decide_eq_false_2 by done. rewrite Eu. done.
  - cbn [IsNotExist PathError]. rewrite bool_decide_eq_true_2 by done. eexists [], _. split; [done|].
    split; [done|]. split; [constructor|]. intros u. split; [by intros Hin%not_elem_of_nil|].
    intros [Hu _]. destruct (of_user u m) as [|e l] eqn:Eu; [done|].
    assert (e ∈ of_user u m) as Hin by (rewrite Eu; left). apply elem_of_user in Hin as [He <-]; [|done].
    pose proof (dq_user_dir _ _ _ _ Hq He) as Hd. unfold entry in Hd. simpl in Hd.
    specialize (Hno (E_UserID e)). simpl in Hno. congruence.
Qed.
End Refinement.

(** ** Properties *)

Section Properties.
Context `{UnicodeTables, TT : TimeText, TL : !TimeTextLaws TT, JT : JsonText, JL : !JsonTextLaws JT}.

(** C25: on a disk that works and whose queue directory holds well-formed events,
    the queue methods of [DiskStore] are those of a map from ids to events:
    [DequeueScrobbles] returns the oldest events of the user by the second of
    their creation, [GetQueueSize] counts them, [ListUsersWithQueuedEvents] lists
    exactly the users with events (but a user named ".gitkeep"),
    [PurgeQueueForUser] removes the user's events and no others, and
    [DeleteQueuedScrobble] and [UpdateQueuedScrobbleRetry] change the one
    event whose id is given, although they search for a file whose name
    contains it. *)
Theorem disk_store_refines_queue (d : Disk) (u id : string) (e : QueuedScrobbleEvent) (limit n : Z)
    (now : Time) :
  disk_inv d → plain u → disk_abs d !! id = Some e →
  time_in_range now = true → int64_min ≤ n ≤ int64_max →
  let m := disk_abs d in
  (∃ events d', DequeueScrobbles no_faults u limit d = (Ret (Ok events), d') ∧ d_fs d' = d_fs d ∧
     oldest m u limit events) ∧
  (∃ d', GetQueueSize no_faults u d = (Ok (Z.of_nat (List.length (of_user u m))), d') ∧ d_fs d' = d_fs d) ∧
  (∃ ids d', ListUsersWithQueuedEvents no_faults d = (Ok ids, d') ∧ d_fs d' = d_fs d ∧ NoDup ids ∧
     ∀ v, v ∈ ids ↔ of_user v m ≠ [] ∧ v ≠ ".gitkeep") ∧
  (∃ d', PurgeQueueForUser no_faults u d = (Ok (Z.of_nat (List.length (of_user u m))), d') ∧
     disk_inv d' ∧ disk_abs d' = filter (λ ie, E_UserID ie.2 ≠ u) m) ∧
  (∃ d', DeleteQueuedScrobble no_faults id d = (None, d') ∧ disk_inv d' ∧ disk_abs d' = delete id m) ∧
  (∃ d', UpdateQueuedScrobbleRetry no_faults now id n d = (Ret None, d') ∧
     disk_inv d' ∧ disk_abs d' = <[id := set_E_Retry n now e]> m).
Proof using TL JL.
  intros Hd Hu He Ht Hn m. pose proof (disk_inv_abs d Hd) as Hq. split_and!.
  - by apply DequeueScrobbles_refines.
  - by apply GetQueueSize_refines.
  - by apply ListUsersWithQueuedEvents_refines.
  - destruct (PurgeQueueForUser_refines m u d Hq Hu) as (d' & ? & ?). exists d'. split; [done|].
    by apply disk_inv_intro.
  - destruct (DeleteQueuedScrobble_refines m id e d Hq He) as (d' & ? & Hs). exists d'. split; [done|].
    apply disk_inv_intro. rewrite Hs. by apply disk_queue_delete.
  - destruct (UpdateQueuedScrobbleRetry_refines m now id n e d Hq He Ht Hn) as (d' & ? & Hs).
    exists d'. split; [done|]. apply disk_inv_intro. rewrite Hs. by apply disk_queue_update.
Qed.

(** on such a disk, [EnqueueScrobble] of a new event for a user without a
    fallback buffer returns without error and adds exactly the prepared event,
    after dropping the user's oldest event when there were a thousand. *)
Lemma disk_enqueue_refines (srcs : nat → Sources) (fuel k : nat) (event e : QueuedScrobbleEvent)
    (s : DiskStore) :
  disk_inv (storage s) → prepare (src_rnd (srcs k)) (src_now (srcs k)) event = Ok e → good e →
  disk_abs (storage s) !! E_ID e = None → fallbackBuffers s !! E_UserID e = None →
  ∃ m' d', EnqueueScrobble no_faults srcs (S fuel) event (k, s) =
      Some (Ret (None, (S k, set_storage d' s))) ∧
    evicted (E_UserID e) (disk_abs (storage s)) m' ∧ disk_inv d' ∧ disk_abs d' = <[E_ID e := e]> m'.
Proof using TL JL.
  intros Hd Hp Hg Hf Hb. pose proof (disk_inv_abs _ Hd) as Hq.
  destruct (tryStore_refines (srcs k) event e _ _ Hq Hp Hg Hf) as (m' & d' & Ht & Hev & Hq').
  exists m', d'. split_and!; [|done|by apply disk_inv_intro in Hq' as []..].
  unfold EnqueueScrobble. cbn [enqueueWith]. rewrite Ht. unfold flushWith. simpl. by rewrite Hb.
Qed.

(** When the queue directory cannot be made, [EnqueueScrobble] reports the
    error, and the event is the newest one in its user's fallback buffer,
    behind those already there (the oldest being dropped beyond 100); the
    buffers of other users are unchanged and no file of the queue changed. *)
Lemma disk_enqueue_falls_back (faults : nat → option os_fault) (srcs : nat → Sources) (fuel k : nat)
    (event e : QueuedScrobbleEvent) (data : string) (f : os_fault) (s : DiskStore) :
  prepare (src_rnd (srcs k)) (src_now (srcs k)) event = Ok e → serializeEvent e = Ok data →
  faults (d_calls (storage s)) = Some f → buffers_wf s → fs_wf (d_fs (storage s)) →
  ∃ s', EnqueueScrobble faults srcs (S fuel) event (k, s) =
      Some (Ret (Some (Wrapf "storage unavailable: " (f_err f) ""), (S k, s'))) ∧
    buffered s' (E_UserID e) = last_n 100 (buffered s (E_UserID e) ++ [e]) ∧
    (∀ v, v ≠ E_UserID e → buffered s' v = buffered s v) ∧
    ∀ q content, d_fs (storage s') !! q = Some (NFile content) ↔ d_fs (storage s) !! q = Some (NFile content).
Proof.
  intros Hp Hs Hf Hwf Hfs.
  pose proof (enqueueWith_outcome (λ k, tryStore faults (srcs k)) fuel k event s Hwf) as Ho.
  unfold tryStore in Ho at 1. rewrite Hp, Hs in Ho. unfold os_MkdirAll, os_call in Ho. rewrite Hf in Ho.
  destruct Ho as (s' & Hrun & Hst & _ & Hb & Hother). exists s'. split_and!; [done..|].
  intros q content. rewrite Hst. cbn [d_fs].
  set (p := take (f_made f) _). destruct (make_dirs [] p (d_fs (storage s))) as [err fs'] eqn:E.
  destruct (make_dirs_spec _ _ _ _ _ E Hfs) as (Hw & Hk & Ha & _); [done|]. simpl. split; intros Hq.
  - destruct (Hw _ _ Hq) as [Hr _]. destruct (d_fs (storage s) !! q) as [n|] eqn:En.
    + assert (entry fs' q = Some n) as Hn by (apply Hk; unfold entry; by rewrite Hr).
      unfold entry in Hn. rewrite Hr in Hn. congruence.
    + destruct (Ha q (NFile content)); [unfold entry; by rewrite Hr..|done].
  - destruct (Hfs _ _ Hq) as [Hr _]. assert (entry fs' q = Some (NFile content)) as Hn
      by (apply Hk; unfold entry; by rewrite Hr).
    unfold entry in Hn. by rewrite Hr in Hn.
Qed.

(** On a disk that works, draining a user with [n] queued events returns
    after at most [n + 1] batches with no event of the user left, the events
    of the other users still there, at most [5 n] requests sent and each event
    counted once, whatever Trakt answers. *)
Lemma disk_drain_empties {X : Type} (get_user : string → X → option User * X) (clock : nat → Time)
    (trakt : nat → string → CacheItem → string → option error) (userID : string)
    (w : QueueWorld Disk X) (t : DrainStateTracker) :
  (∀ i, time_in_range (clock i) = true) → disk_inv (qw_store w) → plain userID →
  Z.of_nat (List.length (of_user userID (disk_abs (qw_store w)))) ≤ int64_max →
  let n := List.length (of_user userID (disk_abs (qw_store w))) in
  ∃ w' t' c,
    drainUserQueue (H0:=queue_drain_store (QS:=disk_queue_store) get_user
                          (ListUsersWithQueuedEvents no_faults) clock trakt)
      (S n) userID (w, t) = Some (w', t', c) ∧
    of_user userID (disk_abs (qw_store w')) = [] ∧
    (∀ id e, disk_abs (qw_store w) !! id = Some e → E_UserID e ≠ userID →
       ∃ e', disk_abs (qw_store w') !! id = Some e' ∧ E_UserID e' = E_UserID e) ∧
    (qw_sends w' ≤ qw_sends w + 5 * n)%nat ∧
    successCount c + failureCount c = Z.of_nat n.
Proof using TL JL.
  intros Hc Hd Hu Hn.
  apply (queue_drain_empties (QS:=disk_queue_store) get_user (ListUsersWithQueuedEvents no_faults) clock trakt
           disk_inv disk_abs plain (QR:=disk_queue_refines)); done.
Qed.
(** And while Trakt accepts, each event of the user is handed to the client once,
    oldest first, and leaves the disk. *)
Lemma disk_queue_delivered {X : Type} (get_user : string → X → option User * X) (clock : nat → Time)
    (trakt : nat → string → CacheItem → string → option error) (u token : string) (users_ok : X → Prop)
    (w : QueueWorld Disk X) (t : DrainStateTracker) :
  (∀ x, users_ok x → ∃ user x', get_user u x = (Some user, x') ∧ users_ok x' ∧ U_AccessToken user = token) →
  (∀ i a c s, trakt i a c s = None) → disk_inv (qw_store w) → plain u → users_ok (qw_users w) →
  Z.of_nat (List.length (of_user u (disk_abs (qw_store w)))) ≤ int64_max →
  let n := List.length (of_user u (disk_abs (qw_store w))) in
  ∃ w' t' events,
    drainUserQueue (H0:=queue_drain_store (QS:=disk_queue_store) get_user
                          (ListUsersWithQueuedEvents no_faults) clock trakt)
      (S n) u (w, t) = Some (w', t', mkCounts (Z.of_nat n) 0) ∧
    events ≡ₚ of_user u (disk_abs (qw_store w)) ∧ StronglySorted second_before events ∧
    qw_sent w' = qw_sent w ++ (sent_of token <$> events) ∧
    disk_abs (qw_store w') = filter (λ ie, E_UserID ie.2 ≠ u) (disk_abs (qw_store w)).
Proof using TL JL.
  intros Hk Ht Hd Hu Hx Hn.
  by apply (queue_delivered (QS:=disk_queue_store) get_user (ListUsersWithQueuedEvents no_faults) clock trakt
           disk_inv disk_abs plain (QR:=disk_queue_refines) u token users_ok).
Qed.
End Properties.

(** ** Examples *)

#[local] Existing Instances ascii_tables decimal_time tree_text.

Definition empty_disk : Disk := mkDisk ∅ 0.

Lemma empty_disk_queue : disk_queue (d_fs empty_disk) ∅.
Proof. split; done || apply fs_wf_empty. Qed.

Lemma uuid_event_good : good (uuid_event "1").
Proof.
  split; [exact uuid_event_storable|]. split; [|split].
  - exists (bytes "00000000"), (bytes "0000"), (bytes "4000"), (bytes "8000"), (bytes "000000000001").
    split; [reflexivity|]. split; [reflexivity|]. repeat constructor.
  - apply (bool_decide_unpack _). vm_compute. exact I.
  - unfold ten_digits. vm_compute. split; [discriminate|reflexivity].
Qed.

(** A disk with one queued event. *)
Definition one_event_disk : Disk := (tryStore no_faults sample_sources (uuid_event "1") empty_disk).2.

Lemma one_event_inv : disk_inv one_event_disk ∧ disk_abs one_event_disk = {[E_ID (uuid_event "1") := uuid_event "1"]}.
Proof.
  destruct (tryStore_refines (TL:=decimal_time_laws) (JL:=tree_text_laws) sample_sources (uuid_event "1") (uuid_event "1")
              ∅ empty_disk empty_disk_queue eq_refl uuid_event_good eq_refl) as (m' & d' & Ht & Hev & Hq).
  unfold one_event_disk. rewrite Ht. simpl. apply (disk_inv_intro (TL:=decimal_time_laws) (JL:=tree_text_laws)).
  assert (m' = ∅) as -> by exact Hev. exact Hq.
Qed.

Lemma plain_user : plain "user".
Proof. apply (bool_decide_unpack _). vm_compute. exact I. Qed.

Lemma disk_store_refines_queue_witness :
  ∃ d', DeleteQueuedScrobble no_faults (E_ID (uuid_event "1")) one_event_disk = (None, d') ∧
    disk_abs d' = delete (E_ID (uuid_event "1")) (disk_abs one_event_disk).
Proof.
  assert (He : disk_abs one_event_disk !! E_ID (uuid_event "1") = Some (uuid_event "1"))
    by (rewrite (proj2 one_event_inv); apply lookup_singleton_eq).
  assert (Hn : int64_min ≤ 3 ≤ int64_max) by (vm_compute; split; discriminate).
  destruct (disk_store_refines_queue (TL:=decimal_time_laws) (JL:=tree_text_laws) one_event_disk "user"
    (E_ID (uuid_event "1")) (uuid_event "1") 10 3 0 (proj1 one_event_inv) plain_user He eq_refl Hn)
    as (_ & _ & _ & _ & (d' & H1 & _ & H2) & _).
  exists d'. split; [exact H1|exact H2].
Defined.

Lemma disk_enqueue_refines_witness :
  ∃ m' d', EnqueueScrobble no_faults (λ _, sample_sources) 1 (uuid_event "1") (0%nat, NewDiskStore empty_disk) =
      Some (Ret (None, (1%nat, mkBuffered d' ∅))) ∧
    evicted "user" (disk_abs empty_disk) m' ∧ disk_inv d' ∧
    disk_abs d' = <[E_ID (uuid_event "1") := uuid_event "1"]> m'.
Proof.
  exact (disk_enqueue_refines (TL:=decimal_time_laws) (JL:=tree_text_laws) (λ _, sample_sources) 0 0
           (uuid_event "1") (uuid_event "1") (NewDiskStore empty_disk)
           (ex_intro _ ∅ empty_disk_queue) eq_refl uuid_event_good eq_refl eq_refl).
Defined.

Definition disk_full : os_fault := mkFault (Errorf "no space left on device") None 0 (λ _, false).

Lemma disk_enqueue_falls_back_witness :
  ∃ s', EnqueueScrobble (λ _, Some disk_full) (λ _, sample_sources) 1 (uuid_event "1")
      (0%nat, NewDiskStore empty_disk) =
      Some (Ret (Some (Wrapf "storage unavailable: " (Errorf "no space left on device") ""), (1%nat, s'))) ∧
    buffered s' "user" = [uuid_event "1"].
Proof.
  destruct (disk_enqueue_falls_back (λ _, Some disk_full) (λ _, sample_sources) 0 0 (uuid_event "1")
    (uuid_event "1") (event_data (uuid_event "1")) disk_full (NewDiskStore empty_disk)
    eq_refl eq_refl eq_refl ltac:(apply map_Forall_empty) fs_wf_empty) as (s' & H1 & H2 & _).
  exists s'. split; [exact H1|exact H2].
Defined.

Lemma disk_drain_empties_witness :
  ∃ w' t' c,
    drainUserQueue (H0:=queue_drain_store (QS:=disk_queue_store) (λ _ x, (None, x))
                          (ListUsersWithQueuedEvents no_faults) (λ _, 0) (λ _ _ _ _, Some (Errorf "503")))
      2 "user" (mkQueueWorld one_event_disk tt 0 [] [], NewDrainStateTracker) = Some (w', t', c) ∧
    of_user "user" (disk_abs (qw_store w')) = [] ∧ successCount c + failureCount c = 1.
Proof.
  assert (Hl : of_user "user" (disk_abs one_event_disk) = [uuid_event "1"]).
  { rewrite (proj2 one_event_inv). vm_compute. reflexivity. }
  destruct (disk_drain_empties (TL:=decimal_time_laws) (JL:=tree_text_laws) (λ _ x, (None, x)) (λ _, 0)
    (λ _ _ _ _, Some (Errorf "503")) "user" (mkQueueWorld one_event_disk tt 0 [] []) NewDrainStateTracker)
    as (w' & t' & c & H1 & H2 & _ & _ & H3).
  - reflexivity.
  - exact (proj1 one_event_inv).
  - exact plain_user.
  - cbn [qw_store]. rewrite Hl. vm_compute. discriminate.
  - cbn [qw_store] in H1, H3. rewrite Hl in H1, H3. exists w', t', c. split; [exact H1|split; [exact H2|exact H3]].
Defined.
