(* ===== verification/RedisQueue.v ===== *)
(** * The Redis store implements the scrobble queue

    Refinement of the abstract queue (Queue.v) by the sorted sets of
    [RedisStore] (Redis.v) on a server that behaves as documented
    (RedisServer.v): the members of [goplaxt:queue:<user>] are the texts of the
    user's events, scored by their creation second. *)

From S2P Require Import Prelude GoLib Text Float Json Instances Common Entities Buffers Codec Fallback Redis RedisServer Trakt Drain Queue.

Open Scope Z_scope.

Section Refinement.
Context {R : Type} `{UT : UnicodeTables, TT : TimeText, TL : !TimeTextLaws TT, JT : JsonText,
  JL : !JsonTextLaws JT, RE : Redis R, RL : !RedisLaws R}.

(** ** The sorted set of a user *)

Definition scored (e : QueuedScrobbleEvent) : string * Z := (event_data e, Unix (E_CreatedAt e)).
Definition zset_of (u : string) (m : Queue) : gmap string Z := list_to_map (scored <$> of_user u m).

Record redis_queue (db : Keys) (m : Queue) : Prop := {
  rq_event id e : m !! id = Some e → E_ID e = id ∧ storable e;
  rq_zset u : db !! queueKey u =
    (if bool_decide (zset_of u m = ∅) then None else Some (VZset (zset_of u m), None));
}.

Lemma rq_keyed db m : redis_queue db m → keyed m.
Proof. intros Hq id e He. by destruct (rq_event _ _ Hq _ _ He). Qed.

(** The part of the relation that does not depend on the server. *)
Definition stored_events (m : Queue) : Prop := ∀ id e, m !! id = Some e → E_ID e = id ∧ storable e.

Lemma rq_stored db m : redis_queue db m → stored_events m.
Proof. intros Hq. exact (rq_event _ _ Hq). Qed.

Lemma stored_keyed m : stored_events m → keyed m.
Proof. intros Hm id e He. by destruct (Hm _ _ He). Qed.

Lemma of_user_storable u m : stored_events m → Forall storable (of_user u m).
Proof.
  intros Hm. apply Forall_forall. intros e He. apply elem_of_user in He as [He _]; [|by apply stored_keyed].
  by destruct (Hm _ _ He).
Qed.

Lemma scored_NoDup es : Forall storable es → NoDup es → NoDup (scored <$> es).*1.
Proof using UT TL JL.
  intros Hs Hnd. rewrite <-list_fmap_compose. induction Hnd as [|e es He Hnd IH]; simpl; [constructor|].
  apply Forall_cons in Hs as [Hse Hs]. constructor; [|by apply IH].
  intros (e' & E & Hin)%list_elem_of_fmap. rewrite Forall_forall in Hs.
  apply event_data_inj in E; [by subst e'|done|by apply Hs].
Qed.

Lemma lookup_zset u m d s :
  stored_events m →
  zset_of u m !! d = Some s ↔
    ∃ e, m !! E_ID e = Some e ∧ E_UserID e = u ∧ d = event_data e ∧ s = Unix (E_CreatedAt e).
Proof using UT TL JL.
  intros Hm. pose proof (stored_keyed _ Hm) as Hk. unfold zset_of. rewrite <-elem_of_list_to_map
    by (apply scored_NoDup; [by apply of_user_storable|by apply of_user_NoDup]).
  rewrite list_elem_of_fmap. split.
  - intros (e & [= -> ->] & He). apply elem_of_user in He as [? ?]; [|done]. by exists e.
  - intros (e & He & Hu & -> & ->). exists e. split; [done|]. by apply elem_of_user.
Qed.

Lemma zset_empty u m : zset_of u m = ∅ ↔ of_user u m = [].
Proof.
  unfold zset_of. split; [|by intros ->]. destruct (of_user u m) as [|e es]; [done|]. intros E. exfalso.
  assert ((<[event_data e := Unix (E_CreatedAt e)]> (list_to_map (scored <$> es)) : gmap string Z) = ∅)
    as E' by exact E. by apply insert_non_empty in E'.
Qed.

(** The order of the sorted set of a user: by the second of creation, and within
    a second by the text of the events. *)
Definition redis_before (a b : QueuedScrobbleEvent) : Prop :=
  Unix (E_CreatedAt a) < Unix (E_CreatedAt b) ∨
  Unix (E_CreatedAt a) = Unix (E_CreatedAt b) ∧ String.le (event_data a) (event_data b).

Lemma redis_before_second a b : redis_before a b → second_before a b.
Proof. unfold redis_before, second_before. lia. Qed.

(** The members of the sorted set are the user's events in that order. *)
Lemma zlist_events u m :
  stored_events m →
  ∃ es, zlist (zset_of u m) = scored <$> es ∧ es ≡ₚ of_user u m ∧ StronglySorted redis_before es ∧ Forall storable es.
Proof using UT TL JL.
  intros Hm. pose proof (stored_keyed _ Hm) as Hk. pose proof (of_user_storable u m Hm) as Hs.
  assert (zlist (zset_of u m) ≡ₚ scored <$> of_user u m) as Hp.
  { rewrite zlist_perm. unfold zset_of. apply map_to_list_to_map, scored_NoDup; [done|by apply of_user_NoDup]. }
  apply Permutation_map_inv in Hp as (es & He & Hp). exists es.
  split; [exact He|]. split; [by symmetry|]. split; [|by rewrite <-Hp].
  pose proof (zlist_sorted (zset_of u m)) as Hsort. rewrite He in Hsort. clear He Hp.
  induction es as [|e es IH]; [constructor|]. simpl in Hsort. apply StronglySorted_cons in Hsort as [Hall Hsort].
  constructor; [by apply IH|]. rewrite List.Forall_map in Hall. eapply Forall_impl; [exact Hall|].
  done.
Qed.

Lemma decode_stored es : Forall storable es → decode_events (event_data <$> es) = Ret es.
Proof using TL JL.
  induction 1 as [|e es He Hes IH]; [done|]. rewrite fmap_cons. cbn [decode_events].
  by rewrite deserialize_storable, IH by done.
Qed.

Lemma fst_scored es : (scored <$> es).*1 = event_data <$> es.
Proof. by rewrite <-list_fmap_compose. Qed.

(** ** Steps of the server *)

Lemma redis_queue_ext db db' m :
  (∀ u, db' !! queueKey u = db !! queueKey u) → redis_queue db m → redis_queue db' m.
Proof. intros He Hq. split; [apply Hq|]. intros u. rewrite He. apply Hq. Qed.

Lemma rq_persistent db m u : redis_queue db m → persistent db (queueKey u).
Proof. intros Hq v d. rewrite (rq_zset _ _ Hq). by case_bool_decide; intros [=]. Qed.

Lemma redis_queue_live t db m : redis_queue db m → redis_queue (live t db) m.
Proof. intros Hq. eapply redis_queue_ext; [|exact Hq]. intros u. by eapply live_persistent, rq_persistent. Qed.

Lemma rq_collection db m u : redis_queue db m → collection the_zset (queueKey u) db = Some (zset_of u m).
Proof. intros Hq. unfold collection. rewrite (rq_zset _ _ Hq). case_bool_decide as E; [by rewrite E|done]. Qed.

(** A command sent to a server that holds [m]. *)
Lemma do1_queue c r m :
  r_up r → redis_queue (r_keys r) m →
  ∃ t rep r' db, do1 c r = (rep, r') ∧ r_up r' ∧ redis_queue db m ∧ allowed c db rep ∧
    r_keys r' = live (r_now r') (effect t c db).
Proof using RL.
  intros Hup Hq. destruct (do1_serves c r Hup) as (t & rep & r' & E & Hup' & _ & Ha & Hk).
  exists t, rep, r', (live t (r_keys r)). split_and!; [done..|by apply redis_queue_live|done|done].
Qed.

Lemma queueKey_inj u v : queueKey u = queueKey v → u = v.
Proof. apply (inj (String.app queueKeyPrefix)). Qed.

(** Changing the sorted set of one user. *)
Lemma redis_queue_update db m m' u f :
  redis_queue db m → stored_events m' → f (zset_of u m) = zset_of u m' →
  (∀ v, v ≠ u → zset_of v m' = zset_of v m) →
  redis_queue (update_zset (queueKey u) f db) m'.
Proof.
  intros Hq Hm Hf Hne. split; [exact Hm|]. intros v. destruct (decide (v = u)) as [->|Hv].
  - unfold update_zset. rewrite (update_at_eq _ _ _ _ _ (zset_of u m)) by (by apply rq_collection).
    rewrite Hf, (rq_zset _ _ Hq). case_bool_decide; [done|]. by case_bool_decide.
  - unfold update_zset. rewrite update_at_ne by (intros E; by apply queueKey_inj in E). rewrite Hne by done. apply Hq.
Qed.

(** ** Reading *)

Lemma GetQueueSize_queue m u r :
  r_up r → redis_queue (r_keys r) m →
  ∃ r', GetQueueSize u r = (Ok (Z.of_nat (List.length (of_user u m))), r') ∧ r_up r' ∧ redis_queue (r_keys r') m.
Proof using UT TL JL RL.
  intros Hup Hq. unfold GetQueueSize.
  destruct (do1_queue (CZCard (queueKey u)) r m Hup Hq) as (t & rep & r' & db & -> & Hup' & Hdb & -> & Hk).
  cbn [allowed answer]. rewrite (rq_collection _ _ _ Hdb). simpl.
  assert (size (zset_of u m) = List.length (of_user u m)) as ->.
  { destruct (zlist_events u m) as (es & E & Hp & _); [by eapply rq_stored|].
    rewrite <-Hp, <-(length_fmap scored es), <-E. rewrite zlist_perm. symmetry. apply length_map_to_list. }
  exists r'. split_and!; [done..|]. rewrite Hk. by apply redis_queue_live.
Qed.

Lemma DequeueScrobbles_queue m u limit r :
  r_up r → redis_queue (r_keys r) m → 0 < limit ≤ int64_max →
  ∃ events r', DequeueScrobbles u limit r = (Ret (Ok events), r') ∧ r_up r' ∧ redis_queue (r_keys r') m ∧
    first_by redis_before m u limit events.
Proof using UT TL JL RL.
  intros Hup Hq Hl. unfold DequeueScrobbles. rewrite wrap64_small by (unfold int64_min, int64_max in *; lia).
  destruct (do1_queue (CZRange (queueKey u) 0 (limit - 1)) r m Hup Hq)
    as (t & rep & r' & db & -> & Hup' & Hdb & -> & Hk).
  cbn [allowed answer]. rewrite (rq_collection _ _ _ Hdb). cbn [answering as_pairs].
  destruct (zlist_events u m) as (es & E & Hp & Hs & Hst); [by eapply rq_stored|].
  rewrite zslice_first by lia. rewrite E, <-fmap_take, fst_scored, decode_stored by (by apply Forall_take).
  simpl. eexists _, r'. split; [done|]. split_and!; [done| |by apply oldest_take]. rewrite Hk. by apply redis_queue_live.
Qed.

(** The range for a limit of 0 ends at -1, the last element. *)
Lemma DequeueScrobbles_zero m u r :
  r_up r → redis_queue (r_keys r) m →
  ∃ events r', DequeueScrobbles u 0 r = (Ret (Ok events), r') ∧ r_up r' ∧ redis_queue (r_keys r') m ∧
    events ≡ₚ of_user u m.
Proof using UT TL JL RL.
  intros Hup Hq. unfold DequeueScrobbles. change (wrap64 (0 - 1)) with (-1).
  destruct (do1_queue (CZRange (queueKey u) 0 (-1)) r m Hup Hq) as (t & rep & r' & db & -> & Hup' & Hdb & -> & Hk).
  cbn [allowed answer]. rewrite (rq_collection _ _ _ Hdb). cbn [answering as_pairs].
  destruct (zlist_events u m) as (es & E & Hp & Hs & Hst); [by eapply rq_stored|].
  rewrite zslice_all, E, fst_scored, decode_stored by done. simpl. eexists _, r'. split; [done|].
  split_and!; [done| |done]. rewrite Hk. by apply redis_queue_live.
Qed.

(** ** The sorted sets after a change of the abstract queue *)

Lemma stored_delete m id : stored_events m → stored_events (delete id m).
Proof. intros Hm i e [_ He]%lookup_delete_Some. by apply Hm. Qed.

Lemma stored_insert m e : stored_events m → storable e → stored_events (<[E_ID e := e]> m).
Proof. intros Hm He i e' [[<- <-]|[_ Hl]]%lookup_insert_Some; [done|by apply Hm]. Qed.

Lemma stored_filter P `{!∀ x, Decision (P x)} m : stored_events m → stored_events (filter P m).
Proof. intros Hm i e [He _]%map_lookup_filter_Some. by apply Hm. Qed.

Lemma zset_delete m e v :
  stored_events m → m !! E_ID e = Some e →
  zset_of v (delete (E_ID e) m) = if decide (v = E_UserID e) then delete (event_data e) (zset_of v m) else zset_of v m.
Proof using UT TL JL.
  intros Hm He. pose proof (stored_delete m (E_ID e) Hm) as Hm'. destruct (Hm _ _ He) as [_ Hs].
  assert (∀ e', delete (E_ID e) m !! E_ID e' = Some e' ↔ m !! E_ID e' = Some e' ∧ e' ≠ e) as Hd.
  { intros e'. rewrite lookup_delete_Some. split; intros [H1 H2]; split; try done; [congruence|].
    intros E. rewrite <-E, He in H1. congruence. }
  case_decide as Hv; apply map_eq; intros d; apply option_eq; intros s; [rewrite lookup_delete_Some|];
    rewrite !lookup_zset by done; setoid_rewrite Hd.
  - split.
    + intros (e' & [H1 H2] & H3 & -> & ->). split; [|by exists e']. intros E.
      apply event_data_inj in E; [congruence|done|]. by destruct (Hm _ _ H1).
    + intros [Hne (e' & H1 & H2 & -> & ->)]. exists e'. split_and!; [done| |done..]. congruence.
  - split; intros (e' & H1 & H2 & H3); exists e'; [tauto|]. split_and!; [done| |tauto..]. congruence.
Qed.

Lemma zset_insert m e v :
  stored_events m → storable e → m !! E_ID e = None →
  zset_of v (<[E_ID e := e]> m) =
    if decide (v = E_UserID e) then <[event_data e := Unix (E_CreatedAt e)]> (zset_of v m) else zset_of v m.
Proof using UT TL JL.
  intros Hm Hs Hn. pose proof (stored_insert m e Hm Hs) as Hm'.
  assert (∀ e', <[E_ID e := e]> m !! E_ID e' = Some e' ↔ e' = e ∨ m !! E_ID e' = Some e') as Hd.
  { intros e'. rewrite lookup_insert_Some. split; [intros [[_ ->]|[_ ?]]; auto|].
    intros [->|Hl]; [by left|right]. split; [congruence|done]. }
  case_decide as Hv; apply map_eq; intros d; apply option_eq; intros s; [rewrite lookup_insert_Some|];
    rewrite !lookup_zset by done; setoid_rewrite Hd.
  - split.
    + intros (e' & [->|H1] & H3 & -> & ->); [by left|right]. split; [|by exists e']. intros E.
      apply event_data_inj in E; [congruence|done|]. by destruct (Hm _ _ H1).
    + intros [[<- <-]|[Hne (e' & H1 & H2 & -> & ->)]]; [exists e|exists e']; auto.
  - split; intros (e' & H1 & H2 & H3); exists e'; [|tauto]. destruct H1 as [->|H1]; [congruence|tauto].
Qed.

Lemma zset_purge m u v :
  stored_events m →
  zset_of v (filter (λ ie, E_UserID ie.2 ≠ u) m) = if decide (v = u) then ∅ else zset_of v m.
Proof using UT TL JL.
  intros Hm. pose proof (stored_filter (λ ie, E_UserID ie.2 ≠ u) m Hm) as Hm'.
  assert (∀ e, filter (λ ie, E_UserID ie.2 ≠ u) m !! E_ID e = Some e ↔ m !! E_ID e = Some e ∧ E_UserID e ≠ u) as Hd
    by (intros e; apply map_lookup_filter_Some).
  case_decide as Hv; apply map_eq; intros d; apply option_eq; intros s; [rewrite lookup_empty|];
    rewrite !lookup_zset by done; setoid_rewrite Hd.
  - split; [|done]. intros (e & [_ Hne] & Hu & _). congruence.
  - split; intros (e & H1 & H2 & H3); exists e; [tauto|]. split_and!; [done|congruence|tauto..].
Qed.

(** ** Searching *)

Lemma scan_keys_queue m r :
  r_up r → redis_queue (r_keys r) m →
  ∃ keys r', scan_keys (r_rounds r) 0 [] r = Some (Ok keys, r') ∧ r_up r' ∧ redis_queue (r_keys r') m ∧
    ∀ k, k ∈ keys ↔ ∃ u, k = queueKey u ∧ of_user u m ≠ [].
Proof using RL.
  intros Hup Hq. destruct (r_scans queueKeyPrefix r Hup) as (batches & r' & Hs & Hl & Hall).
  exists (mjoin batches), r'. split; [by apply (scan_keys_full _ _ _ _ _ Hs)|].
  destruct (full_scan_inv (λ db, redis_queue db m) _ _ _ _ _ (λ t db, redis_queue_live t db m) Hs Hup Hq)
    as (Hup' & Hq' & Hin). split_and!; [done..|]. intros k. split.
  - intros Hk. apply Hin in Hk as [[u ->]%HasPrefix_spec (db & Hdb & Hs')]. exists u. split; [done|].
    change (queueKeyPrefix +:+ u) with (queueKey u) in Hs'. rewrite (rq_zset _ _ Hdb) in Hs'.
    case_bool_decide as E; [by apply is_Some_None in Hs'|]. by rewrite <-zset_empty.
  - intros (u & -> & Hu). apply (Hall _ (VZset (zset_of u m))); [|apply HasPrefix_app].
    rewrite (rq_zset _ _ Hq). rewrite bool_decide_eq_false_2; [done|]. by rewrite zset_empty.
Qed.

Lemma find_member_stored id es :
  Forall storable es →
  find_member id (scored <$> es) =
    Ret (match List.find (λ e, bool_decide (E_ID e = id)) es with
         | Some e => Some (event_data e, Unix (E_CreatedAt e), e) | None => None end).
Proof using TL JL.
  induction 1 as [|e es He Hes IH]; [done|]. rewrite fmap_cons. cbn [find_member scored List.find].
  rewrite deserialize_storable by done. simpl. by case_bool_decide.
Qed.

Lemma find_event_queue m id e keys : ∀ r,
  r_up r → redis_queue (r_keys r) m → m !! id = Some e →
  (∀ k, k ∈ keys → ∃ u, k = queueKey u) → queueKey (E_UserID e) ∈ keys →
  ∃ r', find_event id keys r =
      (Ret (Some (queueKey (E_UserID e), (event_data e, Unix (E_CreatedAt e), e))), r') ∧
    r_up r' ∧ redis_queue (r_keys r') m.
Proof using UT TL JL RL.
  induction keys as [|k keys IH]; intros r Hup Hq He Hk Hin; [by apply not_elem_of_nil in Hin|].
  destruct (Hk k ltac:(left)) as [u ->]. cbn [find_event].
  destruct (do1_queue (CZRange (queueKey u) 0 (-1)) r m Hup Hq) as (t & rep & r' & db & -> & Hup' & Hdb & -> & Hk').
  cbn [allowed answer]. rewrite (rq_collection _ _ _ Hdb). cbn [answering as_pairs]. rewrite zslice_all.
  assert (redis_queue (r_keys r') m) as Hq' by (rewrite Hk'; by apply redis_queue_live).
  pose proof (rq_keyed _ _ Hq) as Hkey.
  destruct (zlist_events u m) as (es & -> & Hp & _ & Hst); [by eapply rq_stored|].
  rewrite find_member_stored by done.
  assert (∀ e', e' ∈ es ↔ m !! E_ID e' = Some e' ∧ E_UserID e' = u) as Hes
    by (intros e'; rewrite Hp; by apply elem_of_user).
  destruct (List.find _ es) as [e'|] eqn:Ef.
  - apply find_some in Ef as [Hin' Hid%bool_decide_eq_true]. apply list_elem_of_In, Hes in Hin' as [H1 H2].
    assert (e' = e) as -> by congruence. rewrite <-H2. by exists r'.
  - apply IH; [done..|intros; apply Hk; by right|]. apply elem_of_cons in Hin as [E|?]; [|done].
    apply queueKey_inj in E. assert (e ∈ es) as Hin' by (apply Hes; by rewrite (Hkey _ _ He)).
    apply list_elem_of_In in Hin'. apply (find_none _ _ Ef) in Hin'.
    apply bool_decide_eq_false in Hin'. by rewrite (Hkey _ _ He) in Hin'.
Qed.

(** The queue of an event, found by its id. *)
Lemma scan_find m id e r :
  r_up r → redis_queue (r_keys r) m → m !! id = Some e →
  ∃ keys r1 r', scan_keys (r_rounds r) 0 [] r = Some (Ok keys, r1) ∧
    find_event id keys r1 = (Ret (Some (queueKey (E_UserID e), (event_data e, Unix (E_CreatedAt e), e))), r') ∧
    r_up r' ∧ redis_queue (r_keys r') m.
Proof using UT TL JL RL.
  intros Hup Hq He. pose proof (rq_keyed _ _ Hq) as Hk.
  destruct (scan_keys_queue m r Hup Hq) as (keys & r1 & E1 & Hup1 & Hq1 & Hks).
  destruct (find_event_queue m id e keys r1 Hup1 Hq1 He) as (r' & E2 & ?).
  - intros k Hin. apply Hks in Hin as (u & -> & _). by exists u.
  - apply Hks. exists (E_UserID e). split; [done|]. intros Hn.
    assert (e ∈ of_user (E_UserID e) m) as Hin by (apply elem_of_user; [done|]; by rewrite (Hk _ _ He)).
    rewrite Hn in Hin. by apply not_elem_of_nil in Hin.
  - by exists keys, r1, r'.
Qed.

(** ** Changing one event *)

Lemma redis_queue_delete db m e :
  redis_queue db m → m !! E_ID e = Some e →
  redis_queue (update_zset (queueKey (E_UserID e)) (delete (event_data e)) db) (delete (E_ID e) m).
Proof using UT TL JL.
  intros Hq He. pose proof (rq_stored _ _ Hq) as Hm.
  apply (redis_queue_update db m); [done|by apply stored_delete| |].
  - rewrite zset_delete by done. by rewrite decide_True by done.
  - intros v Hv. rewrite zset_delete by done. by rewrite decide_False by done.
Qed.

Lemma redis_queue_insert db m e :
  redis_queue db m → storable e → m !! E_ID e = None →
  redis_queue (update_zset (queueKey (E_UserID e)) <[event_data e := Unix (E_CreatedAt e)]> db) (<[E_ID e := e]> m).
Proof using UT TL JL.
  intros Hq He Hn. pose proof (rq_stored _ _ Hq) as Hm.
  apply (redis_queue_update db m); [done|by apply stored_insert| |].
  - rewrite zset_insert by done. by rewrite decide_True by done.
  - intros v Hv. rewrite zset_insert by done. by rewrite decide_False by done.
Qed.

Lemma DeleteQueuedScrobble_queue m id e r :
  r_up r → redis_queue (r_keys r) m → m !! id = Some e →
  ∃ r', DeleteQueuedScrobble (r_rounds r) id r = Some (Ret None, r') ∧ r_up r' ∧
    redis_queue (r_keys r') (delete id m).
Proof using UT TL JL RL.
  intros Hup Hq He. pose proof (rq_keyed _ _ Hq _ _ He) as Hid. unfold DeleteQueuedScrobble.
  destruct (scan_find m id e r Hup Hq He) as (keys & r1 & r2 & -> & -> & Hup2 & Hq2).
  destruct (do1_queue (CZRem (queueKey (E_UserID e)) (event_data e)) r2 m Hup2 Hq2)
    as (t & rep & r' & db & -> & Hup' & Hdb & -> & Hk).
  cbn [allowed answer]. rewrite (rq_collection _ _ _ Hdb). cbn. exists r'. split_and!; [done..|].
  rewrite Hk. apply redis_queue_live. rewrite <-Hid. apply redis_queue_delete; [done|]. by rewrite Hid.
Qed.

Lemma UpdateQueuedScrobbleRetry_queue m now id n e r :
  r_up r → redis_queue (r_keys r) m → m !! id = Some e → time_in_range now = true → int64_min ≤ n ≤ int64_max →
  ∃ r', UpdateQueuedScrobbleRetry (r_rounds r) now id n r = Some (Ret None, r') ∧ r_up r' ∧
    redis_queue (r_keys r') (<[id := set_E_Retry n now e]> m).
Proof using UT TL JL RL.
  intros Hup Hq He Ht Hn. destruct (rq_event _ _ Hq _ _ He) as [Hid Hs]. unfold UpdateQueuedScrobbleRetry.
  destruct (scan_find m id e r Hup Hq He) as (keys & r1 & r2 & -> & -> & Hup2 & Hq2).
  pose proof (storable_retry n now e Hs Ht Hn) as Hs'. rewrite serialize_storable by done.
  set (e' := set_E_Retry n now e) in *.
  destruct (exec_serves [CZRem (queueKey (E_UserID e)) (event_data e);
                         CZAdd (queueKey (E_UserID e)) (Unix (E_CreatedAt e)) (event_data e')] r2 Hup2)
    as (reps & r' & -> & Hup' & Hserves).
  inversion Hserves as [|? t1 ? ? ? ? rep1 ? ? _ A1 Hserves2]; subst.
  inversion Hserves2 as [|? t2 ? ? ? ? rep2 ? ? _ A2 Hserves3]; subst.
  inversion Hserves3; subst. clear Hserves Hserves2 Hserves3.
  assert (Hq3 : redis_queue (live t1 (r_keys r2)) m) by (by apply redis_queue_live).
  assert (Hq4 : redis_queue (live t2 (effect t1 (CZRem (queueKey (E_UserID e)) (event_data e)) (live t1 (r_keys r2))))
                  (delete (E_ID e) m)) by (by apply redis_queue_live, redis_queue_delete).
  cbn [allowed answer] in A1, A2. rewrite (rq_collection _ _ _ Hq3) in A1.
  rewrite (rq_collection _ _ _ Hq4) in A2. subst rep1 rep2. exists r'. cbn. split_and!; [done..|].
  match goal with E : _ = r_keys r' |- _ => rewrite <-E end. apply redis_queue_live. rewrite <-insert_delete_eq.
  change (E_ID e) with (E_ID e') at 2. apply (redis_queue_insert _ _ e'); [done..|]. apply lookup_delete_eq.
Qed.

Lemma PurgeQueueForUser_queue m u r :
  r_up r → redis_queue (r_keys r) m →
  ∃ r', PurgeQueueForUser u r = (Ok (Z.of_nat (List.length (of_user u m))), r') ∧ r_up r' ∧
    redis_queue (r_keys r') (filter (λ ie, E_UserID ie.2 ≠ u) m).
Proof using UT TL JL RL.
  intros Hup Hq. unfold PurgeQueueForUser.
  destruct (GetQueueSize_queue m u r Hup Hq) as (r1 & -> & Hup1 & Hq1).
  destruct (do1_queue (CDel [queueKey u]) r1 m Hup1 Hq1) as (t & rep & r' & db & -> & Hup' & Hdb & -> & Hk).
  exists r'. cbn [allowed answer reply_error]. split_and!; [done..|]. rewrite Hk. apply redis_queue_live.
  pose proof (rq_stored _ _ Hdb) as Hm. cbn [effect foldr].
  split; [exact (stored_filter (λ ie, E_UserID ie.2 ≠ u) m Hm)|]. intros v. rewrite zset_purge by done.
  case_decide as Hv.
  - subst v. by rewrite lookup_delete_eq.
  - rewrite lookup_delete_ne by (intros E; by apply queueKey_inj in E). apply Hdb.
Qed.

Lemma users_with_events_queue m keys : ∀ r,
  r_up r → redis_queue (r_keys r) m → (∀ k, k ∈ keys → ∃ u, k = queueKey u) →
  ∃ us r', users_with_events keys r = (us, r') ∧ r_up r' ∧ redis_queue (r_keys r') m ∧
    ∀ u, u ∈ us ↔ queueKey u ∈ keys ∧ of_user u m ≠ [] ∧ u ≠ "".
Proof using UT TL JL RL.
  induction keys as [|k keys IH]; intros r Hup Hq Hk.
  { exists [], r. split_and!; [done..|]. intros u. split; [by intros ?%not_elem_of_nil|by intros [?%not_elem_of_nil _]]. }
  destruct (Hk k ltac:(left)) as [u ->]. cbn [users_with_events]. 
  change (TrimPrefix (queueKey u) queueKeyPrefix) with (TrimPrefix (queueKeyPrefix +:+ u) queueKeyPrefix).
  rewrite TrimPrefix_app.
  assert (Hk' : ∀ k, k ∈ keys → ∃ u, k = queueKey u) by (intros; apply Hk; by right).
  assert (Hcons : ∀ v, queueKey v ∈ queueKey u :: keys ↔ v = u ∨ queueKey v ∈ keys).
  { intros v. rewrite elem_of_cons. split; [intros [?%queueKey_inj|]; auto|intros [->|]; auto]. }
  setoid_rewrite Hcons. case_bool_decide as Hu.
  { subst u. destruct (IH r Hup Hq Hk') as (us & r' & -> & ? & ? & Hus). exists us, r'. split_and!; [done..|].
    intros v. rewrite Hus. split; [tauto|]. intros ([->|?] & ? & ?); tauto. }
  destruct (GetQueueSize_queue m u r Hup Hq) as (r1 & -> & Hup1 & Hq1).
  destruct (IH r1 Hup1 Hq1 Hk') as (us & r' & -> & ? & ? & Hus). eexists _, r'. split; [done|]. split_and!; [done..|].
  intros v. destruct (Z.ltb_spec 0 (Z.of_nat (List.length (of_user u m)))) as [Hl|Hl].
  - rewrite elem_of_cons, Hus. split; [|tauto]. intros [->|?]; [|tauto]. split_and!; [by left| |done].
    intros E. rewrite E in Hl. simpl in Hl. lia.
  - rewrite Hus. split; [tauto|]. intros ([->|?] & Hn & ?); [|tauto]. destruct (of_user u m); [done|simpl in Hl; lia].
Qed.

Lemma ListUsersWithQueuedEvents_queue m r :
  r_up r → redis_queue (r_keys r) m →
  ∃ us r', ListUsersWithQueuedEvents (r_rounds r) r = Some (Ok us, r') ∧ r_up r' ∧ redis_queue (r_keys r') m ∧
    ∀ u, u ∈ us ↔ of_user u m ≠ [] ∧ u ≠ "".
Proof using UT TL JL RL.
  intros Hup Hq. unfold ListUsersWithQueuedEvents.
  destruct (scan_keys_queue m r Hup Hq) as (keys & r1 & -> & Hup1 & Hq1 & Hks).
  destruct (users_with_events_queue m keys r1 Hup1 Hq1) as (us & r' & -> & ? & ? & Hus).
  { intros k (u & -> & _)%Hks. by exists u. }
  exists us, r'. split_and!; [done..|]. intros u. rewrite Hus, Hks. split; [tauto|].
  intros [? ?]. split_and!; [|done..]. by exists u.
Qed.

(** ** Adding an event *)

(** Popping the lowest score of a full queue evicts the oldest event. *)
Lemma redis_queue_pop db m u :
  redis_queue db m → 0 < Z.of_nat (List.length (of_user u m)) →
  ∃ e, oldest m u 1 [e] ∧
    redis_queue (update_zset (queueKey u) (λ z, list_to_map (drop (Z.to_nat 1) (zlist z))) db) (delete (E_ID e) m).
Proof using UT TL JL.
  intros Hq Hn. pose proof (rq_stored _ _ Hq) as Hm. pose proof (stored_keyed _ Hm) as Hk.
  destruct (zlist_events u m Hm) as (es & E & Hp & Hs & Hst).
  destruct es as [|e es]; [rewrite <-Hp in Hn; simpl in Hn; lia|]. exists e.
  split; [eapply first_by_weaken; [apply redis_before_second|by apply (oldest_take _ m u 1 (e :: es))]|].
  assert (e ∈ of_user u m) as Hin by (rewrite <-Hp; left). apply elem_of_user in Hin as [He Hu]; [|done].
  assert (NoDup (e :: es)) as Hnd by (rewrite Hp; by apply of_user_NoDup).
  assert (zset_of u m = list_to_map (scored <$> e :: es)) as Hz.
  { rewrite <-E. unfold zlist. rewrite <-(list_to_map_to_list (zset_of u m)) at 1.
    apply list_to_map_proper; [apply NoDup_fst_map_to_list|]. symmetry. apply merge_sort_Permutation. }
  apply (redis_queue_update db m); [done|by apply stored_delete| |].
  - rewrite zset_delete, decide_True, E by done. rewrite Hz. simpl. symmetry. apply delete_insert_id.
    apply not_elem_of_list_to_map_1. pose proof (scored_NoDup _ Hst Hnd) as Hnd'. simpl in Hnd'.
    by apply NoDup_cons in Hnd' as [? _].
  - intros v Hv. rewrite zset_delete by done. rewrite decide_False; [done|congruence].
Qed.

(** One attempt to enqueue an event that is not queued yet. *)
Lemma tryStore_queue src event e m r :
  r_up r → redis_queue (r_keys r) m → prepare (src_rnd src) (src_now src) event = Ok e → storable e →
  m !! E_ID e = None →
  ∃ m' r', tryStore src event r = (Stored e, r') ∧ r_up r' ∧ evicted (E_UserID e) m m' ∧
    redis_queue (r_keys r') (<[E_ID e := e]> m').
Proof using UT TL JL RL.
  intros Hup Hq Hp Hs Hn. unfold tryStore. rewrite Hp, serialize_storable by done.
  destruct (GetQueueSize_queue m (E_UserID e) r Hup Hq) as (r1 & -> & Hup1 & Hq1).
  assert (∃ m' r2, (if maxQueuePerUser <=? Z.of_nat (List.length (of_user (E_UserID e) m))
                    then (do1 (CZPopMin (queueKey (E_UserID e)) 1) r1).2 else r1) = r2 ∧ r_up r2 ∧
            evicted (E_UserID e) m m' ∧ redis_queue (r_keys r2) m' ∧ m' !! E_ID e = None)
    as (m' & r2 & -> & Hup2 & Hev & Hq2 & Hn').
  { unfold evicted. destruct (Z.leb_spec maxQueuePerUser (Z.of_nat (List.length (of_user (E_UserID e) m)))) as [Hge|Hlt].
    - destruct (do1_queue (CZPopMin (queueKey (E_UserID e)) 1) r1 m Hup1 Hq1)
        as (t & rep & r2 & db & -> & Hup2 & Hdb & _ & Hk).
      destruct (redis_queue_pop db m (E_UserID e) Hdb) as (e0 & Ho & Hpop); [unfold maxQueuePerUser in Hge; lia|].
      exists (delete (E_ID e0) m), r2. rewrite decide_False by lia. split_and!; [done|done|eauto| |].
      + rewrite Hk. by apply redis_queue_live.
      + by apply lookup_delete_None; right.
    - exists m, r1. rewrite decide_True by lia. done. }
  destruct (do1_queue (CZAdd (queueKey (E_UserID e)) (Unix (E_CreatedAt e)) (event_data e)) r2 m' Hup2 Hq2)
    as (t & rep & r' & db & -> & Hup' & Hdb & -> & Hk).
  cbn [allowed answer]. rewrite (rq_collection _ _ _ Hdb). cbn [answering count reply_error].
  exists m', r'. split_and!; [done..|]. rewrite Hk. by apply redis_queue_live, redis_queue_insert.
Qed.

(** ** The queue a server holds *)

Definition decoded (member : string) : option QueuedScrobbleEvent :=
  match deserializeEvent member with Ret (Ok e) => Some e | _ => None end.
Definition events_at (kv : string * (value * option Time)) : list QueuedScrobbleEvent :=
  if HasPrefix kv.1 queueKeyPrefix then
    match kv.2.1 with VZset z => omap decoded (map_to_list z).*1 | _ => [] end
  else [].
Definition queue_of (db : Keys) : Queue :=
  list_to_map ((λ e, (E_ID e, e)) <$> (map_to_list db ≫= events_at)).

Lemma elem_of_events_at db m e :
  redis_queue db m → e ∈ map_to_list db ≫= events_at ↔ m !! E_ID e = Some e.
Proof using UT TL JL.
  intros Hq. pose proof (rq_stored _ _ Hq) as Hm. rewrite list_elem_of_bind. split.
  - intros ([k [v d]] & He & Hl%elem_of_map_to_list). unfold events_at in He. simpl in He.
    destruct (HasPrefix k queueKeyPrefix) eqn:Hp; [|by apply not_elem_of_nil in He].
    apply HasPrefix_spec in Hp as [u ->]. change (queueKeyPrefix +:+ u) with (queueKey u) in Hl.
    rewrite (rq_zset _ _ Hq) in Hl. case_bool_decide; simplify_eq.
    apply list_elem_of_omap in He as (d & Hd & Hdec). apply list_elem_of_fmap in Hd as ([d' s] & -> & Hz).
    apply elem_of_map_to_list, lookup_zset in Hz as (e' & He' & _ & -> & _); [|done].
    destruct (Hm _ _ He') as [_ Hs]. unfold decoded in Hdec. simpl in Hdec.
    rewrite deserialize_storable in Hdec by done. by simplify_eq.
  - intros He. destruct (Hm _ _ He) as [_ Hs].
    assert (zset_of (E_UserID e) m !! event_data e = Some (Unix (E_CreatedAt e))) as Hz
      by (apply lookup_zset; [done|by exists e]).
    exists (queueKey (E_UserID e), (VZset (zset_of (E_UserID e) m), None)). split.
    + unfold events_at. cbn [fst snd].
      rewrite (HasPrefix_app queueKeyPrefix _ : HasPrefix (queueKey (E_UserID e)) queueKeyPrefix = true). apply list_elem_of_omap.
      exists (event_data e). split; [|unfold decoded; by rewrite deserialize_storable].
      apply list_elem_of_fmap. exists (event_data e, Unix (E_CreatedAt e)). split; [done|].
      by apply elem_of_map_to_list.
    + apply elem_of_map_to_list. rewrite (rq_zset _ _ Hq), bool_decide_eq_false_2; [done|].
      intros E. by rewrite E in Hz.
Qed.

Lemma queue_of_redis db m : redis_queue db m → queue_of db = m.
Proof using UT TL JL.
  intros Hq. pose proof (rq_keyed _ _ Hq) as Hk. apply map_eq. intros id. unfold queue_of.
  assert (Hin : ∀ e, (id, e) ∈ (λ e, (E_ID e, e)) <$> (map_to_list db ≫= events_at) ↔ m !! id = Some e).
  { intros e. rewrite list_elem_of_fmap. setoid_rewrite (elem_of_events_at db m _ Hq). split.
    - intros (e' & [= -> ->] & He'). done.
    - intros He. exists e. rewrite (Hk _ _ He). by split. }
  destruct (m !! id) as [e|] eqn:He.
  - apply elem_of_list_to_map_1'; [|by apply Hin]. intros e' He'. apply Hin in He'. congruence.
  - apply not_elem_of_list_to_map_1. intros ([id' e] & Hx & Hx')%list_elem_of_fmap. simpl in Hx. subst id'.
    apply Hin in Hx'. congruence.
Qed.

Definition redis_inv (r : R) : Prop := r_up r ∧ ∃ m, redis_queue (r_keys r) m.
Definition redis_abs (r : R) : Queue := queue_of (r_keys r).

Lemma redis_inv_abs r : redis_inv r → r_up r ∧ redis_queue (r_keys r) (redis_abs r).
Proof using UT TL JL. intros [Hup [m Hm]]. unfold redis_abs. by rewrite (queue_of_redis _ _ Hm). Qed.

Lemma redis_inv_intro r m : r_up r → redis_queue (r_keys r) m → redis_inv r ∧ redis_abs r = m.
Proof using UT TL JL. intros Hup Hm. split; [by split; [|exists m]|by apply queue_of_redis]. Qed.

(** The fuel of a scan is the number of rounds the server takes at most; the
    errors and panics of the other branches are excluded by the refinement. *)
#[local] Instance redis_queue_store : QueueStore R := {
  q_DequeueScrobbles := DequeueScrobbles;
  q_DeleteQueuedScrobble id r :=
    match DeleteQueuedScrobble (r_rounds r) id r with
    | None => (Some (Errorf "no fuel"), r)
    | Some (Panic why, r) => (Some (Errorf why), r)
    | Some (Ret err, r) => (err, r)
    end;
  q_UpdateQueuedScrobbleRetry now id n r :=
    match UpdateQueuedScrobbleRetry (r_rounds r) now id n r with
    | None => (Panic "no fuel", r)
    | Some res => res
    end;
}.

Lemma redis_queue_refines : QueueRefines R redis_inv redis_abs (λ _, True).
Proof using UT TL JL RL.
  split.
  - intros r Hr. apply redis_inv_abs in Hr as [_ Hq]. by eapply rq_keyed.
  - intros u limit r Hr _ Hl. apply redis_inv_abs in Hr as [Hup Hq].
    destruct (DequeueScrobbles_queue _ u limit r Hup Hq Hl) as (events & r' & E & Hup' & Hq' & Ho).
    exists events, r'. split; [exact E|]. destruct (redis_inv_intro r' _ Hup' Hq').
    split_and!; [done..|]. eapply first_by_weaken; [apply redis_before_second|exact Ho].
  - intros id r Hr [e He]. apply redis_inv_abs in Hr as [Hup Hq].
    destruct (DeleteQueuedScrobble_queue _ id e r Hup Hq He) as (r' & E & Hup' & Hq').
    exists r'. simpl. rewrite E. split; [done|]. by apply redis_inv_intro.
  - intros now id n e r Hr He Ht Hn. apply redis_inv_abs in Hr as [Hup Hq].
    destruct (UpdateQueuedScrobbleRetry_queue _ now id n e r Hup Hq He Ht Hn) as (r' & E & Hup' & Hq').
    exists r'. simpl. rewrite E. split; [done|]. by apply redis_inv_intro.
Qed.
End Refinement.

(** ** Properties *)

Section Properties.
Context {R : Type} `{UT : UnicodeTables, TT : TimeText, TL : !TimeTextLaws TT, JT : JsonText,
  JL : !JsonTextLaws JT, RE : Redis R, RL : !RedisLaws R}.

(** C24: on a server that answers and whose queue keys hold well-formed events,
    the queue methods of [RedisStore] are those of a map from ids to events:
    a positive limit gives the first events of the user by the second of their
    creation and, within a second, by their JSON text (but a limit of 0 gives
    all of them), [GetQueueSize] counts them,
    [ListUsersWithQueuedEvents] lists the users with events (one named by the
    empty string apart), [PurgeQueueForUser] removes the user's events and no
    others, and [DeleteQueuedScrobble] and [UpdateQueuedScrobbleRetry] change
    the one event whose id is given. *)
Theorem redis_store_refines_queue (r : R) (u id : string) (e : QueuedScrobbleEvent) (limit n : Z) (now : Time) :
  redis_inv r → redis_abs r !! id = Some e → 0 < limit ≤ int64_max →
  time_in_range now = true → int64_min ≤ n ≤ int64_max →
  let m := redis_abs r in
  (∃ events r', DequeueScrobbles u limit r = (Ret (Ok events), r') ∧ redis_inv r' ∧ redis_abs r' = m ∧
     first_by redis_before m u limit events) ∧
  (∃ events r', DequeueScrobbles u 0 r = (Ret (Ok events), r') ∧ events ≡ₚ of_user u m) ∧
  (∃ r', GetQueueSize u r = (Ok (Z.of_nat (List.length (of_user u m))), r') ∧ redis_inv r' ∧ redis_abs r' = m) ∧
  (∃ us r', ListUsersWithQueuedEvents (r_rounds r) r = Some (Ok us, r') ∧ redis_inv r' ∧ redis_abs r' = m ∧
     ∀ v, v ∈ us ↔ of_user v m ≠ [] ∧ v ≠ "") ∧
  (∃ r', PurgeQueueForUser u r = (Ok (Z.of_nat (List.length (of_user u m))), r') ∧
     redis_inv r' ∧ redis_abs r' = filter (λ ie, E_UserID ie.2 ≠ u) m) ∧
  (∃ r', DeleteQueuedScrobble (r_rounds r) id r = Some (Ret None, r') ∧
     redis_inv r' ∧ redis_abs r' = delete id m) ∧
  (∃ r', UpdateQueuedScrobbleRetry (r_rounds r) now id n r = Some (Ret None, r') ∧
     redis_inv r' ∧ redis_abs r' = <[id := set_E_Retry n now e]> m).
Proof using UT TL JL RL.
  intros Hr He Hl Ht Hn m. apply redis_inv_abs in Hr as [Hup Hq]. fold m in Hq. split_and!.
  - destruct (DequeueScrobbles_queue m u limit r Hup Hq Hl) as (events & r' & ? & Hup' & Hq' & ?).
    exists events, r'. destruct (redis_inv_intro r' m Hup' Hq'). done.
  - destruct (DequeueScrobbles_zero m u r Hup Hq) as (events & r' & ? & _ & _ & ?). by exists events, r'.
  - destruct (GetQueueSize_queue m u r Hup Hq) as (r' & ? & Hup' & Hq'). exists r'. split; [done|].
    by apply redis_inv_intro.
  - destruct (ListUsersWithQueuedEvents_queue m r Hup Hq) as (us & r' & ? & Hup' & Hq' & ?).
    exists us, r'. destruct (redis_inv_intro r' m Hup' Hq'). done.
  - destruct (PurgeQueueForUser_queue m u r Hup Hq) as (r' & ? & Hup' & Hq'). exists r'. split; [done|].
    by apply redis_inv_intro.
  - destruct (DeleteQueuedScrobble_queue m id e r Hup Hq He) as (r' & ? & Hup' & Hq'). exists r'. split; [done|].
    by apply redis_inv_intro.
  - destruct (UpdateQueuedScrobbleRetry_queue m now id n e r Hup Hq He Ht Hn) as (r' & ? & Hup' & Hq').
    exists r'. split; [done|]. by apply redis_inv_intro.
Qed.

(** on such a server, [EnqueueScrobble] of a new event for a user without a
    fallback buffer returns without error and adds exactly the prepared event,
    after dropping the user's oldest event when there were a thousand. *)
Lemma redis_enqueue_refines (srcs : nat → Sources) (fuel k : nat) (event e : QueuedScrobbleEvent)
    (s : RedisStore R) :
  redis_inv (storage s) → prepare (src_rnd (srcs k)) (src_now (srcs k)) event = Ok e → storable e →
  redis_abs (storage s) !! E_ID e = None → fallbackBuffers s !! E_UserID e = None →
  ∃ m' r', EnqueueScrobble srcs (S fuel) event (k, s) = Some (Ret (None, (S k, set_storage r' s))) ∧
    evicted (E_UserID e) (redis_abs (storage s)) m' ∧ redis_inv r' ∧ redis_abs r' = <[E_ID e := e]> m'.
Proof using UT TL JL RL.
  intros Hr Hp Hs Hn Hb. apply redis_inv_abs in Hr as [Hup Hq].
  destruct (tryStore_queue (srcs k) event e _ _ Hup Hq Hp Hs Hn) as (m' & r' & Ht & Hup' & Hev & Hq').
  exists m', r'. split_and!; [|done|by destruct (redis_inv_intro r' _ Hup' Hq')..].
  unfold EnqueueScrobble. cbn [enqueueWith]. rewrite Ht. unfold flushWith. simpl. by rewrite Hb.
Qed.

(** on such a server, draining a user with [n] queued events returns after
    at most [n + 1] batches with no event of the user left, the events of the
    other users still there, at most [5 n] requests sent and each event counted
    once, whatever Trakt answers. *)
Lemma redis_drain_empties {X : Type} (get_user : string → X → option User * X)
    (list_users : R → result (list string) * R) (clock : nat → Time)
    (trakt : nat → string → CacheItem → string → option error) (userID : string)
    (w : QueueWorld R X) (t : DrainStateTracker) :
  (∀ i, time_in_range (clock i) = true) → redis_inv (qw_store w) →
  Z.of_nat (List.length (of_user userID (redis_abs (qw_store w)))) ≤ int64_max →
  let n := List.length (of_user userID (redis_abs (qw_store w))) in
  ∃ w' t' c,
    drainUserQueue (H0:=queue_drain_store (QS:=redis_queue_store) get_user list_users clock trakt)
      (S n) userID (w, t) = Some (w', t', c) ∧
    of_user userID (redis_abs (qw_store w')) = [] ∧
    (∀ id e, redis_abs (qw_store w) !! id = Some e → E_UserID e ≠ userID →
       ∃ e', redis_abs (qw_store w') !! id = Some e' ∧ E_UserID e' = E_UserID e) ∧
    (qw_sends w' ≤ qw_sends w + 5 * n)%nat ∧
    successCount c + failureCount c = Z.of_nat n.
Proof using UT TL JL RL.
  intros Hc Hr Hn.
  apply (queue_drain_empties (QS:=redis_queue_store) get_user list_users clock trakt
           redis_inv redis_abs (λ _, True) (QR:=redis_queue_refines)); done.
Qed.
(** On such a server, while Trakt accepts what it is sent, draining a user
    hands every queued event to the Trakt client exactly once, oldest first,
    with the stored action, player, item and body and the token the user has
    now, counts them all as successes, and removes the events of the user and
    no others. *)
Lemma redis_queue_delivered {X : Type} (get_user : string → X → option User * X)
    (list_users : R → result (list string) * R) (clock : nat → Time)
    (trakt : nat → string → CacheItem → string → option error) (u token : string) (users_ok : X → Prop)
    (w : QueueWorld R X) (t : DrainStateTracker) :
  (∀ x, users_ok x → ∃ user x', get_user u x = (Some user, x') ∧ users_ok x' ∧ U_AccessToken user = token) →
  (∀ i a c s, trakt i a c s = None) → redis_inv (qw_store w) → users_ok (qw_users w) →
  Z.of_nat (List.length (of_user u (redis_abs (qw_store w)))) ≤ int64_max →
  let n := List.length (of_user u (redis_abs (qw_store w))) in
  ∃ w' t' events,
    drainUserQueue (H0:=queue_drain_store (QS:=redis_queue_store) get_user list_users clock trakt)
      (S n) u (w, t) = Some (w', t', mkCounts (Z.of_nat n) 0) ∧
    events ≡ₚ of_user u (redis_abs (qw_store w)) ∧ StronglySorted second_before events ∧
    qw_sent w' = qw_sent w ++ (sent_of token <$> events) ∧
    redis_abs (qw_store w') = filter (λ ie, E_UserID ie.2 ≠ u) (redis_abs (qw_store w)).
Proof using UT TL JL RL.
  intros Hu Ht Hr Hx Hn.
  by apply (queue_delivered (QS:=redis_queue_store) get_user list_users clock trakt
           redis_inv redis_abs (λ _, True) (QR:=redis_queue_refines) u token users_ok).
Qed.
End Properties.

(** ** Examples *)

#[local] Existing Instances ascii_tables decimal_time tree_text.

Definition empty_memory : memory := (0, ∅).
Definition one_event_memory : memory := (tryStore sample_sources (uuid_event "1") empty_memory).2.

Lemma empty_memory_queue : redis_queue (r_keys empty_memory) ∅.
Proof. split; [done|]. intros u. reflexivity. Qed.

Lemma empty_memory_inv : redis_inv empty_memory.
Proof. split; [exact I|]. exists ∅. exact empty_memory_queue. Qed.

Lemma one_event_memory_inv :
  redis_inv one_event_memory ∧ redis_abs one_event_memory = {[E_ID (uuid_event "1") := uuid_event "1"]}.
Proof.
  destruct (tryStore_queue (TL:=decimal_time_laws) (JL:=tree_text_laws) (RL:=memory_laws) sample_sources (uuid_event "1")
    (uuid_event "1") ∅ empty_memory I empty_memory_queue eq_refl uuid_event_storable eq_refl)
    as (m' & r' & Ht & Hup & Hev & Hq).
  unfold one_event_memory. rewrite Ht. simpl. assert (m' = ∅) as -> by exact Hev.
  apply (redis_inv_intro (TL:=decimal_time_laws) (JL:=tree_text_laws)); [exact I|exact Hq].
Qed.

(** Two events of one second, the second one created 500 ms after the first:
    they come out in the other order, since the score has whole seconds and the
    text of the second event is the smaller one. *)
Definition half_second_later : QueuedScrobbleEvent :=
  let e := uuid_event "1" in
  mkEvent (E_ID e) (E_UserID e) (E_ScrobbleBody e) (E_Action e) (E_Progress e)
    (E_CreatedAt (uuid_event "2") + 500000000) (E_RetryCount e) (E_LastAttempt e) (E_PlayerUUID e) (E_RatingKey e).
Example same_second_reversed :
  E_CreatedAt (uuid_event "2") < E_CreatedAt half_second_later ∧
  (DequeueScrobbles "user" 100
    (tryStore sample_sources half_second_later (tryStore sample_sources (uuid_event "2") empty_memory).2).2).1 =
  Ret (Ok [half_second_later; uuid_event "2"]).
Proof. split; vm_compute; reflexivity. Qed.

Lemma redis_store_refines_queue_witness :
  ∃ r', DeleteQueuedScrobble 1 (E_ID (uuid_event "1")) one_event_memory = Some (Ret None, r') ∧
    redis_abs r' = delete (E_ID (uuid_event "1")) (redis_abs one_event_memory).
Proof.
  assert (He : redis_abs one_event_memory !! E_ID (uuid_event "1") = Some (uuid_event "1"))
    by (rewrite (proj2 one_event_memory_inv); apply lookup_singleton_eq).
  assert (Hl : 0 < 10 ≤ int64_max) by (vm_compute; split; [reflexivity|discriminate]).
  assert (Hn : int64_min ≤ 3 ≤ int64_max) by (vm_compute; split; discriminate).
  destruct (redis_store_refines_queue (TL:=decimal_time_laws) (JL:=tree_text_laws) one_event_memory "user"
    (E_ID (uuid_event "1")) (uuid_event "1") 10 3 0 (proj1 one_event_memory_inv) He Hl eq_refl Hn)
    as (_ & _ & _ & _ & _ & (r' & H1 & _ & H2) & _).
  exists r'. split; [exact H1|exact H2].
Defined.

Lemma redis_enqueue_refines_witness :
  ∃ m' r', EnqueueScrobble (λ _, sample_sources) 1 (uuid_event "1") (0%nat, NewRedisStore empty_memory) =
      Some (Ret (None, (1%nat, mkBuffered r' ∅))) ∧
    evicted "user" (redis_abs empty_memory) m' ∧ redis_inv r' ∧
    redis_abs r' = <[E_ID (uuid_event "1") := uuid_event "1"]> m'.
Proof.
  exact (redis_enqueue_refines (TL:=decimal_time_laws) (JL:=tree_text_laws) (λ _, sample_sources) 0 0
           (uuid_event "1") (uuid_event "1") (NewRedisStore empty_memory)
           empty_memory_inv eq_refl uuid_event_storable eq_refl eq_refl).
Defined.

Lemma redis_drain_empties_witness :
  ∃ w' t' c,
    drainUserQueue (H0:=queue_drain_store (QS:=redis_queue_store) (λ _ x, (None, x))
                          (λ r, (Ok [], r)) (λ _, 0) (λ _ _ _ _, Some (Errorf "503")))
      2 "user" (mkQueueWorld one_event_memory tt 0 [] [], NewDrainStateTracker) = Some (w', t', c) ∧
    of_user "user" (redis_abs (qw_store w')) = [] ∧ successCount c + failureCount c = 1.
Proof.
  assert (Hl : of_user "user" (redis_abs one_event_memory) = [uuid_event "1"]).
  { rewrite (proj2 one_event_memory_inv). vm_compute. reflexivity. }
  destruct (redis_drain_empties (TL:=decimal_time_laws) (JL:=tree_text_laws) (λ _ x, (None, x)) (λ r, (Ok [], r))
    (λ _, 0) (λ _ _ _ _, Some (Errorf "503")) "user" (mkQueueWorld one_event_memory tt 0 [] []) NewDrainStateTracker)
    as (w' & t' & c & H1 & H2 & _ & _ & H3).
  - reflexivity.
  - exact (proj1 one_event_memory_inv).
  - cbn [qw_store]. rewrite Hl. vm_compute. discriminate.
  - cbn [qw_store] in H1, H3. rewrite Hl in H1, H3. exists w', t', c. split; [exact H1|split; [exact H2|exact H3]].
Defined.

(** A user whose token is known. *)
Definition signed_in (x : unit) : option User * unit :=
  (Some (mkUser "user" "sam" "acc" "ref" "Sam" 0 0 true), x).

Lemma redis_queue_delivered_witness :
  ∃ w' t' events,
    drainUserQueue (H0:=queue_drain_store (QS:=redis_queue_store) (λ _, signed_in)
                          (λ r, (Ok [], r)) (λ _, 0) (λ _ _ _ _, None))
      2 "user" (mkQueueWorld one_event_memory tt 0 [] [], NewDrainStateTracker) = Some (w', t', mkCounts 1 0) ∧
    events ≡ₚ [uuid_event "1"] ∧ qw_sent w' = sent_of "acc" <$> events.
Proof.
  assert (Hl : of_user "user" (redis_abs one_event_memory) = [uuid_event "1"]).
  { rewrite (proj2 one_event_memory_inv). vm_compute. reflexivity. }
  destruct (redis_queue_delivered (TL:=decimal_time_laws) (JL:=tree_text_laws) (λ _, signed_in) (λ r, (Ok [], r))
    (λ _, 0) (λ _ _ _ _, None) "user" "acc" (λ _, True) (mkQueueWorld one_event_memory tt 0 [] []) NewDrainStateTracker)
    as (w' & t' & events & H1 & H2 & _ & H3 & _).
  - intros x _. eexists _, x. split_and!; reflexivity || exact I.
  - reflexivity.
  - exact (proj1 one_event_memory_inv).
  - exact I.
  - cbn [qw_store]. rewrite Hl. vm_compute. discriminate.
  - cbn [qw_store] in H1, H2. rewrite Hl in H1, H2. exists w', t', events. split; [exact H1|split; [exact H2|exact H3]].
Defined.
