(* ===== verification/MultiLock.v ===== *)
(** * The keyed lock of [lib/common/lock.go]

    [Lock], [RLock], [Unlock] and [RUnlock] of a key as sequences of atomic
    actions on shared memory: [sync.Map.LoadOrStore], [atomic.AddInt64], the
    methods of [sync.RWMutex], the plain read of the counter, [sync.Pool.Put]
    and [sync.Map.Delete].  Threads interleave between them.  [sync.Pool.Get]
    may return any pooled mutex or make a new one, as its documentation says.
    That a waiting [Lock] holds back later readers is left out: it restricts
    the schedules only. *)

From S2P Require Import Prelude GoLib.

Open Scope Z_scope.

Abbreviation ref := nat (only parsing).
Abbreviation mutex := nat (only parsing).
Abbreviation tid := nat (only parsing).

Record refCounter := mkRef { rc_counter : Z; rc_lock : mutex }.

(** [Lock] and [Unlock], or [RLock] and [RUnlock]. *)
Inductive mode := Write | Read.

(** Where a thread is, inside a call for [key] or between. *)
Inductive pc :=
| Idle
| LockCount (md : mode) (key : string) (m : ref)     (** before [atomic.AddInt64(&m.counter, 1)] *)
| LockWait (md : mode) (key : string) (m : ref)      (** before [m.lock.Lock()] or [RLock()] *)
| Holding (md : mode) (key : string) (m : ref)       (** [Lock] or [RLock] has returned *)
| UnlockRelease (md : mode) (key : string) (m : ref) (** before [m.lock.Unlock()] or [RUnlock()] *)
| PutCount (key : string) (m : ref)      (** before [atomic.AddInt64(&m.counter, -1)] *)
| PutTest (key : string) (m : ref)       (** before [if m.counter <= 0] *)
| PutPool (key : string) (m : ref)       (** before [l.pool.Put(m.lock)] *)
| PutDelete (key : string) (m : ref).    (** before [l.inUse.Delete(key)] *)

Record lock_state := mkLock {
  inUse : gmap string ref;
  refs : list refCounter;
  held : gmap mutex tid;      (** mutexes locked for writing and the thread that locked them *)
  readers : gmap mutex nat;   (** how often a mutex is locked for reading *)
  pool : list mutex;
  fresh_mutex : mutex;        (** mutexes made so far *)
  pcs : gmap tid pc;
}.

Definition NewMultipleLock : lock_state := mkLock ∅ [] ∅ ∅ [] 0%nat ∅.

Definition pc_of (t : tid) (s : lock_state) : pc := default Idle (pcs s !! t).
Definition goto (t : tid) (p : pc) (s : lock_state) : lock_state :=
  mkLock (inUse s) (refs s) (held s) (readers s) (pool s) (fresh_mutex s) (<[t := p]> (pcs s)).

(** [l.pool.Get()]: the [i]-th pooled mutex, or a new one. *)
Definition pool_Get (choice : option nat) (s : lock_state) : mutex * lock_state :=
  match choice ≫= λ i, pool s !! i with
  | Some m =>
      (m, mkLock (inUse s) (refs s) (held s) (readers s) (delete (default 0%nat choice) (pool s)) (fresh_mutex s) (pcs s))
  | None =>
      (fresh_mutex s, mkLock (inUse s) (refs s) (held s) (readers s) (pool s) (S (fresh_mutex s)) (pcs s))
  end.

(** [getLocker(key)]: the mutex for a new entry is taken from the pool before
    the map is looked up, and dropped when the key is there. *)
Definition getLocker (choice : option nat) (key : string) (s : lock_state) : ref * lock_state :=
  let '(mu, s) := pool_Get choice s in
  match inUse s !! key with
  | Some m => (m, s)
  | None =>
      let m := List.length (refs s) in
      (m, mkLock (<[key := m]> (inUse s)) (refs s ++ [mkRef 0 mu]) (held s) (readers s) (pool s) (fresh_mutex s) (pcs s))
  end.

Definition add_counter (m : ref) (d : Z) (s : lock_state) : lock_state :=
  mkLock (inUse s) (alter (λ r, mkRef (wrap64 (rc_counter r + d)) (rc_lock r)) m (refs s)) (held s)
    (readers s) (pool s) (fresh_mutex s) (pcs s).

Definition reading (mu : mutex) (s : lock_state) : nat := default 0%nat (readers s !! mu).

(** [RWMutex.Lock] and [RLock]: [None] while the caller has to wait. *)
Definition acquire (md : mode) (t : tid) (mu : mutex) (s : lock_state) : option lock_state :=
  match held s !! mu, md with
  | Some _, _ => None
  | None, Write =>
      if bool_decide (reading mu s = 0%nat)
      then Some (mkLock (inUse s) (refs s) (<[mu := t]> (held s)) (readers s) (pool s) (fresh_mutex s) (pcs s))
      else None
  | None, Read =>
      Some (mkLock (inUse s) (refs s) (held s) (<[mu := S (reading mu s)]> (readers s)) (pool s) (fresh_mutex s) (pcs s))
  end.

(** [RWMutex.Unlock] and [RUnlock], by any thread: [None] when the mutex is not
    locked, which ends the program. *)
Definition release (md : mode) (mu : mutex) (s : lock_state) : option lock_state :=
  match md with
  | Write =>
      match held s !! mu with
      | None => None
      | Some _ =>
          Some (mkLock (inUse s) (refs s) (delete mu (held s)) (readers s) (pool s) (fresh_mutex s) (pcs s))
      end
  | Read =>
      match reading mu s with
      | O => None
      | S n => Some (mkLock (inUse s) (refs s) (held s) (<[mu := n]> (readers s)) (pool s) (fresh_mutex s) (pcs s))
      end
  end.

(** What a thread does next. *)
Inductive action :=
| StartLock (md : mode) (key : string) (choice : option nat)
| StartUnlock (choice : option nat)
| Step.

(** One atomic action of thread [t]; [None]: not enabled (a [Lock] that
    blocks), or an unlock of an unlocked mutex. *)
Definition lock_step (t : tid) (a : action) (s : lock_state) : option lock_state :=
  match pc_of t s, a with
  | Idle, StartLock md key choice =>
      let '(m, s) := getLocker choice key s in Some (goto t (LockCount md key m) s)
  | Holding md key _, StartUnlock choice =>
      let '(m, s) := getLocker choice key s in Some (goto t (UnlockRelease md key m) s)
  | LockCount md key m, Step => Some (goto t (LockWait md key m) (add_counter m 1 s))
  | LockWait md key m, Step =>
      r ← refs s !! m; s ← acquire md t (rc_lock r) s; Some (goto t (Holding md key m) s)
  | UnlockRelease md key m, Step =>
      r ← refs s !! m; s ← release md (rc_lock r) s; Some (goto t (PutCount key m) s)
  | PutCount key m, Step => Some (goto t (PutTest key m) (add_counter m (-1) s))
  | PutTest key m, Step =>
      r ← refs s !! m;
      Some (goto t (if rc_counter r <=? 0 then PutPool key m else Idle) s)
  | PutPool key m, Step =>
      r ← refs s !! m;
      Some (goto t (PutDelete key m) (mkLock (inUse s) (refs s) (held s) (readers s) (pool s ++ [rc_lock r])
              (fresh_mutex s) (pcs s)))
  | PutDelete key m, Step =>
      Some (goto t Idle (mkLock (delete key (inUse s)) (refs s) (held s) (readers s) (pool s) (fresh_mutex s) (pcs s)))
  | _, _ => None
  end.

Fixpoint run_locks (trace : list (tid * action)) (s : lock_state) : option lock_state :=
  match trace with
  | [] => Some s
  | (t, a) :: trace => s ← lock_step t a s; run_locks trace s
  end.

(** Thread [t] is between [Lock(key)] and [Unlock(key)] (or [RLock] and
    [RUnlock]). *)
Definition in_section (md : mode) (t : tid) (key : string) (s : lock_state) : bool :=
  match md, pc_of t s with
  | Write, Holding Write k _ | Read, Holding Read k _ => bool_decide (k = key)
  | _, _ => false
  end.

(** ** One thread *)

(** [Lock(key)] then [Unlock(key)] of a thread nobody disturbs. *)
Definition lock_unlock (t : tid) (key : string) (c1 c2 : option nat) : list (tid * action) :=
  [(t, StartLock Write key c1); (t, Step); (t, Step); (t, StartUnlock c2); (t, Step); (t, Step); (t, Step);
   (t, Step); (t, Step)].

(** No entry, no held mutex, every thread idle. *)
Definition quiescent (s : lock_state) : Prop :=
  inUse s = ∅ ∧ held s = ∅ ∧ (∀ mu, reading mu s = 0%nat) ∧ ∀ t, pc_of t s = Idle.

Lemma pool_Get_spec choice s mu s' :
  pool_Get choice s = (mu, s') →
  inUse s' = inUse s ∧ refs s' = refs s ∧ held s' = held s ∧ readers s' = readers s ∧ pcs s' = pcs s.
Proof. unfold pool_Get. case_match; intros; by simplify_eq. Qed.

Lemma pc_of_goto t p s : pc_of t (goto t p s) = p.
Proof. unfold pc_of, goto. simpl. by rewrite lookup_insert_eq. Qed.

Lemma pc_of_goto_ne u t p s : u ≠ t → pc_of u (goto t p s) = pc_of u s.
Proof. intros Hne. unfold pc_of, goto. simpl. by rewrite lookup_insert_ne. Qed.

Lemma lookup_last {A} (l : list A) x : (l ++ [x]) !! List.length l = Some x.
Proof. by apply list_lookup_middle. Qed.

Lemma alter_last {A} (f : A → A) (l : list A) x : alter f (List.length l) (l ++ [x]) = l ++ [f x].
Proof. induction l as [|y l IH]; [done|]. simpl. f_equal. exact IH. Qed.

Lemma getLocker_new choice key s :
  inUse s !! key = None →
  ∃ mu s', getLocker choice key s = (List.length (refs s), s') ∧
    inUse s' = <[key := List.length (refs s)]> (inUse s) ∧ refs s' = refs s ++ [mkRef 0 mu] ∧
    held s' = held s ∧ readers s' = readers s ∧ pcs s' = pcs s.
Proof.
  intros He. unfold getLocker. destruct (pool_Get choice s) as [mu s0] eqn:E.
  apply pool_Get_spec in E as (Hi & Hr & Hh & Hd & Hp). rewrite Hi, He, Hr.
  eexists mu, _. split; [done|]. done.
Qed.

Lemma getLocker_found choice key m s :
  inUse s !! key = Some m →
  ∃ s', getLocker choice key s = (m, s') ∧ inUse s' = inUse s ∧ refs s' = refs s ∧
    held s' = held s ∧ readers s' = readers s ∧ pcs s' = pcs s.
Proof.
  intros Hm. unfold getLocker. destruct (pool_Get choice s) as [mu s0] eqn:E.
  apply pool_Get_spec in E as (Hi & Hr & Hh & Hd & Hp). rewrite Hi, Hm. by eexists.
Qed.

(** Thread [t] took the key from a quiescent state with the counters [R]. *)
Definition taken (t : tid) (key : string) (R : list refCounter) (P : gmap tid pc) (s : lock_state) : Prop :=
  ∃ mu, inUse s = {[key := List.length R]} ∧ refs s = R ++ [mkRef 1 mu] ∧ held s = {[mu := t]} ∧
    (∀ mu, reading mu s = 0%nat) ∧ pcs s = <[t := Holding Write key (List.length R)]> P.

(** Unfold the next atomic action of a trace. *)
Ltac next_action :=
  match goal with
  | |- context [lock_step ?t ?a ?s] =>
      let y := eval unfold lock_step in (lock_step t a s) in
      change (lock_step t a s) with y
  end; rewrite ?pc_of_goto; cbn [mbind option_bind].

Lemma lock_quiescent t key c s :
  quiescent s →
  ∃ s1, run_locks [(t, StartLock Write key c); (t, Step); (t, Step)] s = Some s1 ∧ taken t key (refs s) (pcs s) s1.
Proof.
  intros (Hi & Hh & Hd & Hpc). destruct (getLocker_new c key s) as (mu & s1 & E & Hi1 & Hr1 & Hh1 & Hd1 & Hp1).
  { by rewrite Hi. }
  cbn [run_locks]. next_action. rewrite (Hpc t), E. cbn [mbind option_bind].
  next_action.
  next_action. simpl.
  rewrite Hr1, alter_last, lookup_last. simpl. unfold acquire. simpl. rewrite Hh1, Hh, lookup_empty.
  unfold reading in *. simpl. rewrite Hd1, Hd, bool_decide_true by done. simpl.
  eexists; split; [done|]. exists mu. unfold reading. simpl.
  rewrite Hi1, Hi, Hp1, !insert_insert_eq, !insert_empty.
  split_and!; try done. by rewrite Hr1, alter_last.
Qed.

Lemma unlock_taken t key c R P s :
  (∀ u, default Idle (P !! u) = Idle) → taken t key R P s →
  ∃ s', run_locks [(t, StartUnlock c); (t, Step); (t, Step); (t, Step); (t, Step); (t, Step)] s = Some s' ∧
    quiescent s'.
Proof.
  intros HP (mu & Hi & Hr & Hh & Hd & Hp).
  destruct (getLocker_found c key (List.length R) s) as (s1 & E & Hi1 & Hr1 & Hh1 & Hd1 & Hp1).
  { rewrite Hi. by rewrite lookup_singleton_eq. }
  cbn [run_locks]. next_action.
  assert (pc_of t s = Holding Write key (List.length R)) as ->.
  { unfold pc_of. rewrite Hp. by rewrite lookup_insert_eq. }
  rewrite E. cbn [mbind option_bind].
  next_action. simpl.
  rewrite Hr1, Hr, lookup_last. simpl. rewrite Hh1, Hh, lookup_singleton_eq. simpl.
  next_action.
  next_action. simpl. rewrite alter_last, lookup_last. simpl.
  next_action. simpl. rewrite alter_last, lookup_last. simpl.
  next_action. simpl.
  eexists; split; [done|]. unfold reading in *. split_and!; simpl.
  - rewrite Hi1, Hi. by rewrite delete_singleton_eq.
  - by rewrite delete_singleton_eq.
  - by rewrite Hd1.
  - intros u. unfold pc_of. simpl. rewrite Hp1, Hp, !insert_insert_eq, lookup_insert.
    case_decide; [done|]. apply HP.
Qed.

Lemma run_locks_app tr1 tr2 s : run_locks (tr1 ++ tr2) s = run_locks tr1 s ≫= run_locks tr2.
Proof.
  revert s. induction tr1 as [|[t a] tr1 IH]; intros s; [done|]. simpl.
  destruct (lock_step t a s); [apply IH|done].
Qed.

(** A thread alone can always take a free key and give it back: from a
    quiescent state no step of [Lock(key); Unlock(key)] blocks or fails,
    whatever the pool returns, the thread is in the critical section after
    [Lock], and the state is quiescent again after [Unlock]. *)
Lemma lock_unlock_quiescent (t : tid) (key : string) (c1 c2 : option nat) (s : lock_state) :
  quiescent s →
  (∃ s1, run_locks (take 3 (lock_unlock t key c1 c2)) s = Some s1 ∧ in_section Write t key s1 = true) ∧
  ∃ s', run_locks (lock_unlock t key c1 c2) s = Some s' ∧ quiescent s'.
Proof.
  intros Hq. destruct (lock_quiescent t key c1 s Hq) as (s1 & Hrun & Ht). split.
  - exists s1. split; [exact Hrun|]. destruct Ht as (mu & _ & _ & _ & _ & Hp).
    unfold in_section, pc_of. rewrite Hp, lookup_insert_eq. simpl. by apply bool_decide_eq_true.
  - destruct (unlock_taken t key c2 (refs s) (pcs s) s1) as (s' & Hrun' & Hq'); [apply Hq|done|].
    exists s'. split; [|done]. change (lock_unlock t key c1 c2) with
      ([(t, StartLock Write key c1); (t, Step); (t, Step)] ++
       [(t, StartUnlock c2); (t, Step); (t, Step); (t, Step); (t, Step); (t, Step)]).
    by rewrite run_locks_app, Hrun.
Qed.

Lemma lock_unlock_quiescent_witness :
  (∃ s1, run_locks (take 3 (lock_unlock 1 "key" None None)) NewMultipleLock = Some s1 ∧
     in_section Write 1 "key" s1 = true) ∧
  ∃ s', run_locks (lock_unlock 1 "key" None None) NewMultipleLock = Some s' ∧ quiescent s'.
Proof. apply (lock_unlock_quiescent 1 "key" None None NewMultipleLock). by split_and!. Defined.

(** Thread 2 has found the counter object of thread 1 but not yet counted
    itself when thread 1 releases the lock, sees a counter of 0 and removes the
    entry; thread 2 then locks the old mutex. *)
Definition lost_entry : list (tid * action) :=
  [(1, StartLock Write "key" None); (1, Step); (1, Step);
   (2, StartLock Write "key" None);
   (1, StartUnlock None); (1, Step); (1, Step); (1, Step); (1, Step); (1, Step);
   (2, Step); (2, Step)]%nat.

(** C40: two threads can be in the critical section of the same key, and an
    [Unlock] can end the program.  After [lost_entry] thread 2 is in the
    section of a key without an entry: a thread 3 that calls [Lock(key)] gets a
    new entry and enters too, and when thread 2 calls [Unlock(key)] instead, it
    gets a new entry whose mutex nobody has locked, and its
    [m.lock.Unlock()] fails. *)
Theorem mutual_exclusion_fails :
  ∃ s, run_locks lost_entry NewMultipleLock = Some s ∧ in_section Write 2 "key" s = true ∧
    (∃ s', run_locks [(3, StartLock Write "key" None); (3, Step); (3, Step)]%nat s = Some s' ∧
       in_section Write 2 "key" s' = true ∧ in_section Write 3 "key" s' = true) ∧
    ∃ s' m, run_locks [(2, StartUnlock None)]%nat s = Some s' ∧
       pc_of 2 s' = UnlockRelease Write "key" m ∧ lock_step 2 Step s' = None.
Proof.
  eexists. split; [vm_compute; reflexivity|]. split; [by vm_compute|]. split.
  - eexists. split; [vm_compute; reflexivity|]. by vm_compute.
  - eexists _, _. split; [vm_compute; reflexivity|]. by vm_compute.
Qed.
