(* ===== verification/LockSafety.v ===== *)
(** * Mutual exclusion of the keyed lock

    [MultiLock.mutual_exclusion_fails] shows that the lock of
    [lib/common/lock.go] does not exclude in general.  This file delimits the
    defect: the one race that matters is a thread that has looked an entry up
    and not yet counted itself while another thread is removing the entry.  In
    every run that avoids it, writers exclude each other and readers, and no
    unlock fails. *)

From S2P Require Import Prelude GoLib MultiLock.

Open Scope Z_scope.

(** ** The race *)

(** The key a thread is about to count itself for. *)
Definition enters (p : pc) : option string :=
  match p with LockCount _ key _ => Some key | _ => None end.

(** The key whose entry a thread is removing: the counter it is about to read
    is not positive, or it has read it. *)
Definition removes (s : lock_state) (p : pc) : option string :=
  match p with
  | PutTest key m =>
      r ← refs s !! m; if rc_counter r <=? 0 then Some key else None
  | PutPool key _ | PutDelete key _ => Some key
  | _ => None
  end.

(** No thread counts itself for a key whose entry is being removed, and there
    are fewer threads than a counter can hold. *)
Definition calm (s : lock_state) : bool :=
  let threads := map_to_list (pcs s) in
  (Z.of_nat (List.length threads) <? 2 ^ 63) &&
  forallb (λ '(_, p),
    match enters p with
    | None => true
    | Some key => forallb (λ '(_, q), negb (bool_decide (removes s q = Some key))) threads
    end) threads.

(** A run through calm states only. *)
Fixpoint run_calm (trace : list (tid * action)) (s : lock_state) : option lock_state :=
  match trace with
  | [] => Some s
  | (t, a) :: trace =>
      s ← lock_step t a s;
      if calm s then run_calm trace s else None
  end.

(** ** Counting threads *)

(** How many threads are at a point where [P] holds. *)
Definition tally (P : pc → bool) (m : gmap tid pc) : nat :=
  map_fold (λ _ p n, Nat.b2n (P p) + n)%nat 0%nat m.

Lemma tally_fresh P t p (m : gmap tid pc) :
  m !! t = None → tally P (<[t := p]> m) = (Nat.b2n (P p) + tally P m)%nat.
Proof. intros Hm. unfold tally. rewrite map_fold_insert_L; [done| |done]. intros; lia. Qed.

Lemma tally_delete P t (m : gmap tid pc) :
  P Idle = false → tally P m = (Nat.b2n (P (default Idle (m !! t))) + tally P (delete t m))%nat.
Proof.
  intros HI. destruct (m !! t) as [p|] eqn:E; simpl.
  - rewrite <- (tally_fresh P t p (delete t m)) by apply lookup_delete_eq. by rewrite insert_delete_id.
  - by rewrite HI, delete_id.
Qed.

Lemma tally_insert P t p s :
  P Idle = false →
  (tally P (<[t := p]> (pcs s)) + Nat.b2n (P (pc_of t s)) = tally P (pcs s) + Nat.b2n (P p))%nat.
Proof.
  intros HI. rewrite <- (insert_delete_eq (pcs s)), tally_fresh by apply lookup_delete_eq.
  rewrite (tally_delete P t (pcs s)) by done. unfold pc_of. lia.
Qed.

Lemma tally_pos P t s : P Idle = false → P (pc_of t s) = true → (0 < tally P (pcs s))%nat.
Proof. intros HI Hp. rewrite (tally_delete P t) by done. unfold pc_of in Hp. rewrite Hp. simpl. lia. Qed.

Lemma tally_ext P Q (m : gmap tid pc) :
  (∀ t p, m !! t = Some p → P p = Q p) → tally P m = tally Q m.
Proof.
  induction m as [|t p m Hm IH] using map_ind; intros HPQ; [done|].
  rewrite !tally_fresh by done. rewrite (HPQ t p) by apply lookup_insert_eq. f_equal.
  apply IH. intros u q Hu. apply (HPQ u). by rewrite lookup_insert_ne by congruence.
Qed.

Lemma tally_size P (m : gmap tid pc) : (tally P m ≤ size m)%nat.
Proof.
  induction m as [|t p m Hm IH] using map_ind; [done|].
  rewrite tally_fresh, map_size_insert_None by done. destruct (P p); simpl; lia.
Qed.

Lemma tally_none P s : (∀ t, P (pc_of t s) = false) → tally P (pcs s) = 0%nat.
Proof.
  intros HP. rewrite (tally_ext P (λ _, false)).
  - generalize (pcs s) as m. induction m as [|t p m Hm IH] using map_ind; [done|]. by rewrite tally_fresh.
  - intros t p Ht. specialize (HP t). unfold pc_of in HP. by rewrite Ht in HP.
Qed.

Lemma calm_spec s :
  calm s = true →
  Z.of_nat (size (pcs s)) < 2 ^ 63 ∧
  ∀ t u key, enters (pc_of t s) = Some key → removes s (pc_of u s) = Some key → False.
Proof.
  unfold calm. rewrite andb_true_iff, Z.ltb_lt, forallb_forall. intros [Hn Hall].
  split; [by rewrite <- length_map_to_list|]. intros t u key He Hr.
  assert (∀ t, pc_of t s ≠ Idle → In (t, pc_of t s) (map_to_list (pcs s))) as Hin.
  { intros v Hv. apply list_elem_of_In, elem_of_map_to_list. unfold pc_of in *. by destruct (pcs s !! v). }
  assert (In (t, pc_of t s) (map_to_list (pcs s))) as Ht by (apply Hin; by intros E; rewrite E in He).
  apply Hall in Ht. rewrite He, forallb_forall in Ht.
  assert (In (u, pc_of u s) (map_to_list (pcs s))) as Hu by (apply Hin; by intros E; rewrite E in Hr).
  apply Ht in Hu. rewrite Hr in Hu. by rewrite bool_decide_true in Hu.
Qed.

(** ** The invariant *)

(** The entry a thread works on, and whether it relies on it being in the map
    ([relies]), is counted in it ([counted]), has its mutex ([grip]). *)
Definition at_entry (p : pc) : option (string * ref) :=
  match p with
  | Idle => None
  | LockCount _ k m | LockWait _ k m | Holding _ k m | UnlockRelease _ k m
  | PutCount k m | PutTest k m | PutPool k m | PutDelete k m => Some (k, m)
  end.

Definition relies (p : pc) : option (string * ref) :=
  match p with
  | LockCount _ k m | LockWait _ k m | Holding _ k m | UnlockRelease _ k m | PutCount k m => Some (k, m)
  | _ => None
  end.

Definition counted (m : ref) (p : pc) : bool :=
  match p with
  | LockWait _ _ n | Holding _ _ n | UnlockRelease _ _ n | PutCount _ n => bool_decide (n = m)
  | _ => false
  end.

Definition grip (p : pc) : option (mode * ref) :=
  match p with
  | Holding md _ m | UnlockRelease md _ m => Some (md, m)
  | _ => None
  end.

Definition reads (R : list refCounter) (mu : mutex) (p : pc) : bool :=
  match grip p with
  | Some (Read, m) => bool_decide (rc_lock <$> R !! m = Some mu)
  | _ => false
  end.

(** The map, the counters and the threads agree; [K] says for which key each
    counter object was made. *)
Record entries_ok (K : list string) (s : lock_state) : Prop := {
  ok_len : List.length K = List.length (refs s);
  ok_at : ∀ t k m, at_entry (pc_of t s) = Some (k, m) → K !! m = Some k;
  ok_map : ∀ k m, inUse s !! k = Some m → K !! m = Some k;
  ok_relies : ∀ t k m, relies (pc_of t s) = Some (k, m) → inUse s !! k = Some m;
  ok_count : ∀ m r, refs s !! m = Some r → rc_counter r = Z.of_nat (tally (counted m) (pcs s));
  ok_alone : ∀ t u k m, removes s (pc_of t s) = Some k → relies (pc_of u s) = Some (k, m) → False;
}.

(** The mutexes are locked by the threads that think so. *)
Record mutexes_ok (s : lock_state) : Prop := {
  ok_writer : ∀ t m r, grip (pc_of t s) = Some (Write, m) → refs s !! m = Some r →
                held s !! rc_lock r = Some t;
  ok_reader : ∀ mu, reading mu s = tally (reads (refs s) mu) (pcs s);
  ok_apart : ∀ mu, is_Some (held s !! mu) → reading mu s = 0%nat;
}.

Lemma pc_of_insert u t p s s' :
  pcs s' = <[t := p]> (pcs s) → pc_of u s' = if decide (u = t) then p else pc_of u s.
Proof. intros E. unfold pc_of. rewrite E, lookup_insert. by repeat case_decide; subst. Qed.

Lemma pc_of_frame u t p s I R H D P F :
  pc_of u (mkLock I R H D P F (<[t := p]> (pcs s))) = if decide (u = t) then p else pc_of u s.
Proof. by apply pc_of_insert. Qed.

Lemma relies_at p k m : relies p = Some (k, m) → at_entry p = Some (k, m).
Proof. by destruct p. Qed.

Lemma grip_relies p md m : grip p = Some (md, m) → ∃ k, relies p = Some (k, m).
Proof. destruct p; intros; simplify_eq/=; eauto. Qed.

Lemma counted_relies p m : counted m p = true → ∃ k, relies p = Some (k, m).
Proof. destruct p; simpl; try done; intros ->%bool_decide_eq_true; eauto. Qed.

Lemma relies_cases p k m : relies p = Some (k, m) → enters p = Some k ∨ counted m p = true.
Proof. destruct p; intros; simplify_eq/=; rewrite ?bool_decide_true by done; auto. Qed.

Lemma removes_refs s s' p : refs s' = refs s → removes s' p = removes s p.
Proof. intros E. unfold removes. by rewrite E. Qed.

Lemma removes_not_relies s p k x : removes s p = Some k → relies p = Some x → False.
Proof. by destruct p. Qed.

Lemma ok_ref K s t k m : entries_ok K s → at_entry (pc_of t s) = Some (k, m) → is_Some (refs s !! m).
Proof.
  intros HK Hat. apply lookup_lt_is_Some. rewrite <- (ok_len K s HK).
  apply lookup_lt_is_Some. rewrite (ok_at K s HK t k m Hat). eauto.
Qed.

(** ** Steps that leave the map and the counters *)

Lemma entries_quiet K s s' t p :
  entries_ok K s → inUse s' = inUse s → refs s' = refs s → pcs s' = <[t := p]> (pcs s) →
  (∀ x, at_entry p = Some x → at_entry (pc_of t s) = Some x) →
  (∀ x, relies p = Some x → relies (pc_of t s) = Some x) →
  (∀ m, counted m p = counted m (pc_of t s)) →
  (∀ k, removes s p = Some k → removes s (pc_of t s) = Some k) →
  entries_ok K s'.
Proof.
  intros HK Hi Hr Hp Hat Hre Hc Hrem.
  assert (∀ u x, relies (pc_of u s') = Some x → relies (pc_of u s) = Some x) as Hre'.
  { intros u x. rewrite (pc_of_insert u t p s s' Hp). case_decide; subst; auto. }
  constructor.
  - rewrite Hr. apply HK.
  - intros u k m. rewrite (pc_of_insert u t p s s' Hp). case_decide; subst; intros; eapply ok_at; eauto.
  - rewrite Hi. apply HK.
  - intros u k m Hu. rewrite Hi. eapply ok_relies; eauto.
  - intros m r. rewrite Hr, Hp. intros Hm. rewrite (ok_count K s HK m r Hm). f_equal.
    pose proof (tally_insert (counted m) t p s eq_refl) as Ht. rewrite Hc in Ht. lia.
  - intros u v k m. rewrite (removes_refs s s') by done. intros Hu Hv%Hre'.
    rewrite (pc_of_insert u t p s s' Hp) in Hu. case_decide; subst; eapply (ok_alone K s HK); eauto.
Qed.

Lemma mutexes_quiet K s s' t p :
  entries_ok K s → mutexes_ok s →
  held s' = held s → readers s' = readers s → pcs s' = <[t := p]> (pcs s) →
  (∀ m, is_Some (refs s !! m) → rc_lock <$> refs s' !! m = rc_lock <$> refs s !! m) →
  grip p = grip (pc_of t s) → mutexes_ok s'.
Proof.
  intros HK HM Hh Hd Hp Hl Hg.
  assert (∀ u, grip (pc_of u s') = grip (pc_of u s)) as Hg'.
  { intros u. rewrite (pc_of_insert u t p s s' Hp). by case_decide; subst. }
  assert (∀ u md m, grip (pc_of u s) = Some (md, m) → is_Some (refs s !! m)) as Hb.
  { intros u md m (k & Hk%relies_at)%grip_relies. eapply ok_ref; eauto. }
  constructor; unfold reading; rewrite ?Hh, ?Hd; [| |apply HM].
  - intros u m r. rewrite Hg'. intros Hu Hr. destruct (Hb _ _ _ Hu) as [r0 Hr0].
    pose proof (Hl m ltac:(eauto)) as E. rewrite Hr, Hr0 in E. simplify_eq/=. rewrite E. eapply ok_writer; eauto.
  - intros mu. change (reading mu s = tally (reads (refs s') mu) (pcs s')). rewrite (ok_reader s HM mu).
    pose proof (tally_insert (reads (refs s) mu) t p s eq_refl) as Ht.
    replace (reads (refs s) mu (pc_of t s)) with (reads (refs s) mu p) in Ht by (unfold reads; by rewrite Hg).
    transitivity (tally (reads (refs s) mu) (<[t := p]> (pcs s))); [lia|]. rewrite <- Hp.
    apply tally_ext. intros u q Hq. unfold reads. destruct (grip q) as [[[] m]|] eqn:E; try done.
    rewrite Hl; [done|]. apply (Hb u Read). rewrite <- Hg'. unfold pc_of. by rewrite Hq.
Qed.

(** ** Entering a call *)

Lemma getLocker_pcs choice key s m s' :
  getLocker choice key s = (m, s') → held s' = held s ∧ readers s' = readers s ∧ pcs s' = pcs s.
Proof.
  intros E. destruct (inUse s !! key) as [n|] eqn:Hk.
  - destruct (getLocker_found choice key n s Hk) as (s1 & E' & _ & _ & H'). simplify_eq/=. by rewrite E' in E; simplify_eq.
  - destruct (getLocker_new choice key s Hk) as (mu & s1 & E' & _ & _ & H'). rewrite E' in E. by simplify_eq.
Qed.

(** [getLocker] returns an entry of the map and leaves the others. *)
Lemma getLocker_entry K choice key s m s' :
  entries_ok K s → getLocker choice key s = (m, s') →
  ∃ K', entries_ok K' s' ∧ inUse s' !! key = Some m ∧
    ∀ n, is_Some (refs s !! n) → refs s' !! n = refs s !! n.
Proof.
  intros HK E. destruct (inUse s !! key) as [n|] eqn:Hk.
  - destruct (getLocker_found choice key n s Hk) as (s1 & E' & Hi & Hr & _ & _ & Hp).
    rewrite E' in E. simplify_eq. exists K. rewrite Hi, Hr. split_and!; [|done|done].
    destruct HK. constructor; intros; unfold pc_of, removes in *; rewrite ?Hi, ?Hr, ?Hp in *; eauto.
  - destruct (getLocker_new choice key s Hk) as (mu & s1 & E' & Hi & Hr & _ & _ & Hp).
    rewrite E' in E. simplify_eq.
    assert (∀ n, is_Some (refs s !! n) → refs s' !! n = refs s !! n) as Hext.
    { intros n [r Hn]. rewrite Hr, Hn. by apply lookup_app_l_Some. }
    assert (∀ u k n, at_entry (pc_of u s) = Some (k, n) → is_Some (refs s !! n)) as Hb
      by (intros; eapply ok_ref; eauto).
    assert (∀ u, pc_of u s' = pc_of u s) as Hpc by (intros; unfold pc_of; by rewrite Hp).
    exists (K ++ [key]). rewrite Hi, lookup_insert_eq. split_and!; [|done|done].
    pose proof (ok_len K s HK) as Hlen. constructor.
    + rewrite Hr, !length_app. simpl. lia.
    + intros u k n. rewrite Hpc. intros Hu. apply lookup_app_l_Some. eapply ok_at; eauto.
    + intros k n. rewrite Hi, lookup_insert. case_decide; subst; intros Hn; simplify_eq.
      * rewrite <- Hlen. apply lookup_last.
      * apply lookup_app_l_Some. eapply ok_map; eauto.
    + intros u k n. rewrite Hpc, Hi. intros Hu. pose proof (ok_relies K s HK u k n Hu).
      rewrite lookup_insert_ne by congruence. done.
    + intros n r. rewrite Hr, Hp. intros [Hn|[Hge Hn]]%lookup_app_Some; [by apply (ok_count K s HK)|].
      apply list_lookup_singleton_Some in Hn as [Hn <-]. rewrite tally_none; [done|].
      intros u. destruct (counted n (pc_of u s)) eqn:Hc; [|done].
      apply counted_relies in Hc as (k & Hk'%relies_at). apply Hb, lookup_lt_is_Some in Hk'. lia.
    + intros u v k n. rewrite !Hpc. intros Hu. apply (ok_alone K s HK u v k n). revert Hu.
      destruct (pc_of u s) eqn:Epc; try done. simpl. rewrite (Hext m); [done|].
      apply (Hb u key0). by rewrite Epc.
Qed.

Lemma entries_start K choice md key s t m s1 :
  entries_ok K s → pc_of t s = Idle → getLocker choice key s = (m, s1) →
  calm (goto t (LockCount md key m) s1) = true →
  ∃ K', entries_ok K' (goto t (LockCount md key m) s1).
Proof.
  intros HK Hpc E [_ Hcalm]%calm_spec. pose proof (getLocker_pcs _ _ _ _ _ E) as (_ & _ & Hp).
  destruct (getLocker_entry K choice key s m s1 HK E) as (K' & HK' & Hm & _). exists K'.
  assert (pc_of t s1 = Idle) as Hpc1 by (unfold pc_of in *; by rewrite Hp).
  set (s' := goto t (LockCount md key m) s1) in *.
  assert (pcs s' = <[t := LockCount md key m]> (pcs s1)) as Hp' by done.
  constructor.
  - apply HK'.
  - intros u k n. rewrite (pc_of_insert _ _ _ _ _ Hp'). case_decide; intros Hu; [|by eapply ok_at].
    simplify_eq/=. by apply (ok_map K' s1 HK').
  - apply HK'.
  - intros u k n. rewrite (pc_of_insert _ _ _ _ _ Hp'). case_decide; intros Hu; [|by eapply (ok_relies K' s1)].
    by simplify_eq/=.
  - intros n r Hr. rewrite (ok_count K' s1 HK' n r Hr), Hp'. f_equal.
    pose proof (tally_insert (counted n) t (LockCount md key m) s1 eq_refl) as Ht.
    rewrite Hpc1 in Ht. simpl in Ht. lia.
  - intros u v k n Hu Hv. destruct (decide (v = t)) as [->|Hv'].
    + apply (Hcalm t u k); [|done]. rewrite (pc_of_insert t t _ _ _ Hp'), decide_True in Hv |- * by done.
      simpl in Hv |- *. congruence.
    + rewrite (pc_of_insert v t _ _ _ Hp'), decide_False in Hv by done.
      rewrite (pc_of_insert u t _ _ _ Hp') in Hu. case_decide; [done|]. by eapply (ok_alone K' s1 HK' u v).
Qed.

(** ** The counters *)

Lemma lookup_add_counter m n d s :
  refs (add_counter m d s) !! n =
  (if decide (n = m) then (λ r, mkRef (wrap64 (rc_counter r + d)) (rc_lock r)) <$> refs s !! n
   else refs s !! n).
Proof.
  unfold add_counter. simpl. case_decide; subst; [by rewrite list_lookup_alter_eq|].
  by rewrite list_lookup_alter_ne.
Qed.

Lemma small_count (P : pc → bool) s :
  calm s = true → wrap64 (Z.of_nat (tally P (pcs s))) = Z.of_nat (tally P (pcs s)).
Proof.
  intros [Hn _]%calm_spec. apply wrap64_small. pose proof (tally_size P (pcs s)).
  unfold int64_min, int64_max. lia.
Qed.

(** Counting oneself in or out keeps the counters exact. *)
Lemma count_step K s t p m d :
  entries_ok K s → calm (goto t p (add_counter m d s)) = true →
  (∀ n, n ≠ m → counted n p = counted n (pc_of t s)) →
  Z.of_nat (Nat.b2n (counted m (pc_of t s))) + d = Z.of_nat (Nat.b2n (counted m p)) →
  ∀ n r, refs (goto t p (add_counter m d s)) !! n = Some r →
    rc_counter r = Z.of_nat (tally (counted n) (pcs (goto t p (add_counter m d s)))).
Proof.
  intros HK Hc Hne Hd n r Hr. change (refs (add_counter m d s) !! n = Some r) in Hr.
  pose proof (small_count (counted n) _ Hc) as Hw.
  cbn [goto pcs add_counter] in Hw |- *.
  pose proof (tally_insert (counted n) t p s eq_refl) as Ht.
  rewrite lookup_add_counter in Hr. case_decide as Hn; [subst n|].
  - destruct (refs s !! m) as [r0|] eqn:Hr0; [|done]. simplify_eq/=.
    rewrite (ok_count K s HK m r0 Hr0), <- Hw. f_equal. lia.
  - rewrite (ok_count K s HK n r Hr). rewrite Hne in Ht by done. lia.
Qed.

(** A change of the counter of [m] concerns only the threads about to read it. *)
Lemma removes_add_counter m d s s' q k :
  removes s' q = Some k → refs s' = refs (add_counter m d s) →
  removes s q = Some k ∨ ∃ r, q = PutTest k m ∧ refs s' !! m = Some r ∧ rc_counter r ≤ 0.
Proof.
  intros Hq Hr. destruct q as [| | | | | |key n| |]; try done; [|by left..].
  simpl in Hq |- *. destruct (refs s' !! n) as [r|] eqn:Hn; [|done]. simpl in Hq.
  case_match eqn:Hle; [|done]. simplify_eq. destruct (decide (n = m)) as [->|Hne].
  - right. exists r. split_and!; [done..|]. by apply Z.leb_le.
  - left. rewrite Hr, lookup_add_counter, decide_False in Hn by done. rewrite Hn. simpl. by rewrite Hle.
Qed.

Lemma entries_lock_count K s t md key m :
  entries_ok K s → calm s = true → pc_of t s = LockCount md key m →
  calm (goto t (LockWait md key m) (add_counter m 1 s)) = true →
  entries_ok K (goto t (LockWait md key m) (add_counter m 1 s)).
Proof.
  intros HK [_ Hpre]%calm_spec Hpc Hpost. set (s' := goto t (LockWait md key m) (add_counter m 1 s)) in *.
  assert (pcs s' = <[t := LockWait md key m]> (pcs s)) as Hp' by done.
  assert (∀ u, relies (pc_of u s') = relies (pc_of u s)) as Hre.
  { intros u. rewrite (pc_of_insert _ _ _ _ _ Hp'). case_decide; [subst; by rewrite Hpc|done]. }
  assert (∀ n r, refs s' !! n = Some r → rc_counter r = Z.of_nat (tally (counted n) (pcs s'))) as Hcount.
  { apply (count_step K); try done; rewrite Hpc; simpl; [|by rewrite bool_decide_true].
    intros n Hn. by rewrite bool_decide_false by congruence. }
  constructor; [|..|exact Hcount|].
  - simpl. rewrite length_alter. apply HK.
  - intros u k n. rewrite (pc_of_insert _ _ _ _ _ Hp'). case_decide; intros Hu; eapply ok_at; try done.
    subst. rewrite Hpc. exact Hu.
  - apply HK.
  - intros u k n. rewrite Hre. apply HK.
  - intros u v k n Hu. rewrite Hre. intros Hv. apply (ok_alone K s HK u v k n); [|done].
    rewrite (pc_of_insert u t _ _ _ Hp') in Hu. case_decide; [done|].
    apply (removes_add_counter m 1 s) in Hu as [Hu|(r & _ & Hr & Hle)]; [done| |done].
    assert (0 < tally (counted m) (pcs s'))%nat; [|pose proof (Hcount m r Hr); lia].
    apply (tally_pos _ t); [done|]. rewrite (pc_of_insert _ _ _ _ _ Hp'), decide_True by done.
    simpl. by apply bool_decide_eq_true.
Qed.

(** After a thread counted itself out and the counter is 0, nobody relies on
    the entry. *)
Lemma put_count_alone K s t key m u v k n :
  entries_ok K s → pc_of t s = PutCount key m →
  let s' := goto t (PutTest key m) (add_counter m (-1) s) in
  calm s' = true →
  (∀ i r, refs s' !! i = Some r → rc_counter r = Z.of_nat (tally (counted i) (pcs s'))) →
  (∀ w k i, at_entry (pc_of w s') = Some (k, i) → K !! i = Some k) →
  removes s' (pc_of u s') = Some k → relies (pc_of v s') = Some (k, n) → False.
Proof.
  intros HK Hpc s' [_ Hcalm]%calm_spec Hcount Hat Hu Hv.
  assert (pcs s' = <[t := PutTest key m]> (pcs s)) as Hp' by done.
  assert (relies (pc_of v s) = Some (k, n)) as Hvs.
  { rewrite (pc_of_insert _ _ _ _ _ Hp') in Hv. by case_decide. }
  assert (removes s (pc_of u s') = Some k ∧ u ≠ t ∨
    ∃ r, k = key ∧ refs s' !! m = Some r ∧ rc_counter r ≤ 0) as [[Hold Hne]|(r & -> & Hr & Hle)].
  { destruct (removes_add_counter m (-1) s s' _ k Hu eq_refl) as [Hold|(r & Hq & Hr & Hle)].
    - destruct (decide (u = t)) as [->|]; [right|by left].
      rewrite (pc_of_insert _ _ _ _ _ Hp'), decide_True in Hu by done. simpl in Hu.
      destruct (alter _ _ _ !! m) as [r|] eqn:Hr; [|done]. simpl in Hu. case_match eqn:Hle; [|done].
      simplify_eq. exists r. split_and!; [done..|]. by apply Z.leb_le.
    - right. exists r. split_and!; [|done..].
      assert (K !! m = Some k) as E1 by (apply (Hat u); by rewrite Hq).
      assert (K !! m = Some key) as E2 by (apply (ok_at K s HK t); by rewrite Hpc). congruence. }
  - rewrite (pc_of_insert _ _ _ _ _ Hp'), decide_False in Hold by done. by eapply (ok_alone K s HK u v).
  - assert (n = m) as ->.
    { apply (ok_relies K s HK) in Hvs. pose proof (ok_relies K s HK t key m) as Ht.
      rewrite Hpc in Ht. specialize (Ht eq_refl). congruence. }
    destruct (relies_cases _ _ _ Hv) as [He|Hc]; [by eapply Hcalm|].
    apply (tally_pos _ v s') in Hc; [|done]. pose proof (Hcount m r Hr). lia.
Qed.

Lemma entries_put_count K s t key m :
  entries_ok K s → pc_of t s = PutCount key m →
  calm (goto t (PutTest key m) (add_counter m (-1) s)) = true →
  entries_ok K (goto t (PutTest key m) (add_counter m (-1) s)).
Proof.
  intros HK Hpc Hcalm. set (s' := goto t (PutTest key m) (add_counter m (-1) s)) in *.
  assert (pcs s' = <[t := PutTest key m]> (pcs s)) as Hp' by done.
  assert (∀ u x, relies (pc_of u s') = Some x → relies (pc_of u s) = Some x) as Hre.
  { intros u x. rewrite (pc_of_insert _ _ _ _ _ Hp'). by case_decide. }
  assert (∀ n r, refs s' !! n = Some r → rc_counter r = Z.of_nat (tally (counted n) (pcs s'))) as Hcount.
  { apply (count_step K); try done; rewrite Hpc; simpl; [|by rewrite bool_decide_true].
    intros n Hn. by rewrite bool_decide_false by congruence. }
  assert (∀ u k n, at_entry (pc_of u s') = Some (k, n) → K !! n = Some k) as Hat.
  { intros u k n. rewrite (pc_of_insert _ _ _ _ _ Hp'). case_decide; intros Hu; eapply (ok_at K s); try done.
    subst. rewrite Hpc. exact Hu. }
  constructor; [|exact Hat|apply HK| |exact Hcount|].
  - simpl. rewrite length_alter. apply HK.
  - intros u k n Hu%Hre. by apply (ok_relies K s HK u).
  - intros u v k n Hu Hv. apply (put_count_alone K s t key m u v k n); done.
Qed.

Lemma entries_delete K s t key m :
  entries_ok K s → pc_of t s = PutDelete key m →
  entries_ok K (goto t Idle (mkLock (delete key (inUse s)) (refs s) (held s) (readers s) (pool s)
                               (fresh_mutex s) (pcs s))).
Proof.
  intros HK Hpc.
  assert (entries_ok K (goto t Idle s)) as HK'.
  { apply (entries_quiet K s _ t Idle); try done. intros n. by rewrite Hpc. }
  constructor; [apply HK'|apply HK'| | |apply HK'|apply HK'].
  - simpl. intros k n [_ Hn]%lookup_delete_Some. by apply (ok_map K s HK).
  - intros u k n Hu. pose proof (ok_relies K _ HK' u k n Hu) as Hn. simpl. apply lookup_delete_Some. split; [|done].
    intros <-. apply (ok_alone K s HK t u key n); [by rewrite Hpc|].
    change (relies (pc_of u (goto t Idle s)) = Some (key, n)) in Hu.
    rewrite (pc_of_insert u t Idle s (goto t Idle s) eq_refl) in Hu. by case_decide.
Qed.

(** ** The mutexes *)

Lemma tally_reads R mu s t p q :
  pc_of t s = q →
  (tally (reads R mu) (<[t := p]> (pcs s)) + Nat.b2n (reads R mu q) =
   tally (reads R mu) (pcs s) + Nat.b2n (reads R mu p))%nat.
Proof. intros <-. by apply tally_insert. Qed.

Lemma reading_insert mu mu' n s I R H P F T :
  reading mu (mkLock I R H (<[mu' := n]> (readers s)) P F T) = if decide (mu = mu') then n else reading mu s.
Proof. unfold reading. simpl. rewrite lookup_insert. by repeat case_decide; subst. Qed.

Lemma reads_grip R mu p m r :
  grip p = Some (Read, m) → R !! m = Some r → reads R mu p = bool_decide (mu = rc_lock r).
Proof. intros Hp Hr. unfold reads. rewrite Hp, Hr. simpl. apply bool_decide_ext. naive_solver. Qed.

Lemma mutexes_acquire s t md key m r s1 :
  mutexes_ok s → pc_of t s = LockWait md key m → refs s !! m = Some r →
  acquire md t (rc_lock r) s = Some s1 → mutexes_ok (goto t (Holding md key m) s1).
Proof.
  intros HM Hpc Hr Hacq. unfold acquire in Hacq.
  destruct (held s !! rc_lock r) eqn:Hfree; [done|].
  assert (∀ mu, is_Some (held s !! mu) → mu ≠ rc_lock r) as Hne by (intros mu [? ?]; congruence).
  pose proof (λ mu, tally_reads (refs s) mu s t (Holding md key m) _ Hpc) as Ht.
  destruct md; [case_bool_decide as Hz; [|done]|]; simplify_eq; constructor; simpl.
  - intros u n r'. unfold goto. rewrite pc_of_frame. case_decide; intros Hu Hr'.
    + simplify_eq/=. apply lookup_insert_eq.
    + pose proof (ok_writer s HM u n r' Hu Hr') as Hw. rewrite lookup_insert_ne; [done|].
      apply not_eq_sym, Hne. by rewrite Hw.
  - intros mu. specialize (Ht mu). change (reading mu _) with (reading mu s). rewrite (ok_reader s HM mu). simpl in Ht. lia.
  - intros mu. rewrite lookup_insert. case_decide; subst; [done|]. apply (ok_apart s HM).
  - intros u n r'. unfold goto. rewrite pc_of_frame. case_decide; [done|]. apply HM.
  - intros mu. specialize (Ht mu). unfold goto. simpl. rewrite reading_insert.
    rewrite (reads_grip _ mu (Holding Read key m) m r) in Ht by done.
    pose proof (ok_reader s HM mu). destruct (decide (mu = rc_lock r)) as [->|];
      [rewrite bool_decide_true in Ht by done|rewrite bool_decide_false in Ht by done]; simpl in Ht; lia.
  - intros mu Hmu. unfold goto. simpl. rewrite reading_insert, decide_False by auto. by apply (ok_apart s HM).
Qed.

Lemma mutexes_release s t md key m r s1 :
  mutexes_ok s → pc_of t s = UnlockRelease md key m → refs s !! m = Some r →
  release md (rc_lock r) s = Some s1 → mutexes_ok (goto t (PutCount key m) s1).
Proof.
  intros HM Hpc Hr Hrel.
  pose proof (λ mu, tally_reads (refs s) mu s t (PutCount key m) _ Hpc) as Ht.
  destruct md; simpl in Hrel.
  - assert (held s !! rc_lock r = Some t) as Hme by (apply (ok_writer s HM t m r); [by rewrite Hpc|done]).
    rewrite Hme in Hrel. simplify_eq. constructor; simpl.
    + intros u n r'. unfold goto. rewrite pc_of_frame. case_decide; [done|]. intros Hu Hr'.
      pose proof (ok_writer s HM u n r' Hu Hr'). rewrite lookup_delete_ne by congruence. done.
    + intros mu. specialize (Ht mu). change (reading mu _) with (reading mu s). rewrite (ok_reader s HM mu).
      simpl in Ht. lia.
    + intros mu [u [_ Hu]%lookup_delete_Some]. apply (ok_apart s HM). eauto.
  - destruct (reading (rc_lock r) s) as [|n] eqn:Hn; [done|]. simplify_eq. constructor; simpl.
    + intros u i r'. unfold goto. rewrite pc_of_frame. case_decide; [done|]. apply HM.
    + intros mu. specialize (Ht mu). unfold goto. simpl. rewrite reading_insert.
      rewrite (reads_grip _ mu (UnlockRelease Read key m) m r) in Ht by done.
      pose proof (ok_reader s HM mu). destruct (decide (mu = rc_lock r)) as [->|];
      [rewrite bool_decide_true in Ht by done|rewrite bool_decide_false in Ht by done]; simpl in Ht; lia.
    + intros mu Hmu. pose proof (ok_apart s HM mu Hmu). unfold goto. simpl.
      rewrite reading_insert, decide_False; [done|]. intros ->. congruence.
Qed.

(** ** Every calm run *)

Definition lock_inv (s : lock_state) : Prop :=
  calm s = true ∧ mutexes_ok s ∧ ∃ K, entries_ok K s.

Lemma lock_inv_new : lock_inv NewMultipleLock.
Proof. split; [done|]. split; [|exists []]; by constructor. Qed.

Lemma acquire_frame md t mu s s1 :
  acquire md t mu s = Some s1 → inUse s1 = inUse s ∧ refs s1 = refs s ∧ pcs s1 = pcs s.
Proof. unfold acquire. repeat case_match; intros; by simplify_eq. Qed.

Lemma release_frame md mu s s1 :
  release md mu s = Some s1 → inUse s1 = inUse s ∧ refs s1 = refs s ∧ pcs s1 = pcs s.
Proof. unfold release. repeat case_match; intros; by simplify_eq. Qed.

Lemma add_counter_locks m d s n : rc_lock <$> refs (add_counter m d s) !! n = rc_lock <$> refs s !! n.
Proof. rewrite lookup_add_counter. case_decide; [|done]. by destruct (refs s !! n). Qed.

(** The thread holds the entry it unlocks: [getLocker] finds it again. *)
Lemma unlock_start K s t md key m choice n s1 :
  entries_ok K s → mutexes_ok s → pc_of t s = Holding md key m → getLocker choice key s = (n, s1) →
  entries_ok K (goto t (UnlockRelease md key n) s1) ∧ mutexes_ok (goto t (UnlockRelease md key n) s1).
Proof.
  intros HK HM Hpc E. assert (inUse s !! key = Some m) as Hm by (apply (ok_relies K s HK t); by rewrite Hpc).
  destruct (getLocker_found choice key m s Hm) as (s2 & E' & Hi & Hr & Hh & Hd & Hp).
  rewrite E' in E. simplify_eq. set (p := UnlockRelease md key n). split.
  - apply (entries_quiet K s _ t p); simpl; rewrite ?Hpc, ?Hp; done.
  - apply (mutexes_quiet K s _ t p); simpl; rewrite ?Hpc, ?Hp, ?Hr; done.
Qed.

Lemma lock_inv_step t a s s' : lock_inv s → lock_step t a s = Some s' → calm s' = true → lock_inv s'.
Proof.
  intros (Hc & HM & K & HK) Hstep Hc'. split; [done|].
  unfold lock_step in Hstep.
  destruct (pc_of t s) as [|md key m|md key m|md key m|md key m|key m|key m|key m|key m] eqn:Hpc;
    destruct a as [md' key' c|c|]; try done.
  - destruct (getLocker c key' s) as [m s1] eqn:E. simplify_eq.
    destruct (getLocker_pcs _ _ _ _ _ E) as (Hh & Hd & Hp).
    destruct (getLocker_entry K _ _ _ _ _ HK E) as (_ & _ & _ & Hext).
    split; [|by apply (entries_start K c md' key' s)].
    apply (mutexes_quiet K s _ t (LockCount md' key' m)); simpl; rewrite ?Hp, ?Hpc; try done.
    intros n Hn. by rewrite (Hext n Hn).
  - simplify_eq. split; [|exists K; by apply entries_lock_count].
    apply (mutexes_quiet K s _ t (LockWait md key m)); try done; [|by rewrite Hpc].
    intros n _. apply add_counter_locks.
  - destruct (refs s !! m) as [r|] eqn:Hr; [|done]. simpl in Hstep.
    destruct (acquire md t (rc_lock r) s) as [s1|] eqn:Ha; [|done]. simplify_eq/=.
    split; [by apply (mutexes_acquire s t md key m r)|exists K].
    apply acquire_frame in Ha as (Hi & Hr1 & Hp).
    apply (entries_quiet K s _ t (Holding md key m)); simpl; rewrite ?Hp, ?Hpc; done.
  - destruct (getLocker c key s) as [n s1] eqn:E. simplify_eq.
    destruct (unlock_start K s t md key m c n s1) as [HK' HM']; eauto.
  - destruct (refs s !! m) as [r|] eqn:Hr; [|done]. simpl in Hstep.
    destruct (release md (rc_lock r) s) as [s1|] eqn:Ha; [|done]. simplify_eq/=.
    split; [by apply (mutexes_release s t md key m r)|exists K].
    apply release_frame in Ha as (Hi & Hr1 & Hp).
    apply (entries_quiet K s _ t (PutCount key m)); simpl; rewrite ?Hp, ?Hpc; done.
  - simplify_eq. split; [|exists K; by apply entries_put_count].
    apply (mutexes_quiet K s _ t (PutTest key m)); try done; [|by rewrite Hpc].
    intros n _. apply add_counter_locks.
  - destruct (refs s !! m) as [r|] eqn:Hr; [|done]. simplify_eq/=.
    set (p := if rc_counter r <=? 0 then PutPool key m else Idle).
    split; [apply (mutexes_quiet K s _ t p); try done|exists K; apply (entries_quiet K s _ t p); try done];
      rewrite ?Hpc; subst p; simpl; rewrite ?Hr; simpl; by case_match.
  - destruct (refs s !! m) as [r|] eqn:Hr; [|done]. simplify_eq/=. set (p := PutDelete key m).
    split; [apply (mutexes_quiet K s _ t p)|exists K; apply (entries_quiet K s _ t p)]; by rewrite ?Hpc.
  - simplify_eq. split; [|exists K; by eapply entries_delete].
    apply (mutexes_quiet K s _ t Idle); by rewrite ?Hpc.
Qed.

Lemma lock_inv_run trace s s' : lock_inv s → run_calm trace s = Some s' → lock_inv s'.
Proof.
  revert s. induction trace as [|[t a] trace IH]; intros s Hs Hrun; simplify_eq/=; [done|].
  destruct (lock_step t a s) as [s1|] eqn:E; [|done]. simpl in Hrun.
  destruct (calm s1) eqn:Hc; [|done]. by eapply IH, Hrun; eapply lock_inv_step.
Qed.

Lemma in_section_pc md t key s : in_section md t key s = true → ∃ m, pc_of t s = Holding md key m.
Proof.
  unfold in_section. destruct md, (pc_of t s) as [| | |[]| | | | |]; try done;
    intros ->%bool_decide_eq_true; eauto.
Qed.

Lemma run_calm_run trace s s' : run_calm trace s = Some s' → run_locks trace s = Some s'.
Proof.
  revert s. induction trace as [|[t a] trace IH]; intros s; [done|]. simpl.
  destruct (lock_step t a s) as [s1|]; [|done]. simpl. destruct (calm s1); [apply IH|done].
Qed.

Lemma exclusion t u md key s :
  lock_inv s → in_section Write t key s = true → in_section md u key s = true → t = u.
Proof.
  intros (_ & HM & K & HK) (m & Ht)%in_section_pc (n & Hu)%in_section_pc.
  assert (n = m) as ->.
  { pose proof (ok_relies K s HK t key m) as E1. pose proof (ok_relies K s HK u key n) as E2.
    rewrite Ht in E1. rewrite Hu in E2. specialize (E1 eq_refl). specialize (E2 eq_refl). congruence. }
  destruct (ok_ref K s t key m HK) as [r Hr]; [by rewrite Ht|].
  assert (held s !! rc_lock r = Some t) as Hw by (apply (ok_writer s HM t m r); by rewrite ?Ht).
  destruct md.
  - assert (held s !! rc_lock r = Some u) by (apply (ok_writer s HM u m r); by rewrite ?Hu). congruence.
  - assert (0 < tally (reads (refs s) (rc_lock r)) (pcs s))%nat.
    { apply (tally_pos _ u); [done|]. rewrite Hu. rewrite (reads_grip _ _ _ m r) by done. by apply bool_decide_eq_true. }
    rewrite <- (ok_reader s HM), (ok_apart s HM) in * by eauto. lia.
Qed.

Lemma unlock_enabled t md key m s :
  lock_inv s → pc_of t s = UnlockRelease md key m → is_Some (lock_step t Step s).
Proof.
  intros (_ & HM & K & HK) Ht. destruct (ok_ref K s t key m HK) as [r Hr]; [by rewrite Ht|].
  unfold lock_step. rewrite Ht, Hr. simpl. unfold release. destruct md.
  - assert (held s !! rc_lock r = Some t) as -> by (apply (ok_writer s HM t m r); by rewrite ?Ht). simpl. eauto.
  - assert (0 < reading (rc_lock r) s)%nat as Hpos.
    { rewrite (ok_reader s HM). apply (tally_pos _ t); [done|]. rewrite Ht.
      rewrite (reads_grip _ _ _ m r) by done. by apply bool_decide_eq_true. }
    destruct (reading (rc_lock r) s); [lia|]. simpl. eauto.
Qed.

(** C39: the race of [mutual_exclusion_fails] is the only one.  In every run of
    any number of threads in which no thread is between [getLocker] and the
    increment of the counter while another is removing the entry of the same
    key, [Lock(key)] excludes every other [Lock(key)] and [RLock(key)], and no
    [Unlock] or [RUnlock] meets an unlocked mutex. *)
Theorem exclusion_while_calm (trace : list (tid * action)) (s : lock_state) :
  run_calm trace NewMultipleLock = Some s →
  run_locks trace NewMultipleLock = Some s ∧
  (∀ t u md key, in_section Write t key s = true → in_section md u key s = true → t = u) ∧
  ∀ t md key m, pc_of t s = UnlockRelease md key m → is_Some (lock_step t Step s).
Proof.
  intros Hrun. pose proof (lock_inv_run _ _ _ lock_inv_new Hrun) as Hs. split_and!.
  - by apply run_calm_run.
  - intros. by eapply exclusion.
  - intros. by eapply unlock_enabled.
Qed.

(** Two readers share the key, a writer waits for both and then has it alone. *)
Definition readers_then_writer : list (tid * action) :=
  [(1, StartLock Read "key" None); (1, Step); (1, Step);
   (2, StartLock Read "key" None); (2, Step); (2, Step);
   (3, StartLock Write "key" None); (3, Step);
   (1, StartUnlock None); (1, Step); (1, Step); (1, Step);
   (2, StartUnlock None); (2, Step); (3, Step); (2, Step); (2, Step)]%nat.

Lemma exclusion_while_calm_witness :
  ∃ s, run_calm readers_then_writer NewMultipleLock = Some s ∧
    in_section Write 3 "key" s = true ∧ ¬ in_section Read 1 "key" s = true.
Proof.
  eexists. split; [vm_compute; reflexivity|]. split; [by vm_compute|]. intros Hr.
  destruct (exclusion_while_calm readers_then_writer _ ltac:(vm_compute; reflexivity)) as (_ & Hex & _).
  by pose proof (Hex 3%nat 1%nat Read "key" ltac:(by vm_compute) Hr).
Defined.
