(* ===== verification/Sessions.v ===== *)
(** * In-memory state of the web server: [main.go], lines 60-318 and 412-431

    [webhookDedupeCache], which drops webhooks Plex sends twice, and
    [authStateStore], which holds the state of the OAuth round trips in
    progress under one-time tokens.  Both are guarded by a mutex, so their
    operations are atomic; clock readings are arguments, in the order the code
    makes them. *)

From S2P Require Import Prelude GoLib Entities.

Open Scope Z_scope.

(** ** Webhook deduplication *)

Record webhookDedupeCache := mkCache {
  entries : gmap string Time;
  traktScrobbles : gmap string Time;
}.

Definition newWebhookDedupeCache : webhookDedupeCache := mkCache ∅ ∅.

(** A webhook: the arguments of [shouldProcess] and its clock readings,
    [time.Now()] and the two [time.Since]. *)
Record hook_call := mkHook {
  plaxtID : string;
  traktDisplayName : string;
  hook_event : string;
  hook_ratingKey : string;
  hook_viewOffset : Z;
  hook_now : Time;
  hook_since1 : Time;
  hook_since2 : Time;
}.

Definition specificKey (c : hook_call) : string :=
  plaxtID c +:+ ":" +:+ hook_event c +:+ ":" +:+ hook_ratingKey c +:+ ":" +:+ Itoa (hook_viewOffset c).
Definition traktKey (c : hook_call) : string :=
  "TRAKT:" +:+ traktDisplayName c +:+ ":" +:+ hook_event c +:+ ":" +:+ hook_ratingKey c +:+ ":" +:+
  Itoa (hook_viewOffset c).

(** The entry is there and younger than [window]. *)
Definition seen_within (m : gmap string Time) (key : string) (t : Time) (window : Duration) : bool :=
  match m !! key with
  | Some lastSeen => time_Sub t lastSeen <? window
  | None => false
  end.

(** The loop that deletes the entries older than [cutoff]. *)
Definition cleanup (cutoff : Time) (m : gmap string Time) : gmap string Time :=
  filter (λ kt, Before kt.2 cutoff = false) m.

Definition shouldProcess (c : hook_call) (s : webhookDedupeCache) : bool * webhookDedupeCache :=
  if seen_within (entries s) (specificKey c) (hook_since1 c) (2 * Second) then (false, s) else
  if seen_within (traktScrobbles s) (traktKey c) (hook_since2 c) (1 * Second) then (false, s) else
  let now := hook_now c in
  let cutoff := time_Add now (-10 * Second) in
  (true, mkCache (cleanup cutoff (<[specificKey c := now]> (entries s)))
           (cleanup cutoff (<[traktKey c := now]> (traktScrobbles s)))).

(** A sequence of webhooks and the decisions on them. *)
Fixpoint dedupe (calls : list hook_call) (s : webhookDedupeCache) : list bool :=
  match calls with
  | [] => []
  | c :: calls => let '(b, s) := shouldProcess c s in b :: dedupe calls s
  end.

(** ** OAuth state *)

(** [FamilyGroup] is a pointer: the address of a [FamilyGroupState]. *)
Record authState := mkAuth {
  A_Mode : string;
  A_Username : string;
  A_SelectedID : string;
  A_CorrelationID : string;
  A_Created : Time;
  A_FamilyGroup : option nat;
}.
Definition zeroAuth : authState := mkAuth "" "" "" "" zeroTime None.

Abbreviation authStateStore := (gmap string authState) (only parsing).
Definition newAuthStateStore : authStateStore := ∅.

(** [rnd]: the bytes [rand.Read] delivers, if it does; [nanos]: the clock. *)
Definition generateCorrelationID (rnd : option (list Z)) (nanos : Z) : string :=
  match rnd with
  | None => "fallback-" +:+ Itoa nanos
  | Some b => hex (set_uuid_bits b)
  end.

Definition truncateCorrelationID (fullID : string) : string :=
  if len fullID <=? 8 then fullID else slice_to 8 fullID.

(** The loop of [Create] over the tokens generated; [None]: it has not found
    an unused one yet. *)
Fixpoint first_unused (draws : list (option (list Z) * Z)) (s : authStateStore) : option string :=
  match draws with
  | [] => None
  | (rnd, nanos) :: draws =>
      let token := generateCorrelationID rnd nanos in
      match s !! token with
      | None => Some token
      | Some _ => first_unused draws s
      end
  end.

Definition Create (now : Time) (draws : list (option (list Z) * Z)) (state : authState)
    (s : authStateStore) : option (string * authStateStore) :=
  let state := if IsZero (A_Created state)
               then mkAuth (A_Mode state) (A_Username state) (A_SelectedID state) (A_CorrelationID state)
                      now (A_FamilyGroup state)
               else state in
  match first_unused draws s with
  | None => None
  | Some token => Some (token, <[token := state]> s)
  end.

Definition expired (now : Time) (state : authState) : bool :=
  15 * Minute <? time_Sub now (A_Created state).

Definition Consume (now : Time) (token : string) (s : authStateStore)
    : authState * bool * authStateStore :=
  if bool_decide (token = "") then (zeroAuth, false, s) else
  match s !! token with
  | None => (zeroAuth, false, s)
  | Some state => (if expired now state then (zeroAuth, false) else (state, true), delete token s)
  end.

Definition Get (now : Time) (token : string) (s : authStateStore) : authState * bool :=
  if bool_decide (token = "") then (zeroAuth, false) else
  match s !! token with
  | None => (zeroAuth, false)
  | Some state => if expired now state then (zeroAuth, false) else (state, true)
  end.

(** ** Deduplication against its specification *)

(** Specification: a webhook is processed unless one with the same key was
    processed less than two seconds ago, or one for the same Trakt account less
    than one second ago.  [hist] is every webhook processed so far. *)
Definition duplicate_of (c c' : hook_call) : bool :=
  (bool_decide (specificKey c' = specificKey c) && (hook_since1 c - hook_now c' <? 2 * Second)) ||
  (bool_decide (traktKey c' = traktKey c) && (hook_since2 c - hook_now c' <? 1 * Second)).

Fixpoint dedupe_spec (calls hist : list hook_call) : list bool :=
  match calls with
  | [] => []
  | c :: calls =>
      let b := negb (existsb (duplicate_of c) hist) in
      b :: dedupe_spec calls (if b then c :: hist else hist)
  end.

(** The clock readings of the calls never go back. *)
Fixpoint clock_forward (last : Time) (calls : list hook_call) : Prop :=
  match calls with
  | [] => True
  | c :: calls =>
      last ≤ hook_now c ≤ hook_since1 c ∧ hook_since1 c ≤ hook_since2 c ∧
      clock_forward (hook_since2 c) calls
  end.

(** One map of the cache against the history: an entry is the latest processed
    webhook with its key, and only keys unused for ten seconds are missing. *)
Definition represents (key : hook_call → string) (last : Time) (hist : list hook_call)
    (m : gmap string Time) : Prop :=
  (∀ k t, m !! k = Some t →
     (∃ c, c ∈ hist ∧ key c = k ∧ hook_now c = t) ∧ ∀ c, c ∈ hist → key c = k → hook_now c ≤ t) ∧
  (∀ c, c ∈ hist → hook_now c ≤ last) ∧
  (∀ c, c ∈ hist → last - 10 * Second ≤ hook_now c → is_Some (m !! key c)).

Lemma time_Sub_ltb t u w : 0 < w ≤ int64_max → (time_Sub t u <? w) = (t - u <? w).
Proof.
  intros Hw. pose proof (time_Sub_lt t u w ltac:(unfold int64_min; lia)).
  destruct (Z.ltb_spec (t - u) w); [apply Z.ltb_lt|apply Z.ltb_ge]; lia.
Qed.

(** Looking a key up in the map answers the question about the history. *)
Lemma seen_within_spec key last hist m c t w :
  represents key last hist m → last ≤ t → 0 < w ≤ 10 * Second →
  seen_within m (key c) t w =
  existsb (λ c', bool_decide (key c' = key c) && (t - hook_now c' <? w)) hist.
Proof.
  intros (Hm & Hle & Hk) Ht Hw. unfold seen_within.
  assert (w ≤ int64_max) by (unfold int64_max, Second in *; lia).
  destruct (m !! key c) as [ts|] eqn:E.
  - rewrite time_Sub_ltb by lia. destruct (Hm _ _ E) as [(c' & Hin & Hkc & <-) Hmax].
    apply eq_bool_prop_intro. rewrite !Is_true_true, existsb_exists. split.
    + intros Hb. exists c'. split; [by apply list_elem_of_In|]. by rewrite bool_decide_eq_true_2.
    + intros (c2 & Hin2%list_elem_of_In & [Hk2%bool_decide_eq_true Hb]%andb_true_iff).
      specialize (Hmax _ Hin2 Hk2). apply Z.ltb_lt in Hb. apply Z.ltb_lt. lia.
  - symmetry. apply not_true_iff_false. rewrite existsb_exists.
    intros (c2 & Hin2%list_elem_of_In & [Hk2%bool_decide_eq_true Hb%Z.ltb_lt]%andb_true_iff).
    destruct (Hk _ Hin2) as [x Hx]; [lia|]. congruence.
Qed.

(** Processing a webhook keeps the map in step with the history. *)
Lemma represents_step key last hist m c :
  represents key last hist m → last ≤ hook_now c →
  represents key (hook_now c) (c :: hist)
    (cleanup (time_Add (hook_now c) (-10 * Second)) (<[key c := hook_now c]> m)).
Proof.
  intros (Hm & Hle & Hk) Hl. unfold cleanup, time_Add, Before. split_and!.
  - intros k t [Hi _]%map_lookup_filter_Some. rewrite lookup_insert in Hi. case_decide as Hkc.
    + simplify_eq. split; [exists c; split; [left|done]|].
      intros c' [->|Hin]%elem_of_cons _; [done|]. specialize (Hle _ Hin). lia.
    + destruct (Hm _ _ Hi) as [(c' & ? & ? & ?) Hmax]. split; [exists c'; split; [by right|done]|].
      intros c2 [->|Hin]%elem_of_cons Hk2; [congruence|]. by apply Hmax.
  - intros c' [->|Hin]%elem_of_cons; [lia|]. specialize (Hle _ Hin). lia.
  - intros c' Hin Hc'.
    assert (∃ t, <[key c := hook_now c]> m !! key c' = Some t ∧ hook_now c' ≤ t) as (t & Ht & Hge).
    { rewrite lookup_insert. case_decide as Hkc.
      - exists (hook_now c). split; [done|]. apply elem_of_cons in Hin as [->|Hin]; [done|].
        specialize (Hle _ Hin). lia.
      - apply elem_of_cons in Hin as [->|Hin]; [done|].
        destruct (Hk _ Hin) as [t Ht]; [lia|]. exists t. split; [done|].
        destruct (Hm _ _ Ht) as [_ Hmax]. by apply Hmax. }
    exists t. apply map_lookup_filter_Some. split; [done|]. simpl. apply Z.ltb_ge. lia.
Qed.

(** A later clock keeps it too. *)
Lemma represents_later key last last' hist m :
  represents key last hist m → last ≤ last' → represents key last' hist m.
Proof.
  intros (Hm & Hle & Hk) Hl. split_and!; [done| |].
  - intros c Hin. specialize (Hle _ Hin). lia.
  - intros c Hin Hc. apply Hk; [done|lia].
Qed.

Lemma existsb_orb {A} (f g : A → bool) l : existsb (λ x, f x || g x) l = existsb f l || existsb g l.
Proof.
  induction l as [|x l IH]; [done|]. simpl. rewrite IH. by destruct (f x), (g x), (existsb f l).
Qed.

Lemma dedupe_law calls : ∀ last hist s,
  clock_forward last calls → represents specificKey last hist (entries s) →
  represents traktKey last hist (traktScrobbles s) → dedupe calls s = dedupe_spec calls hist.
Proof.
  induction calls as [|c calls IH]; intros last hist s Hc He Ht; [done|].
  destruct Hc as ([Hl1 Hl2] & Hl3 & Hc). simpl. unfold shouldProcess.
  assert (existsb (duplicate_of c) hist =
    seen_within (entries s) (specificKey c) (hook_since1 c) (2 * Second) ||
    seen_within (traktScrobbles s) (traktKey c) (hook_since2 c) (1 * Second)) as ->.
  { erewrite !seen_within_spec by (eassumption || (unfold Second; lia)). by rewrite <-existsb_orb. }
  destruct (seen_within (entries s) _ _ _); simpl;
    [|destruct (seen_within (traktScrobbles s) _ _ _); simpl]; f_equal.
  - apply (IH (hook_since2 c)); [done|eapply represents_later..]; eauto; lia.
  - apply (IH (hook_since2 c)); [done|eapply represents_later..]; eauto; lia.
  - apply (IH (hook_since2 c)); [done|..]; simpl;
      (eapply represents_later; [eapply represents_step; eauto|lia]).
Qed.

(** ** Properties *)

(** C16: the deduplication cache, which forgets entries after ten seconds, takes
    exactly the decisions of a server that remembers everything: as long as
    the clock does not go back, a webhook is processed unless one with the
    same Plaxt id, event, media item and offset was processed less than two
    seconds before, or one for the same Trakt account less than one second
    before. *)
Theorem dedupe_refines_spec (start : Time) (calls : list hook_call) :
  clock_forward start calls →
  dedupe calls newWebhookDedupeCache = dedupe_spec calls [].
Proof.
  intros Hc. by eapply dedupe_law; [exact Hc|..]; (split_and!; [done|by intros ? ?%not_elem_of_nil..]).
Qed.

(** What [rand.Read] delivers: sixteen bytes. *)
Definition sixteen (draw : option (list Z) * Z) : Prop :=
  ∀ b, draw.1 = Some b → List.length b = 16%nat.

Lemma generateCorrelationID_nonempty rnd nanos :
  sixteen (rnd, nanos) → generateCorrelationID rnd nanos ≠ "".
Proof.
  intros Hs. unfold generateCorrelationID. destruct rnd as [b|]; [|done].
  specialize (Hs b eq_refl). by destruct b.
Qed.

Lemma first_unused_spec draws s :
  Forall sixteen draws →
  match first_unused draws s with
  | None => Forall (λ d, is_Some (s !! generateCorrelationID d.1 d.2)) draws
  | Some token => s !! token = None ∧ token ≠ ""
  end.
Proof.
  induction 1 as [|[rnd nanos] draws Hd _ IH]; simpl; [constructor|].
  destruct (s !! generateCorrelationID rnd nanos) as [st|] eqn:E.
  - destruct (first_unused draws s); [done|]. constructor; [simpl; rewrite E; by eexists|done].
  - split; [done|]. by apply generateCorrelationID_nonempty.
Qed.

Lemma expired_spec t state : expired t state = bool_decide (15 * Minute < t - A_Created state).
Proof.
  unfold expired. pose proof (time_Sub_gt t (A_Created state) (15 * Minute) ltac:(done)).
  case_bool_decide; [apply Z.ltb_lt|apply Z.ltb_ge]; lia.
Qed.

(** A token of the OAuth round trip is good once and for fifteen minutes.
    [Create] returns as soon as a generated token is unused, with that token,
    and leaves the other states alone.  Until fifteen minutes after the state
    was created [Get] finds it and keeps it and [Consume] returns it, later
    both refuse it, and [Consume] leaves the states without it either way, so
    that both refuse it from then on. *)
Lemma auth_token_once (now t : Time) (draws : list (option (list Z) * Z)) (state : authState)
    (s : authStateStore) :
  Forall sixteen draws →
  let created := if decide (A_Created state = zeroTime) then now else A_Created state in
  let stored := mkAuth (A_Mode state) (A_Username state) (A_SelectedID state) (A_CorrelationID state)
                  created (A_FamilyGroup state) in
  let answer := if decide (t - created ≤ 15 * Minute) then (stored, true) else (zeroAuth, false) in
  match Create now draws state s with
  | None => Forall (λ d, is_Some (s !! generateCorrelationID d.1 d.2)) draws
  | Some (token, s') =>
      s !! token = None ∧ token ≠ "" ∧ (∀ k, k ≠ token → s' !! k = s !! k) ∧
      Get t token s' = answer ∧ Consume t token s' = (answer, s) ∧
      ∀ t', Consume t' token s = (zeroAuth, false, s) ∧ Get t' token s = (zeroAuth, false)
  end.
Proof.
  intros Hd created stored answer. unfold Create.
  pose proof (first_unused_spec draws s Hd) as Hu. destruct (first_unused draws s) as [token|]; [|done].
  destruct Hu as [Hnone Hne].
  set (st := if IsZero (A_Created state) then _ else state).
  assert (st = stored) as ->.
  { unfold st, stored, created, IsZero. destruct (decide (A_Created state = zeroTime)) as [->|Hz].
    - by rewrite Z.eqb_refl.
    - apply Z.eqb_neq in Hz as ->. by destruct state. }
  assert (Ha : (if expired t stored then (zeroAuth, false) else (stored, true)) = answer).
  { rewrite expired_spec. unfold answer. simpl.
    destruct (decide (t - created ≤ 15 * Minute));
      [rewrite bool_decide_eq_false_2 by lia|rewrite bool_decide_eq_true_2 by lia]; done. }
  unfold Get, Consume. rewrite bool_decide_eq_false_2 by done. rewrite lookup_insert_eq, Hnone, Ha.
  split_and!; [done|done|intros k ?; by rewrite lookup_insert_ne|done| |done].
  by rewrite delete_insert_id.
Qed.

(** ** Examples *)

Definition play (id : string) (t : Time) : hook_call := mkHook id "sam" "media.play" "42" 0 t t t.

(** Two Plaxt users of one Trakt account, a repetition, and a later replay. *)
Lemma dedupe_refines_spec_witness :
  dedupe [play "a" 0; play "b" (Second / 2); play "a" Second; play "a" (3 * Second); play "a" (20 * Second)]
    newWebhookDedupeCache = [true; false; false; true; true].
Proof.
  rewrite (dedupe_refines_spec 0).
  - by vm_compute.
  - vm_compute. repeat split; discriminate.
Defined.

Definition sixteen_bytes : option (list Z) * Z := (Some (replicate 16 171), 0).
Definition onboarding : authState := mkAuth "onboarding" "sam" "" "" zeroTime None.

Lemma auth_token_once_witness :
  match Create 1000 [sixteen_bytes] onboarding newAuthStateStore with
  | None => False
  | Some (token, s') =>
      token = "abababababab4bababababababababab" ∧
      Consume (1000 + 16 * Minute) token s' = (zeroAuth, false, newAuthStateStore)
  end.
Proof.
  assert (Forall sixteen [sixteen_bytes]) as Hs.
  { repeat constructor. intros b [= <-]. done. }
  pose proof (auth_token_once 1000 (1000 + 16 * Minute) [sixteen_bytes] onboarding newAuthStateStore Hs)
    as Ht.
  revert Ht. vm_compute. intros (_ & _ & _ & _ & Hc & _). split; [done|exact Hc].
Defined.
