(* ===== verification/Webhooks.v ===== *)
(** * The webhook endpoint: [main.go], lines 1101-1109, 1455-1485, 1939-2249

    [api] from the decoded webhook on, the broadcast to a family
    ([handleFamilyWebhook]), the refresh of tokens and the storing of an
    authorized user ([persistAuthorizedUser]).  The store, the clock and the
    random source act on a world [W] through [WebStore], the network through
    [Http] as in Trakt.v; the deduplication cache of Sessions.v is threaded
    next to the world.  Requests that share a key wait for each other in the
    code ([apiSf.Do]); here one request is processed at a time. *)

From S2P Require Import Prelude GoLib Float Json Instances Common Entities Buffers Trakt Sessions.

Open Scope Z_scope.

(** ** What the handlers use *)

(** Lookups of users may panic in the store; a family lookup may return nil
    without an error. *)
Class WebStore (W : Type) := {
  Web_GetFamilyGroupByPlex : string → W → result (option FamilyGroup) * W;
  Web_ListGroupMembers : string → W → result (list GroupMember) * W;
  Web_GetUser : string → W → outcome (option User * W);
  Web_GetUserByName : string → W → outcome (option User * W);
  Web_WriteUser : User → W → outcome W;
  Web_Now : W → Time * W;
  (** the bytes of [rand.Read], if it succeeds, and the clock of the fallback *)
  Web_Rand : W → option (list Z) * Z * W;
  (** [uuid()] of [store.NewUser] *)
  Web_uuid : W → string * W;
}.

(** A response: status and JSON body. *)
Record reply := mkReply { reply_status : Z; reply_json : list (string * json) }.

Definition StatusBadRequest : Z := 400.
Definition StatusUnauthorized : Z := 401.
Definition StatusForbidden : Z := 403.
Definition StatusNotFound : Z := 404.
Definition StatusInternalServerError : Z := 500.

(** [trakt.HttpError] *)
Record HttpError := mkHttpError { Code : Z; Message : string }.
Definition NewHttpError (code : Z) (message : string) : HttpError := mkHttpError code message.
Definition HttpError_Error (e : HttpError) : string := Message e.

Definition extractMediaTitleFromScrobble (body : ScrobbleBody) : string :=
  match m ← Body_Movie body; title ← Movie_Title m; Some (title, Movie_Year m) with
  | Some (title, Some y) => title +:+ " (" +:+ Itoa y +:+ ")"
  | Some (title, None) => title
  | None =>
      match Body_Show body with
      | Some s =>
          let showTitle := default "Unknown Show" (Show_Title s) in
          match e ← Body_Episode body; sn ← Episode_Season e; nb ← Episode_Number e; Some (sn, nb) with
          | Some (sn, nb) => showTitle +:+ " S" +:+ Itoa02 sn +:+ "E" +:+ Itoa02 nb
          | None => showTitle
          end
      | None => "Unknown Media"
      end
  end.

(** [expires_in], a JSON number, is a [float64] of seconds. *)
Definition calculateTokenExpiry (oauthResult : gmap string json) (now : Time) : Time :=
  let dflt := time_Add now (90 * 24 * Hour) in
  match oauthResult !! "expires_in" with
  | Some (JNum lit) =>
      match ParseFloat lit with
      | Some expiresIn =>
          if SFltb (float_of_int 0) expiresIn
          then time_Add now (wrap64 (int_of_float expiresIn * Second))
          else dflt
      | None => dflt
      end
  | _ => dflt
  end.

Section Handlers.
Context {W : Type} `{UnicodeTables, JsonText, UrlText, Http W, ScrobbleStore W, WebStore W}.

Definition newCorrelationID (w : W) : string * W :=
  let '(rnd, nanos, w) := Web_Rand w in (generateCorrelationID rnd nanos, w).

(** ** Storing an authorized user *)

Definition errUsernameMismatch : error := Sentinel "manual renewal username mismatch".

Definition set_Username (name : string) (u : User) : User :=
  mkUser (U_ID u) name (U_AccessToken u) (U_RefreshToken u) (U_TraktDisplayName u) (U_Updated u)
    (U_TokenExpiry u) (U_store u).

Definition persistAuthorizedUser (username existingID accessToken refreshToken : string)
    (displayName : option string) (tokenExpiry : Time) (w : W) : outcome (result (User * bool) * W) :=
  if bool_decide (existingID ≠ "") then
    '(existing, w) ← Web_GetUser existingID w;
    match existing with
    | None => Ret (Err (Errorf ("selected user " +:+ existingID +:+ " no longer exists")), w)
    | Some existing =>
        let inputUsername := ToLower (TrimSpace username) in
        let existingUsername := ToLower (TrimSpace (U_Username existing)) in
        let '(existingUsername, inputUsername) :=
          if bool_decide (existingUsername = "") && bool_decide (inputUsername ≠ "")
          then (inputUsername, inputUsername)
          else if bool_decide (inputUsername = "") && bool_decide (existingUsername ≠ "")
          then (existingUsername, existingUsername)
          else (existingUsername, inputUsername) in
        if bool_decide (existingUsername ≠ "") && bool_decide (inputUsername ≠ "") &&
           bool_decide (existingUsername ≠ inputUsername)
        then Ret (Err errUsernameMismatch, w)
        else if bool_decide (inputUsername = "")
        then Ret (Err (Errorf ("selected user " +:+ existingID +:+ " missing username")), w)
        else
          let '(now, w) := Web_Now w in
          '(user, w) ← UpdateUser Web_WriteUser (set_Username inputUsername existing) accessToken
                         refreshToken displayName tokenExpiry now w;
          Ret (Ok (user, true), w)
    end
  else
    let normalized := ToLower (TrimSpace username) in
    let '(id, w) := Web_uuid w in
    let '(now, w) := Web_Now w in
    '(user, w) ← NewUser Web_WriteUser id normalized accessToken refreshToken displayName tokenExpiry
                   now w;
    Ret (Ok (user, false), w).

(** ** Family webhooks *)

(** A failed member: for a retryable error the code builds a retry item
    (an id and three clock readings) and drops it. *)
Definition handle_error (w : W) (berr : BroadcastError) : W :=
  if IsRetryable berr then
    let '(_, w) := newCorrelationID w in
    let '(_, w) := Web_Now w in
    let '(_, w) := Web_Now w in
    let '(_, w) := Web_Now w in
    w
  else w.

(** [arrival] and [answer]: the order in which the goroutines of the broadcast
    finish and what Trakt answers them. *)
Definition handleFamilyWebhook (t : Trakt) (arrival : list GroupMember → list GroupMember)
    (answer : GroupMember → request → result response)
    (webhook : Webhook) (familyGroup : FamilyGroup) (w : W) : reply * W :=
  match Web_ListGroupMembers (FG_ID familyGroup) w with
  | (Err _, w) =>
      (mkReply StatusInternalServerError [("error", JStr "failed to load family members")], w)
  | (Ok members, w) =>
      let authorizedMembers := filter (λ m, GM_AuthorizationStatus m = "authorized") members in
      if bool_decide (authorizedMembers = []) then
        (mkReply StatusOK [("result", JStr "no_authorized_members")], w)
      else
        let '(eventID, w) := newCorrelationID w in
        let '(scrobbleBody, action, shouldScrobble, w) := ParseWebhookForScrobble (Some webhook) w in
        if negb shouldScrobble then (mkReply StatusOK [("result", JStr "not_scrobblable")], w) else
        let mediaTitle := extractMediaTitleFromScrobble scrobbleBody in
        let broadcastErrors := BroadcastScrobble t action scrobbleBody authorizedMembers
                                 (arrival authorizedMembers) eventID mediaTitle answer in
        let w := foldl handle_error w broadcastErrors in
        let total := Z.of_nat (List.length authorizedMembers) in
        let failed := Z.of_nat (List.length broadcastErrors) in
        (mkReply StatusOK
           [("result", JStr "success"); ("event_id", JStr eventID); ("members_total", enc_int total);
            ("members_success", enc_int (total - failed)); ("members_failed", enc_int failed)], w)
  end.

(** ** Single-user webhooks *)

(** [result["access_token"].(string)]: anything but a string panics. *)
Definition string_field (m : gmap string json) (key : string) : outcome string :=
  match m !! key with
  | Some (JStr s) => Ret s
  | _ => Panic "interface conversion: interface {} is not string"
  end.

(** The function [api] gives to [apiSf.Do]: the user of the webhook, with
    fresh tokens. *)
Definition resolve_user (t : Trakt) (redirectURI id username : string) (webhook : Webhook) (w : W)
    : outcome ((HttpError + User) * W) :=
  '(user, w) ← Web_GetUser id w;
  match user with
  | None => Ret (inl (NewHttpError StatusForbidden "id is invalid"), w)
  | Some user =>
      '(user, w) ← (if Hook_Owner webhook && bool_decide (username ≠ U_Username user)
                    then Web_GetUserByName username w else Ret (Some user, w));
      match user with
      | None => Ret (inl (NewHttpError StatusNotFound "user not found"), w)
      | Some user =>
          let '(now, w) := Web_Now w in
          if time_Sub (U_TokenExpiry user) now <? 48 * Hour then
            let '(result, success, w) :=
              AuthRequest t redirectURI (U_Username user) "" (U_RefreshToken user) "refresh_token" w in
            if success then
              let '(now, w) := Web_Now w in
              let tokenExpiry := calculateTokenExpiry result now in
              access ← string_field result "access_token";
              refresh ← string_field result "refresh_token";
              let '(now, w) := Web_Now w in
              '(user, w) ← UpdateUser Web_WriteUser user access refresh None tokenExpiry now w;
              Ret (inr user, w)
            else Ret (inl (NewHttpError StatusUnauthorized "fail"), w)
          else Ret (inr user, w)
      end
  end.

(** The rest of [api] for a webhook that belongs to no family. *)
Definition handleUserWebhook (t : Trakt) (redirectURI id username : string) (webhook : Webhook)
    (cache : webhookDedupeCache) (w : W) : outcome (reply * webhookDedupeCache * W) :=
  '(r, w) ← resolve_user t redirectURI id username webhook w;
  match r with
  | inl err => Ret (mkReply (Code err) [("error", JStr (Message err))], cache, w)
  | inr user =>
      let '(now, w) := Web_Now w in
      let '(since1, w) := Web_Now w in
      let '(since2, w) := Web_Now w in
      let md := Hook_Metadata webhook in
      let '(process, cache) :=
        shouldProcess (mkHook id (U_TraktDisplayName user) (Hook_Event webhook) (MD_RatingKey md)
                         (ViewOffset md) now since1 since2) cache in
      if negb process
      then Ret (mkReply StatusOK [("result", JStr "duplicate_filtered")], cache, w)
      else
        w ← (if bool_decide (username = U_Username user)
             then Handle t (Some webhook) user w else Ret w);
        Ret (mkReply StatusOK [("result", JStr "success")], cache, w)
  end.

(** [api] on a request with the parameter [id] whose payload decoded to
    [webhook] ([None]: it did not); [redirectURI] is [SelfRoot(r) + "/authorize"]. *)
Definition api (t : Trakt) (arrival : list GroupMember → list GroupMember)
    (answer : GroupMember → request → result response) (redirectURI id : string)
    (webhook : option Webhook) (cache : webhookDedupeCache) (w : W)
    : outcome (reply * webhookDedupeCache * W) :=
  if bool_decide (id = "") then Ret (mkReply StatusBadRequest [], cache, w) else
  match webhook with
  | None => Ret (mkReply StatusBadRequest [], cache, w)
  | Some webhook =>
      let username := ToLower (Account_Title (Hook_Account webhook)) in
      match Web_GetFamilyGroupByPlex username w with
      | (Ok (Some familyGroup), w) =>
          let '(r, w) := handleFamilyWebhook t arrival answer webhook familyGroup w in Ret (r, cache, w)
      | (_, w) => handleUserWebhook t redirectURI id username webhook cache w
      end
  end.
End Handlers.

(** ** The clock *)

(** [clock w] is the time of the world; no operation turns it back, and a
    reading lies between the clocks before and after it. *)
Class ClockForward (W : Type) `{Http W, ScrobbleStore W, WebStore W} (clock : W → Time) : Prop := {
  forward_Do req w : clock w ≤ clock (Do req w).2;
  forward_GetScrobbleBody p k w : clock w ≤ clock (Store_GetScrobbleBody p k w).2;
  forward_WriteScrobbleBody c w w' : Store_WriteScrobbleBody c w = Ret w' → clock w ≤ clock w';
  forward_EnqueueScrobble e w : clock w ≤ clock (Store_EnqueueScrobble e w).2;
  forward_GetQueueSize u w : clock w ≤ clock (Store_GetQueueSize u w).2;
  forward_Append e w w' : queueEventLog_Append e w = Ret w' → clock w ≤ clock w';
  forward_store_Now w : clock w ≤ clock (store_Now w).2;
  forward_Family u w : clock w ≤ clock (Web_GetFamilyGroupByPlex u w).2;
  forward_Members g w : clock w ≤ clock (Web_ListGroupMembers g w).2;
  forward_Rand w : clock w ≤ clock (Web_Rand w).2;
  forward_GetUser id w u w' : Web_GetUser id w = Ret (u, w') → clock w ≤ clock w';
  forward_GetUserByName n w u w' : Web_GetUserByName n w = Ret (u, w') → clock w ≤ clock w';
  forward_WriteUser u w w' : Web_WriteUser u w = Ret w' → clock w ≤ clock w';
  forward_Now w : clock w ≤ (Web_Now w).1 ≤ clock (Web_Now w).2;
}.

Section Clock.
Context {W : Type} `{UnicodeTables, JsonText, UrlText, Http W, ScrobbleStore W, WebStore W}.
Context (clock : W → Time) {CF : ClockForward W clock}.

Lemma forward_enqueue t user item action w w' :
  enqueueScrobbleEvent t user item action w = Ret w' → clock w ≤ clock w'.
Proof using CF.
  unfold enqueueScrobbleEvent.
  match goal with |- context [Store_EnqueueScrobble ?e w] =>
    pose proof (forward_EnqueueScrobble e w) as Hf1; destruct (Store_EnqueueScrobble e w) as [[err|] w1] end;
    simpl in *; [by intros [= <-]|].
  destruct (has_queueEventLog t); [|by intros [= <-]].
  pose proof (forward_GetQueueSize (U_ID user) w1) as Hf2.
  destruct (Store_GetQueueSize (U_ID user) w1) as [r w2]. simpl in Hf2.
  pose proof (forward_store_Now w2) as Hf3. destruct (store_Now w2) as [now w3]. simpl in Hf3.
  intros E%forward_Append. lia.
Qed.

Lemma forward_scrobbleRequest t action item user w w' :
  scrobbleRequest t action item user w = Ret w' → clock w ≤ clock w'.
Proof using CF.
  unfold scrobbleRequest. destruct (scrobble_post _ _ _ _) as [req|]; [|intros [= <-]; lia].
  pose proof (forward_Do req w) as Hf1. destruct (Do req w) as [[resp|err] w1]; simpl in Hf1.
  - destruct (transientStatus _); [intros E%forward_enqueue; lia|].
    destruct (successStatus _); [|intros [= <-]; lia].
    destruct (decode_body _ _); [intros E%forward_WriteScrobbleBody; lia|intros [= <-]; lia|done].
  - intros E%forward_enqueue. lia.
Qed.

Lemma forward_Handle t hook user w w' : Handle t hook user w = Ret w' → clock w ≤ clock w'.
Proof using CF.
  unfold Handle, getAction. destruct hook as [hook|]; [|intros [= <-]; lia].
  case_match; [intros [= <-]; lia|].
  match goal with |- context [Store_GetScrobbleBody ?p ?k w] =>
    pose proof (forward_GetScrobbleBody p k w) as Hf1; destruct (Store_GetScrobbleBody p k w) as [item w1] end.
  simpl in Hf1. destruct (action_of _ _) as [event p]. simpl.
  repeat case_match; try (intros [= <-]; lia); intros E%forward_scrobbleRequest; lia.
Qed.

Lemma forward_UpdateUser u a r d e now w x :
  UpdateUser Web_WriteUser u a r d e now w = Ret x → clock w ≤ clock x.2.
Proof using CF.
  unfold UpdateUser, save. simpl. destruct (U_store u); simpl; [|done].
  destruct (Web_WriteUser _ w) as [w1|] eqn:E; simpl; [|done]. intros [= <-]. simpl.
  by eapply forward_WriteUser.
Qed.

Lemma forward_AuthRequest t u n c r g w : clock w ≤ clock (AuthRequest t u n c r g w).2.
Proof using CF.
  unfold AuthRequest.
  match goal with |- context [Do ?req w] =>
    pose proof (forward_Do req w) as Hf1; destruct (Do req w) as [[resp|err] w1] end; simpl in *; [|done].
  repeat case_match; done.
Qed.

Lemma forward_resolve_user t uri id name hook w r w' :
  resolve_user t uri id name hook w = Ret (r, w') → clock w ≤ clock w'.
Proof using CF.
  unfold resolve_user. destruct (Web_GetUser id w) as [[user w1]|] eqn:E1; simpl; [|done].
  apply forward_GetUser in E1. destruct user as [user|]; [|intros [= <- <-]; done].
  match goal with |- context [mbind _ ?m] => destruct m as [[user2 w2]|] eqn:E2 end; simpl; [|done].
  assert (clock w1 ≤ clock w2) as H12.
  { destruct (_ && _); [by eapply forward_GetUserByName|simplify_eq; lia]. }
  destruct user2 as [user2|]; [|intros [= <- <-]; lia].
  pose proof (forward_Now w2) as Hn. destruct (Web_Now w2) as [now w3]. simpl in Hn.
  destruct (_ <? _); [|intros [= <- <-]; lia].
  match goal with |- context [AuthRequest ?a ?b ?c ?d ?e ?f w3] =>
    pose proof (forward_AuthRequest a b c d e f w3) as Ha;
    destruct (AuthRequest a b c d e f w3) as [[res ok] w4] end. simpl in Ha.
  destruct ok; [|intros [= <- <-]; lia].
  pose proof (forward_Now w4) as Hn4. destruct (Web_Now w4) as [now4 w5]. simpl in Hn4.
  destruct (string_field res "access_token"); simpl; [|done].
  destruct (string_field res "refresh_token"); simpl; [|done].
  pose proof (forward_Now w5) as Hn5. destruct (Web_Now w5) as [now5 w6]. simpl in Hn5.
  match goal with |- context [mbind _ ?m] => destruct m as [[user3 w7]|] eqn:E3 end; simpl; [|done].
  apply forward_UpdateUser in E3. simpl in E3. intros [= <- <-]. lia.
Qed.

#[local] Arguments Handle : simpl never.

Definition success : reply := mkReply StatusOK [("result", JStr "success")].

Lemma forward_Parse hook w : clock w ≤ clock (ParseWebhookForScrobble hook w).2.
Proof using CF.
  unfold ParseWebhookForScrobble, getAction. destruct hook as [hook|]; [|done].
  case_match; [done|].
  match goal with |- context [Store_GetScrobbleBody ?p ?k w] =>
    pose proof (forward_GetScrobbleBody p k w) as Hf1; destruct (Store_GetScrobbleBody p k w) as [item w1] end.
  simpl in Hf1. destruct (action_of _ _) as [event p]. simpl. repeat case_match; done.
Qed.

Lemma forward_CorrelationID w : clock w ≤ clock (newCorrelationID w).2.
Proof using CF.
  unfold newCorrelationID. pose proof (forward_Rand w) as Hr. by destruct (Web_Rand w) as [[rnd nanos] w1].
Qed.

Lemma forward_handle_errors errs : ∀ w, clock w ≤ clock (foldl handle_error w errs).
Proof using CF.
  induction errs as [|b errs IH]; intros w; simpl; [done|]. etrans; [|apply IH]. unfold handle_error.
  destruct (IsRetryable b); [|done].
  pose proof (forward_CorrelationID w) as Hc. destruct (newCorrelationID w) as [eid w1]. simpl in Hc.
  pose proof (forward_Now w1) as Hn1. destruct (Web_Now w1) as [t1 w2]. simpl in Hn1.
  pose proof (forward_Now w2) as Hn2. destruct (Web_Now w2) as [t2 w3]. simpl in Hn2.
  pose proof (forward_Now w3) as Hn3. destruct (Web_Now w3) as [t3 w4]. simpl in *. lia.
Qed.

Lemma forward_handleFamilyWebhook t ar an hook g w : clock w ≤ clock (handleFamilyWebhook t ar an hook g w).2.
Proof using CF.
  unfold handleFamilyWebhook. pose proof (forward_Members (FG_ID g) w) as Hm.
  destruct (Web_ListGroupMembers _ w) as [[members|] w1]; simpl in Hm; [|done].
  case_bool_decide; [done|]. pose proof (forward_CorrelationID w1) as Hc.
  destruct (newCorrelationID w1) as [eid w2]. simpl in Hc. pose proof (forward_Parse (Some hook) w2) as Hp.
  destruct (ParseWebhookForScrobble _ w2) as [[[body action] ok] w3]. simpl in Hp.
  destruct ok; simpl; [|lia]. etrans; [|apply forward_handle_errors]. lia.
Qed.

(** ** One request *)

(** The call of the deduplication that a webhook makes. *)
Definition hook_key (id : string) (hook : Webhook) : string :=
  id +:+ ":" +:+ Hook_Event hook +:+ ":" +:+ MD_RatingKey (Hook_Metadata hook) +:+ ":" +:+
  Itoa (ViewOffset (Hook_Metadata hook)).

(** What a request to the user of a webhook does: it fails to find the user, or
    the deduplication refuses it and nothing more happens, or it is let through
    and handled. *)
Inductive user_request (t : Trakt) (id username : string) (hook : Webhook) (cache : webhookDedupeCache) :
  (HttpError + User) → W → reply → webhookDedupeCache → W → Prop :=
| user_unknown err w : user_request t id username hook cache (inl err) w
    (mkReply (Code err) [("error", JStr (Message err))]) cache w
| user_asked user w now since1 since2 w1 w2 w3 b cache' r w' :
    Web_Now w = (now, w1) → Web_Now w1 = (since1, w2) → Web_Now w2 = (since2, w3) →
    shouldProcess (mkHook id (U_TraktDisplayName user) (Hook_Event hook) (MD_RatingKey (Hook_Metadata hook))
      (ViewOffset (Hook_Metadata hook)) now since1 since2) cache = (b, cache') →
    (if b then r = success ∧
       (if decide (username = U_Username user) then Handle t (Some hook) user w3 = Ret w' else w' = w3)
     else r = mkReply StatusOK [("result", JStr "duplicate_filtered")] ∧ w' = w3) →
    user_request t id username hook cache (inr user) w r cache' w'.

Lemma handleUserWebhook_inv t uri id name hook cache w r cache' w' :
  handleUserWebhook t uri id name hook cache w = Ret (r, cache', w') →
  ∃ res w1, resolve_user t uri id name hook w = Ret (res, w1) ∧ user_request t id name hook cache res w1 r cache' w'.
Proof.
  unfold handleUserWebhook. destruct (resolve_user _ _ _ _ _ w) as [[res w1]|] eqn:Er; simpl; [|done].
  destruct res as [err|user]; [intros [= <- <- <-]; exists (inl err), w1; split; [done|constructor]|].
  destruct (Web_Now w1) as [now w2] eqn:E1. destruct (Web_Now w2) as [since1 w3] eqn:E2.
  destruct (Web_Now w3) as [since2 w4] eqn:E3. destruct (shouldProcess _ cache) as [b c1] eqn:Es.
  destruct b; cbn [negb]; cycle 1.
  { intros [= <- <- <-]. exists (inr user), w1. split; [done|]. by econstructor. }
  match goal with |- context [mbind _ ?m] => destruct m as [w5|] eqn:Eh end; cbn [mbind outcome_bind]; [|done].
  intros [= <- <- <-]. exists (inr user), w1. split; [done|]. econstructor; [done..|]. split; [done|].
  revert Eh. case_bool_decide; case_decide; try done. by intros [= ->].
Qed.

Lemma user_request_clock t id name hook cache res w r cache' w' :
  user_request t id name hook cache res w r cache' w' →
  clock w ≤ clock w' ∧ (cache' = cache ∨ ∃ c, clock w ≤ hook_now c ≤ clock w' ∧ shouldProcess c cache = (true, cache')).
Proof using CF.
  destruct 1 as [|user w now s1 s2 w1 w2 w3 b cache' r w' E1 E2 E3 Es Hb]; [split; [done|by left]|].
  pose proof (forward_Now w) as Hn1. pose proof (forward_Now w1) as Hn2. pose proof (forward_Now w2) as Hn3.
  rewrite E1, E2, E3 in *. simpl in *. assert (clock w3 ≤ clock w').
  { destruct b; [|destruct Hb; by subst]. destruct Hb as [_ Hb].
    destruct (decide _) in Hb; [by eapply forward_Handle|by subst]. }
  split; [lia|]. destruct b.
  - right. eexists. split; [|exact Es]. simpl. lia.
  - left. unfold shouldProcess in Es. repeat case_match; by simplify_eq.
Qed.

(** Any request to [api]: the clock goes on, and the cache is as it was or has
    let one webhook through. *)
Lemma api_clock t ar an uri id hook cache w r cache' w' :
  api t ar an uri id hook cache w = Ret (r, cache', w') →
  clock w ≤ clock w' ∧ (cache' = cache ∨ ∃ c, clock w ≤ hook_now c ≤ clock w' ∧ shouldProcess c cache = (true, cache')).
Proof using CF.
  unfold api. case_bool_decide; [intros [= <- <- <-]; split; [done|by left]|].
  destruct hook as [hook|]; [|intros [= <- <- <-]; split; [done|by left]].
  match goal with |- context [Web_GetFamilyGroupByPlex ?u w] =>
    pose proof (forward_Family u w) as Hf; destruct (Web_GetFamilyGroupByPlex u w) as [fam w0] end.
  simpl in Hf.
  assert (∀ name, handleUserWebhook t uri id name hook cache w0 = Ret (r, cache', w') →
    clock w ≤ clock w' ∧ (cache' = cache ∨ ∃ c, clock w ≤ hook_now c ≤ clock w' ∧ shouldProcess c cache = (true, cache'))) as Hu.
  { intros name (res & w1 & Er & Hu)%handleUserWebhook_inv. apply forward_resolve_user in Er.
    apply user_request_clock in Hu as [Hc Hu]. split; [lia|]. destruct Hu as [?|(c & ? & ?)]; [by left|right].
    exists c. split; [lia|done]. }
  destruct fam as [[g|]|]; [|by apply Hu..].
  pose proof (forward_handleFamilyWebhook t ar an hook g w0) as Hg.
  destruct (handleFamilyWebhook t ar an hook g w0) as [r1 w1]. simpl in Hg. intros [= <- <- <-].
  split; [lia|by left].
Qed.

(** ** Requests in between *)

(** Other requests to [api], of any user, and whatever else the program does. *)
Inductive meanwhile : webhookDedupeCache * W → webhookDedupeCache * W → Prop :=
| another_request t ar an uri id hook cache w r cache' w' :
    api t ar an uri id hook cache w = Ret (r, cache', w') → meanwhile (cache, w) (cache', w')
| something_else cache w w' : clock w ≤ clock w' → meanwhile (cache, w) (cache, w').

(** The key was let through at some time from [lo] on. *)
Definition remembered (key : string) (lo : Time) (cache : webhookDedupeCache) (hi : Time) : Prop :=
  ∃ last, entries cache !! key = Some last ∧ lo ≤ last ≤ hi.

Lemma remembered_later key lo cache hi hi' : remembered key lo cache hi → hi ≤ hi' → remembered key lo cache hi'.
Proof. intros (l & E & ?) ?. exists l. split; [done|lia]. Qed.

Lemma shouldProcess_remembers c cache cache' key lo hi hi' :
  shouldProcess c cache = (true, cache') → hi ≤ hook_now c ≤ hi' → lo ≤ hi → hi' < lo + 10 * Second →
  specificKey c = key ∨ remembered key lo cache hi → remembered key lo cache' hi'.
Proof.
  unfold shouldProcess. repeat case_match; try done. intros [= <-] Hc Hlo Hhi Hk. unfold remembered, cleanup. simpl.
  assert (∃ last, <[specificKey c := hook_now c]> (entries cache) !! key = Some last ∧ lo ≤ last ≤ hi')
    as (last & E & Hl).
  { destruct (decide (specificKey c = key)) as [->|Hne].
    - exists (hook_now c). rewrite lookup_insert_eq. split; [done|lia].
    - destruct Hk as [?|(last & E & ?)]; [done|]. exists last. rewrite lookup_insert_ne by done. split; [done|lia]. }
  exists last. split; [|done]. apply map_lookup_filter_Some. split; [done|]. simpl.
  unfold time_Add, Before. apply Z.ltb_ge. lia.
Qed.

Lemma meanwhile_clock s s' : rtc meanwhile s s' → clock s.2 ≤ clock s'.2.
Proof using CF.
  induction 1 as [|s s1 s2 Hstep _ IH]; [done|]. etrans; [|exact IH].
  destruct Hstep as [t ar an uri id hook cache w r cache' w' [? _]%api_clock|]; done.
Qed.

Lemma meanwhile_remembers key lo s s' :
  rtc meanwhile s s' → remembered key lo s.1 (clock s.2) → lo ≤ clock s.2 → clock s'.2 < lo + 10 * Second →
  remembered key lo s'.1 (clock s'.2).
Proof using CF.
  induction 1 as [|s s1 s2 Hstep Hrest IH]; intros Hrem Hlo Hlt; [done|]. apply meanwhile_clock in Hrest.
  assert (clock s.2 ≤ clock s1.2 ∧ remembered key lo s1.1 (clock s1.2)) as [Hc Hr1].
  { destruct Hstep as [t ar an uri id hook cache w r cache1 w1 E|cache w w1 Hc]; simpl in *.
    - apply api_clock in E as [Hc [->|(c & Hn & E)]]; (split; [done|]).
      + by eapply remembered_later.
      + eapply shouldProcess_remembers; [exact E|exact Hn|done|lia|by right].
    - split; [done|]. by eapply remembered_later. }
  apply IH; [done|lia|done].
Qed.

Lemma handleFamilyWebhook_not_success t ar an hook g w :
  (handleFamilyWebhook t ar an hook g w).1 ≠ success.
Proof.
  unfold handleFamilyWebhook. destruct (Web_ListGroupMembers _ w) as [[members|] w1]; [|done].
  case_bool_decide; [done|]. destruct (newCorrelationID w1) as [eid w2].
  destruct (ParseWebhookForScrobble _ w2) as [[[body action] ok] w3]. by destruct ok.
Qed.

(** A webhook that was let through is remembered. *)
Lemma api_success_remembered t ar an uri id hook cache w cache' w' :
  api t ar an uri id (Some hook) cache w = Ret (success, cache', w') → clock w' < clock w + 10 * Second →
  remembered (hook_key id hook) (clock w) cache' (clock w').
Proof using CF.
  unfold api. case_bool_decide; [done|].
  match goal with |- context [Web_GetFamilyGroupByPlex ?u w] =>
    pose proof (forward_Family u w) as Hf; destruct (Web_GetFamilyGroupByPlex u w) as [fam w0] end.
  simpl in Hf. intros E Hlt.
  assert (∀ name, handleUserWebhook t uri id name hook cache w0 = Ret (success, cache', w') →
    remembered (hook_key id hook) (clock w) cache' (clock w')) as Hu.
  { clear E. intros name (res & w1 & Er & Hu)%handleUserWebhook_inv. apply forward_resolve_user in Er.
    inversion Hu as [|user w2 now s1 s2 w3 w4 w5 b cache1 r w6 E1 E2 E3 Es Hb]; subst.
    pose proof (user_request_clock _ _ _ _ _ _ _ _ _ _ Hu) as [Hc _].
    destruct b; [|by destruct Hb]. destruct Hb as [_ Hb].
    pose proof (forward_Now w1) as Hn1. pose proof (forward_Now w3) as Hn2. pose proof (forward_Now w4) as Hn3.
    rewrite E1, E2, E3 in *. simpl in *. assert (clock w5 ≤ clock w').
    { destruct (decide _) in Hb; [by eapply forward_Handle|by subst]. }
    eapply (shouldProcess_remembers _ _ _ _ _ (clock w1)); [exact Es|simpl; lia|lia|lia|by left]. }
  destruct fam as [[g|]|]; [|by eapply Hu..]. exfalso.
  pose proof (handleFamilyWebhook_not_success t ar an hook g w0) as Hn.
  destruct (handleFamilyWebhook t ar an hook g w0) as [r wr]. simpl in Hn. by simplify_eq.
Qed.

(** C17: a webhook of a user that Plex sends twice is handled once.  Let the
    first request be answered with success, let any other requests and whatever
    else come in between, and let a request for the same id with the same event,
    item and offset end less than two seconds after the first began.  If it is
    not routed to a family (family webhooks are not deduplicated at all), then
    nothing happens but the look-up of the user with a refresh of its tokens
    when they are due, and three readings of the clock: neither the Trakt
    client nor the playback cache, the queue or the deduplication cache are
    touched, and the answer is [duplicate_filtered], or the error of the
    look-up. *)
Theorem repeated_webhook_not_processed (t : Trakt) (ar : list GroupMember → list GroupMember)
    (an : GroupMember → request → result response) (uri uri' id : string) (hook hook' : Webhook)
    (cache cache1 cache2 cache3 : webhookDedupeCache) (w w1 w2 w2' w3 : W)
    (r : reply) (family : result (option FamilyGroup)) :
  api t ar an uri id (Some hook) cache w = Ret (success, cache1, w1) →
  rtc meanwhile (cache1, w1) (cache2, w2) →
  hook_key id hook' = hook_key id hook →
  let username := ToLower (Account_Title (Hook_Account hook')) in
  Web_GetFamilyGroupByPlex username w2 = (family, w2') → (∀ g, family ≠ Ok (Some g)) →
  api t ar an uri' id (Some hook') cache2 w2 = Ret (r, cache3, w3) →
  clock w3 - clock w < 2 * Second →
  ∃ found w', resolve_user t uri' id username hook' w2' = Ret (found, w') ∧ cache3 = cache2 ∧
    match found with
    | inl err => r = mkReply (Code err) [("error", JStr (Message err))] ∧ w3 = w'
    | inr _ => r = mkReply 200 [("result", JStr "duplicate_filtered")] ∧
               w3 = (Web_Now (Web_Now (Web_Now w').2).2).2
    end.
Proof using CF.
  intros E1 Hmid Hkey username Hfam Hnf E2 Hclock.
  pose proof (api_clock _ _ _ _ _ _ _ _ _ _ _ E1) as [Hc1 _]. pose proof (meanwhile_clock _ _ Hmid) as Hc2.
  pose proof (api_clock _ _ _ _ _ _ _ _ _ _ _ E2) as [Hc3 _]. simpl in Hc2.
  assert (remembered (hook_key id hook) (clock w) cache2 (clock w2)) as (last & El & Hl).
  { apply (meanwhile_remembers _ _ _ _ Hmid); simpl; [|lia|unfold Second in *; lia].
    eapply api_success_remembered; [exact E1|unfold Second in *; lia]. }
  unfold api in E2. case_bool_decide as Hid; [unfold api in E1; by rewrite bool_decide_eq_true_2 in E1|].
  fold username in E2. rewrite Hfam in E2.
  assert (handleUserWebhook t uri' id username hook' cache2 w2' = Ret (r, cache3, w3)) as E3
    by (destruct family as [[g|]|]; [by destruct (Hnf g)|done|done]).
  apply handleUserWebhook_inv in E3 as (found & w' & Er & Hu). exists found, w'. split; [done|].
  inversion Hu as [|user w4 now s1 s2 w5 w6 w7 b cache4 r' w8 N1 N2 N3 Es Hb]; subst; [done|].
  assert (b = false) as ->.
  { destruct b; [|done]. exfalso. unfold shouldProcess in Es.
    destruct (seen_within (entries cache2) _ _ _) eqn:Eseen; [done|]. revert Eseen. unfold seen_within.
    change (specificKey _) with (hook_key id hook'). rewrite Hkey, El. simpl.
    rewrite time_Sub_ltb by (unfold int64_max, Second; lia). intros Hge%Z.ltb_ge.
    pose proof (forward_Now w') as Hn1. pose proof (forward_Now w5) as Hn2. pose proof (forward_Now w6) as Hn3.
    rewrite N1, N2, N3 in *. simpl in *. destruct Hb as [_ Hb]. assert (clock w7 ≤ clock w3).
    { destruct (decide _) in Hb; [by eapply forward_Handle|by subst]. }
    lia. }
  destruct Hb as [-> ->]. split; [|by rewrite N1; simpl; rewrite N2; simpl; rewrite N3].
  unfold shouldProcess in Es. repeat case_match; by simplify_eq.
Qed.
End Clock.

(** ** Broadcasts and authorized users *)

Section Properties.
Context {W : Type} `{UnicodeTables, JsonText, UrlText, Http W, ScrobbleStore W, WebStore W}.

(** Whether Trakt accepted a member's scrobble. *)
Definition accepted (t : Trakt) (action : string) (body : ScrobbleBody)
    (answer : GroupMember → request → result response) (m : GroupMember) : bool :=
  match (send_to t action body m (answer m)).1 with None => true | Some _ => false end.

Lemma length_broadcast t action body members eid title answer :
  List.length (BroadcastScrobble t action body members members eid title answer) =
  List.length (filter (λ m, accepted t action body answer m = false) members).
Proof.
  unfold BroadcastScrobble. destruct members as [|m0 l]; [done|]. generalize (m0 :: l). clear m0 l.
  intros l. induction l as [|m l IH]; [done|].
  cbn [omap list_omap]. destruct (accepted t action body answer m) eqn:Ea.
  - rewrite filter_cons_False by congruence. rewrite <-IH. unfold accepted in Ea.
    by destruct (send_to t action body m (answer m)) as [[err|] status].
  - rewrite filter_cons_True by done. simpl. rewrite <-IH. unfold accepted in Ea.
    by destruct (send_to t action body m (answer m)) as [[err|] status].
Qed.

Lemma BroadcastScrobble_perm t action body members arrival eid title answer :
  arrival ≡ₚ members →
  BroadcastScrobble t action body members arrival eid title answer ≡ₚ
  BroadcastScrobble t action body members members eid title answer.
Proof. intros Hp. unfold BroadcastScrobble. destruct members; [done|]. by rewrite Hp. Qed.

Lemma length_filter_split {A} (f : A → bool) (l : list A) :
  List.length l = (List.length (filter (λ x, f x = true) l) + List.length (filter (λ x, f x = false) l))%nat.
Proof.
  induction l as [|x l IH]; [done|]. rewrite !filter_cons. simpl. rewrite IH.
  destruct (f x); simpl; lia.
Qed.

Lemma handle_errors_obs {A} (obs : W → A) errs : ∀ w,
  (∀ w, obs (Web_Now w).2 = obs w) → (∀ w, obs (Web_Rand w).2 = obs w) →
  obs (foldl handle_error w errs) = obs w.
Proof.
  induction errs as [|b errs IH]; intros w Hn Hr; simpl; [done|]. rewrite IH by done. clear IH.
  unfold handle_error, newCorrelationID. destruct (IsRetryable b); [|done].
  pose proof (Hr w) as Hr1. destruct (Web_Rand w) as [[rnd nanos] w1]. simpl in Hr1.
  pose proof (Hn w1) as H1'. destruct (Web_Now w1) as [t1 w2]. simpl in H1'.
  pose proof (Hn w2) as H2'. destruct (Web_Now w2) as [t2 w3]. simpl in H2'.
  pose proof (Hn w3) as H3'. destruct (Web_Now w3) as [t3 w4]. simpl in H3'. congruence.
Qed.

(** C18: the answer to a family webhook accounts for every authorized member
    exactly once, as a success when Trakt accepted the member's scrobble and
    as a failure otherwise, whatever order the members' requests finish in.
    Nothing is kept for the failed members, retryable or not: whatever the
    clock and the random source leave alone is as it was before the
    broadcast. *)
Theorem handleFamilyWebhook_accounts {A} (t : Trakt) (ar : list GroupMember → list GroupMember)
    (an : GroupMember → request → result response) (hook : Webhook) (g : FamilyGroup)
    (w w1 w3 : W) (members : list GroupMember) (body : ScrobbleBody) (action : string) (obs : W → A) :
  Web_ListGroupMembers (FG_ID g) w = (Ok members, w1) → (∀ l, ar l ≡ₚ l) →
  (∀ w, obs (Web_Now w).2 = obs w) → (∀ w, obs (Web_Rand w).2 = obs w) →
  let authorized := filter (λ m, GM_AuthorizationStatus m = "authorized") members in
  authorized ≠ [] →
  ParseWebhookForScrobble (Some hook) (newCorrelationID w1).2 = (body, action, true, w3) →
  let count b := Z.of_nat (List.length (filter (λ m, accepted t action body an m = b) authorized)) in
  ∃ w', handleFamilyWebhook t ar an hook g w =
      (mkReply 200 [("result", JStr "success"); ("event_id", JStr (newCorrelationID w1).1);
                    ("members_total", enc_int (count true + count false));
                    ("members_success", enc_int (count true)); ("members_failed", enc_int (count false))],
       w') ∧ obs w' = obs w3.
Proof.
  intros Hl Har Hn Hr authorized Hne Hp count. unfold handleFamilyWebhook. rewrite Hl.
  fold authorized. rewrite bool_decide_eq_false_2 by done.
  destruct (newCorrelationID w1) as [eid w2]. cbn [snd] in Hp. rewrite Hp. cbn [negb].
  set (errs := BroadcastScrobble _ _ _ _ _ _ _ _).
  assert (List.length errs =
    List.length (filter (λ m, accepted t action body an m = false) authorized)) as ->.
  { unfold errs. erewrite (Permutation_length (BroadcastScrobble_perm _ _ _ _ _ _ _ _ (Har authorized))).
    apply length_broadcast. }
  pose proof (length_filter_split (accepted t action body an) authorized) as Hsplit.
  eexists; split; [|by apply handle_errors_obs].
  unfold count, StatusOK. rewrite Hsplit. do 2 f_equal. simpl.
  repeat (f_equal; try lia).
Qed.

(** re-authorizing an existing user never binds the account to another
    Plex name.  A name that differs from the stored one, up to case and
    surrounding blanks, is refused with [errUsernameMismatch]; without any name
    the call fails; in both cases nothing is written.  Otherwise the user is
    written with the stored name if there is one, the new tokens, and the same
    id. *)
Lemma persistAuthorizedUser_existing (username existingID access refresh : string)
    (display : option string) (expiry : Time) (w w1 : W) (u : User) :
  existingID ≠ "" → Web_GetUser existingID w = Ret (Some u, w1) → U_store u = true →
  let result := persistAuthorizedUser username existingID access refresh display expiry w in
  let input := ToLower (TrimSpace username) in
  let stored := ToLower (TrimSpace (U_Username u)) in
  if decide (stored ≠ "" ∧ input ≠ "" ∧ stored ≠ input) then result = Ret (Err errUsernameMismatch, w1)
  else if decide (stored = "" ∧ input = "") then ∃ err, result = Ret (Err err, w1)
  else
    let '(now, w2) := Web_Now w1 in
    let u' := mkUser (U_ID u) (if decide (stored = "") then input else stored) access refresh
                (match display with Some d => (NormalizeDisplayName d).1 | None => U_TraktDisplayName u end)
                now expiry true in
    match Web_WriteUser u' w2 with
    | Ret w3 => result = Ret (Ok (u', true), w3)
    | Panic why => result = Panic why
    end.
Proof.
  intros Hid Hg Hs result input stored. unfold result, persistAuthorizedUser.
  rewrite bool_decide_eq_true_2 by done. rewrite Hg. cbn [mbind outcome_bind].
  fold input stored. unfold UpdateUser, save, set_Username. simpl. rewrite Hs.
  clearbody input stored.
  destruct (decide (stored ≠ "" ∧ input ≠ "" ∧ stored ≠ input)) as [(Hs1 & Hi1 & Hneq)|Hn1].
  { rewrite (bool_decide_eq_false_2 (stored = "")), (bool_decide_eq_false_2 (input = "")) by done. simpl.
    by rewrite !bool_decide_eq_true_2 by done. }
  destruct (decide (stored = "" ∧ input = "")) as [[-> ->]|Hn2]; [by eexists|].
  set (name := if decide (stored = "") then input else stored).
  match goal with |- context [if _ && _ then (input, input) else ?e] =>
    assert ((if bool_decide (stored = "") && bool_decide (input ≠ "") then (input, input) else e) = (name, name)) as ->
  end.
  { unfold name. destruct (decide (stored = "")) as [->|Es].
    - rewrite !bool_decide_eq_true_2 by tauto. done.
    - rewrite (bool_decide_eq_false_2 (stored = "")), (bool_decide_eq_true_2 (stored ≠ "")) by done. simpl.
      case_bool_decide; [done|]. simpl. destruct (decide (stored = input)) as [->|]; [done|tauto]. }
  assert (name ≠ "") as Hname by (unfold name; case_decide; [intros ->; tauto|done]).
  rewrite (bool_decide_eq_false_2 (name ≠ name)) by tauto. rewrite andb_false_r.
  rewrite (bool_decide_eq_false_2 (name = "")) by done.
  destruct (Web_Now w1) as [now w2]. by destruct (Web_WriteUser _ w2).
Qed.
End Properties.

(** ** Examples *)

(** A small site: the clock advances by a millisecond per reading, Trakt
    accepts every request, and a member is turned away by its token. *)
Record Site := mkSite {
  site_clock : Time;
  site_users : gmap string User;
  site_members : list GroupMember;
  site_cached : list CacheItem;
}.

#[local] Existing Instances ascii_tables tree_text plain_urls.

#[local] Instance site_http : Http Site := {
  Do _ w := (Ok (mkResponse 201 "201 Created" (json_print (JObj [])) None), w);
}.
#[local] Instance site_store : ScrobbleStore Site := {
  Store_GetScrobbleBody _ _ w := (emptyCacheItem, w);
  Store_WriteScrobbleBody c w :=
    Ret (mkSite (site_clock w) (site_users w) (site_members w) (c :: site_cached w));
  Store_EnqueueScrobble e w := (None, w);
  Store_GetQueueSize _ w := (Ok 0, w);
  queueEventLog_Append _ w := Ret w;
  store_Now w := (site_clock w, w);
}.
#[local] Instance site_web : WebStore Site := {
  Web_GetFamilyGroupByPlex u w :=
    (if bool_decide (u = "home") then Ok (Some (mkFG "fg" "home" 0 0)) else Err ErrFamilyGroupNotFound, w);
  Web_ListGroupMembers _ w := (Ok (site_members w), w);
  Web_GetUser id w := Ret (site_users w !! id, w);
  Web_GetUserByName n w := Ret (None, w);
  Web_WriteUser u w :=
    Ret (mkSite (site_clock w) (<[U_ID u := u]> (site_users w)) (site_members w) (site_cached w));
  Web_Now w := (site_clock w, mkSite (site_clock w + 10 ^ 6) (site_users w) (site_members w) (site_cached w));
  Web_Rand w := (Some (replicate 16 171), 0, w);
  Web_uuid w := ("new", w);
}.

Lemma site_forward : ClockForward Site site_clock.
Proof.
  split; simpl; try done; try (intros; simplify_eq; simpl; lia).
Qed.

Definition site0 : Site :=
  mkSite (1700000000 * Second)
    {["u1" := mkUser "u1" "sam" "token" "refresh" "Sam" 0 (1800000000 * Second) true]}
    [mkGM "a" "fg" "A" "ann" "t1" "" None "authorized" 0; mkGM "b" "fg" "B" "bob" "t2" "" None "authorized" 0;
     mkGM "c" "fg" "C" "" "" "" None "pending" 0] [].
Definition site_answer (m : GroupMember) (_ : request) : result response :=
  if bool_decide (GM_ID m = "a") then Ok (mkResponse 201 "" "" None) else Err (Errorf "no route to host").
(** The state after a webhook of user [u1]. *)
Definition site_api (cache : webhookDedupeCache) (w : Site) : outcome (reply * webhookDedupeCache * Site) :=
  api (New "id" "secret") id site_answer "https://plaxt/authorize" "u1"
    (Some (movie_hook "media.stop" 6000000 6000000)) cache w.
Definition after_webhook : webhookDedupeCache * Site :=
  match site_api newWebhookDedupeCache site0 with
  | Ret (_, c, w) => (c, w)
  | Panic _ => (newWebhookDedupeCache, site0)
  end.

(** A webhook of the family comes in between. *)
Definition family_hook : Webhook :=
  mkWebhook "media.stop" true true (mkAccount 1 "Home") (Hook_Metadata (movie_hook "media.stop" 6000000 6000000))
    (mkServer "home" "server") (mkPlayer "tv" "player").
Definition family_api (cache : webhookDedupeCache) (w : Site) : outcome (reply * webhookDedupeCache * Site) :=
  api (New "id" "secret") id site_answer "https://plaxt/authorize" "u2" (Some family_hook) cache w.
Definition after_family : webhookDedupeCache * Site :=
  match family_api after_webhook.1 after_webhook.2 with
  | Ret (_, c, w) => (c, w)
  | Panic _ => (newWebhookDedupeCache, site0)
  end.
Lemma after_family_meanwhile :
  rtc (meanwhile site_clock) (after_webhook.1, after_webhook.2) (after_family.1, after_family.2).
Proof.
  apply rtc_once. unfold after_family.
  destruct (family_api after_webhook.1 after_webhook.2) as [[[r c] w]|] eqn:E; [|vm_compute in E; discriminate].
  by eapply another_request, E.
Qed.

Lemma repeated_webhook_not_processed_witness :
  match site_api after_family.1 after_family.2 with
  | Ret (r, cache, w) => ∃ found w',
      resolve_user (New "id" "secret") "https://plaxt/authorize" "u1" "sam"
        (movie_hook "media.stop" 6000000 6000000) after_family.2 = Ret (found, w') ∧ cache = after_family.1 ∧
      match found with
      | inl err => r = mkReply (Code err) [("error", JStr (Message err))] ∧ w = w'
      | inr _ => r = mkReply 200 [("result", JStr "duplicate_filtered")] ∧
                 w = (Web_Now (Web_Now (Web_Now w').2).2).2
      end
  | Panic _ => False
  end.
Proof.
  destruct (site_api after_family.1 after_family.2) as [[[r c] w]|] eqn:E;
    [|vm_compute in E; discriminate].
  apply (repeated_webhook_not_processed site_clock (CF:=site_forward) (New "id" "secret") id site_answer
           "https://plaxt/authorize" "https://plaxt/authorize" "u1" (movie_hook "media.stop" 6000000 6000000)
           (movie_hook "media.stop" 6000000 6000000) newWebhookDedupeCache
           after_webhook.1 after_family.1 c site0 after_webhook.2 after_family.2 after_family.2 w r
           (Err ErrFamilyGroupNotFound)).
  - vm_compute. reflexivity.
  - exact after_family_meanwhile.
  - reflexivity.
  - vm_compute. reflexivity.
  - discriminate.
  - exact E.
  - vm_compute in E. injection E as <- <- <-. vm_compute. reflexivity.
Defined.

Lemma handleFamilyWebhook_accounts_witness :
  reply_json (handleFamilyWebhook (New "id" "secret") id site_answer
                (movie_hook "media.stop" 6000000 6000000) (mkFG "fg" "home" 0 0) site0).1 =
  [("result", JStr "success"); ("event_id", JStr "abababababab4bababababababababab");
   ("members_total", enc_int 2); ("members_success", enc_int 1); ("members_failed", enc_int 1)].
Proof.
  destruct (handleFamilyWebhook_accounts (New "id" "secret") id site_answer
              (movie_hook "media.stop" 6000000 6000000) (mkFG "fg" "home" 0 0) site0 site0 site0
              (site_members site0) (mkBody 100 (Some (mkMovie None None (mkIds None None None (Some 949) None))) None None)
              "stop" site_cached) as (w' & E & _).
  - reflexivity.
  - done.
  - done.
  - done.
  - vm_compute. discriminate.
  - vm_compute. reflexivity.
  - rewrite E. vm_compute. reflexivity.
Defined.

Lemma persistAuthorizedUser_existing_witness :
  persistAuthorizedUser "mallory" "u1" "a" "r" None 0 site0 = Ret (Err errUsernameMismatch, site0).
Proof.
  exact (persistAuthorizedUser_existing "mallory" "u1" "a" "r" None 0 site0 site0
    (mkUser "u1" "sam" "token" "refresh" "Sam" 0 (1800000000 * Second) true)
    ltac:(done) eq_refl eq_refl).
Defined.
