(* ===== verification/Request.v ===== *)
(** * Requests: [main.go], lines 426-556, 2251-2318, 3505-3578

    The part of an HTTP request that the handlers read, the external address of
    the server ([SelfRoot]), the check of the host name ([allowedHostsHandler])
    and the middlewares.  Of the standard library: [strings.SplitN], [Trim],
    [net.SplitHostPort], [url.URL.String], [url.QueryEscape] and
    [url.Values.Encode]. *)

From S2P Require Import Prelude GoLib Text Float Json Instances Common Entities Buffers Trakt Sessions Webhooks.

Open Scope Z_scope.

(** ** Requests *)

(** Headers by their canonical name, query parameters and route variables: the
    first value of each. *)
Record Request := mkReq {
  R_Method : string;
  R_Scheme : string;
  R_URLHost : string;
  R_Path : string;
  R_Host : string;
  R_TLS : bool;
  R_Header : gmap string string;
  R_Query : gmap string string;
  R_Vars : gmap string string;
  R_Body : string;
}.

Definition value_of (m : gmap string string) (key : string) : string := default "" (m !! key).

(** ** Standard library *)

(** [strings.SplitN(s, sep, 2)] as the part before and, if there is a
    separator, the part after it. *)
Definition split_once (s : string) (sep : ascii) : string * option string :=
  match IndexByte s sep with
  | Some i => (slice_to i s, Some (slice_from (S i) s))
  | None => (s, None)
  end.

Fixpoint drop_byte (a : ascii) (l : list ascii) : list ascii :=
  match l with
  | [] => []
  | b :: k => if Ascii.eqb a b then drop_byte a k else l
  end.
(** [strings.Trim] with a set of one byte. *)
Definition Trim (s : string) (a : ascii) : string :=
  of_bytes (rev (drop_byte a (rev (drop_byte a (bytes s))))).

Definition has_byte (s : string) (a : ascii) : bool := bool_decide (is_Some (IndexByte s a)).

(** [net.SplitHostPort]; [None] is its error. *)
Definition SplitHostPort (hostport : string) : option (string * string) :=
  match LastIndexByte hostport ":" with
  | None => None
  | Some i =>
      let port := slice_from (S i) hostport in
      if HasPrefix hostport "[" then
        match IndexByte hostport "]" with
        | None => None
        | Some e =>
            if bool_decide (S e = i) then
              if has_byte (slice_from 1 hostport) "[" || has_byte (slice_from (S e) hostport) "]"
              then None else Some (slice_from 1 (slice_to e hostport), port)
            else None
        end
      else
        let host := slice_to i hostport in
        if has_byte host ":" || has_byte hostport "[" || has_byte hostport "]" then None
        else Some (host, port)
  end.

Definition is_alnum (a : ascii) : bool :=
  let n := N_of_ascii a in
  ((48 <=? n) && (n <=? 57) || (65 <=? n) && (n <=? 90) || (97 <=? n) && (n <=? 122))%N.
Definition one_of (a : ascii) (s : string) : bool := existsb (Ascii.eqb a) (bytes s).

(** [%XX] with upper-case digits. *)
Definition upper_hex (d : Z) : ascii := ascii_of_N (Z.to_N (if d <? 10 then 48 + d else 55 + d)).
Definition percent (a : ascii) : list ascii :=
  let n := Z.of_N (N_of_ascii a) in ["%"%char; upper_hex (n `div` 16); upper_hex (n `mod` 16)].

(** The bytes of a host that [url.URL.String] leaves as they are; 34 is the
    double quote. *)
Definition host_byte (a : ascii) : bool :=
  is_alnum a || one_of a "-_.~!$&'()*+,;=:[]<>" || (N_of_ascii a =? 34)%N.
Definition escape_host (s : string) : string :=
  of_bytes (bytes s ≫= λ a, if host_byte a then [a] else percent a).

(** [(&url.URL{Scheme: scheme, Host: host}).String()] for a host that is not empty. *)
Definition URL_String (scheme host : string) : string :=
  (if bool_decide (scheme = "") then "" else scheme +:+ ":") +:+ "//" +:+ escape_host host.

(** [url.QueryEscape] *)
Definition QueryEscape (s : string) : string :=
  of_bytes (bytes s ≫= λ a,
    if is_alnum a || one_of a "-_.~" then [a] else if Ascii.eqb a " " then ["+"%char] else percent a).

(** [url.Values.Encode] when every key has one value: in the order of the keys. *)
Definition key_le (a b : string * string) : Prop := String.le a.1 b.1.
#[global] Instance key_le_dec : RelDecision key_le.
Proof. intros a b. apply String.le_dec. Defined.
Definition Encode (values : gmap string string) : string :=
  Join ((λ kv, QueryEscape kv.1 +:+ "=" +:+ QueryEscape kv.2) <$> merge_sort key_le (map_to_list values)) "&".

(** ** [SelfRoot] *)

Section Root.
Context `{UnicodeTables}.

Definition firstForwardVal (raw : string) : string :=
  if bool_decide (raw = "") then "" else
  match Split raw "," with
  | [] => ""
  | part :: _ => TrimSpace part
  end.

(** One [key=value] of a [Forwarded] header: the first host and the first
    protocol count. *)
Definition forwarded_pair (acc : string * string) (pair : string) : string * string :=
  let pair := TrimSpace pair in
  if bool_decide (pair = "") then acc else
  match split_once pair "=" with
  | (_, None) => acc
  | (key, Some value) =>
      let key := ToLower (TrimSpace key) in
      let value := Trim (TrimSpace value) "034" in
      if bool_decide (key = "host") then
        if bool_decide (acc.1 = "") && bool_decide (value ≠ "") then (value, acc.2) else acc
      else if bool_decide (key = "proto") then
        if bool_decide (acc.2 = "") && bool_decide (value ≠ "") then (acc.1, ToLower value) else acc
      else acc
  end.

Fixpoint forwarded_segments (acc : string * string) (segments : list string) : string * string :=
  match segments with
  | [] => acc
  | segment :: segments =>
      let segment := TrimSpace segment in
      if bool_decide (segment = "") then forwarded_segments acc segments else
      let acc := foldl forwarded_pair acc (Split segment ";") in
      if bool_decide (acc.1 ≠ "") && bool_decide (acc.2 ≠ "") then acc
      else forwarded_segments acc segments
  end.

Definition parseForwarded (raw : string) : string * string :=
  if bool_decide (raw = "") then ("", "") else forwarded_segments ("", "") (Split raw ",").

(** Scheme and host after the headers of a trusted proxy. *)
Definition proxied (r : Request) (scheme host : string) : string * string :=
  let '(forwardedHost, forwardedProto) := parseForwarded (value_of (R_Header r) "Forwarded") in
  let host := if bool_decide (forwardedHost ≠ "") then forwardedHost else host in
  let scheme := if bool_decide (forwardedProto ≠ "") then forwardedProto else scheme in
  let xfHost := firstForwardVal (value_of (R_Header r) "X-Forwarded-Host") in
  let host := if bool_decide (xfHost ≠ "") then xfHost else host in
  let xfProto := firstForwardVal (value_of (R_Header r) "X-Forwarded-Proto") in
  let scheme := if bool_decide (scheme = "") && bool_decide (xfProto ≠ "") then ToLower xfProto else scheme in
  (scheme, host).

(** The port a proxy adds to a host without one, unless it is the scheme's own. *)
Definition with_port (xfPort scheme host : string) : string :=
  if bool_decide (xfPort = "") then host else
  let added := host +:+ ":" +:+ xfPort in
  if bool_decide (xfPort = "80") then if bool_decide (scheme ≠ "http") then added else host
  else if bool_decide (xfPort = "443") then if bool_decide (scheme ≠ "https") then added else host
  else added.

Definition SelfRoot (trustProxy : bool) (r : Request) : string :=
  let scheme := TrimSpace (R_Scheme r) in
  let host := TrimSpace (R_Host r) in
  let '(scheme, host) := if trustProxy then proxied r scheme host else (scheme, host) in
  let scheme := if bool_decide (scheme = "") && R_TLS r then "https" else scheme in
  let scheme := if bool_decide (scheme = "") then "http" else scheme in
  let host := if bool_decide (host = "") && bool_decide (R_URLHost r ≠ "") then R_URLHost r else host in
  let host := if bool_decide (host = "") then "localhost" else host in
  let host := if trustProxy && negb (Contains host ":")
              then with_port (firstForwardVal (value_of (R_Header r) "X-Forwarded-Port")) scheme host
              else host in
  URL_String scheme host.

(** ** [allowedHostsHandler] *)

(** An entry of the list: lower case, without scheme and path. *)
Definition allowed_entry (p : string) : option string :=
  let h := TrimSpace p in
  if bool_decide (h = "") then None else
  let h := TrimPrefix (TrimPrefix h "https://") "http://" in
  Some (match IndexByte h "/" with Some idx => slice_to idx h | None => h end).

Definition allowedHosts (allowedHostnames : string) : list string :=
  omap allowed_entry (Split (ToLower allowedHostnames) ",").
Definition allowedBare (allowedHostnames : string) : list string :=
  List.filter (λ h, bool_decide (SplitHostPort h = None)) (allowedHosts allowedHostnames).

(** The host of a request without its port. *)
Definition hostOnly (lcHost : string) : string :=
  match SplitHostPort lcHost with
  | Some (host, _) => host
  | None =>
      match LastIndexByte lcHost ":" with
      | Some idx => if negb (Contains (slice_from (S idx) lcHost) ":") then slice_to idx lcHost else lcHost
      | None => lcHost
      end
  end.

Definition isAllowedHost (allowedHostnames host : string) : bool :=
  let lcHost := ToLower (TrimSpace host) in
  existsb (λ value, bool_decide (lcHost = value)) (allowedHosts allowedHostnames) ||
  (negb (bool_decide (allowedBare allowedHostnames = [])) &&
   existsb (λ base, bool_decide (hostOnly lcHost = base)) (allowedBare allowedHostnames)).

(** A response that is not JSON. *)
Definition textReply (status : Z) (body : string) : reply := mkReply status [("text", JStr body)].

(** The middleware around a handler [h]; the path is the escaped one. *)
Definition allowedHostsHandler {W} (allowedHostnames : string) (h : Request → W → outcome (reply * W))
    (r : Request) (w : W) : outcome (reply * W) :=
  if bool_decide (R_Path r = "/healthcheck") then h r w else
  if negb (isAllowedHost allowedHostnames (R_Host r)) then Ret (textReply StatusUnauthorized "Oh no!", w)
  else h r w.
End Root.

(** ** Other middlewares *)

(** A panic of a handler becomes an answer of the server; [lost] is the world
    the panic left behind. *)
Definition recoveryMiddleware {W} (h : Request → W → outcome (reply * W)) (lost : W → W) (r : Request) (w : W)
    : reply * W :=
  match h r w with
  | Panic _ => (textReply StatusInternalServerError "internal server error", lost w)
  | Ret x => x
  end.

(** Whether a request is logged. *)
Definition interesting : list string :=
  ["/api"; "/authorize"; "/manual/authorize"; "/oauth/state"; "/healthcheck"].
Definition shouldLog (requestLogMod path : string) (status : Z) : bool :=
  if bool_decide (requestLogMod = "off") then false
  else if bool_decide (requestLogMod = "all") then true
  else if bool_decide (requestLogMod = "important") then bool_decide (path ∈ interesting) || (400 <=? status)
  else 400 <=? status.

Definition cacheControl (path : string) : option string :=
  if Contains path "/dist/" then Some "public, max-age=31536000, immutable" else None.

(** ** Lemmas: names of hosts *)

Definition name_byte (a : ascii) : bool := is_alnum a || one_of a "-.".
(** The names and ports of the examples and of the configuration. *)
Definition host_name (s : string) : Prop := s ≠ "" ∧ Forall (λ a, name_byte a = true) (bytes s).

Lemma name_byte_facts a :
  name_byte a = true →
  host_byte a = true ∧ is_ascii_byte a = true ∧ space1 a = false ∧
  a ≠ ","%char ∧ a ≠ ":"%char ∧ a ≠ "/"%char ∧ a ≠ "["%char ∧ a ≠ "]"%char.
Proof. by destruct a as [[] [] [] [] [] [] [] []]. Qed.

Lemma host_name_word s : host_name s → word s.
Proof.
  intros [Hne Hs]. split; [done|]. eapply Forall_impl; [exact Hs|]. intros a Ha.
  by destruct (name_byte_facts a Ha) as (_ & ? & ? & _).
Qed.

Lemma host_name_without s a :
  host_name s → a ∈ [","%char; ":"%char; "/"%char; "["%char; "]"%char] → Forall (λ b, b ≠ a) (bytes s).
Proof.
  intros [_ Hs] Ha. eapply Forall_impl; [exact Hs|]. intros b Hb.
  destruct (name_byte_facts b Hb) as (_ & _ & _ & ? & ? & ? & ? & ?).
  rewrite !elem_of_cons in Ha. destruct Ha as [->|[->|[->|[->|[->|Ha]]]]]; [done..|by apply not_elem_of_nil in Ha].
Qed.

Lemma escape_host_name s : Forall (λ a, host_byte a = true) (bytes s) → escape_host s = s.
Proof.
  intros Hs. unfold escape_host.
  assert (bytes s ≫= (λ a, if host_byte a then [a] else percent a) = bytes s) as ->; [|apply of_bytes_bytes].
  induction Hs as [|a l Ha _ IH]; [done|]. rewrite bind_cons, Ha, IH. done.
Qed.

Lemma index_none a l : Forall (λ b, b ≠ a) l → index_b a l = None.
Proof.
  induction 1 as [|b l Hb _ IH]; [done|]. simpl. rewrite (proj2 (Ascii.eqb_neq a b)) by congruence. by rewrite IH.
Qed.

Lemma index_app a l k : Forall (λ b, b ≠ a) l → index_b a (l ++ a :: k) = Some (List.length l).
Proof.
  induction 1 as [|b l Hb _ IH]; simpl; [by rewrite Ascii.eqb_refl|].
  rewrite (proj2 (Ascii.eqb_neq a b)) by congruence. by rewrite IH.
Qed.

Lemma has_byte_none s a : Forall (λ b, b ≠ a) (bytes s) → has_byte s a = false.
Proof. intros Hs. unfold has_byte, IndexByte. by rewrite index_none. Qed.

Lemma contains_none s a : Forall (λ b, b ≠ a) (bytes s) → Contains s (String a "") = false.
Proof.
  intros Hs. destruct (Contains s (String a "")) eqn:E; [|done].
  apply Contains_spec in E as (u & v & ->). rewrite !bytes_app in Hs. apply Forall_app in Hs as [_ Hs].
  by apply Forall_cons in Hs as [Hs _].
Qed.

(** A host with an optional port. *)
Definition host_port (h : string) (p : option string) : string :=
  match p with Some p => h +:+ ":" +:+ p | None => h end.

Lemma bytes_host_port h p : bytes (host_port h (Some p)) = bytes h ++ ":"%char :: bytes p.
Proof. simpl. by rewrite !bytes_app. Qed.

Lemma last_colon_none h : host_name h → LastIndexByte h ":" = None.
Proof.
  intros Hh. unfold LastIndexByte. rewrite index_none; [done|]. apply Forall_rev.
  apply host_name_without; [done|]. by repeat constructor.
Qed.

Lemma last_colon_some h p :
  host_name p → LastIndexByte (host_port h (Some p)) ":" = Some (String.length h).
Proof.
  intros Hp. unfold LastIndexByte. rewrite <-length_bytes, bytes_host_port, rev_app_distr. simpl.
  rewrite <-app_assoc. cbn [app]. rewrite index_app; [|apply Forall_rev, host_name_without; [done|by repeat constructor]].
  simpl. f_equal. rewrite !length_app, length_rev. simpl. rewrite <-!length_bytes. lia.
Qed.

Lemma slice_from_colon h p : slice_from (S (String.length h)) (host_port h (Some p)) = p.
Proof.
  unfold slice_from. rewrite bytes_host_port, <-length_bytes.
  change (bytes h ++ ":"%char :: bytes p) with (bytes h ++ [":"%char] ++ bytes p).
  rewrite app_assoc, drop_app_length'; [apply of_bytes_bytes|]. rewrite length_app. simpl. lia.
Qed.

Lemma slice_to_colon h p : slice_to (String.length h) (host_port h (Some p)) = h.
Proof. exact (slice_to_app h (":" +:+ p)). Qed.

Lemma no_bracket h s : host_name h → HasPrefix (h +:+ s) "[" = false.
Proof.
  intros [Hne Hh]. unfold HasPrefix. rewrite bytes_app.
  destruct (bytes h) as [|a l] eqn:E; [destruct Hne; by rewrite <-(of_bytes_bytes h), E|].
  apply Forall_cons in Hh as [Ha _]. destruct (name_byte_facts a Ha) as (_ & _ & _ & _ & _ & _ & Hb & _).
  change (bytes "[") with ["["%char]. cbn [prefix_b app]. by rewrite (proj2 (Ascii.eqb_neq _ _) (not_eq_sym Hb)).
Qed.

Lemma SplitHostPort_none h : host_name h → SplitHostPort h = None.
Proof. intros Hh. unfold SplitHostPort. by rewrite last_colon_none. Qed.

Lemma SplitHostPort_some h p :
  host_name h → host_name p → SplitHostPort (host_port h (Some p)) = Some (h, p).
Proof.
  intros Hh Hp. unfold SplitHostPort. rewrite last_colon_some by done.
  rewrite slice_from_colon, slice_to_colon. change (host_port h (Some p)) with (h +:+ (":" +:+ p)).
  rewrite no_bracket by done.
  assert (∀ a, a ∈ ["["%char; "]"%char] → has_byte (h +:+ (":" +:+ p)) a = false) as Hb.
  { intros a Ha. apply has_byte_none. rewrite !bytes_app.
    assert (a ∈ [","%char; ":"%char; "/"%char; "["%char; "]"%char]) as Ha' by (by do 3 right).
    apply Forall_app. split; [by apply host_name_without|]. apply Forall_app.
    split; [|by apply host_name_without]. apply Forall_singleton.
    rewrite !elem_of_cons in Ha. by destruct Ha as [->|[->|Ha%not_elem_of_nil]]. }
  rewrite !Hb by (by repeat constructor). rewrite has_byte_none; [done|].
  apply host_name_without; [done|by repeat constructor].
Qed.

Lemma hostOnly_name h p : host_name h → (∀ q, p = Some q → host_name q) → hostOnly (host_port h p) = h.
Proof.
  intros Hh Hp. unfold hostOnly. destruct p as [p|].
  - by rewrite SplitHostPort_some by auto.
  - simpl. by rewrite SplitHostPort_none, last_colon_none.
Qed.

(** ** The host check *)

Section Hosts.
Context `{UT : UnicodeTables}.

Definition lower_name (s : string) : Prop := host_name s ∧ Forall (λ a, lower_byte a = a) (bytes s).
(** A host name, with or without a port, in lower case. *)
Definition lower_host (hp : string * option string) : Prop :=
  lower_name hp.1 ∧ ∀ p, hp.2 = Some p → lower_name p.

Lemma lower_host_bytes h p (P : ascii → Prop) :
  (∀ a, name_byte a = true → lower_byte a = a → P a) → P ":"%char → lower_host (h, p) →
  Forall P (bytes (host_port h p)).
Proof.
  intros HP Hc [Hh Hp]. simpl in Hh, Hp.
  assert (∀ s, lower_name s → Forall P (bytes s)) as Hname.
  { intros s [[_ Hn] Hls]. rewrite Forall_forall in Hn, Hls |- *. intros a Ha. apply HP; auto. }
  destruct p as [p|]; [|by apply Hname].
  rewrite bytes_host_port. apply Forall_app. split; [by apply Hname|].
  constructor; [done|]. by apply Hname, Hp.
Qed.

Lemma lower_host_word h p : lower_host (h, p) → word (host_port h p).
Proof.
  intros Hhp. split.
  - destruct Hhp as [[[Hne _] _] _]. simpl in Hne. destruct p as [p|]; [|done]. simpl. by destruct h.
  - apply (lower_host_bytes h p); [|done|done]. intros a Ha _. by destruct (name_byte_facts a Ha) as (_ & ? & ? & _).
Qed.

Lemma lower_host_without h p a :
  lower_host (h, p) → a ∈ [","%char; "/"%char] → Forall (λ b, b ≠ a) (bytes (host_port h p)).
Proof.
  intros Hhp Ha. apply lower_host_bytes; [| |done].
  - intros b Hb _. destruct (name_byte_facts b Hb) as (_ & _ & _ & ? & _ & ? & _).
    rewrite !elem_of_cons in Ha. by destruct Ha as [->|[->|Ha%not_elem_of_nil]].
  - rewrite !elem_of_cons in Ha. by destruct Ha as [->|[->|Ha%not_elem_of_nil]].
Qed.

Lemma no_slash_prefix s p : Forall (λ b, b ≠ "/"%char) (bytes s) → TrimPrefix s (p +:+ "//") = s.
Proof.
  intros Hs. unfold TrimPrefix. destruct (HasPrefix s (p +:+ "//")) eqn:E; [|done].
  apply HasPrefix_spec in E as [t ->]. rewrite !bytes_app in Hs.
  apply Forall_app in Hs as [Hs _]. apply Forall_app in Hs as [_ Hs]. by apply Forall_cons in Hs as [Hs _].
Qed.

Lemma allowed_entry_host h p : lower_host (h, p) → allowed_entry (host_port h p) = Some (host_port h p).
Proof.
  intros Hhp. pose proof (lower_host_word h p Hhp) as Hw. unfold allowed_entry. rewrite TrimSpace_word by done.
  rewrite bool_decide_eq_false_2 by apply Hw.
  assert (Forall (λ b, b ≠ "/"%char) (bytes (host_port h p))) as Hs
    by (apply lower_host_without; [done|by repeat constructor]).
  change "https://" with ("https:" +:+ "//"). change "http://" with ("http:" +:+ "//").
  rewrite (no_slash_prefix _ "https:"), (no_slash_prefix _ "http:") by done. unfold IndexByte. by rewrite index_none.
Qed.

Lemma ToLower_join entries :
  Forall lower_host entries → let s := Join ((λ hp, host_port hp.1 hp.2) <$> entries) "," in ToLower s = s.
Proof.
  intros He s. assert (Forall (λ a, is_ascii_byte a = true ∧ lower_byte a = a) (bytes s)) as Hs.
  { subst s. induction He as [|[h p] entries Hhp He IH]; [constructor|].
    assert (Forall (λ a, is_ascii_byte a = true ∧ lower_byte a = a) (bytes (host_port h p))) as Hh.
    { apply lower_host_bytes; [|done|done]. intros a Ha Hl. by destruct (name_byte_facts a Ha) as (_ & ? & _). }
    rewrite fmap_cons. destruct entries as [|hp' entries]; [done|]. rewrite fmap_cons in IH |- *.
    cbn [Join]. rewrite !bytes_app. apply Forall_app. split; [done|]. apply Forall_app. split; [|done].
    by repeat constructor. }
  apply (inj bytes). rewrite ToLower_bytes.
  - rewrite <-(list_fmap_id (bytes s)) at 2. apply list_fmap_ext. intros i a Ha. by eapply Forall_lookup_1 in Hs as [_ ?].
  - apply is_ascii_Forall. eapply Forall_impl; [exact Hs|]. by intros a [].
Qed.

Lemma allowedHosts_list entries :
  entries ≠ [] → Forall lower_host entries →
  allowedHosts (Join ((λ hp, host_port hp.1 hp.2) <$> entries) ",") = (λ hp, host_port hp.1 hp.2) <$> entries.
Proof.
  intros Hne He. unfold allowedHosts. rewrite ToLower_join by done. rewrite Split_Join.
  - clear Hne. induction He as [|[h p] entries Hhp He IH]; [done|]. rewrite fmap_cons. cbn [omap list_omap].
    simpl fst. simpl snd. rewrite allowed_entry_host by done. f_equal. exact IH.
  - by destruct entries.
  - apply Forall_fmap. eapply Forall_impl; [exact He|]. intros [h p] Hhp.
    apply lower_host_without; [done|by repeat constructor].
Qed.

Lemma hostOnly_lower h p : lower_host (h, p) → hostOnly (host_port h p) = h.
Proof. intros [[Hh _] Hp]. apply hostOnly_name; [done|]. intros q Hq. by destruct (Hp q Hq). Qed.

Lemma host_port_inj h p h' p' :
  lower_host (h, p) → lower_host (h', p') → host_port h p = host_port h' p' → h = h' ∧ p = p'.
Proof.
  intros Hhp Hhp' E. assert (h = h') as <- by (by rewrite <-(hostOnly_lower h p), <-(hostOnly_lower h' p'), E).
  destruct Hhp as [[Hh _] Hp], Hhp' as [_ Hp']. simpl in Hh, Hp, Hp'.
  split; [done|]. destruct p as [p|], p' as [p'|]; [| | |done].
  - simpl in E. apply (inj (String.app h)), (inj (String.app ":")) in E. by subst.
  - apply (f_equal SplitHostPort) in E. rewrite (SplitHostPort_none h : host_name h → SplitHostPort (host_port h None) = None) in E by done.
    rewrite (SplitHostPort_some h p) in E by (done || by apply Hp). done.
  - apply (f_equal SplitHostPort) in E. rewrite (SplitHostPort_none h : host_name h → SplitHostPort (host_port h None) = None) in E by done.
    rewrite (SplitHostPort_some h p') in E by (done || by apply Hp'). done.
Qed.

(** C23: with ALLOWED_HOSTNAMES a comma-separated list of lower-case names of
    letters, digits, points and hyphens, each with or without a port, and a
    request whose host, up to case and blanks, is such a name: the request
    reaches its handler exactly when it is for /healthcheck or its host is in
    the list with the same port or in the list without a port; all others get
    401 and nothing happens.  Addresses in brackets are outside. *)
Theorem allowed_hosts_spec {W} (entries : list (string * option string)) (h : string) (p : option string)
    (hnd : Request → W → outcome (reply * W)) (r : Request) (w : W) :
  entries ≠ [] → Forall lower_host entries → lower_host (h, p) →
  ToLower (TrimSpace (R_Host r)) = host_port h p →
  allowedHostsHandler (Join ((λ hp, host_port hp.1 hp.2) <$> entries) ",") hnd r w =
    if decide (R_Path r = "/healthcheck" ∨ (h, p) ∈ entries ∨ (h, None) ∈ entries) then hnd r w
    else Ret (textReply StatusUnauthorized "Oh no!", w).
Proof.
  intros Hne He Hhp Hhost. unfold allowedHostsHandler.
  destruct (decide (R_Path r = "/healthcheck")) as [Hpath|Hpath].
  { rewrite bool_decide_eq_true_2 by done. by rewrite decide_True by (by left). }
  rewrite bool_decide_eq_false_2 by done.
  set (cfg := Join _ ","). assert (isAllowedHost cfg (R_Host r) = bool_decide ((h, p) ∈ entries ∨ (h, None) ∈ entries)) as ->.
  2: { case_bool_decide as Hd; [by rewrite decide_True by (by right)|].
       rewrite decide_False; [done|]. by intros [?|?]. }
  unfold isAllowedHost, allowedBare. rewrite Hhost. unfold cfg. rewrite allowedHosts_list by done.
  rewrite hostOnly_lower by done. clear cfg Hhost Hpath.
  rewrite Forall_forall in He. apply eq_bool_prop_intro. rewrite !Is_true_true, bool_decide_eq_true.
  rewrite orb_true_iff, andb_true_iff, negb_true_iff, bool_decide_eq_false, !existsb_exists.
  setoid_rewrite filter_In. setoid_rewrite <-list_elem_of_In. setoid_rewrite list_elem_of_fmap.
  setoid_rewrite bool_decide_eq_true. split.
  - intros [(x & ([h' p'] & -> & Hin) & E)|[_ (x & [([h' p'] & -> & Hin) Hn] & E)]]; simpl in *.
    + apply host_port_inj in E as [<- <-]; [by left|done|by apply He].
    + right. destruct p' as [p'|]; [|by simpl in E; subst]. destruct (He _ Hin) as [[Hh' _] Hp'].
      rewrite (SplitHostPort_some h' p') in Hn; [done|exact Hh'|exact (proj1 (Hp' p' eq_refl))].
  - intros [Hin|Hin]; [left|right].
    + exists (host_port h p). split; [by exists (h, p)|done].
    + assert (SplitHostPort h = None) as Hs by (apply SplitHostPort_none; exact (proj1 (proj1 Hhp))). split.
      * intros Hnil. assert (h ∈ List.filter (λ h, bool_decide (SplitHostPort h = None))
          ((λ hp, host_port hp.1 hp.2) <$> entries)) as Hx; [|rewrite Hnil in Hx; by apply not_elem_of_nil in Hx].
        apply list_elem_of_In, filter_In. split; [apply list_elem_of_In, list_elem_of_fmap; by exists (h, None)|].
        by apply bool_decide_eq_true.
      * exists h. split; [|done]. split; [by exists (h, None)|done].
Qed.
End Hosts.

(** ** The address of the server *)

Section SelfRoot.
Context `{UT : UnicodeTables}.

Lemma firstForwardVal_name s : host_name s → firstForwardVal s = s.
Proof.
  intros Hs. unfold firstForwardVal. rewrite bool_decide_eq_false_2 by apply Hs. unfold Split.
  rewrite split_none by (apply host_name_without; [done|by repeat constructor]).
  simpl. rewrite of_bytes_bytes. by apply TrimSpace_word, host_name_word.
Qed.

Lemma host_port_bytes h p :
  host_name h → (∀ q, p = Some q → host_name q) → Forall (λ a, host_byte a = true ∧ is_ascii_byte a = true ∧ space1 a = false) (bytes (host_port h p)).
Proof.
  assert (∀ s, host_name s → Forall (λ a, host_byte a = true ∧ is_ascii_byte a = true ∧ space1 a = false) (bytes s)) as Hn.
  { intros s [_ Hs]. eapply Forall_impl; [exact Hs|]. intros a Ha. by destruct (name_byte_facts a Ha) as (? & ? & ? & _). }
  intros Hh Hp. destruct p as [p|]; [|by apply Hn]. rewrite bytes_host_port. apply Forall_app.
  split; [by apply Hn|]. constructor; [done|]. apply Hn. by apply Hp.
Qed.

Lemma escape_host_port h p :
  host_name h → (∀ q, p = Some q → host_name q) → escape_host (host_port h p) = host_port h p.
Proof.
  intros Hh Hp. apply escape_host_name. eapply Forall_impl; [by apply host_port_bytes|]. by intros a [].
Qed.

(** The port of a public address is left out when it is the scheme's own. *)
Definition shown_port (scheme : string) (port : option string) : option string :=
  match port with
  | Some q => if bool_decide (q = if bool_decide (scheme = "http") then "80" else "443") then None else Some q
  | None => None
  end.

Lemma with_port_shown scheme h p :
  scheme = "http" ∨ scheme = "https" → (∀ q, p = Some q → host_name q) →
  with_port (default "" p) scheme h = host_port h (shown_port scheme p).
Proof.
  intros Hs Hp. unfold with_port, shown_port. destruct p as [q|]; [|done]. simpl.
  destruct (Hp q eq_refl) as [Hne _]. rewrite (bool_decide_eq_false_2 (q = "")) by done.
  destruct (decide (q = "80")) as [->|H80]; [by destruct Hs as [->| ->]|].
  destruct (decide (q = "443")) as [->|H443]; [by destruct Hs as [->| ->]|].
  rewrite (bool_decide_eq_false_2 (q = "80")), (bool_decide_eq_false_2 (q = "443")) by done.
  rewrite bool_decide_eq_false_2; [done|]. destruct Hs as [->| ->]; done.
Qed.

Lemma proxied_public r scheme h host p :
  scheme = "http" ∨ scheme = "https" → host_name h → TrimSpace (R_Scheme r) = "" →
  R_Header r !! "Forwarded" = None → R_Header r !! "X-Forwarded-Host" = Some h →
  R_Header r !! "X-Forwarded-Proto" = Some scheme → R_Header r !! "X-Forwarded-Port" = p →
  proxied r (TrimSpace (R_Scheme r)) host = (scheme, h).
Proof.
  intros Hs Hh Hsch Hf Hxh Hxp Hport.
  assert (host_name scheme) as Hsn by (split; [by destruct Hs as [->| ->]|destruct Hs as [->| ->]; by repeat constructor]).
  assert (ToLower scheme = scheme) as Hlow by (apply (inj bytes); rewrite ToLower_bytes; by destruct Hs as [->| ->]).
  unfold proxied, value_of. rewrite Hf, Hxh, Hxp, Hsch. cbn [from_option]. unfold id.
  change (parseForwarded "") with ("", ""). cbv iota beta.
  rewrite (firstForwardVal_name h), (firstForwardVal_name scheme) by done.
  rewrite (bool_decide_eq_true_2 (h ≠ "")) by apply Hh. rewrite (bool_decide_eq_true_2 (scheme ≠ "")) by apply Hsn.
  rewrite Hlow. done.
Qed.

(** Behind a trusted proxy that passes on the public scheme, host and port in
    its X-Forwarded headers, [SelfRoot] is the public address, with the port
    unless it is the scheme's own; without TRUST_PROXY it is the address the
    request itself names, whatever headers a client sends. *)
Lemma self_root_address (r : Request) (scheme h hn : string) (p hp : option string) :
  scheme = "http" ∨ scheme = "https" → host_name h → (∀ q, p = Some q → host_name q) →
  host_name hn → (∀ q, hp = Some q → host_name q) → R_Host r = host_port hn hp → TrimSpace (R_Scheme r) = "" →
  R_Header r !! "Forwarded" = None → R_Header r !! "X-Forwarded-Host" = Some h →
  R_Header r !! "X-Forwarded-Proto" = Some scheme → R_Header r !! "X-Forwarded-Port" = p →
  SelfRoot true r = scheme +:+ "://" +:+ host_port h (shown_port scheme p) ∧
  ∀ headers, SelfRoot false (mkReq (R_Method r) (R_Scheme r) (R_URLHost r) (R_Path r) (R_Host r) (R_TLS r)
                               headers (R_Query r) (R_Vars r) (R_Body r)) =
    (if R_TLS r then "https" else "http") +:+ "://" +:+ host_port hn hp.
Proof.
  intros Hs Hh Hp Hhn Hhp Hhost Hsch Hf Hxh Hxp Hport.
  assert (scheme ≠ "") as Hne by (by destruct Hs as [->| ->]). split.
  - unfold SelfRoot. rewrite (proxied_public r scheme h _ p) by done. cbv iota beta zeta.
    rewrite !(bool_decide_eq_false_2 (scheme = "")) by done. cbn [andb].
    rewrite ?(bool_decide_eq_false_2 (scheme = "")) by done.
    rewrite !(bool_decide_eq_false_2 (h = "")) by apply Hh. cbn [andb].
    rewrite ?(bool_decide_eq_false_2 (h = "")) by apply Hh. unfold value_of. rewrite Hport.
    rewrite contains_none by (apply host_name_without; [done|by repeat constructor]). cbn [negb].
    assert (firstForwardVal (default "" p) = default "" p) as ->
      by (destruct p as [q|]; [by apply firstForwardVal_name, Hp|done]).
    rewrite with_port_shown by done. unfold URL_String. rewrite bool_decide_eq_false_2 by done.
    rewrite escape_host_port; [by rewrite <-string_app_assoc|done|].
    intros q. unfold shown_port. destruct p as [q'|]; [|done]. case_bool_decide; [done|]. apply Hp.
  - intros headers. unfold SelfRoot. simpl. rewrite Hsch, Hhost.
    assert (word (host_port hn hp)) as Hw.
    { split; [destruct hp; simpl; destruct Hhn as [? _]; by destruct hn|].
      eapply Forall_impl; [by apply host_port_bytes|]. by intros a (_ & ? & ?). }
    rewrite TrimSpace_word by done. rewrite !(bool_decide_eq_false_2 (host_port hn hp = "")) by apply Hw.
    simpl. rewrite ?(bool_decide_eq_false_2 (host_port hn hp = "")) by apply Hw. unfold URL_String.
    rewrite escape_host_port by done. by destruct (R_TLS r).
Qed.
End SelfRoot.

(** ** Examples *)

#[local] Existing Instance ascii_tables.

Definition proxy_request : Request :=
  mkReq "GET" "" "" "/" "10.0.0.5:8000" false
    {["X-Forwarded-Host" := "plaxt.example.org"; "X-Forwarded-Proto" := "https"; "X-Forwarded-Port" := "443"]}
    ∅ ∅ "".

Lemma name_sample s : bool_decide (s ≠ "" ∧ Forall (λ a, name_byte a = true) (bytes s)) = true → host_name s.
Proof. intros Hs. by apply bool_decide_eq_true in Hs. Qed.

Lemma self_root_address_witness :
  SelfRoot true proxy_request = "https://plaxt.example.org" ∧ SelfRoot false proxy_request = "http://10.0.0.5:8000".
Proof.
  destruct (self_root_address proxy_request "https" "plaxt.example.org" "10.0.0.5" (Some "443") (Some "8000"))
    as [H1 H2].
  - right. reflexivity.
  - apply name_sample. reflexivity.
  - intros q [= <-]. apply name_sample. reflexivity.
  - apply name_sample. reflexivity.
  - intros q [= <-]. apply name_sample. reflexivity.
  - reflexivity.
  - reflexivity.
  - reflexivity.
  - reflexivity.
  - reflexivity.
  - reflexivity.
  - split; [exact H1|exact (H2 (R_Header proxy_request))].
Defined.

Lemma allowed_hosts_spec_witness :
  allowedHostsHandler "example.org,media.local:8443" (λ _ (w : unit), Ret (textReply StatusOK "", w))
    (mkReq "GET" "" "" "/api" "MEDIA.local:80" false ∅ ∅ ∅ "") tt =
  Ret (textReply StatusUnauthorized "Oh no!", tt).
Proof.
  assert (Hl : ∀ s, bool_decide (s ≠ "" ∧ Forall (λ a, name_byte a = true) (bytes s)) &&
                    bool_decide (Forall (λ a, lower_byte a = a) (bytes s)) = true → lower_name s).
  { intros s [H1%bool_decide_eq_true H2%bool_decide_eq_true]%andb_true_iff. by split. }
  rewrite (allowed_hosts_spec [("example.org", None); ("media.local", Some "8443")] "media.local" (Some "80")).
  - reflexivity.
  - discriminate.
  - apply Forall_cons. split; [split; [by apply Hl|discriminate]|]. apply Forall_singleton.
    split; [by apply Hl|]. intros q [= <-]. by apply Hl.
  - split; [by apply Hl|]. intros q [= <-]. by apply Hl.
  - reflexivity.
Defined.

(** Outside of these lists: a listed IPv6 address does not cover the same
    address with a port, and blanks do not separate names. *)
Example bracketed_address : isAllowedHost "[::1]" "[::1]:80" = false.
Proof. reflexivity. Qed.
Example names_by_blanks : allowedHosts "plaxt.local media.local" = ["plaxt.local media.local"].
Proof. reflexivity. Qed.
