(* ===== verification/Plex.v ===== *)
(** * Webhooks on the wire: [plexhooks] and the first half of [api]

    How a request becomes a webhook: the payload is taken from the body, in one
    of the forms Plex and its proxies use, and decoded by the parser of
    [plexhooks/plexhooks.go] into the structures of [plexhooks/structs.go].
    [Metadata.UnmarshalJSON] goes through a generic map, so that numbers pass
    through [float64] and back; the class [NumberText] is their text.  Fields
    that the program never reads are decoded for their errors only. *)

From S2P Require Import Prelude GoLib Text Float Json Instances Common Entities Buffers Trakt Sessions Webhooks Request.

Open Scope Z_scope.

(** ** Decoding *)

(** The field a key selects: the one with exactly that name, else the first
    one that agrees up to case. *)
Definition field_named `{UnicodeTables} {A} (tbl : list (string * decoder A)) (key : string) : option (decoder A) :=
  match list_find (λ f, f.1 = key) tbl with
  | Some (_, (_, d)) => Some d
  | None => find_field tbl key
  end.

(** A field that only has to decode. *)
Definition unread {A B} (zero : B) (d : decoder B) : decoder A := λ j a, _ ← d j zero; DOk a.

Definition dec_float64 : decoder float64 := λ j old,
  match j with JNull => DOk old | JNum lit => dres_of_option (ParseFloat lit) | _ => DErr end.
Definition dec_float32 : decoder spec_float := λ j old,
  match j with JNull => DOk old | JNum lit => dres_of_option (ParseFloat32 lit) | _ => DErr end.

Definition fzero : float64 := S754_zero false.

(** ** Go maps of a JSON object: members in the order of their keys, the last
    value of a key *)

Fixpoint set_key (k : string) (j : json) (m : list (string * json)) : list (string * json) :=
  match m with
  | [] => [(k, j)]
  | (k', j') :: m' =>
      match String.compare k k' with
      | Lt => (k, j) :: m
      | Eq => (k, j) :: m'
      | Gt => (k', j') :: set_key k j m'
      end
  end.
Definition map_of (fs : list (string * json)) : list (string * json) :=
  foldl (λ m kv, set_key kv.1 kv.2 m) [] fs.
Definition delete_key (k : string) (m : list (string * json)) : list (string * json) :=
  filter (λ kv, kv.1 ≠ k) m.
Definition get_key (k : string) (m : list (string * json)) : option json :=
  (λ ikv, ikv.2.2) <$> list_find (λ kv, kv.1 = k) m.

Section Plex.
Context `{UnicodeTables, JsonText, NumberText}.

(** Decoding into [any] fails on a number that is no [float64]. *)
Fixpoint numbers_ok (j : json) : bool :=
  match j with
  | JNum lit => bool_decide (is_Some (ParseFloat lit))
  | JArr l => forallb numbers_ok l
  | JObj fs => forallb (λ kv, numbers_ok kv.2) fs
  | _ => true
  end.

(** The tree of what [json.Marshal] prints for a value decoded into [any]. *)
Fixpoint remarshal (j : json) : json :=
  match j with
  | JNum lit => JNum (number_text (default fzero (ParseFloat lit)))
  | JArr l => JArr (remarshal <$> l)
  | JObj fs => JObj (map_of ((λ kv, (kv.1, remarshal kv.2)) <$> fs))
  | _ => j
  end.

(** ** [FlexFloat.UnmarshalJSON], which never fails *)

Definition FlexFloat_UnmarshalJSON (j : json) (f : float64) : float64 :=
  match j with
  | JNull => fzero
  | JArr _ =>
      match dec_slice fzero dec_float64 j [] with
      | DOk arrNum => default f (head arrNum)
      | _ =>
          match dec_slice "" dec_string j [] with
          | DOk (s :: _) => default f (parse_number s)
          | _ => f
          end
      end
  | JNum lit => default f (ParseFloat lit)
  | JStr s => default f (parse_number s)
  | _ => f
  end.

(** ** [Metadata.UnmarshalJSON] *)

Fixpoint coerce (v : json) : float64 :=
  match v with
  | JNum lit => default fzero (ParseFloat lit)
  | JStr s => default fzero (parse_number s)
  | JObj fs => foldl (λ acc kv, if bool_decide (kv.1 = "value") then coerce kv.2 else acc) fzero fs
  | JArr (v :: _) => coerce v
  | _ => fzero
  end.

Definition finite (x : float64) : bool :=
  match x with S754_zero _ | S754_finite _ _ _ => true | _ => false end.

(** The rating that replaces the member [audienceRating], if there is any. *)
Definition audience_rating (gen : list (string * json)) : option float64 :=
  match get_key "AudienceRating" gen with
  | Some v => Some (coerce v)
  | None => coerce <$> get_key "audienceRating" gen
  end.

Definition zeroMetadata : Metadata := mkMetadata "" "" [] "" "" "" "" 0 0 0 0 0.

Definition dec_Tag : decoder unit := dec_struct (field_named
  [("id", unread 0 dec_int); ("filter", unread "" dec_string); ("tag", unread "" dec_string);
   ("role", unread "" dec_string); ("thumb", unread "" dec_string); ("count", unread 0 dec_int)]).
Definition dec_ExternalGUID : decoder ExternalGUID := dec_struct (field_named
  [("id", dec_at GUID_ID (λ v _, mkGuid v) dec_string)]).

Definition dec_Metadata : decoder Metadata := dec_struct (field_named
  [("librarySectionType", dec_at LibrarySectionType (λ v m, mkMetadata v (MD_RatingKey m) (ExternalGUIDs m) (GUID m)
      (MD_Type m) (MD_Title m) (GrandparentTitle m) (MD_Index m) (ParentIndex m) (ViewOffset m) (MD_Year m) (MD_Duration m)) dec_string);
   ("ratingKey", dec_at MD_RatingKey (λ v m, mkMetadata (LibrarySectionType m) v (ExternalGUIDs m) (GUID m)
      (MD_Type m) (MD_Title m) (GrandparentTitle m) (MD_Index m) (ParentIndex m) (ViewOffset m) (MD_Year m) (MD_Duration m)) dec_string);
   ("key", unread "" dec_string); ("parentRatingKey", unread "" dec_string);
   ("grandparentRatingKey", unread "" dec_string);
   ("Guid", dec_at ExternalGUIDs (λ v m, mkMetadata (LibrarySectionType m) (MD_RatingKey m) v (GUID m)
      (MD_Type m) (MD_Title m) (GrandparentTitle m) (MD_Index m) (ParentIndex m) (ViewOffset m) (MD_Year m) (MD_Duration m))
      (dec_slice (mkGuid "") dec_ExternalGUID));
   ("guid", dec_at GUID (λ v m, mkMetadata (LibrarySectionType m) (MD_RatingKey m) (ExternalGUIDs m) v
      (MD_Type m) (MD_Title m) (GrandparentTitle m) (MD_Index m) (ParentIndex m) (ViewOffset m) (MD_Year m) (MD_Duration m)) dec_string);
   ("librarySectionTitle", unread "" dec_string); ("librarySectionID", unread 0 dec_int);
   ("librarySectionKey", unread "" dec_string); ("studio", unread "" dec_string);
   ("type", dec_at MD_Type (λ v m, mkMetadata (LibrarySectionType m) (MD_RatingKey m) (ExternalGUIDs m) (GUID m)
      v (MD_Title m) (GrandparentTitle m) (MD_Index m) (ParentIndex m) (ViewOffset m) (MD_Year m) (MD_Duration m)) dec_string);
   ("title", dec_at MD_Title (λ v m, mkMetadata (LibrarySectionType m) (MD_RatingKey m) (ExternalGUIDs m) (GUID m)
      (MD_Type m) v (GrandparentTitle m) (MD_Index m) (ParentIndex m) (ViewOffset m) (MD_Year m) (MD_Duration m)) dec_string);
   ("titleSort", unread "" dec_string); ("grandparentKey", unread "" dec_string); ("parentKey", unread "" dec_string);
   ("grandparentTitle", dec_at GrandparentTitle (λ v m, mkMetadata (LibrarySectionType m) (MD_RatingKey m) (ExternalGUIDs m) (GUID m)
      (MD_Type m) (MD_Title m) v (MD_Index m) (ParentIndex m) (ViewOffset m) (MD_Year m) (MD_Duration m)) dec_string);
   ("parentTitle", unread "" dec_string); ("contentRating", unread "" dec_string); ("summary", unread "" dec_string);
   ("tagline", unread "" dec_string);
   ("index", dec_at MD_Index (λ v m, mkMetadata (LibrarySectionType m) (MD_RatingKey m) (ExternalGUIDs m) (GUID m)
      (MD_Type m) (MD_Title m) (GrandparentTitle m) v (ParentIndex m) (ViewOffset m) (MD_Year m) (MD_Duration m)) dec_int);
   ("parentIndex", dec_at ParentIndex (λ v m, mkMetadata (LibrarySectionType m) (MD_RatingKey m) (ExternalGUIDs m) (GUID m)
      (MD_Type m) (MD_Title m) (GrandparentTitle m) (MD_Index m) v (ViewOffset m) (MD_Year m) (MD_Duration m)) dec_int);
   ("ratingCount", unread 0 dec_int); ("audienceRating", unread fzero dec_float32);
   ("viewOffset", dec_at ViewOffset (λ v m, mkMetadata (LibrarySectionType m) (MD_RatingKey m) (ExternalGUIDs m) (GUID m)
      (MD_Type m) (MD_Title m) (GrandparentTitle m) (MD_Index m) (ParentIndex m) v (MD_Year m) (MD_Duration m)) dec_int);
   ("viewCount", unread 0 dec_int); ("lastViewedAt", unread 0 dec_int);
   ("year", dec_at MD_Year (λ v m, mkMetadata (LibrarySectionType m) (MD_RatingKey m) (ExternalGUIDs m) (GUID m)
      (MD_Type m) (MD_Title m) (GrandparentTitle m) (MD_Index m) (ParentIndex m) (ViewOffset m) v (MD_Duration m)) dec_int);
   ("duration", dec_at MD_Duration (λ v m, mkMetadata (LibrarySectionType m) (MD_RatingKey m) (ExternalGUIDs m) (GUID m)
      (MD_Type m) (MD_Title m) (GrandparentTitle m) (MD_Index m) (ParentIndex m) (ViewOffset m) (MD_Year m) v) dec_int);
   ("thumb", unread "" dec_string); ("art", unread "" dec_string); ("parentThumb", unread "" dec_string);
   ("grandparentThumb", unread "" dec_string); ("grandparentArt", unread "" dec_string);
   ("grandparentTheme", unread "" dec_string); ("originallyAvailableAt", unread "" dec_string);
   ("addedAt", unread 0 dec_int); ("updatedAt", unread 0 dec_int); ("audienceRatingImage", unread "" dec_string);
   ("primaryExtraKey", unread "" dec_string); ("ratingImage", unread "" dec_string);
   ("Genre", unread [] (dec_slice tt dec_Tag)); ("Director", unread [] (dec_slice tt dec_Tag));
   ("Writer", unread [] (dec_slice tt dec_Tag)); ("Producer", unread [] (dec_slice tt dec_Tag));
   ("Country", unread [] (dec_slice tt dec_Tag)); ("Similar", unread [] (dec_slice tt dec_Tag));
   ("Role", unread [] (dec_slice tt dec_Tag))]).

Definition Metadata_UnmarshalJSON : decoder Metadata := λ j _,
  match j with
  | JNull => DOk zeroMetadata
  | JObj fs =>
      if negb (numbers_ok j) then DErr else
      let gen := delete_key "Rating" (map_of fs) in
      let marshalled := (λ kv, (kv.1, remarshal kv.2)) <$> gen in
      match audience_rating gen with
      | None => dec_Metadata (JObj marshalled) zeroMetadata
      | Some x =>
          if negb (finite x) then DErr
          else dec_Metadata (JObj (set_key "audienceRating" (JNum (number_text x)) marshalled)) zeroMetadata
      end
  | _ => DErr
  end.

(** ** [Webhook] *)

Definition zeroWebhook : Webhook :=
  mkWebhook "" false false (mkAccount 0 "") zeroMetadata (mkServer "" "") (mkPlayer "" "").

Definition dec_Account : decoder Account := dec_struct (field_named
  [("id", dec_at Account_ID (λ v a, mkAccount v (Account_Title a)) dec_int);
   ("thumb", unread "" dec_string);
   ("title", dec_at Account_Title (λ v a, mkAccount (Account_ID a) v) dec_string)]).
Definition dec_Server : decoder Server := dec_struct (field_named
  [("title", dec_at Server_Title (λ v s, mkServer v (Server_UUID s)) dec_string);
   ("uuid", dec_at Server_UUID (λ v s, mkServer (Server_Title s) v) dec_string)]).
Definition dec_Player : decoder Player := dec_struct (field_named
  [("local", unread false dec_bool); ("publicAddress", unread "" dec_string);
   ("title", dec_at Player_Title (λ v p, mkPlayer v (Player_UUID p)) dec_string);
   ("uuid", dec_at Player_UUID (λ v p, mkPlayer (Player_Title p) v) dec_string)]).

Definition dec_Webhook : decoder Webhook := dec_struct (field_named
  [("event", dec_at Hook_Event (λ v h, mkWebhook v (Hook_User h) (Hook_Owner h) (Hook_Account h) (Hook_Metadata h)
      (Hook_Server h) (Hook_Player h)) dec_string);
   ("user", dec_at Hook_User (λ v h, mkWebhook (Hook_Event h) v (Hook_Owner h) (Hook_Account h) (Hook_Metadata h)
      (Hook_Server h) (Hook_Player h)) dec_bool);
   ("owner", dec_at Hook_Owner (λ v h, mkWebhook (Hook_Event h) (Hook_User h) v (Hook_Account h) (Hook_Metadata h)
      (Hook_Server h) (Hook_Player h)) dec_bool);
   ("Account", dec_at Hook_Account (λ v h, mkWebhook (Hook_Event h) (Hook_User h) (Hook_Owner h) v (Hook_Metadata h)
      (Hook_Server h) (Hook_Player h)) dec_Account);
   ("Metadata", dec_at Hook_Metadata (λ v h, mkWebhook (Hook_Event h) (Hook_User h) (Hook_Owner h) (Hook_Account h) v
      (Hook_Server h) (Hook_Player h)) Metadata_UnmarshalJSON);
   ("Server", dec_at Hook_Server (λ v h, mkWebhook (Hook_Event h) (Hook_User h) (Hook_Owner h) (Hook_Account h)
      (Hook_Metadata h) v (Hook_Player h)) dec_Server);
   ("Player", dec_at Hook_Player (λ v h, mkWebhook (Hook_Event h) (Hook_User h) (Hook_Owner h) (Hook_Account h)
      (Hook_Metadata h) (Hook_Server h) v) dec_Player)]).

(** ** [plexhooks.go] *)

(** A [Decoder] for webhooks: what [Decode(data, &hook)] leaves in [hook]. *)
Definition Decoder : Type := string → Webhook → result Webhook.
Record Parser := mkParser { parser_decoder : Decoder }.

Definition ErrEmptyPayload : error := Sentinel "plexhooks: empty webhook payload".

(** [json.Unmarshal] *)
Definition json_Unmarshal : Decoder := λ data hook,
  match json_parse data with
  | Some j => match dec_Webhook j hook with DOk h => Ok h | _ => Err json_error end
  | None => Err json_error
  end.

Definition WithDecoder (dec : option Decoder) (p : Parser) : Parser :=
  match dec with Some dec => mkParser dec | None => p end.
Definition NewParser (options : list (Parser → Parser)) : Parser :=
  foldl (λ p opt, opt p) (mkParser json_Unmarshal) options.

Definition Parse (p : Parser) (payload : string) : result Webhook :=
  if bool_decide (TrimSpace payload = "") then Err ErrEmptyPayload else
  match parser_decoder p payload zeroWebhook with
  | Ok hook => Ok hook
  | Err e => Err (Wrapf "plexhooks: decode webhook: " e "")
  end.
Definition ParseWebhook (payload : string) : result Webhook := Parse (NewParser []) payload.
End Plex.

(** ** The payload of a request *)

Definition hex_value (a : ascii) : option N :=
  let n := N_of_ascii a in
  if (48 <=? n)%N && (n <=? 57)%N then Some (n - 48)%N
  else if (65 <=? n)%N && (n <=? 70)%N then Some (n - 55)%N
  else if (97 <=? n)%N && (n <=? 102)%N then Some (n - 87)%N
  else None.

(** [url.QueryUnescape]; [None] is its error. *)
Fixpoint unescape (l : list ascii) : option (list ascii) :=
  match l with
  | [] => Some []
  | a :: l =>
      if Ascii.eqb a "%" then
        match l with
        | x :: y :: l => h ← hex_value x; k ← hex_value y; r ← unescape l; Some (ascii_of_N (16 * h + k) :: r)
        | _ => None
        end
      else r ← unescape l; Some ((if Ascii.eqb a "+" then " "%char else a) :: r)
  end.
Definition QueryUnescape (s : string) : option string := of_bytes <$> unescape (bytes s).

(** [url.ParseQuery] with the first value of a key; [None] is its error. *)
Definition form_pair (pair : string) : option (string * string) :=
  if has_byte pair ";" then None else
  let '(k, v) := split_once pair "=" in
  k ← QueryUnescape k; v ← QueryUnescape (default "" v); Some (k, v).
Definition ParseQuery (query : string) : option (list (string * string)) :=
  mapM form_pair (filter (λ pair, pair ≠ "") (Split query "&")).
Definition first_value (values : list (string * string)) (key : string) : string :=
  default "" ((λ ikv, ikv.2.2) <$> list_find (λ kv, kv.1 = key) values).

(** [mime/multipart]: the content of the part named [payload] that
    [r.MultipartReader()] reads from what is left of the body, empty if it
    finds none. *)
Class Multipart := { multipart_payload : string → string → string }.
Class MultipartLaws (MP : Multipart) : Prop := {
  multipart_payload_empty contentType : multipart_payload contentType "" = "";
}.

(** [io.ReadAll(r.Body)] takes everything: what later readers of the body get. *)
Definition after_ReadAll : string := "".

(** The longest text before the end of the line that ends with a brace. *)
Fixpoint upto_brace (l : list ascii) : option (list ascii) :=
  match l with
  | [] => None
  | a :: l =>
      if (N_of_ascii a =? 10)%N then None else
      match upto_brace l with
      | Some k => Some (a :: k)
      | None => if Ascii.eqb a "}" then Some [a] else None
      end
  end.
(** The leftmost match of the regular expression [({.*})]. *)
Fixpoint braces (l : list ascii) : option (list ascii) :=
  match l with
  | [] => None
  | a :: l =>
      match (if Ascii.eqb a "{" then upto_brace l else None) with
      | Some k => Some (a :: k)
      | None => braces l
      end
  end.

Section Payload.
Context `{UnicodeTables, JsonText, NumberText, Multipart}.

(** The payload in a body of the given content type. *)
Definition payload_of (contentType body : string) : string :=
  let ct := ToLower contentType in
  let payload :=
    if Contains ct "application/x-www-form-urlencoded" then
      match ParseQuery after_ReadAll with
      | Some form => let val := first_value form "payload" in if bool_decide (TrimSpace val = "") then "" else val
      | None => ""
      end
    else "" in
  let payload :=
    if bool_decide (payload = "") && Contains ct "multipart/form-data"
    then multipart_payload contentType after_ReadAll else payload in
  if bool_decide (payload ≠ "") then payload else
  if HasPrefix (TrimSpace body) "payload=" then
    match split_once body "=" with
    | (_, Some encoded) => default body (QueryUnescape encoded)
    | (_, None) => body
    end
  else body.

(** The webhook in a payload, by strict parsing or in the first braces. *)
Definition webhook_in (payload : string) : option Webhook :=
  match ParseWebhook payload with
  | Ok webhook => Some webhook
  | Err _ =>
      match braces (bytes payload) with
      | None => None
      | Some match0 => match ParseWebhook (of_bytes match0) with Ok webhook => Some webhook | Err _ => None end
      end
  end.

Definition request_webhook (contentType body : string) : option Webhook := webhook_in (payload_of contentType body).
End Payload.

(** [api] on a request; reading the body may fail. *)
Definition api_endpoint {W} `{UnicodeTables, JsonText, NumberText, Multipart, UrlText, TimeText, Http W, ScrobbleStore W, WebStore W}
    (t : Trakt) (arrival : list GroupMember → list GroupMember) (answer : GroupMember → request → result response)
    (trustProxy : bool) (r : Request) (body : result string) (cache : webhookDedupeCache) (w : W)
    : outcome (reply * webhookDedupeCache * W) :=
  let id := value_of (R_Query r) "id" in
  if bool_decide (id = "") then Ret (mkReply StatusBadRequest [], cache, w) else
  match body with
  | Err _ => Ret (mkReply StatusBadRequest [], cache, w)
  | Ok body =>
      api t arrival answer (SelfRoot trustProxy r +:+ "/authorize") id
        (request_webhook (value_of (R_Header r) "Content-Type") body) cache w
  end.

(** ** What Plex sends *)

(** A member that a struct reads: its key, the values that stand for the field
    of the struct sent, when it may be left out, and the targets that have the
    field right. *)
Record sent (A : Type) := mkSent {
  s_key : string;
  s_says : json → Prop;
  s_absent : Prop;
  s_settled : A → Prop;
}.
Arguments mkSent {A}.
Arguments s_key {A}.
Arguments s_says {A}.
Arguments s_absent {A}.
Arguments s_settled {A}.

Definition sent_as {A B} (key : string) (p : A → B) (zero : B) (says : B → json → Prop) (h : A) : sent A :=
  mkSent key (says (p h)) (p h = zero) (λ a, p a = p h).
Definition sent_string {A} key (p : A → string) (h : A) : sent A := sent_as key p "" (λ s j, j = JStr s) h.
Definition sent_int {A} key (p : A → Z) (h : A) : sent A := sent_as key p 0 (λ z j, j = enc_int z) h.
Definition sent_bool {A} key (p : A → bool) (h : A) : sent A := sent_as key p false (λ b j, j = JBool b) h.

(** The members of an object, in any order: those that are read stand for the
    struct, those left out are zero in it, and any further member is one that
    the decoder [dec] takes without a change of its target ([via] is what
    happens to values on their way to it). *)
Definition members_of {A} (dec : decoder A) (via : json → json) (reads : list (sent A))
    (fs : list (string * json)) : Prop :=
  Forall (λ r, Forall (λ kv, kv.1 = s_key r → s_says r kv.2) fs) reads ∧
  Forall (λ r, s_key r ∈ fs.*1 ∨ s_absent r) reads ∧
  Forall (λ kv, kv.1 ∉ s_key <$> reads → ∀ a, dec (JObj [(kv.1, via kv.2)]) a = DOk a) fs.

Definition json_of_guid (g : ExternalGUID) : json := JObj [("id", JStr (GUID_ID g))].

(** Integers that pass through a [float64]. *)
Definition float_int (z : Z) : Prop := Z.abs z < 2 ^ 53.
Definition sendable (h : Webhook) : Prop :=
  int64_min ≤ Account_ID (Hook_Account h) ≤ int64_max ∧
  Forall float_int [MD_Index (Hook_Metadata h); ParentIndex (Hook_Metadata h); ViewOffset (Hook_Metadata h);
                    MD_Year (Hook_Metadata h); MD_Duration (Hook_Metadata h)].

Section Sent.
Context `{UnicodeTables, JsonText, NumberText}.

Definition Account_sent (a : Account) : list (sent Account) :=
  [sent_int "id" Account_ID a; sent_string "title" Account_Title a].
Definition Server_sent (s : Server) : list (sent Server) :=
  [sent_string "title" Server_Title s; sent_string "uuid" Server_UUID s].
Definition Player_sent (p : Player) : list (sent Player) :=
  [sent_string "title" Player_Title p; sent_string "uuid" Player_UUID p].
Definition Metadata_sent (m : Metadata) : list (sent Metadata) :=
  [sent_string "librarySectionType" LibrarySectionType m; sent_string "ratingKey" MD_RatingKey m;
   sent_as "Guid" ExternalGUIDs [] (λ l j, j = JArr (json_of_guid <$> l)) m; sent_string "guid" GUID m;
   sent_string "type" MD_Type m; sent_string "title" MD_Title m; sent_string "grandparentTitle" GrandparentTitle m;
   sent_int "index" MD_Index m; sent_int "parentIndex" ParentIndex m; sent_int "viewOffset" ViewOffset m;
   sent_int "year" MD_Year m; sent_int "duration" MD_Duration m].

(** An audience rating that Go can hold as a [float32]. *)
Definition fits (audience : json) : Prop :=
  finite (coerce audience) = true ∧ is_Some (ParseFloat32 (number_text (coerce audience))).

(** The object of the metadata: a [Rating] of any shape, an [audienceRating]
    that stands for a number, no capitalised one (see [rating_rejected]), and
    no number beyond a [float64]. *)
Definition sent_Metadata (m : Metadata) (j : json) : Prop :=
  ∃ fs, j = JObj fs ∧ numbers_ok j = true ∧ "AudienceRating" ∉ fs.*1 ∧
    Forall (λ kv, kv.1 = "audienceRating" → fits kv.2) fs ∧
    members_of dec_Metadata remarshal (Metadata_sent m)
      (filter (λ kv, kv.1 ≠ "Rating" ∧ kv.1 ≠ "audienceRating") fs).

Definition sent_object {A} (dec : decoder A) (reads : list (sent A)) (j : json) : Prop :=
  ∃ fs, j = JObj fs ∧ members_of dec (λ j, j) reads fs.

Definition Webhook_sent (h : Webhook) : list (sent Webhook) :=
  [sent_string "event" Hook_Event h; sent_bool "user" Hook_User h; sent_bool "owner" Hook_Owner h;
   sent_as "Account" Hook_Account (mkAccount 0 "") (λ a, sent_object dec_Account (Account_sent a)) h;
   sent_as "Metadata" Hook_Metadata zeroMetadata sent_Metadata h;
   sent_as "Server" Hook_Server (mkServer "" "") (λ s, sent_object dec_Server (Server_sent s)) h;
   sent_as "Player" Hook_Player (mkPlayer "" "") (λ p, sent_object dec_Player (Player_sent p)) h].
Definition sent_Webhook (h : Webhook) (j : json) : Prop := sent_object dec_Webhook (Webhook_sent h) j.
End Sent.

(** ** Objects as maps *)

Lemma set_key_members k v m kv : kv ∈ set_key k v m → kv = (k, v) ∨ kv ∈ m.
Proof.
  induction m as [|[k1 v1] m IH]; simpl; [rewrite elem_of_cons; tauto|].
  destruct (String.compare k k1); rewrite !elem_of_cons; tauto.
Qed.

Lemma set_key_keys k k' v m : k ∈ (set_key k' v m).*1 ↔ k = k' ∨ k ∈ m.*1.
Proof.
  induction m as [|[k1 v1] m IH]; simpl; [by rewrite elem_of_cons|].
  destruct (String.compare k' k1) eqn:C; simpl; rewrite !elem_of_cons; [|done|by rewrite IH; tauto].
  apply String.compare_eq_iff in C. subst. tauto.
Qed.

Lemma foldl_set_key fs : ∀ m,
  (∀ kv, kv ∈ foldl (λ m kv, set_key kv.1 kv.2 m) m fs → kv ∈ fs ∨ kv ∈ m) ∧
  (∀ k, k ∈ (foldl (λ m kv, set_key kv.1 kv.2 m) m fs).*1 ↔ k ∈ fs.*1 ∨ k ∈ m.*1).
Proof.
  induction fs as [|[k1 v1] fs IH]; intros m; simpl; [split; intros; rewrite ?elem_of_nil; tauto|].
  destruct (IH (set_key k1 v1 m)) as [H1 H2]. split.
  - intros kv Hin. rewrite elem_of_cons. apply H1 in Hin as [?|Hin]; [tauto|]. apply set_key_members in Hin. tauto.
  - intros k. rewrite H2, set_key_keys, elem_of_cons. tauto.
Qed.

Lemma map_of_members fs kv : kv ∈ map_of fs → kv ∈ fs.
Proof. intros Hin. apply (proj1 (foldl_set_key fs [])) in Hin as [?|?%elem_of_nil]; done. Qed.

Lemma map_of_keys fs k : k ∈ (map_of fs).*1 ↔ k ∈ fs.*1.
Proof. unfold map_of. rewrite (proj2 (foldl_set_key fs [])). simpl. rewrite elem_of_nil. tauto. Qed.

Definition key_lt (a b : string * json) : Prop := String.compare a.1 b.1 = Lt.

Lemma compare_lt_trans a b c : String.compare a b = Lt → String.compare b c = Lt → String.compare a c = Lt.
Proof.
  intros H1 H2. assert (String.le a c) as H3.
  { transitivity b; unfold String.le, String.leb; [by rewrite H1|by rewrite H2]. }
  unfold String.le, String.leb in H3. destruct (String.compare a c) eqn:E; [|done|done].
  apply String.compare_eq_iff in E. subst c. rewrite String.compare_antisym, H1 in H2. done.
Qed.

Lemma compare_refl a : String.compare a a = Eq.
Proof. pose proof (String.compare_antisym a a) as E. by destruct (String.compare a a). Qed.

Lemma set_key_sorted k v m : StronglySorted key_lt m → StronglySorted key_lt (set_key k v m).
Proof.
  induction 1 as [|[k1 v1] m Hm IH H1]; simpl; [by repeat constructor|].
  destruct (String.compare k k1) eqn:C.
  - apply String.compare_eq_iff in C. subst. by constructor.
  - constructor; [by constructor|]. constructor; [exact C|]. eapply Forall_impl; [exact H1|].
    intros [k2 v2]. unfold key_lt. simpl. by apply compare_lt_trans.
  - constructor; [done|]. apply Forall_forall. intros kv [->|Hin]%set_key_members.
    + unfold key_lt. simpl. rewrite String.compare_antisym. by rewrite C.
    + rewrite Forall_forall in H1. by apply H1.
Qed.

Lemma map_of_sorted fs : StronglySorted key_lt (map_of fs).
Proof.
  unfold map_of. assert (StronglySorted key_lt []) as Hs by constructor. revert Hs.
  generalize ([] : list (string * json)). induction fs as [|kv fs IH]; intros m Hm; simpl; [done|].
  by apply IH, set_key_sorted.
Qed.

(** In a sorted object the value of a key is replaced. *)
Lemma set_key_replaces k v v' m : StronglySorted key_lt m → (k, v') ∈ set_key k v m → v' = v.
Proof.
  induction 1 as [|[k1 v1] m Hm IH H1]; simpl.
  { rewrite elem_of_cons, elem_of_nil. intros [[=]|[]]. done. }
  rewrite Forall_forall in H1. destruct (String.compare k k1) eqn:C; rewrite !elem_of_cons.
  - apply String.compare_eq_iff in C. subst k1. intros [[=]|Hin]; [done|].
    specialize (H1 _ Hin). unfold key_lt in H1. simpl in H1. by rewrite compare_refl in H1.
  - intros [[=]|[[= <- <-]|Hin]]; [done|by rewrite compare_refl in C|].
    specialize (H1 _ Hin). unfold key_lt in H1. simpl in H1. rewrite String.compare_antisym, C in H1. done.
  - intros [[= <- <-]|Hin]; [by rewrite compare_refl in C|]. by apply IH.
Qed.

Lemma filter_sorted (P : string * json → Prop) `{∀ kv, Decision (P kv)} m :
  StronglySorted key_lt m → StronglySorted key_lt (filter P m).
Proof.
  induction 1 as [|kv m Hm IH H1]; [constructor|]. rewrite filter_cons. case_decide; [|done].
  constructor; [done|]. rewrite Forall_forall in *. intros kv' [_ Hin]%list_elem_of_filter. by apply H1.
Qed.

Lemma fmap_sorted (f : json → json) m :
  StronglySorted key_lt m → StronglySorted key_lt ((λ kv, (kv.1, f kv.2)) <$> m).
Proof.
  induction 1 as [|kv m Hm IH H1]; [constructor|]. constructor; [done|]. apply Forall_fmap.
  eapply Forall_impl; [exact H1|]. done.
Qed.

(** ** Objects in any order *)

(** A member that decodes to a target with its field right, and leaves the
    other fields alone; [Q] holds of the targets on the way. *)
Definition settles {A} (dec : decoder A) (Q : A → Prop) (reads : list (sent A)) (r : sent A)
    (kv : string * json) : Prop :=
  ∀ a, Q a → ∃ a', dec (JObj [kv]) a = DOk a' ∧ Q a' ∧ s_settled r a' ∧
    Forall (λ r', s_settled r' a → s_settled r' a') reads.

Lemma dec_struct_cons {A} (field : string → option (decoder A)) kv fs a a' :
  dec_struct field (JObj [kv]) a = DOk a' → dec_struct field (JObj (kv :: fs)) a = dec_struct field (JObj fs) a'.
Proof. unfold dec_struct, dec_fields. simpl. by intros ->. Qed.

Lemma members_decoded {A} (field : string → option (decoder A)) (Q : A → Prop) (reads : list (sent A)) fs : ∀ a, Q a →
  Forall (λ kv, Forall (λ r, kv.1 = s_key r → settles (dec_struct field) Q reads r kv) reads ∧
                (kv.1 ∉ s_key <$> reads → ∀ a, dec_struct field (JObj [kv]) a = DOk a)) fs →
  Forall (λ r, s_settled r a ∨ s_key r ∈ fs.*1) reads →
  ∃ h, dec_struct field (JObj fs) a = DOk h ∧ Forall (λ r, s_settled r h) reads.
Proof.
  induction fs as [|kv fs IH]; intros a HQ Hfs Ha.
  { exists a. split; [done|]. eapply Forall_impl; [exact Ha|]. intros r [?|?%elem_of_nil]; done. }
  apply Forall_cons in Hfs as [[Hset Hother] Hfs].
  assert (∃ a', dec_struct field (JObj [kv]) a = DOk a' ∧ Q a' ∧
    Forall (λ r, s_settled r a' ∨ s_key r ∈ fs.*1) reads) as (a' & E & HQ' & Ha').
  { destruct (decide (kv.1 ∈ s_key <$> reads)) as [Hin|Hout].
    - apply list_elem_of_fmap in Hin as (r & Hk & Hr). rewrite Forall_forall in Hset.
      destruct (Hset r Hr Hk a HQ) as (a' & E & HQ' & Hs & Hkeep). exists a'. split; [done|]. split; [done|].
      rewrite !Forall_forall in *. intros r' Hr'. specialize (Ha r' Hr'). rewrite fmap_cons, elem_of_cons in Ha.
      destruct Ha as [?|[Hk'|?]]; [left; by apply Hkeep| |by right].
      destruct (Hset r' Hr' (eq_sym Hk') a HQ) as (a'' & E'' & _ & Hs'' & _). rewrite E in E''. simplify_eq. by left.
    - exists a. split; [by apply Hother|]. split; [done|]. rewrite !Forall_forall in *. intros r Hr. specialize (Ha r Hr).
      rewrite fmap_cons, elem_of_cons in Ha. destruct Ha as [?|[Hk|?]]; [by left| |by right].
      destruct Hout. rewrite <-Hk. by apply list_elem_of_fmap_2. }
  rewrite (dec_struct_cons _ _ _ _ _ E). by apply IH.
Qed.

(** The members of an object as the decoder gets them. *)
Lemma object_decoded {A} (field : string → option (decoder A)) (via : json → json) (Q : A → Prop) (reads : list (sent A))
    fs fs' a0 h :
  Q a0 → members_of (dec_struct field) via reads fs →
  Forall (λ r, ∀ j, s_says r j → settles (dec_struct field) Q reads r (s_key r, via j)) reads →
  Forall (λ r, s_absent r → s_settled r a0) reads →
  (∀ kv, kv ∈ fs' → (∃ j, kv = (kv.1, via j) ∧ (kv.1, j) ∈ fs) ∨
     (kv.1 ∉ s_key <$> reads ∧ ∀ a, dec_struct field (JObj [kv]) a = DOk a)) →
  (∀ k, k ∈ fs.*1 → k ∈ fs'.*1) →
  (∀ a, Forall (λ r, s_settled r a) reads → a = h) →
  dec_struct field (JObj fs') a0 = DOk h.
Proof.
  intros HQ (Hsays & Hpres & Hother) Hset Habs Hfs Hkeys Hall.
  destruct (members_decoded field Q reads fs' a0 HQ) as (h' & E & Hh).
  - apply Forall_forall. intros kv Hin. destruct (Hfs kv Hin) as [(j & Hkv & Hj)|[Hn Hd]].
    + split.
      * rewrite !Forall_forall in *. intros r Hr Hk. rewrite Hkv, Hk. apply Hset; [done|].
        specialize (Hsays r Hr). rewrite Forall_forall in Hsays. by apply (Hsays _ Hj).
      * intros Hout a. rewrite Hkv. rewrite Forall_forall in Hother. by apply (Hother _ Hj).
    + split; [|done]. apply Forall_forall. intros r Hr Hk. destruct Hn. rewrite Hk. by apply list_elem_of_fmap_2.
  - rewrite !Forall_forall in *. intros r Hr. destruct (Hpres r Hr); [right|left]; auto.
  - by rewrite E, (Hall h' Hh).
Qed.

(** The same for an object that is decoded as it is. *)
Lemma sent_object_decoded {A} (field : string → option (decoder A)) (Q : A → Prop) (reads : list (sent A)) j a0 h :
  Q a0 → sent_object (dec_struct field) reads j →
  Forall (λ r, ∀ j, s_says r j → settles (dec_struct field) Q reads r (s_key r, j)) reads →
  Forall (λ r, s_absent r → s_settled r a0) reads →
  (∀ a, Forall (λ r, s_settled r a) reads → a = h) →
  dec_struct field j a0 = DOk h.
Proof.
  intros HQ (fs & -> & Hm) Hset Habs Hall.
  eapply (object_decoded field (λ j, j) Q reads fs fs a0 h); try done.
  intros [k j] Hin. left. by exists j.
Qed.

Section Decoded.
Context `{UnicodeTables, JsonText, NumberText, !NumberTextLaws _}.

Lemma remarshal_int z : float_int z → remarshal (enc_int z) = enc_int z.
Proof. intros Hz. unfold enc_int. simpl. rewrite ParseFloat_Itoa by done. simpl. by rewrite number_text_int. Qed.

Lemma float_int_int64 z : float_int z → int64_min ≤ z ≤ int64_max.
Proof. unfold float_int, int64_min, int64_max. lia. Qed.

Lemma dec_float_int z old : float_int z → dec_int (enc_int z) old = DOk z.
Proof. intros Hz. by apply dec_int_enc, float_int_int64. Qed.

Lemma remarshal_guids (l : list ExternalGUID) :
  remarshal (JArr (json_of_guid <$> l)) = JArr (json_of_guid <$> l).
Proof. simpl. f_equal. induction l as [|g l IH]; [done|]. simpl. f_equal. exact IH. Qed.

Lemma dec_guids (l old : list ExternalGUID) :
  dec_slice (mkGuid "") dec_ExternalGUID (JArr (json_of_guid <$> l)) old = DOk l.
Proof.
  unfold dec_slice. induction l as [|[g] l IH]; [done|]. cbn [fmap list_fmap foldr].
  change (dec_ExternalGUID (json_of_guid _) _) with (DOk (mkGuid g)). cbn [mbind dres_bind].
  unfold mbind, dres_bind in *. by rewrite IH.
Qed.

(** One member decodes into its field. *)
Lemma settles_at {A B} (field : string → option (decoder A)) (get : A → B) set (d : decoder B) (Q : A → Prop) reads (r : sent A) j b :
  field (s_key r) = Some (dec_at get set d) →
  (∀ a, Q a → d j (get a) = DOk b) → (∀ a, Q a → Q (set b a)) → (∀ a, s_settled r (set b a)) →
  (∀ a, Forall (λ r', s_settled r' a → s_settled r' (set b a)) reads) →
  settles (dec_struct field) Q reads r (s_key r, j).
Proof.
  intros Hf Hd HQ Hs Hk a Ha. exists (set b a). split; [|by split_and!; auto].
  unfold dec_struct, dec_fields. cbn [foldl fst snd mbind dres_bind]. rewrite Hf. unfold dec_at.
  by rewrite Hd.
Qed.

Definition any_target {A} (a : A) : Prop := True.

(** The fields of a struct one after the other, and the fields that a member
    leaves alone. *)
Ltac each_field := repeat (apply Forall_cons_2; [|]); try apply Forall_nil_2.
Ltac settle tac :=
  let j := fresh "j" in let Hj := fresh "Hj" in
  intros j Hj; eapply settles_at; [reflexivity|tac Hj|try (intros; exact I)|intros; reflexivity|];
  [..|intros; each_field; cbn [s_settled sent_string sent_int sent_bool sent_as]; let Hs := fresh in intros Hs; exact Hs || reflexivity].

Lemma Account_decoded a j old :
  int64_min ≤ Account_ID a ≤ int64_max → old = mkAccount 0 "" ∨ old = a →
  sent_object dec_Account (Account_sent a) j → dec_Account j old = DOk a.
Proof.
  intros Hi Hold Hj. eapply (sent_object_decoded _ any_target); [exact I|exact Hj|..].
  - each_field; settle ltac:(fun Hj => intros; rewrite Hj; first [by apply dec_int_enc|reflexivity]).
  - each_field; simpl; intros; destruct Hold; subst; done.
  - intros b. unfold Account_sent. rewrite !Forall_cons. destruct a, b. simpl. naive_solver.
Qed.

Lemma Server_decoded s j old :
  old = mkServer "" "" ∨ old = s → sent_object dec_Server (Server_sent s) j → dec_Server j old = DOk s.
Proof.
  intros Hold Hj. eapply (sent_object_decoded _ any_target); [exact I|exact Hj|..].
  - each_field; settle ltac:(fun Hj => intros; rewrite Hj; reflexivity).
  - each_field; simpl; intros; destruct Hold; subst; done.
  - intros b. unfold Server_sent. rewrite !Forall_cons. destruct s, b. simpl. naive_solver.
Qed.

Lemma Player_decoded s j old :
  old = mkPlayer "" "" ∨ old = s → sent_object dec_Player (Player_sent s) j → dec_Player j old = DOk s.
Proof.
  intros Hold Hj. eapply (sent_object_decoded _ any_target); [exact I|exact Hj|..].
  - each_field; settle ltac:(fun Hj => intros; rewrite Hj; reflexivity).
  - each_field; simpl; intros; destruct Hold; subst; done.
  - intros b. unfold Player_sent. rewrite !Forall_cons. destruct s, b. simpl. naive_solver.
Qed.

(** The members of the metadata, on their way through a map of values. *)
Lemma Metadata_members_settle m :
  Forall float_int [MD_Index m; ParentIndex m; ViewOffset m; MD_Year m; MD_Duration m] →
  Forall (λ r, ∀ j, s_says r j → settles dec_Metadata any_target (Metadata_sent m) r (s_key r, remarshal j))
    (Metadata_sent m).
Proof.
  rewrite !Forall_cons. intros (? & ? & ? & ? & ? & _). unfold dec_Metadata.
  each_field; settle ltac:(fun Hj => intros; rewrite Hj; first
    [reflexivity | rewrite remarshal_int by done; by apply dec_float_int | rewrite remarshal_guids; apply dec_guids]).
Qed.

Lemma get_key_elem k m v : get_key k m = Some v → (k, v) ∈ m.
Proof.
  unfold get_key. intros E. apply fmap_Some in E as ([i [k' v']] & E & ->). simpl.
  apply list_find_Some in E as (E & <- & _). by eapply list_elem_of_lookup_2.
Qed.

Lemma get_key_none k m : get_key k m = None ↔ k ∉ m.*1.
Proof.
  unfold get_key. rewrite fmap_None, list_find_None, Forall_forall, list_elem_of_fmap. split.
  - intros Hn ([k' v] & -> & Hin). by apply (Hn _ Hin).
  - intros Hn [k' v] Hin E. apply Hn. by exists (k', v).
Qed.

(** The members that the struct decoder gets: those of the metadata but the
    ratings, and the number that [audienceRating] stands for. *)
Lemma marshalled_members fs kv :
  kv ∈ (λ kv, (kv.1, remarshal kv.2)) <$> delete_key "Rating" (map_of fs) →
  ∃ j, kv = (kv.1, remarshal j) ∧ (kv.1, j) ∈ fs ∧ kv.1 ≠ "Rating".
Proof.
  intros ([k j] & -> & [Hk Hin]%list_elem_of_filter)%list_elem_of_fmap. exists j. simpl in *.
  split; [done|]. split; [by apply map_of_members|done].
Qed.

Lemma marshalled_keys fs k :
  k ∈ ((λ kv, (kv.1, remarshal kv.2)) <$> delete_key "Rating" (map_of fs)).*1 ↔ k ∈ fs.*1 ∧ k ≠ "Rating".
Proof.
  rewrite <-list_fmap_compose, list_elem_of_fmap, <-(map_of_keys fs), list_elem_of_fmap. split.
  - intros ([k' j] & -> & [Hk Hin]%list_elem_of_filter). split; [by exists (k', j)|done].
  - intros [([k' j] & -> & Hin) Hk]. exists (k', j). split; [done|]. by apply list_elem_of_filter.
Qed.

Lemma filtered_keys fs k :
  k ∈ (filter (λ kv : string * json, kv.1 ≠ "Rating" ∧ kv.1 ≠ "audienceRating") fs).*1 → k ∈ fs.*1 ∧ k ≠ "Rating".
Proof.
  intros ([k' j] & -> & [[H1' _] Hin]%list_elem_of_filter)%list_elem_of_fmap. split; [|done].
  by apply (list_elem_of_fmap_2 fst _ (k', j)).
Qed.

Lemma marshalled_decoded m fs l :
  members_of dec_Metadata remarshal (Metadata_sent m)
    (filter (λ kv, kv.1 ≠ "Rating" ∧ kv.1 ≠ "audienceRating") fs) →
  Forall float_int [MD_Index m; ParentIndex m; ViewOffset m; MD_Year m; MD_Duration m] →
  (∀ kv, kv ∈ l → kv.1 = "audienceRating" ∧ (∃ x lit, kv.2 = JNum lit ∧ ParseFloat32 lit = Some x) ∨
     kv.1 ≠ "audienceRating" ∧ kv ∈ (λ kv, (kv.1, remarshal kv.2)) <$> delete_key "Rating" (map_of fs)) →
  (∀ k, k ∈ fs.*1 → k ≠ "Rating" → k ∈ l.*1) →
  dec_Metadata (JObj l) zeroMetadata = DOk m.
Proof.
  intros Hm Hz Hl Hk. eapply (object_decoded _ remarshal any_target); [exact I|exact Hm|by apply Metadata_members_settle|..].
  - each_field; simpl; intros; by symmetry.
  - intros kv Hin. destruct (Hl kv Hin) as [[Ha (x & lit & Hv & Hx)]|[Hne Hkv]].
    + right. split; [rewrite Ha; apply (bool_decide_unpack _); by vm_compute|].
      intros a. destruct kv as [k v]. cbn [fst snd] in Ha, Hv. subst k v. unfold dec_struct.
      erewrite dec_fields_cons; [reflexivity|reflexivity|]. unfold unread.
      change (dec_float32 (JNum lit) fzero) with (dres_of_option (ParseFloat32 lit)). by rewrite Hx.
    + left. destruct (marshalled_members _ _ Hkv) as (j & Hj & Hin' & Hr). exists j. split; [done|].
      by apply list_elem_of_filter.
  - intros k [??]%filtered_keys. by apply Hk.
  - intros b. unfold Metadata_sent. rewrite !Forall_cons. destruct m, b. simpl. naive_solver.
Qed.

Lemma Metadata_decoded m j old :
  sent_Metadata m j → Forall float_int [MD_Index m; ParentIndex m; ViewOffset m; MD_Year m; MD_Duration m] →
  Metadata_UnmarshalJSON j old = DOk m.
Proof.
  intros (fs & -> & Hn & Hno & Hfit & Hm) Hz. unfold Metadata_UnmarshalJSON. rewrite Hn. cbn [negb].
  set (gen := delete_key "Rating" (map_of fs)). set (marshalled := (λ kv, (kv.1, remarshal kv.2)) <$> gen).
  assert (∀ k, k ∈ gen.*1 → k ∈ fs.*1) as Hgen.
  { intros k ([k' v] & -> & [_ Hin]%list_elem_of_filter)%list_elem_of_fmap.
    apply (list_elem_of_fmap_2 fst _ (k', v)), map_of_members, Hin. }
  unfold audience_rating. rewrite (proj2 (get_key_none _ _)) by auto.
  destruct (get_key "audienceRating" gen) as [v|] eqn:Ev; cbn [fmap option_fmap option_map].
  - apply get_key_elem in Ev. assert (fits v) as [Hfin [x Hx]].
    { apply list_elem_of_filter in Ev as [_ Ev]. apply map_of_members in Ev.
      rewrite Forall_forall in Hfit. by apply (Hfit _ Ev). }
    rewrite Hfin. cbn [negb]. eapply marshalled_decoded; [exact Hm|done|..].
    + intros [k j] Hin. destruct (decide (k = "audienceRating")) as [->|Hne].
      * left. split; [done|]. apply set_key_replaces in Hin as ->; [by eauto|].
        by apply fmap_sorted, filter_sorted, map_of_sorted.
      * right. split; [done|]. apply set_key_members in Hin as [[= ? ?]|Hin]; done.
    + intros k Hk Hr. apply set_key_keys. right. by apply marshalled_keys.
  - eapply marshalled_decoded; [exact Hm|done|..].
    + intros [k j] Hin. right. split; [|done]. simpl. intros ->. apply get_key_none in Ev. apply Ev.
      apply list_elem_of_fmap in Hin as ([k' v] & [= <- _] & Hin). by apply (list_elem_of_fmap_2 fst _ ("audienceRating", v)).
    + intros k Hk Hr. by apply marshalled_keys.
Qed.

(** The objects of a webhook are decoded into the zero value, or once more into
    the value that they stand for. *)
Definition hook_target (h a : Webhook) : Prop :=
  (Hook_Account a = mkAccount 0 "" ∨ Hook_Account a = Hook_Account h) ∧
  (Hook_Server a = mkServer "" "" ∨ Hook_Server a = Hook_Server h) ∧
  (Hook_Player a = mkPlayer "" "" ∨ Hook_Player a = Hook_Player h).

Lemma Webhook_decoded h j : sendable h → sent_Webhook h j → dec_Webhook j zeroWebhook = DOk h.
Proof.
  intros [Ha Hz] Hj. eapply (sent_object_decoded _ (hook_target h)); [|exact Hj|..].
  - split_and!; by left.
  - each_field; settle ltac:(fun Hj => intros a (? & ? & ?); first
      [ rewrite Hj; reflexivity
      | eapply Account_decoded; [done..|exact Hj] | eapply Metadata_decoded; [exact Hj|done]
      | eapply Server_decoded; [done|exact Hj] | eapply Player_decoded; [done|exact Hj] ]);
      intros a (? & ? & ?); split_and!; simpl; auto.
  - each_field; simpl; intros; by symmetry.
  - intros b. unfold Webhook_sent. rewrite !Forall_cons. destruct h, b. simpl. naive_solver.
Qed.

Lemma ParseWebhook_text text h j :
  json_parse text = Some j → TrimSpace text ≠ "" → sendable h → sent_Webhook h j → ParseWebhook text = Ok h.
Proof.
  intros Hp Ht Hs Hj. unfold ParseWebhook, Parse. rewrite bool_decide_false by done. simpl.
  unfold json_Unmarshal. by rewrite Hp, (Webhook_decoded h).
Qed.
End Decoded.

(** ** Text of requests *)

Lemma percent_value a :
  ∃ x y h k, percent a = ["%"%char; x; y] ∧ hex_value x = Some h ∧ hex_value y = Some k ∧ ascii_of_N (16 * h + k) = a.
Proof. destruct a as [[] [] [] [] [] [] [] []]; repeat eexists. Qed.

Lemma plain_byte a : is_alnum a || one_of a "-_.~" = true → Ascii.eqb a "%" = false ∧ Ascii.eqb a "+" = false.
Proof. by destruct a as [[] [] [] [] [] [] [] []]. Qed.

Lemma unescape_byte a l :
  unescape ((if is_alnum a || one_of a "-_.~" then [a] else if Ascii.eqb a " " then ["+"%char] else percent a) ++ l) =
  r ← unescape l; Some (a :: r).
Proof.
  destruct (is_alnum a || _) eqn:E.
  { apply plain_byte in E as [E1 E2]. simpl. by rewrite E1, E2. }
  destruct (Ascii.eqb_spec a " ") as [->|_]; [done|].
  destruct (percent_value a) as (x & y & h & k & -> & Hx & Hy & Ha). simpl. rewrite Hx, Hy. simpl. by rewrite Ha.
Qed.

Lemma QueryUnescape_QueryEscape s : QueryUnescape (QueryEscape s) = Some s.
Proof.
  unfold QueryUnescape, QueryEscape. rewrite bytes_of_bytes. rewrite <-(of_bytes_bytes s) at 2.
  induction (bytes s) as [|a l IH]; [done|]. rewrite bind_cons, unescape_byte.
  destruct (unescape _) as [k|]; [|done]. simpl in *. injection IH as E. by rewrite E.
Qed.

Lemma braces_skip pre l : Forall (λ a, a ≠ "{"%char) pre → braces (pre ++ l) = braces l.
Proof.
  induction 1 as [|a pre Ha _ IH]; [done|]. simpl. by rewrite (proj2 (Ascii.eqb_neq _ _) Ha).
Qed.

Lemma upto_brace_line inner post :
  Forall (λ a, N_of_ascii a ≠ 10%N) inner → upto_brace post = None →
  upto_brace (inner ++ "}"%char :: post) = Some (inner ++ ["}"%char]).
Proof.
  intros Hi Hp. induction Hi as [|a inner Ha _ IH]; simpl; [by rewrite Hp|].
  rewrite (proj2 (N.eqb_neq _ _) Ha). by rewrite IH.
Qed.

Definition crlf : string := of_bytes [ascii_of_N 13; ascii_of_N 10].

(** A JSON object of a webhook is not trimmed away, and not taken for a form. *)
Lemma TrimSpace_braced inner : TrimSpace ("{" +:+ inner +:+ "}") = "{" +:+ inner +:+ "}".
Proof.
  rewrite <-(of_bytes_bytes (_ +:+ _)). rewrite !bytes_app.
  change (bytes "{" ++ bytes inner ++ bytes "}") with ("{"%char :: (bytes inner ++ ["}"%char])).
  by apply (TrimSpace_ascii "{" "}" _ ("{"%char :: bytes inner)).
Qed.

(** Trimming a text with a visible first byte takes off its end only. *)
Lemma not_form a s : a ≠ "p"%char → is_ascii_byte a = true → space1 a = false →
  HasPrefix (TrimSpace (String a s)) "payload=" = false.
Proof.
  intros Hne Ha Sa. apply not_true_iff_false. intros Hp. apply HasPrefix_spec in Hp as [t Hp].
  apply (f_equal bytes) in Hp. unfold TrimSpace, trim_left in Hp. rewrite bytes_of_bytes in Hp.
  change (bytes (String a s)) with (a :: bytes s) in Hp.
  rewrite strip_ascii in Hp; [|intros; apply space2_ascii; auto|intros; apply space3_ascii; auto|done].
  destruct (trim_right_prefix (a :: bytes s)) as [k Hk]. rewrite Hp in Hk. by simplify_eq/=.
Qed.

Lemma form_word text : word ("payload=" +:+ QueryEscape text).
Proof.
  split; [done|]. rewrite bytes_app, Forall_app. split; [by repeat constructor|].
  unfold QueryEscape. rewrite bytes_of_bytes. apply Forall_bind, Forall_forall. intros a _.
  destruct a as [[] [] [] [] [] [] [] []]; by repeat constructor.
Qed.

(** ** Two ways to read a rating *)

Section Ratings.
Context `{UnicodeTables, JsonText, NumberText}.

Lemma dec_floats l old : forallb (λ lit, bool_decide (is_Some (ParseFloat lit))) l = true →
  dec_slice fzero dec_float64 (JArr (JNum <$> l)) old = DOk ((λ lit, default fzero (ParseFloat lit)) <$> l).
Proof.
  unfold dec_slice. induction l as [|lit l IH]; [done|]. cbn [forallb fmap list_fmap foldr].
  intros [[x Hx]%bool_decide_eq_true Hl]%andb_true_iff. change (dec_float64 (JNum lit) fzero) with (dres_of_option (ParseFloat lit)).
  rewrite Hx. specialize (IH Hl). unfold mbind, dres_bind in *. rewrite IH. done.
Qed.

Lemma dec_strings l old : dec_slice "" dec_string (JArr (JStr <$> l)) old = DOk l.
Proof.
  unfold dec_slice. induction l as [|s l IH]; [done|]. cbn [fmap list_fmap foldr dec_string].
  unfold mbind, dres_bind in *. by rewrite IH.
Qed.

(** [FlexFloat] and the coercion of the metadata read the same number from a
    literal, a text, and an array of either. *)
Lemma FlexFloat_coerce j :
  (∃ lit, j = JNum lit) ∨ (∃ s, j = JStr s) ∨ (∃ l, j = JArr (JStr <$> l)) ∨
  (∃ l, j = JArr (JNum <$> l) ∧ numbers_ok j = true) →
  FlexFloat_UnmarshalJSON j fzero = coerce j.
Proof.
  intros [[lit ->]|[[s ->]|[[[|s l] ->]|(l & -> & Hn)]]]; [done..| |].
  - unfold FlexFloat_UnmarshalJSON. rewrite dec_strings. done.
  - unfold FlexFloat_UnmarshalJSON. rewrite dec_floats; [by destruct l|].
    clear -Hn. simpl in Hn. induction l as [|lit l IH]; [done|]. simpl in *.
    apply andb_true_iff in Hn as [-> Hn]. by apply IH.
Qed.
End Ratings.

Section Received.
Context `{UnicodeTables, JsonText, NumberText, !NumberTextLaws _, Multipart, !MultipartLaws _}.

(** The readers of forms find nothing: the body has been read before. *)
Lemma payload_of_body contentType body :
  payload_of contentType body =
    if HasPrefix (TrimSpace body) "payload=" then
      match split_once body "=" with
      | (_, Some encoded) => default body (QueryUnescape encoded)
      | (_, None) => body
      end
    else body.
Proof.
  unfold payload_of. change (ParseQuery after_ReadAll) with (Some ([] : list (string * string))). simpl.
  change after_ReadAll with "". rewrite multipart_payload_empty.
  by destruct (Contains _ "application/x-www-form-urlencoded"), (Contains _ "multipart/form-data").
Qed.

Lemma payload_of_form contentType text :
  payload_of contentType ("payload=" +:+ QueryEscape text) = text.
Proof.
  rewrite payload_of_body, TrimSpace_word by apply form_word. rewrite HasPrefix_app.
  assert (split_once ("payload=" +:+ QueryEscape text) "=" = ("payload", Some (QueryEscape text))) as ->.
  { unfold split_once, IndexByte. rewrite bytes_app. change (bytes "payload=") with (bytes "payload" ++ ["="%char]).
    rewrite <-app_assoc. cbn [app]. rewrite index_app by (by repeat constructor).
    unfold slice_to, slice_from. rewrite bytes_app. change (drop _ _) with (bytes (QueryEscape text)). by rewrite of_bytes_bytes. }
  by rewrite QueryUnescape_QueryEscape.
Qed.

(** C12: a webhook is understood in each of the forms in which it arrives, whatever
    its content type says: as JSON, as the form field [payload], and as a part
    of a multipart body on a line of its own, with its members in any order and
    any further members that the structs do not object to.  Its [Rating] may
    have any shape, its [audienceRating], if there is one, has to stand for a
    finite number that fits a [float32], there is no capitalised
    [AudienceRating], and the integers of the metadata are below 2^53: then
    [api] works with exactly the webhook that was sent. *)
Theorem webhook_received (h : Webhook) (j : json) (contentType inner : string) :
  let text := "{" +:+ inner +:+ "}" in
  json_parse text = Some j → sendable h → sent_Webhook h j →
  request_webhook contentType text = Some h ∧
  request_webhook contentType ("payload=" +:+ QueryEscape text) = Some h ∧
  ∀ headers rest,
    let body := "--" +:+ headers +:+ text +:+ crlf +:+ rest in
    Forall (λ a, a ≠ "{"%char) (bytes headers) → Forall (λ a, N_of_ascii a ≠ 10%N) (bytes inner) →
    json_parse body = None → request_webhook contentType body = Some h.
Proof.
  intros text Hp Hs Hj.
  assert (ParseWebhook text = Ok h) as Hok.
  { eapply ParseWebhook_text; [done|subst text; by rewrite TrimSpace_braced|done..]. }
  assert (webhook_in text = Some h) as Hin by (unfold webhook_in; by rewrite Hok).
  unfold request_webhook. split_and!.
  - rewrite payload_of_body. change text with (String "{" (inner +:+ "}")) at 1. by rewrite not_form.
  - by rewrite payload_of_form.
  - intros headers rest Hh Hi Hn. set (body := "--" +:+ _) in *. rewrite payload_of_body.
    change (HasPrefix (TrimSpace body) "payload=") with
      (HasPrefix (TrimSpace (String "-" (String "-" (headers +:+ text +:+ crlf +:+ rest)))) "payload=").
    rewrite not_form by done.
    unfold webhook_in. assert (∃ e, ParseWebhook body = Err e) as [e ->].
    { unfold ParseWebhook, Parse. case_bool_decide; [eauto|]. simpl. unfold json_Unmarshal. rewrite Hn. eauto. }
    assert (braces (bytes body) = Some (bytes text)) as ->.
    { subst body text. rewrite !bytes_app. change (bytes "--") with ["-"; "-"]%char. cbn [braces app Ascii.eqb Bool.eqb].
      rewrite braces_skip by done. rewrite <-!app_assoc.
      change (bytes "{" ++ ?l) with ("{"%char :: l). change (bytes "}") with ["}"%char].
      cbn [braces Ascii.eqb Bool.eqb app]. by rewrite upto_brace_line. }
    by rewrite of_bytes_bytes, Hok.
Qed.

(** ** What the parser refuses *)

Lemma set_key_elem k k' v v' m : k ≠ k' → (k, v) ∈ m → (k, v) ∈ set_key k' v' m.
Proof.
  intros Hne. induction m as [|[k1 v1] m IH]; [by intros ?%elem_of_nil|].
  intros [E|E]%elem_of_cons; simpl; destruct (String.compare k' k1) eqn:C; simplify_eq;
    rewrite !elem_of_cons; auto.
  by apply String.compare_eq_iff in C.
Qed.

(** One member that does not decode is enough. *)
Lemma dec_fields_refuses {A} (field : string → option (decoder A)) fs k j d a :
  (k, j) ∈ fs → field k = Some d → (∀ a, d j a = DErr) → ∀ b, dec_fields field fs a ≠ DOk b.
Proof.
  intros Hin Hf Hd b. unfold dec_fields. revert a.
  assert (∀ fs (acc : dres A), (∀ b, acc ≠ DOk b) →
    foldl (λ acc kv, a ← acc; match field kv.1 with None => DOk a | Some d => d kv.2 a end) acc fs ≠ DOk b) as K.
  { clear. intros fs. induction fs as [|kv fs IH]; intros acc Ha; simpl; [done|]. apply IH.
    destruct acc; simpl; naive_solver. }
  induction fs as [|[k' j'] fs IH]; [by apply elem_of_nil in Hin|]. intros a. simpl.
  apply elem_of_cons in Hin as [[= <- <-]|Hin].
  - rewrite Hf, Hd. by apply K.
  - destruct (field k') as [d'|]; [|by apply IH]. destruct (d' j' a); [by apply IH|by apply K..].
Qed.

(** The shapes of a rating, other than a number, that [coerce] is meant for. *)
Definition shaped (v : json) : bool := match v with JStr _ | JArr _ | JObj _ => true | _ => false end.

(** C37: two ratings that the decoder of the metadata means to tolerate make it
    refuse the whole webhook: a capitalised [AudienceRating] that is not a
    number, because the coerced value is stored under another key and the
    original stays, and the text [NaN], which is a number to Go but cannot be
    printed as JSON. *)
Theorem rating_rejected (fs : list (string * json)) (old m : Metadata) :
  (∃ v, get_key "AudienceRating" (map_of fs) = Some v ∧ shaped v = true) ∨
  get_key "AudienceRating" (delete_key "Rating" (map_of fs)) = None ∧
  get_key "audienceRating" (delete_key "Rating" (map_of fs)) = Some (JStr "NaN") →
  Metadata_UnmarshalJSON (JObj fs) old ≠ DOk m.
Proof.
  unfold Metadata_UnmarshalJSON. destruct (negb (numbers_ok _)); [done|].
  intros [(v & Hv & Hs)|[H1' H2']]; cycle 1.
  { unfold audience_rating. rewrite H1', H2'. simpl. by rewrite parse_number_NaN. }
  apply get_key_elem in Hv.
  assert (("AudienceRating", v) ∈ delete_key "Rating" (map_of fs)) as Hin by (by apply list_elem_of_filter).
  apply (list_elem_of_fmap_2 (λ kv, (kv.1, remarshal kv.2))) in Hin. simpl in Hin.
  assert (∀ a, unread (A:=Metadata) fzero dec_float32 (remarshal v) a = DErr) as Hd by (intros a; by destruct v).
  destruct (audience_rating _) as [x|]; [destruct (negb _); [done|]|]; unfold dec_Metadata, dec_struct;
    (apply (dec_fields_refuses _ _ "AudienceRating" (remarshal v) (unread fzero dec_float32)); [|reflexivity|exact Hd]);
    [by apply set_key_elem|done].
Qed.
End Received.

(** ** Examples *)

(** Objects in braces, everything else in digits. *)
Definition braced_text : JsonText := {|
  json_print j := "{" +:+ digits_of_pos (encode (tree_of_json j)) +:+ "}";
  json_indent j := "{" +:+ digits_of_pos (encode (tree_of_json j)) +:+ "}";
  json_parse s := if HasPrefix s "{" then json_of_tree <$> decode (pos_of_digits (TrimPrefix s "{")) else None;
  json_parse_first s := if HasPrefix s "{" then json_of_tree <$> decode (pos_of_digits (TrimPrefix s "{")) else None;
|}.
Definition whole_body : Multipart := {| multipart_payload _ rest := rest |}.
Lemma whole_body_laws : MultipartLaws whole_body.
Proof. by split. Qed.

(** The webhook of [test-fixtures/tv.json], with ratings in the shapes of
    [rating_test.go]. *)
Definition tv_metadata : list (string * json) :=
  [("librarySectionType", JStr "show"); ("ratingKey", JStr "59852"); ("key", JStr "/library/metadata/59852");
   ("parentRatingKey", JStr "59837"); ("grandparentRatingKey", JStr "59800");
   ("guid", JStr "com.plexapp.agents.thetvdb://73871/2/15?lang=en"); ("librarySectionTitle", JStr "TV Shows");
   ("librarySectionID", JNum "2"); ("librarySectionKey", JStr "/library/sections/2"); ("type", JStr "episode");
   ("title", JStr "A Clone of My Own"); ("titleSort", JStr "Clone of My Own");
   ("grandparentKey", JStr "/library/metadata/59800"); ("parentKey", JStr "/library/metadata/59837");
   ("grandparentTitle", JStr "Futurama"); ("parentTitle", JStr "Season 2"); ("contentRating", JStr "TV-14");
   ("summary", JStr "Professor Farnsworth unveils his clone, Cubert Farnsworth, whom he plans to leave everything to upon his retirement. But Cubert wants no part of Farnsworth's lifestyle, prompting the professor into a premature retirement on the Near-Death Star.");
   ("index", JNum "15"); ("parentIndex", JNum "2"); ("rating", JNum "7.2"); ("viewOffset", JNum "1127000");
   ("viewCount", JNum "2"); ("lastViewedAt", JNum "1547095971"); ("year", JNum "2000");
   ("thumb", JStr "/library/metadata/59852/thumb/1527715199");
   ("art", JStr "/library/metadata/59800/art/1527705166");
   ("parentThumb", JStr "/library/metadata/59837/thumb/1527705165");
   ("grandparentThumb", JStr "/library/metadata/59800/thumb/1527705166");
   ("grandparentArt", JStr "/library/metadata/59800/art/1527705166");
   ("grandparentTheme", JStr "/library/metadata/59800/theme/1527705166");
   ("originallyAvailableAt", JStr "2000-04-09"); ("addedAt", JNum "1527627788");
   ("updatedAt", JNum "1527715199");
   ("Director", JArr [JObj [("id", JNum "42892"); ("filter", JStr "director=42892"); ("tag", JStr "Rich Moore")]]);
   ("Writer", JArr [JObj [("id", JNum "49503"); ("filter", JStr "writer=49503"); ("tag", JStr "Patric M. Verrone")]]);
   ("Rating", JArr [JObj [("image", JStr "imdb://image.rating"); ("value", JNum "8.3"); ("type", JStr "audience")]]);
   ("audienceRating", JArr [JObj [("value", JStr "7.5")]])].
Definition tv_json : json := JObj
  [("event", JStr "media.pause"); ("user", JBool true); ("owner", JBool true);
   ("Account", JObj [("id", JNum "1"); ("thumb", JStr "https://plex.tv/users/asdf/avatar?c=1546903241"); ("title", JStr "testyboi")]);
   ("Server", JObj [("title", JStr "nice"); ("uuid", JStr "obfuscated")]);
   ("Player", JObj [("local", JBool false); ("publicAddress", JStr "200.200.200.200"); ("title", JStr "Chrome"); ("uuid", JStr "tyq49popy3l5vr338p0on3gr")]);
   ("Metadata", JObj tv_metadata)].
Definition tv_hook : Webhook :=
  mkWebhook "media.pause" true true (mkAccount 1 "testyboi")
    (mkMetadata "show" "59852" [] "com.plexapp.agents.thetvdb://73871/2/15?lang=en" "episode" "A Clone of My Own" "Futurama" 15 2 1127000 2000 0)
    (mkServer "nice" "obfuscated") (mkPlayer "Chrome" "tyq49popy3l5vr338p0on3gr").
Definition tv_inner : string := digits_of_pos (encode (tree_of_json tv_json)).

Lemma tv_parsed : json_parse (JsonText:=braced_text) ("{" +:+ tv_inner +:+ "}") = Some tv_json.
Proof. vm_compute. reflexivity. Qed.

#[local] Existing Instances ascii_tables decimal_numbers braced_text.

(** The conditions on the members of an object, one by one. *)
Ltac by_computing := apply (bool_decide_unpack _); vm_compute; exact I.
Ltac check_each tac := repeat (apply Forall_cons_2; [|]); try apply Forall_nil_2; tac.
Ltac check_members says :=
  split_and!;
  [ check_each ltac:(check_each ltac:(cbn [fst snd s_key sent_string sent_int sent_bool sent_as];
      let Hk := fresh "Hk" in intros Hk; first [discriminate Hk | says]))
  | check_each ltac:(first [left; by_computing | right; reflexivity])
  | check_each ltac:(cbn [fst snd]; let Hn := fresh "Hn" in let a := fresh "a" in intros Hn a; first [destruct Hn; by_computing | vm_compute; reflexivity]) ].

Definition tv_rest : list (string * json) :=
  Eval vm_compute in filter (λ kv, kv.1 ≠ "Rating" ∧ kv.1 ≠ "audienceRating") tv_metadata.
Lemma tv_rest_eq : tv_rest = filter (λ kv, kv.1 ≠ "Rating" ∧ kv.1 ≠ "audienceRating") tv_metadata.
Proof. vm_compute. reflexivity. Qed.

Lemma tv_metadata_sent : sent_Metadata (Hook_Metadata tv_hook) (JObj tv_metadata).
Proof.
  exists tv_metadata. split; [reflexivity|]. split; [vm_compute; reflexivity|]. split; [by_computing|]. split.
  - check_each ltac:(cbn [fst snd]; intros Hk; first
      [ discriminate Hk | split; [vm_compute; reflexivity|eexists; vm_compute; reflexivity] ]).
  - rewrite <-tv_rest_eq. check_members ltac:(reflexivity).
Qed.

Lemma tv_sent : sent_Webhook tv_hook tv_json.
Proof.
  eexists. split; [reflexivity|].
  check_members ltac:(first [ reflexivity | exact tv_metadata_sent
    | eexists; split; [reflexivity|]; check_members ltac:(reflexivity) ]).
Qed.

Lemma digits_one_line p : Forall (λ a, N_of_ascii a ≠ 10%N) (bytes (digits_of_pos p)).
Proof. induction p; simpl; by constructor. Qed.

Lemma webhook_received_witness :
  request_webhook (H:=ascii_tables) (H0:=braced_text) (H1:=decimal_numbers) (H2:=whole_body) "multipart/form-data"
    ("--b" +:+ crlf +:+ "Content-Disposition: form-data; name=payload" +:+ crlf +:+ crlf +:+
     ("{" +:+ tv_inner +:+ "}") +:+ crlf +:+ "--b--") = Some tv_hook.
Proof.
  apply (webhook_received (H:=ascii_tables) (H0:=braced_text) (H1:=decimal_numbers) (H2:=whole_body)
    (NumberTextLaws0:=decimal_numbers_laws) (MultipartLaws0:=whole_body_laws)
    tv_hook tv_json "multipart/form-data" tv_inner) with
    (headers := "b" +:+ crlf +:+ "Content-Disposition: form-data; name=payload" +:+ crlf +:+ crlf) (rest := "--b--").
  - exact tv_parsed.
  - split; [vm_compute; split; discriminate|]. repeat constructor.
  - exact tv_sent.
  - by repeat constructor.
  - apply digits_one_line.
  - reflexivity.
Defined.

Lemma rating_rejected_witness :
  Metadata_UnmarshalJSON (H:=ascii_tables) (H1:=decimal_numbers)
    (JObj [("title", JStr "Heat"); ("AudienceRating", JStr "7.5")]) zeroMetadata ≠
  DOk (mkMetadata "" "" [] "" "" "Heat" "" 0 0 0 0 0).
Proof.
  apply (rating_rejected (H:=ascii_tables) (H1:=decimal_numbers) (NumberTextLaws0:=decimal_numbers_laws)).
  left. exists (JStr "7.5"). split; reflexivity.
Defined.
