(* ===== verification/OAuth.v ===== *)
(** * Authorization: [main.go], lines 231-266, 397-411, 558-1097, 1111-1453

    The handlers of the OAuth round trips with Trakt: [createAuthState] and
    [createFamilyAuthState] start one, [authorize] ends that of a single user,
    [authorizeFamilyMember] that of one member of a family.  The state of a
    round trip is in the store of Sessions.v; the family of a session is a
    pointer, so the sessions that [authorizeFamilyMember] creates share one
    [FamilyGroupState], which is a cell of a heap here. *)

From S2P Require Import Prelude GoLib Text Float Json Instances Common Entities Buffers Trakt Sessions Webhooks Request.

Open Scope Z_scope.

(** ** State *)

Record FamilyMemberState := mkFMS {
  MS_MemberID : string;
  MS_TempLabel : string;
  MS_TraktUsername : string;
  MS_AuthorizationStatus : string;
  MS_AuthorizedAt : Time;
}.
Record FamilyGroupState := mkFGS {
  GS_GroupID : string;
  GS_PlexUsername : string;
  GS_Members : list FamilyMemberState;
}.

(** [authStates] and the family states that its entries point to. *)
Record Auths := mkAuths { au_states : gmap string authState; au_heap : list FamilyGroupState }.

(** The family a session points to. *)
Definition family_at (au : Auths) (state : authState) : option (nat * FamilyGroupState) :=
  loc ← A_FamilyGroup state; g ← au_heap au !! loc; Some (loc, g).

(** The globals of the program: whether [storage] is set, and [traktSrv]. *)
Record Globals := mkGlobals { g_trustProxy : bool; g_storage : bool; g_traktSrv : option Trakt }.

(** The family methods of [Store] that change something; the store may rewrite
    the member it is given. *)
Class FamilyStore (W : Type) := {
  Fam_CreateFamilyGroup : FamilyGroup → W → option error * W;
  Fam_DeleteFamilyGroup : string → W → option error * W;
  Fam_AddGroupMember : GroupMember → W → (option error * GroupMember) * W;
  Fam_GetGroupMember : string → W → result (option GroupMember) * W;
  Fam_UpdateGroupMember : GroupMember → W → option error * W;
}.

(** ** Answers *)

(** JSON, a redirect (address and parameters), or the page that closes the
    window of a family member and tells its opener the values given. *)
Inductive answer :=
| Json (r : reply)
| Redirect (base : string) (params : gmap string string)
| MemberPage (memberID traktUsername state : string) (allAuthorized : bool).

(** The header [Location] of a redirect. *)
Definition location (base : string) (params : gmap string string) : string :=
  if bool_decide (params = ∅) then base else base +:+ "?" +:+ Encode params.

Definition StatusMethodNotAllowed : Z := 405.
Definition StatusConflict : Z := 409.
Definition StatusServiceUnavailable503 : Z := 503.

Definition writeJSON (status : Z) (payload : list (string * json)) : answer := Json (mkReply status payload).
Definition writeJSONError (status : Z) (message : string) : answer := writeJSON status [("error", JStr message)].

(** The parameters that are not blank. *)
Definition nonblank (params : list (string * string)) : gmap string string :=
  list_to_map (filter (λ kv, TrimSpace kv.2 ≠ "") params).

Section Handlers.
Context {W : Type} `{UnicodeTables, JsonText, UrlText, Http W, ScrobbleStore W, WebStore W, FamilyStore W}.

(** [authStates.Create]; [draws] are the random values it uses, [None] meaning
    that they did not suffice. *)
Definition authStates_Create (draws : list (option (list Z) * Z)) (state : authState) (au : Auths) (w : W)
    : option (string * Auths * W) :=
  let '(now, w) := if IsZero (A_Created state) then Web_Now w else (zeroTime, w) in
  '(token, states) ← Create now draws state (au_states au);
  Some (token, mkAuths states (au_heap au), w).

Definition authStates_Get (token : string) (au : Auths) (w : W) : (authState * bool) * W :=
  let '(now, w) := Web_Now w in (Get now token (au_states au), w).

Definition authStates_Consume (token : string) (au : Auths) (w : W) : (authState * bool) * Auths * W :=
  let '(now, w) := Web_Now w in
  let '(state, ok, states) := Consume now token (au_states au) in
  ((state, ok), mkAuths states (au_heap au), w).

(** [authRequestFunc] and [fetchDisplayNameFunc] *)
Definition authRequestFunc (t : option Trakt) (redirectURI username code refreshToken grantType : string) (w : W)
    : (gmap string json * bool) * W :=
  match t with
  | None => ((∅, false), w)
  | Some t => AuthRequest t redirectURI username code refreshToken grantType w
  end.
Definition fetchDisplayNameFunc (t : option Trakt) (accessToken : string) (w : W) : result (string * bool) * W :=
  match t with
  | None => (Ok ("", false), w)
  | Some t => FetchDisplayName t accessToken w
  end.

(** ** Starting a round trip *)

Record stateRequest := mkStateReq { SR_Mode : string; SR_Username : string; SR_ID : string }.
Definition dec_stateRequest : decoder stateRequest := dec_struct (find_field
  [("mode", dec_at SR_Mode (λ v r, mkStateReq v (SR_Username r) (SR_ID r)) dec_string);
   ("username", dec_at SR_Username (λ v r, mkStateReq (SR_Mode r) v (SR_ID r)) dec_string);
   ("id", dec_at SR_ID (λ v r, mkStateReq (SR_Mode r) (SR_Username r) v) dec_string)]).

(** [json.NewDecoder(r.Body).Decode(&req)] *)
Definition decode_request {A} (d : decoder A) (zero : A) (r : Request) : option A :=
  match json_parse_first (R_Body r) with
  | None => None
  | Some j => match d j zero with DOk a => Some a | _ => None end
  end.

(** Keep a session with the given values and answer its token. *)
Definition start_session (draws : list (option (list Z) * Z)) (mode username selectedID correlationID : string)
    (au : Auths) (w : W) : option (answer * Auths * W) :=
  let '(created, w) := Web_Now w in
  '(token, au, w) ← authStates_Create draws (mkAuth mode username selectedID correlationID created None) au w;
  Some (writeJSON StatusOK [("state", JStr token)], au, w).

Definition createAuthState (glob : Globals) (draws : list (option (list Z) * Z)) (r : Request) (au : Auths) (w : W)
    : outcome (option (answer * Auths * W)) :=
  let refuse status message w := Ret (Some (writeJSONError status message, au, w)) in
  if bool_decide (R_Method r ≠ "POST") then refuse StatusMethodNotAllowed "method not allowed" w else
  match decode_request dec_stateRequest (mkStateReq "" "" "") r with
  | None => refuse StatusBadRequest "invalid request body" w
  | Some req =>
      let username := ToLower (TrimSpace (SR_Username req)) in
      if bool_decide (ToLower (TrimSpace (SR_Mode req)) = "renew") then
        if negb (g_storage glob) then refuse StatusServiceUnavailable503 "storage unavailable" w else
        let selectedID := TrimSpace (SR_ID req) in
        if bool_decide (selectedID = "") then refuse StatusBadRequest "missing user id" w else
        '(user, w) ← Web_GetUser selectedID w;
        match user with
        | None => refuse StatusNotFound "user not found" w
        | Some user =>
            let username := ToLower (TrimSpace (U_Username user)) in
            if bool_decide (username = "") then refuse StatusConflict "user record missing username" w else
            let '(correlationID, w) := newCorrelationID w in
            Ret (start_session draws "renew" username selectedID correlationID au w)
        end
      else
        if bool_decide (username = "") then refuse StatusBadRequest "missing username" w else
        Ret (start_session draws "onboarding" username "" "" au w)
  end.

Record familyRequest := mkFamilyReq { FR_Mode : string; FR_PlexUsername : string; FR_Members : list string }.
(** A member is an object with a label. *)
Definition dec_label : decoder string := dec_struct (find_field
  [("temp_label", dec_at (λ s, s) (λ v _, v) dec_string)]).
Definition dec_familyRequest : decoder familyRequest := dec_struct (find_field
  [("mode", dec_at FR_Mode (λ v r, mkFamilyReq v (FR_PlexUsername r) (FR_Members r)) dec_string);
   ("plex_username", dec_at FR_PlexUsername (λ v r, mkFamilyReq (FR_Mode r) v (FR_Members r)) dec_string);
   ("members", dec_at FR_Members (λ v r, mkFamilyReq (FR_Mode r) (FR_PlexUsername r) v) (dec_slice "" dec_label))]).

(** The first member without a label. *)
Definition unlabelled (members : list string) : option nat :=
  fst <$> list_find (λ label, TrimSpace label = "") members.

(** The pending members of a new group, added one after the other. *)
Fixpoint add_members (groupID : string) (labels : list string) (w : W) : option (list FamilyMemberState) * W :=
  match labels with
  | [] => (Some [], w)
  | label :: labels =>
      let '(memberID, w) := newCorrelationID w in
      let '(now, w) := Web_Now w in
      let member := mkGM memberID groupID (TrimSpace label) "" "" "" None "pending" now in
      match Fam_AddGroupMember member w with
      | (Some _, _, w) => (None, w)
      | (None, member, w) =>
          let '(states, w) := add_members groupID labels w in
          ((λ l, mkFMS memberID (GM_TempLabel member) "" "pending" zeroTime :: l) <$> states, w)
      end
  end.

(** From the creation of the group on. *)
Definition create_group (draws : list (option (list Z) * Z)) (groupID plexUsername : string) (created updated : Time)
    (members : list string) (au : Auths) (w : W) : option (answer * Auths * W) :=
  match Fam_CreateFamilyGroup (mkFG groupID plexUsername created updated) w with
  | (Some _, w) => Some (writeJSONError StatusInternalServerError "failed to create family group", au, w)
  | (None, w) =>
  match add_members groupID members w with
  | (None, w) =>
      let '(_, w) := Fam_DeleteFamilyGroup groupID w in
      Some (writeJSONError StatusInternalServerError "failed to create group members", au, w)
  | (Some states, w) =>
      let '(now, w) := Web_Now w in
      let loc := List.length (au_heap au) in
      let au := mkAuths (au_states au) (au_heap au ++ [mkFGS groupID plexUsername states]) in
      '(token, au, w) ← authStates_Create draws (mkAuth "family" "" "" "" now (Some loc)) au w;
      Some (writeJSON StatusOK [("state", JStr token); ("family_group_id", JStr groupID)], au, w)
  end end.

Definition createFamilyAuthState (glob : Globals) (draws : list (option (list Z) * Z)) (r : Request) (au : Auths) (w : W)
    : option (answer * Auths * W) :=
  let refuse status message w := Some (writeJSONError status message, au, w) in
  if bool_decide (R_Method r ≠ "POST") then refuse StatusMethodNotAllowed "method not allowed" w else
  match decode_request dec_familyRequest (mkFamilyReq "" "" []) r with
  | None => refuse StatusBadRequest "invalid request body" w
  | Some req =>
  if bool_decide (ToLower (TrimSpace (FR_Mode req)) ≠ "family")
  then refuse StatusBadRequest "mode must be 'family'" w else
  let plexUsername := TrimSpace (FR_PlexUsername req) in
  if bool_decide (plexUsername = "") then refuse StatusBadRequest "plex_username is required" w else
  if (List.length (FR_Members req) <? 2)%nat then refuse StatusBadRequest "minimum 2 members required" w else
  if (10 <? List.length (FR_Members req))%nat then refuse StatusBadRequest "maximum 10 members allowed" w else
  match unlabelled (FR_Members req) with
  | Some i => refuse StatusBadRequest ("member " +:+ Itoa (Z.of_nat i) +:+ ": temp_label is required") w
  | None =>
  if negb (g_storage glob) then refuse StatusServiceUnavailable503 "storage unavailable" w else
  match Web_GetFamilyGroupByPlex plexUsername w with
  | (Ok (Some _), w) => refuse StatusConflict "family group already exists for this Plex username" w
  | (_, w) =>
  let '(groupID, w) := newCorrelationID w in
  let '(created, w) := Web_Now w in
  let '(updated, w) := Web_Now w in
  create_group draws groupID plexUsername created updated (FR_Members req) au w
  end end end.

(** ** What Trakt answered *)

(** Status, error and description of a failed exchange of tokens. *)
Definition exchange_error (result : gmap string json) : Z * string * string :=
  let httpStatus := match result !! "http_status" with
                    | Some (JNum lit) => default 0 (Atoi lit)
                    | _ => 0
                    end in
  let traktError := match result !! "error" with
                    | Some (JStr s) => if bool_decide (s ≠ "") then s else "unknown"
                    | _ => "unknown"
                    end in
  let traktErrorDesc := match result !! "error_description" with
                        | Some (JStr s) => if bool_decide (s ≠ "") then s else ""
                        | _ => ""
                        end in
  (httpStatus, traktError, traktErrorDesc).

Definition expired_code : string := "Authorization code expired or invalid. Please try authorizing again.".
Definition too_many : string := "Too many requests. Please wait a moment and try again.".

Definition authorize_error (result : gmap string json) : string :=
  let '(httpStatus, traktError, traktErrorDesc) := exchange_error result in
  if bool_decide (traktError = "invalid_grant") then expired_code
  else if bool_decide (traktError = "invalid_client")
  then "Invalid Trakt client credentials. Contact the administrator."
  else if httpStatus =? 429 then too_many
  else if bool_decide (traktErrorDesc ≠ "") then "Trakt error: " +:+ traktErrorDesc
  else "Trakt token exchange failed. Please try again.".

Definition member_error (result : gmap string json) : string :=
  let '(httpStatus, traktError, traktErrorDesc) := exchange_error result in
  if bool_decide (traktError = "invalid_grant") then expired_code
  else if httpStatus =? 429 then too_many
  else if bool_decide (traktErrorDesc ≠ "") then "Trakt error: " +:+ traktErrorDesc
  else "Trakt authorization failed. Please try again.".

(** Both tokens, if they are there. *)
Definition tokens_of (result : gmap string json) : option (string * string) :=
  match result !! "access_token", result !! "refresh_token" with
  | Some (JStr a), Some (JStr b) => if bool_decide (a ≠ "") && bool_decide (b ≠ "") then Some (a, b) else None
  | _, _ => None
  end.

(** ** Ending the round trip of a single user *)

(** The values of a request, those of its session taking precedence. *)
Record authorization := mkAuthorization {
  az_mode : string;
  az_username : string;
  az_existingID : string;
  az_correlationID : string;
}.

Definition requested (r : Request) : authorization :=
  mkAuthorization
    (if bool_decide (ToLower (TrimSpace (value_of (R_Query r) "mode")) = "renew") then "renew" else "onboarding")
    (ToLower (TrimSpace (value_of (R_Query r) "username"))) (TrimSpace (value_of (R_Query r) "id")) "".

Definition with_session (state : authState) (az : authorization) : authorization :=
  mkAuthorization
    (if bool_decide (TrimSpace (A_Mode state) ≠ "") then A_Mode state else az_mode az)
    (if bool_decide (TrimSpace (A_Username state) ≠ "") then ToLower (TrimSpace (A_Username state)) else az_username az)
    (if bool_decide (TrimSpace (A_SelectedID state) ≠ "") then TrimSpace (A_SelectedID state) else az_existingID az)
    (if bool_decide (TrimSpace (A_CorrelationID state) ≠ "") then A_CorrelationID state else az_correlationID az).

Definition renewing (az : authorization) : bool := bool_decide (az_mode az = "renew").

(** The user that is being renewed, whose name counts rather than a given one. *)
Definition with_stored (glob : Globals) (az : authorization) (w : W) : outcome (option User * authorization * W) :=
  if renewing az && bool_decide (az_existingID az ≠ "") && g_storage glob then
    '(stored, w) ← Web_GetUser (az_existingID az) w;
    let storedUsername := match stored with Some u => ToLower (TrimSpace (U_Username u)) | None => "" end in
    Ret (stored,
         if bool_decide (storedUsername ≠ "")
         then mkAuthorization (az_mode az) storedUsername (az_existingID az) (az_correlationID az) else az, w)
  else Ret (None, az, w).

Definition failed_redirect (root : string) (az : authorization) (message : string) : answer :=
  Redirect (root +:+ "/") (nonblank
    [("result", "error"); ("mode", az_mode az); ("step", if renewing az then "confirm" else "authorize");
     ("id", az_existingID az); ("username", az_username az); ("error", message);
     ("correlation_id", truncateCorrelationID (az_correlationID az))]).

(** The display name of the account: the name, whether it was cut, and whether
    the user has to be asked for it. *)
Definition display_name (fetched : result (string * bool)) : option string * bool * bool :=
  match fetched with
  | Err _ => (None, false, true)
  | Ok (name, truncated) =>
      if bool_decide (TrimSpace name ≠ "") then (Some (TrimSpace name), truncated, false) else (None, false, true)
  end.

Definition success_redirect (root : string) (az : authorization) (user : User) (reused : bool)
    (displayName : option string) (truncated prompt : bool) : answer :=
  let displayNameValue := match displayName with
                          | Some n => n
                          | None => TrimSpace (U_TraktDisplayName user)
                          end in
  let prompt := prompt && bool_decide (displayNameValue = "") in
  let correlated := reused || (bool_decide (az_existingID az ≠ "") && bool_decide (U_ID user ≠ az_existingID az)) in
  Redirect (root +:+ "/") (nonblank
    ([("result", "success"); ("username", U_Username user); ("id", U_ID user);
      ("display_name", displayNameValue); ("display_name_warning", if truncated then "truncated" else "");
      ("display_name_missing", if prompt then "1" else "")] ++
     (if renewing az then [("mode", "renew"); ("step", "result")] else [("mode", "onboarding"); ("step", "webhook")]) ++
     (if correlated && bool_decide (az_correlationID az ≠ "")
      then [("correlation_id", truncateCorrelationID (az_correlationID az))] else []))).

(** From the exchange of the code on. *)
Definition exchange_code (glob : Globals) (root : string) (az : authorization) (code : string) (w : W)
    : outcome (answer * W) :=
  let redirectURI := root +:+ (if renewing az then "/manual/authorize" else "/authorize") in
  let '(result, ok, w) :=
    authRequestFunc (g_traktSrv glob) redirectURI (az_username az) code "" "authorization_code" w in
  if negb ok then Ret (failed_redirect root az (authorize_error result), w) else
  match tokens_of result with
  | None => Ret (failed_redirect root az "Trakt response missing tokens. Please retry.", w)
  | Some (accessToken, refreshToken) =>
      let '(fetched, w) := fetchDisplayNameFunc (g_traktSrv glob) accessToken w in
      let '(displayName, truncated, prompt) := display_name fetched in
      let '(now, w) := Web_Now w in
      '(persisted, w) ← persistAuthorizedUser (az_username az) (az_existingID az) accessToken refreshToken
                          displayName (calculateTokenExpiry result now) w;
      Ret (match persisted with
           | Err err => failed_redirect root az
               (if bool_decide (err = errUsernameMismatch)
                then "Username mismatch. Authorization was for a different Plex user."
                else "Selected user no longer exists. Please choose another user.")
           | Ok (user, reused) => success_redirect root az user reused displayName truncated prompt
           end, w)
  end.

(** From the session on. *)
Definition authorize_session (glob : Globals) (root code : string) (az : authorization) (w : W)
    : outcome (answer * W) :=
  let '(correlationID, w) := if renewing az && bool_decide (az_correlationID az = "")
                             then newCorrelationID w else (az_correlationID az, w) in
  let az := mkAuthorization (az_mode az) (az_username az) (az_existingID az) correlationID in
  '(stored, az, w) ← with_stored glob az w;
  if bool_decide (az_username az = "") then
    let errorMessage :=
      if renewing az && bool_decide (az_existingID az ≠ "") && bool_decide (stored = None)
      then "Selected user no longer exists. Please choose another user."
      else "Missing username; please try again." in
    Ret (Redirect (root +:+ "/") (nonblank
           [("result", "error"); ("mode", az_mode az); ("id", az_existingID az); ("error", errorMessage);
            ("correlation_id", truncateCorrelationID correlationID)]), w)
  else if bool_decide (code = "") then
    Ret (Redirect (root +:+ "/") (nonblank
           (if renewing az
            then [("result", "cancelled"); ("mode", "renew"); ("step", "select"); ("id", az_existingID az);
                  ("username", az_username az); ("correlation_id", truncateCorrelationID correlationID)]
            else [("result", "cancelled"); ("mode", "onboarding"); ("step", "username")])), w)
  else exchange_code glob root az code w.

Definition authorize (glob : Globals) (r : Request) (au : Auths) (w : W) : outcome (answer * Auths * W) :=
  let stateToken := TrimSpace (value_of (R_Query r) "state") in
  let root := SelfRoot (g_trustProxy glob) r in
  let code := TrimSpace (value_of (R_Query r) "code") in
  let az := requested r in
  if bool_decide (stateToken = "") then
    '(a, w) ← authorize_session glob root code az w; Ret (a, au, w)
  else
    let '((state, ok), au, w) := authStates_Consume stateToken au w in
    if negb ok then
      Ret (Redirect (root +:+ "/")
             (list_to_map [("result", "error"); ("error", "Authorization session expired. Please start again.");
                           ("mode", az_mode az); ("step", if renewing az then "confirm" else "authorize")]), au, w)
    else '(a, w) ← authorize_session glob root code (with_session state az) w; Ret (a, au, w).
(** ** Ending the round trip of a family member *)

Definition session_expired : string := "Authorization session expired. Please start again.".

(** [redirectWith] of the handler *)
Definition member_redirect (root familyGroupID : string) (params : list (string * string)) : answer :=
  let values := <["mode" := "family"]> (nonblank params) in
  let values := if bool_decide ("step" ∈ params.*1) then values else <["step" := "authorize"]> values in
  Redirect (root +:+ "/")
    (if bool_decide (familyGroupID ≠ "") then <["family_group_id" := familyGroupID]> values else values).

Definition find_member (memberID : string) (g : FamilyGroupState) : option (nat * FamilyMemberState) :=
  list_find (λ m, MS_MemberID m = memberID) (GS_Members g).

(** The address that Trakt sends the member back to. *)
Definition member_callback (root memberID : string) : string :=
  root +:+ "/authorize/family/member?member_id=" +:+ QueryEscape memberID.

(** The redirect to Trakt. *)
Definition trakt_redirect (t : Trakt) (root memberID stateToken prompt : string) : answer :=
  let params : gmap string string := list_to_map
    [("client_id", ClientId t); ("redirect_uri", member_callback root memberID);
     ("response_type", "code"); ("state", stateToken)] in
  Redirect "https://trakt.tv/oauth/authorize"
    (if bool_decide (prompt ≠ "") then <["prompt" := prompt]> params else params).

(** The name of the account, or the label of the member. *)
Definition member_account (fetched : result (string * bool)) (label : string) : string :=
  match fetched with
  | Err _ => label
  | Ok (name, _) => if bool_decide (TrimSpace name = "") then label else name
  end.

(** Whether another member of the group has the account. *)
Definition account_taken (memberID traktUsername : string) (members : list GroupMember) : bool :=
  existsb (λ m, bool_decide (GM_ID m ≠ memberID) && EqualFold (GM_TraktUsername m) traktUsername) members.
Definition duplicate_account (glob : Globals) (groupID memberID traktUsername : string) (w : W) : bool * W :=
  if negb (g_storage glob) then (false, w) else
  match Web_ListGroupMembers groupID w with
  | (Ok members, w) => (account_taken memberID traktUsername members, w)
  | (Err _, w) => (false, w)
  end.

(** The member with its tokens. *)
Definition authorized_member (m : GroupMember) (traktUsername accessToken refreshToken : string) (expiry : Time)
    : GroupMember :=
  mkGM (GM_ID m) (GM_FamilyGroupID m) (GM_TempLabel m) traktUsername accessToken refreshToken
    (Some expiry) "authorized" (GM_CreatedAt m).

(** Store the tokens; the message of a failure. *)
Definition store_member (glob : Globals) (memberID traktUsername accessToken refreshToken : string) (expiry : Time)
    (w : W) : option string * W :=
  if negb (g_storage glob) then (None, w) else
  match Fam_GetGroupMember memberID w with
  | (Ok (Some member), w) =>
      match Fam_UpdateGroupMember (authorized_member member traktUsername accessToken refreshToken expiry) w with
      | (Some _, w) => (Some "Failed to save authorization. Please try again.", w)
      | (None, w) => (None, w)
      end
  | (_, w) => (Some "Member not found. Please restart the wizard.", w)
  end.

(** The state of the member in the session's family, which is changed in place. *)
Definition authorized_state (ms : FamilyMemberState) (traktUsername : string) (now : Time) : FamilyMemberState :=
  mkFMS (MS_MemberID ms) (MS_TempLabel ms) traktUsername "authorized" now.
Definition is_authorized (ms : FamilyMemberState) : bool := bool_decide (MS_AuthorizationStatus ms = "authorized").
Definition set_member (g : FamilyGroupState) (i : nat) (ms : FamilyMemberState) : FamilyGroupState :=
  mkFGS (GS_GroupID g) (GS_PlexUsername g) (<[i := ms]> (GS_Members g)).

(** From the exchange of the code on. *)
Definition exchange_member (glob : Globals) (draws : list (option (list Z) * Z)) (root familyGroupID code : string)
    (state : authState) (loc : nat) (g : FamilyGroupState) (i : nat) (ms : FamilyMemberState) (au : Auths) (w : W)
    : option (answer * Auths * W) :=
  let memberID := MS_MemberID ms in
  let refuse params w := Some (member_redirect root familyGroupID params, au, w) in
  let labelled message :=
    [("result", "error"); ("member_id", memberID); ("label", MS_TempLabel ms); ("error", message)] in
  let '(result, ok, w) :=
    authRequestFunc (g_traktSrv glob) (member_callback root memberID) "" code "" "authorization_code" w in
  if negb ok then refuse (labelled (member_error result)) w else
  match tokens_of result with
  | None => refuse (labelled "Trakt response missing tokens. Please retry.") w
  | Some (accessToken, refreshToken) =>
  let '(fetched, w) := fetchDisplayNameFunc (g_traktSrv glob) accessToken w in
  let traktUsername := member_account fetched (MS_TempLabel ms) in
  let '(duplicate, w) := duplicate_account glob (GS_GroupID g) memberID traktUsername w in
  if duplicate
  then refuse (labelled ("Trakt account '" +:+ traktUsername +:+ "' is already authorized for this family group.")) w
  else
  let '(now, w) := Web_Now w in
  match store_member glob memberID traktUsername accessToken refreshToken (calculateTokenExpiry result now) w with
  | (Some message, w) => refuse [("result", "error"); ("member_id", memberID); ("error", message)] w
  | (None, w) =>
  let '(now, w) := Web_Now w in
  let g := set_member g i (authorized_state ms traktUsername now) in
  let au := mkAuths (au_states au) (<[loc := g]> (au_heap au)) in
  '(token, au, w) ← authStates_Create draws state au w;
  Some (MemberPage memberID traktUsername token (forallb is_authorized (GS_Members g)), au, w)
  end end.

(** The group of the session, if it is known, for the redirects. *)
Definition group_of_session (stateToken : string) (au : Auths) (w : W) : string * W :=
  if bool_decide (stateToken = "") then ("", w) else
  let '((state, ok), w) := authStates_Get stateToken au w in
  (if ok then match family_at au state with Some (_, g) => GS_GroupID g | None => "" end else "", w).

Definition authorizeFamilyMember (glob : Globals) (draws : list (option (list Z) * Z)) (r : Request) (au : Auths) (w : W)
    : option (answer * Auths * W) :=
  let stateToken := TrimSpace (value_of (R_Query r) "state") in
  let code := TrimSpace (value_of (R_Query r) "code") in
  let memberID := TrimSpace (value_of (R_Query r) "member_id") in
  let root := SelfRoot (g_trustProxy glob) r in
  let '(familyGroupID, w) := group_of_session stateToken au w in
  let refuse message w :=
    Some (member_redirect root familyGroupID [("result", "error"); ("error", message)], au, w) in
  if bool_decide (stateToken = "") then refuse session_expired w else
  let '((state, ok), w) := authStates_Get stateToken au w in
  match (if ok then family_at au state else None) with
  | None => refuse session_expired w
  | Some (loc, g) =>
  if bool_decide (memberID = "") then refuse "Missing member ID. Please try again." w else
  match find_member memberID g with
  | None => refuse "Member not found in session." w
  | Some (i, ms) =>
  if bool_decide (code = "") then
    match g_traktSrv glob with
    | None => refuse "Trakt service unavailable" w
    | Some t => Some (trakt_redirect t root memberID stateToken (TrimSpace (value_of (R_Query r) "prompt")), au, w)
    end
  else exchange_member glob draws root familyGroupID code state loc g i ms au w
  end end.
End Handlers.

(** The first of the parameters of a redirect. *)
Lemma nonblank_head k v l : TrimSpace v ≠ "" → nonblank ((k, v) :: l) !! k = Some v.
Proof. intros Hv. unfold nonblank. rewrite filter_cons_True by done. apply lookup_insert_eq. Qed.
