(* ===== verification/Families.v ===== *)
(** * Families from the set-up to the last authorization

    What [createFamilyAuthState] and [authorizeFamilyMember] of OAuth.v do to
    the stored families and to the sessions, proved against an interface of
    the store ([FamilyLaws]) that the PostgreSQL store implements. *)

From S2P Require Import Prelude GoLib Text Float Json Instances Common Entities Buffers Trakt Sessions Webhooks Request OAuth.

Open Scope Z_scope.

(** ** What the store promises *)

(** The stored families: the ids of the groups, and the members. *)
Record Families := mkFamilies { fm_groups : gset string; fm_members : gmap string GroupMember }.

(** Ids without surrounding white space, as the program makes them. *)
Definition trimmed (id : string) : Prop := id ≠ "" ∧ TrimSpace id = id.

(** What [rand.Read] delivers: sixteen bytes. *)
Definition drawn (draw : option (list Z) * Z) : Prop :=
  sixteen draw ∧ ∀ b, draw.1 = Some b → Forall byte_range b.

(** A member as it comes back from the store: names and tokens trimmed, the
    account in lower case. *)
Record stored_as `{UnicodeTables} (m s : GroupMember) : Prop := {
  stored_ID : GM_ID s = GM_ID m;
  stored_label : GM_TempLabel s = TrimSpace (GM_TempLabel m);
  stored_account : GM_TraktUsername s = TrimSpace (ToLower (GM_TraktUsername m));
  stored_access : GM_AccessToken s = TrimSpace (GM_AccessToken m);
  stored_refresh : GM_RefreshToken s = TrimSpace (GM_RefreshToken m);
  stored_status : GM_AuthorizationStatus s = TrimSpace (ToLower (GM_AuthorizationStatus m));
}.

Section Laws.
Context {W : Type} `{UT : UnicodeTables, HT : Http W, WS : WebStore W, FS : FamilyStore W}.

(** A step that leaves the families alone. *)
Definition kept (inv : W → Prop) (fam : W → Families) (w w' : W) : Prop :=
  inv w → inv w' ∧ fam w' = fam w.

(** [inv] is the invariant of the store, [fam] its families. *)
Class FamilyLaws (inv : W → Prop) (fam : W → Families) : Prop := {
  fam_integrity w k m : inv w → fm_members (fam w) !! k = Some m → GM_FamilyGroupID m ∈ fm_groups (fam w);
  fam_keyed w k m : inv w → fm_members (fam w) !! k = Some m → GM_ID m = k;
  fam_Do req w : kept inv fam w (Do req w).2;
  fam_Now w : kept inv fam w (Web_Now w).2;
  fam_Rand w : kept inv fam w (Web_Rand w).2 ∧ drawn (Web_Rand w).1;
  fam_uuid w : kept inv fam w (Web_uuid w).2;
  fam_GetUser id w u w' : Web_GetUser id w = Ret (u, w') → kept inv fam w w';
  fam_WriteUser u w w' : Web_WriteUser u w = Ret w' → kept inv fam w w';
  fam_ByPlex u w : kept inv fam w (Web_GetFamilyGroupByPlex u w).2;
  fam_List g w : inv w → trimmed g →
    let '(r, w') := Web_ListGroupMembers g w in
    inv w' ∧ fam w' = fam w ∧
    ∀ ms, r = Ok ms → ∀ m, m ∈ ms ↔ fm_members (fam w) !! GM_ID m = Some m ∧ GM_FamilyGroupID m = g;
  fam_Get id w : inv w → trimmed id →
    let '(r, w') := Fam_GetGroupMember id w in
    inv w' ∧ fam w' = fam w ∧ ∀ m, r = Ok (Some m) → GM_ID m = id ∧ fm_members (fam w) !! id = Some m;
  fam_Create g w : inv w → trimmed (FG_ID g) →
    let '(err, w') := Fam_CreateFamilyGroup g w in
    inv w' ∧
    match err with
    | Some _ => fam w' = fam w
    | None => FG_ID g ∉ fm_groups (fam w) ∧
              fam w' = mkFamilies ({[FG_ID g]} ∪ fm_groups (fam w)) (fm_members (fam w))
    end;
  fam_Add m w : inv w → trimmed (GM_ID m) → trimmed (GM_FamilyGroupID m) → GM_AuthorizationStatus m ≠ "" →
    let '(err, m', w') := Fam_AddGroupMember m w in
    inv w' ∧
    match err with
    | Some _ => fam w' = fam w
    | None =>
        fm_members (fam w) !! GM_ID m = None ∧ GM_TempLabel m' = TrimSpace (GM_TempLabel m) ∧
        ∃ s, stored_as m s ∧ GM_FamilyGroupID s = GM_FamilyGroupID m ∧
             fam w' = mkFamilies (fm_groups (fam w)) (<[GM_ID m := s]> (fm_members (fam w)))
    end;
  fam_Update m w : inv w → trimmed (GM_ID m) → GM_AuthorizationStatus m ≠ "" →
    let '(err, w') := Fam_UpdateGroupMember m w in
    inv w' ∧
    match err with
    | Some _ => fam w' = fam w
    | None =>
        ∃ old s, fm_members (fam w) !! GM_ID m = Some old ∧
          stored_as m s ∧ GM_FamilyGroupID s = GM_FamilyGroupID old ∧
          fam w' = mkFamilies (fm_groups (fam w)) (<[GM_ID m := s]> (fm_members (fam w)))
    end;
  fam_Delete id w : inv w → trimmed id →
    let '(err, w') := Fam_DeleteFamilyGroup id w in
    inv w' ∧
    match err with
    | Some _ => fam w' = fam w
    | None => fam w' = mkFamilies (fm_groups (fam w) ∖ {[id]})
                         (filter (λ kv, GM_FamilyGroupID kv.2 ≠ id) (fm_members (fam w)))
    end;
}.
End Laws.

(** ** Ids *)

Lemma word_trimmed s : word s → trimmed s.
Proof. intros Hw. split; [by destruct Hw|by apply TrimSpace_word]. Qed.

Lemma hex_word a : is_hex a = true → is_ascii_byte a = true ∧ space1 a = false.
Proof. by destruct a as [[] [] [] [] [] [] [] []]. Qed.

Lemma generateCorrelationID_word rnd nanos : drawn (rnd, nanos) → word (generateCorrelationID rnd nanos).
Proof.
  intros [Hs Hb]. split; [by apply generateCorrelationID_nonempty|].
  unfold generateCorrelationID. destruct rnd as [b|].
  - unfold hex. rewrite bytes_of_bytes. eapply Forall_impl; [|apply hex_word].
    apply hex_bytes_is_hex, set_uuid_bits_range, (Hb b eq_refl).
  - rewrite bytes_app. apply Forall_app. split; [|apply Itoa_bytes].
    unfold bytes. simpl. repeat (constructor; [done|]). constructor.
Qed.

(** ** Sessions *)

(** The session [authStates_Create] stores. *)
Definition dated (now : Time) (state : authState) : authState :=
  mkAuth (A_Mode state) (A_Username state) (A_SelectedID state) (A_CorrelationID state)
    (if IsZero (A_Created state) then now else A_Created state) (A_FamilyGroup state).

Section Frame.
Context {W : Type} `{UT : UnicodeTables, JT : JsonText, UR : UrlText, HT : Http W, WS : WebStore W, FS : FamilyStore W}.
Context (inv : W → Prop) (fam : W → Families) {FL : FamilyLaws inv fam}.

#[local] Instance kept_refl : Reflexive (kept inv fam).
Proof. intros w Hw. done. Qed.
#[local] Instance kept_trans : Transitive (kept inv fam).
Proof. intros w1 w2 w3 H12 H23 Hw. destruct (H12 Hw) as [Hw2 <-]. by apply H23. Qed.

Lemma kept_newCorrelationID w id w' :
  newCorrelationID w = (id, w') → kept inv fam w w' ∧ trimmed id.
Proof using FL.
  unfold newCorrelationID. destruct (fam_Rand w) as [Hk Hd].
  destruct (Web_Rand w) as [[rnd nanos] w1]. intros [= <- <-]. split; [done|].
  by apply word_trimmed, generateCorrelationID_word.
Qed.

Lemma kept_Now w t w' : Web_Now w = (t, w') → kept inv fam w w'.
Proof using FL. intros E. pose proof (fam_Now w) as Hk. by rewrite E in Hk. Qed.

Lemma kept_Do req w r w' : Do req w = (r, w') → kept inv fam w w'.
Proof using FL. intros E. pose proof (fam_Do req w) as Hk. by rewrite E in Hk. Qed.

Lemma kept_authRequestFunc t uri n c r g w x w' :
  authRequestFunc t uri n c r g w = (x, w') → kept inv fam w w'.
Proof using FL.
  unfold authRequestFunc. destruct t as [t|]; [|by intros [= <- <-]]. unfold AuthRequest.
  match goal with |- context [Do ?req w] => pose proof (fam_Do req w) as Hk; destruct (Do req w) as [[resp|e] w1] end;
    repeat case_match; intros [= <- <-]; done.
Qed.

Lemma kept_fetchDisplayNameFunc t a w x w' :
  fetchDisplayNameFunc t a w = (x, w') → kept inv fam w w'.
Proof using FL.
  unfold fetchDisplayNameFunc. destruct t as [t|]; [|by intros [= <- <-]]. unfold FetchDisplayName.
  case_match; [by intros [= <- <-]|]. destruct (NewRequest _) as [req|]; [|by intros [= <- <-]].
  match goal with |- context [Do ?req w] => pose proof (fam_Do req w) as Hk; destruct (Do req w) as [[resp|e] w1] end;
    repeat case_match; intros [= <- <-]; done.
Qed.

Lemma authStates_Create_spec draws state au w token au' w' :
  authStates_Create draws state au w = Some (token, au', w') →
  kept inv fam w w' ∧ au_states au !! token = None ∧ au_heap au' = au_heap au ∧
  ∃ now, au_states au' = <[token := dated now state]> (au_states au).
Proof using FL.
  unfold authStates_Create, Create, dated. pose proof (fam_Now w) as Hk.
  assert (∀ tok, first_unused draws (au_states au) = Some tok → au_states au !! tok = None) as Hu.
  { clear. induction draws as [|[rnd nanos] draws IH]; simpl; [done|]. intros tok.
    case_match eqn:E; [apply IH|by intros [= <-]]. }
  destruct (IsZero (A_Created state)) eqn:Ez.
  - destruct (Web_Now w) as [now w1]. destruct (first_unused _ _) as [tok|]; [|done]. intros [= <- <- <-].
    simpl. split_and!; [done|by apply Hu|done|by eexists].
  - destruct (first_unused _ _) as [tok|]; [|done]. intros [= <- <- <-].
    simpl. split_and!; [reflexivity|by apply Hu|done|]. exists zeroTime. by destruct state.
Qed.

(** ** The steps of an authorization *)

Lemma duplicate_account_spec glob gid mid name w b w' :
  duplicate_account glob gid mid name w = (b, w') → g_storage glob = true → inv w → trimmed gid →
  inv w' ∧ fam w' = fam w ∧
  (b = false →
   (∃ e, (Web_ListGroupMembers gid w).1 = Err e) ∨
   ∀ m, fm_members (fam w) !! GM_ID m = Some m → GM_FamilyGroupID m = gid → GM_ID m ≠ mid →
     EqualFold (GM_TraktUsername m) name = false).
Proof using FL.
  unfold duplicate_account. intros E Hg Hi Ht. rewrite Hg in E. simpl in E.
  pose proof (fam_List gid w Hi Ht) as Hl. destruct (Web_ListGroupMembers gid w) as [[ms|e] w1]; simplify_eq.
  - destruct Hl as (? & ? & Hl). split_and!; [done|done|]. intros Hb. right. intros m Hm Hgm Hid.
    assert (m ∈ ms) as Hin by (by apply (Hl ms eq_refl)).
    unfold account_taken in Hb. destruct (EqualFold (GM_TraktUsername m) name) eqn:E; [|done].
    assert (existsb (λ m, bool_decide (GM_ID m ≠ mid) && EqualFold (GM_TraktUsername m) name) ms = true) as Hx.
    { apply existsb_exists. exists m. rewrite list_elem_of_In in Hin. split; [done|].
      by rewrite bool_decide_eq_true_2, E. }
    unfold account_taken in *. congruence.
  - destruct Hl as (? & ? & _). split_and!; [done|done|]. intros _. left. by eexists.
Qed.

(** The stored member after its authorization. *)
Record authorized_as (old s : GroupMember) (name access refresh : string) : Prop := {
  auth_ID : GM_ID s = GM_ID old;
  auth_group : GM_FamilyGroupID s = GM_FamilyGroupID old;
  auth_label : GM_TempLabel s = TrimSpace (GM_TempLabel old);
  auth_account : GM_TraktUsername s = TrimSpace (ToLower name);
  auth_access : GM_AccessToken s = TrimSpace access;
  auth_refresh : GM_RefreshToken s = TrimSpace refresh;
  auth_status : GM_AuthorizationStatus s = "authorized";
}.

Lemma store_member_spec glob mid name access refresh expiry w r w' :
  store_member glob mid name access refresh expiry w = (r, w') → g_storage glob = true → inv w → trimmed mid →
  inv w' ∧
  match r with
  | Some _ => fam w' = fam w
  | None => ∃ old s, fm_members (fam w) !! mid = Some old ∧ authorized_as old s name access refresh ∧
              fam w' = mkFamilies (fm_groups (fam w)) (<[mid := s]> (fm_members (fam w)))
  end.
Proof using FL.
  unfold store_member. intros E Hg Hi Ht. rewrite Hg in E. simpl in E.
  pose proof (fam_Get mid w Hi Ht) as Hm. destruct (Fam_GetGroupMember mid w) as [[[m|]|e] w1];
    destruct Hm as (Hi1 & Hf1 & Hm); [|by simplify_eq..].
  destruct (Hm m eq_refl) as [Hid Hl]. subst mid.
  pose proof (fam_Update (authorized_member m name access refresh expiry) w1 Hi1 Ht ltac:(done)) as Hu.
  destruct (Fam_UpdateGroupMember _ w1) as [[e|] w2]; simplify_eq; destruct Hu as [Hi2 Hu]; split; try done.
  - by rewrite Hu.
  - destruct Hu as (old & s & Hold & Hs & Hgr & Hf2). rewrite Hf1 in *. simpl in *.
    exists old, s. simplify_eq. split_and!; [done| |done]. by destruct Hs; split.
Qed.

(** ** Sessions and store agree *)

(** The member of a session is a stored member of the group with the same
    status and, once authorized, the same account. *)
Definition member_agrees (F : Families) (gid : string) (ms : FamilyMemberState) : Prop :=
  trimmed (MS_MemberID ms) ∧
  ∃ s, fm_members F !! MS_MemberID ms = Some s ∧ GM_FamilyGroupID s = gid ∧
       GM_AuthorizationStatus s = MS_AuthorizationStatus ms ∧
       (is_authorized ms = true → GM_TraktUsername s = TrimSpace (ToLower (MS_TraktUsername ms))).

Record group_agrees (F : Families) (g : FamilyGroupState) : Prop := {
  ga_id : trimmed (GS_GroupID g);
  ga_stored : GS_GroupID g ∈ fm_groups F;
  ga_count : (2 ≤ List.length (GS_Members g) ≤ 10)%nat;
  ga_distinct : NoDup (MS_MemberID <$> GS_Members g);
  ga_members : Forall (member_agrees F (GS_GroupID g)) (GS_Members g);
}.

(** Sessions point to families that exist, no group has two families, and
    every family agrees with the store. *)
Record agree (F : Families) (au : Auths) : Prop := {
  ag_pointers : map_Forall (λ _ state, ∀ loc, A_FamilyGroup state = Some loc → is_Some (au_heap au !! loc))
                  (au_states au);
  ag_distinct : NoDup (GS_GroupID <$> au_heap au);
  ag_groups : Forall (group_agrees F) (au_heap au);
}.

Lemma agree_mono F F' au :
  fm_groups F ⊆ fm_groups F' → fm_members F ⊆ fm_members F' → agree F au → agree F' au.
Proof.
  intros Hg Hm [Hp Hd Ha]. split; [done|done|]. eapply Forall_impl; [exact Ha|].
  intros g [Hid Hs Hc Hn Hms]. split; [done|by apply Hg|done|done|]. eapply Forall_impl; [exact Hms|].
  intros ms (Ht & s & Hs1 & Hs2). split; [done|]. exists s. split; [|done]. by eapply lookup_weaken.
Qed.

(** A new session that points to a family of the heap. *)
Lemma agree_session F au token state :
  agree F au → (∀ loc, A_FamilyGroup state = Some loc → is_Some (au_heap au !! loc)) →
  agree F (mkAuths (<[token := state]> (au_states au)) (au_heap au)).
Proof. intros [Hp Hd Ha] Hs. split; [|done|done]. by apply map_Forall_insert_2. Qed.

(** A new family. *)
Lemma agree_snoc F au g :
  agree F au → group_agrees F g → GS_GroupID g ∉ GS_GroupID <$> au_heap au →
  agree F (mkAuths (au_states au) (au_heap au ++ [g])).
Proof.
  intros [Hp Hd Ha] Hg Hn. split; simpl.
  - intros k state Hk loc Hl. destruct (Hp k state Hk loc Hl) as [x Hx]. exists x.
    by apply lookup_app_l_Some.
  - rewrite fmap_app. apply NoDup_app. split_and!; [done| |apply NoDup_singleton].
    intros id Hid ->%list_elem_of_singleton. done.
  - apply Forall_app. by split; [|constructor].
Qed.

(** One member authorized, in the store and in the family of the session. *)
Lemma agree_authorized F au loc g i ms old s name access refresh now :
  agree F au → au_heap au !! loc = Some g → GS_Members g !! i = Some ms →
  fm_members F !! MS_MemberID ms = Some old → authorized_as old s name access refresh →
  agree (mkFamilies (fm_groups F) (<[MS_MemberID ms := s]> (fm_members F)))
    (mkAuths (au_states au) (<[loc := set_member g i (authorized_state ms name now)]> (au_heap au))).
Proof.
  intros [Hp Hd Ha] Hg Hms Hold Hs. destruct (Forall_lookup_1 _ _ _ _ Ha Hg) as [Hid Hst Hc Hn Hm].
  destruct (Forall_lookup_1 _ _ _ _ Hm Hms) as (Ht & old' & Hold' & Hgo & _). simplify_eq.
  assert (loc < List.length (au_heap au))%nat as Hlen by (by eapply lookup_lt_Some).
  split; simpl.
  - intros k state Hk l Hl. rewrite list_lookup_insert. case_decide; [by eexists|]. by eapply Hp.
  - rewrite list_fmap_insert. simpl. rewrite list_insert_id; [done|]. by rewrite list_lookup_fmap, Hg.
  - apply Forall_lookup. intros l g'. rewrite list_lookup_insert. case_decide as Hl.
    + intros [= <-]. destruct Hl as [<- _]. split; simpl; [done|done|by rewrite length_insert| |].
      * rewrite list_fmap_insert. simpl. rewrite list_insert_id; [done|]. by rewrite list_lookup_fmap, Hms.
      * apply Forall_lookup. intros j ms'. rewrite list_lookup_insert. case_decide as Hj.
        -- intros [= <-]. split; [done|]. exists s. simpl. rewrite lookup_insert_eq.
           destruct Hs. split_and!; try done. congruence.
        -- intros Hms'. destruct (Forall_lookup_1 _ _ _ _ Hm Hms') as (Ht' & s' & Hs' & Hr).
           split; [done|]. exists s'. simpl. rewrite lookup_insert_ne; [done|]. intros Eid.
           apply Hj. split; [|by eapply lookup_lt_Some].
           eapply (NoDup_lookup _ i j (MS_MemberID ms) Hn); rewrite list_lookup_fmap, ?Hms, ?Hms'; simpl; congruence.
    + intros Hg'. destruct (Forall_lookup_1 _ _ _ _ Ha Hg') as [Hid' Hst' Hc' Hn' Hm'].
      split; [done|done|done|done|]. eapply Forall_impl; [exact Hm'|]. intros ms' (Ht' & s' & Hs' & Hgs & Hr).
      split; [done|]. exists s'. simpl. rewrite lookup_insert_ne; [done|]. intros Eid. rewrite Eid, Hs' in Hold.
      simplify_eq. apply Hl. split; [|done].
      eapply (NoDup_lookup _ loc l (GS_GroupID g) Hd); rewrite list_lookup_fmap, ?Hg, ?Hg'; simpl; congruence.
Qed.

(** ** The authorization of a member *)

(** [memberID] of family [loc] has been authorized as [name] with tokens that
    Trakt gave for [code], and [token] is a new session of the family. *)
Record member_authorized (glob : Globals) (root code memberID name token : string) (all : bool)
    (state : authState) (loc : nat) (au : Auths) (w : W) (au' : Auths) (w' : W) : Prop := mkMA {
  ma_state : ∃ g i ms now,
    au_heap au !! loc = Some g ∧ GS_Members g !! i = Some ms ∧ MS_MemberID ms = memberID ∧
    au_heap au' = <[loc := set_member g i (authorized_state ms name now)]> (au_heap au) ∧
    ((∃ w1 e, (Web_ListGroupMembers (GS_GroupID g) w1).1 = Err e) ∨
     ∀ m, fm_members (fam w) !! GM_ID m = Some m → GM_FamilyGroupID m = GS_GroupID g → GM_ID m ≠ memberID →
       EqualFold (GM_TraktUsername m) name = false) ∧
    (all = true ↔ ∀ ms', ms' ∈ GS_Members g →
       ∃ s, fm_members (fam w') !! MS_MemberID ms' = Some s ∧ GM_AuthorizationStatus s = "authorized");
  ma_store : ∃ t w1 result w2 access refresh old s,
    g_traktSrv glob = Some t ∧
    AuthRequest t (member_callback root memberID) "" code "" "authorization_code" w1 = ((result, true), w2) ∧
    tokens_of result = Some (access, refresh) ∧
    fm_members (fam w) !! memberID = Some old ∧ authorized_as old s name access refresh ∧
    fam w' = mkFamilies (fm_groups (fam w)) (<[memberID := s]> (fm_members (fam w)));
  ma_session : au_states au !! token = None ∧
    ∃ now, au_states au' = <[token := dated now state]> (au_states au);
}.

Lemma authRequestFunc_ok t uri n c r g w result w' :
  authRequestFunc t uri n c r g w = ((result, true), w') →
  ∃ t', t = Some t' ∧ AuthRequest t' uri n c r g w = ((result, true), w').
Proof. unfold authRequestFunc. destruct t as [t|]; [|done]. by exists t. Qed.

(** The page's word for all members is that of the store. *)
Lemma all_authorized F au loc g :
  agree F au → au_heap au !! loc = Some g →
  forallb is_authorized (GS_Members g) = true ↔
  ∀ ms, ms ∈ GS_Members g → ∃ s, fm_members F !! MS_MemberID ms = Some s ∧ GM_AuthorizationStatus s = "authorized".
Proof.
  intros [_ _ Ha] Hg. destruct (Forall_lookup_1 _ _ _ _ Ha Hg) as [_ _ _ _ Hm].
  rewrite forallb_forall. setoid_rewrite <-list_elem_of_In. rewrite Forall_forall in Hm.
  split; intros Hall ms Hin; specialize (Hall ms Hin); destruct (Hm ms Hin) as (_ & s & Hs & _ & Hst & _).
  - exists s. unfold is_authorized in Hall. apply bool_decide_eq_true in Hall. by rewrite Hst.
  - destruct Hall as (s' & Hs' & Hs2). simplify_eq. unfold is_authorized. apply bool_decide_eq_true. congruence.
Qed.

Lemma set_member_ids g i ms name now (P : string → Prop) :
  GS_Members g !! i = Some ms →
  (∀ ms', ms' ∈ GS_Members (set_member g i (authorized_state ms name now)) → P (MS_MemberID ms')) ↔
  (∀ ms', ms' ∈ GS_Members g → P (MS_MemberID ms')).
Proof.
  intros Hi.
  assert (MS_MemberID <$> GS_Members (set_member g i (authorized_state ms name now)) =
          MS_MemberID <$> GS_Members g) as E.
  { simpl. rewrite list_fmap_insert. apply list_insert_id. by rewrite list_lookup_fmap, Hi. }
  assert (∀ l : list FamilyMemberState,
    (∀ ms', ms' ∈ l → P (MS_MemberID ms')) ↔ Forall P (MS_MemberID <$> l)) as Hl.
  { intros l. rewrite Forall_fmap. by rewrite Forall_forall. }
  by rewrite !Hl, E.
Qed.

Lemma exchange_member_spec glob draws root fg code state loc g i ms au w a au' w' :
  exchange_member glob draws root fg code state loc g i ms au w = Some (a, au', w') →
  g_storage glob = true → inv w → agree (fam w) au → A_FamilyGroup state = Some loc →
  au_heap au !! loc = Some g → GS_Members g !! i = Some ms →
  inv w' ∧ agree (fam w') au' ∧
  match a with
  | MemberPage m name token all =>
      m = MS_MemberID ms ∧ member_authorized glob root code m name token all state loc au w au' w'
  | _ => au' = au ∧ fam w' = fam w
  end.
Proof using FL.
  intros E Hst Hi Hag Hp Hg Hms. unfold exchange_member in E.
  destruct (Forall_lookup_1 _ _ _ _ (ag_groups _ _ Hag) Hg) as [Hgid _ _ _ Hmem].
  destruct (Forall_lookup_1 _ _ _ _ Hmem Hms) as [Hmid _].
  assert (∀ w1, kept inv fam w w1 → inv w1 ∧ fam w1 = fam w) as Hkept by (intros w1 Hk; by apply Hk).
  destruct (authRequestFunc _ _ _ _ _ _ w) as [[result ok] w1] eqn:E1.
  pose proof (kept_authRequestFunc _ _ _ _ _ _ _ _ _ E1) as H1. destruct (Hkept _ H1) as [Hi1 Hf1].
  destruct ok; simpl in E; [|simplify_eq; by rewrite Hf1].
  destruct (tokens_of result) as [[access refresh]|] eqn:Etok; [|simplify_eq; by rewrite Hf1].
  destruct (fetchDisplayNameFunc _ _ w1) as [fetched w2] eqn:E2.
  destruct (Hkept w2 ltac:(etrans; [exact H1|by eapply kept_fetchDisplayNameFunc])) as [Hi2 Hf2].
  set (name := member_account fetched (MS_TempLabel ms)) in *.
  destruct (duplicate_account glob (GS_GroupID g) (MS_MemberID ms) name w2) as [dup w3] eqn:E3.
  destruct (duplicate_account_spec _ _ _ _ _ _ _ E3 Hst Hi2 Hgid) as (Hi3 & Hf3 & Hdup).
  destruct dup; [simplify_eq; by rewrite Hf3, Hf2|]. specialize (Hdup eq_refl).
  destruct (Web_Now w3) as [now w4] eqn:E4. destruct (kept_Now _ _ _ E4 Hi3) as [Hi4 Hf4].
  destruct (store_member _ _ _ _ _ _ w4) as [[msg|] w5] eqn:E5;
    destruct (store_member_spec _ _ _ _ _ _ _ _ _ E5 Hst Hi4 Hmid) as [Hi5 H5].
  { simplify_eq. by rewrite H5, Hf4, Hf3, Hf2. }
  assert (fam w4 = fam w) as Hfw by congruence. rewrite Hfw in H5.
  destruct H5 as (old & s & Hold & Hs & Hf5).
  destruct (Web_Now w5) as [at_ w6] eqn:E6. destruct (kept_Now _ _ _ E6 Hi5) as [Hi6 Hf6].
  destruct (authStates_Create _ _ _ _) as [[[token au1] w7]|] eqn:E7; simpl in E; [|done]. simplify_eq.
  apply authStates_Create_spec in E7 as (H7 & Htok & Hheap & now' & Hstates). simpl in *.
  destruct (H7 Hi6) as [Hi7 Hf7].
  assert (fam w' = mkFamilies (fm_groups (fam w)) (<[MS_MemberID ms := s]> (fm_members (fam w)))) as Hfin by congruence.
  pose proof (agree_authorized _ _ _ _ _ _ _ _ _ _ _ at_ Hag Hg Hms Hold Hs) as Hag'. rewrite <-Hfin in Hag'.
  assert (<[loc := set_member g i (authorized_state ms name at_)]> (au_heap au) !! loc =
          Some (set_member g i (authorized_state ms name at_))) as Hloc.
  { apply list_lookup_insert_eq. by eapply lookup_lt_Some. }
  split_and!; [done| |done|].
  - destruct au' as [states heap]. simpl in *. subst states heap.
    apply (agree_session _ _ token (dated now' state) Hag'). simpl. intros l. rewrite Hp. intros [= <-].
    by rewrite Hloc.
  - split.
    + exists g, i, ms, at_. split_and!; try done.
      * rewrite Hf2 in Hdup. destruct Hdup as [He|]; [left; by exists w2|by right].
      * change (<[i:=_]> (GS_Members g)) with (GS_Members (set_member g i (authorized_state ms name at_))).
        rewrite (all_authorized _ _ _ _ Hag' Hloc). by apply (set_member_ids _ _ _ _ _
          (λ id, ∃ s, fm_members (fam w') !! id = Some s ∧ GM_AuthorizationStatus s = "authorized")).
    + apply authRequestFunc_ok in E1 as (t & Ht & E1). by exists t, w, result, w1, access, refresh, old, s.
    + split; [done|]. by exists now'.
Qed.

Lemma kept_Get token au w x w' : authStates_Get token au w = (x, w') → kept inv fam w w'.
Proof using FL.
  unfold authStates_Get. destruct (Web_Now w) as [now w1] eqn:E. intros [= <- <-]. by eapply kept_Now.
Qed.

Lemma kept_group_of_session token au w x w' : group_of_session token au w = (x, w') → kept inv fam w w'.
Proof using FL.
  unfold group_of_session. case_bool_decide; [by intros [= <- <-]|].
  destruct (authStates_Get _ _ _) as [[state ok] w1] eqn:E. intros [= <- <-]. by eapply kept_Get.
Qed.

Lemma family_at_spec au state loc g :
  family_at au state = Some (loc, g) ↔ A_FamilyGroup state = Some loc ∧ au_heap au !! loc = Some g.
Proof.
  unfold family_at. destruct (A_FamilyGroup state) as [l|]; simpl; [|split; [done|by intros []]].
  destruct (au_heap au !! l) as [g'|] eqn:E; simpl.
  - split; [intros [= <- <-]; done|intros [[= <-] Hg]; congruence].
  - split; [done|intros [[= <-] Hg]; congruence].
Qed.

Lemma authorizeFamilyMember_spec glob draws r au w a au' w' :
  authorizeFamilyMember glob draws r au w = Some (a, au', w') →
  g_storage glob = true → inv w → agree (fam w) au →
  inv w' ∧ agree (fam w') au' ∧
  match a with
  | MemberPage m name token all =>
      ∃ now state loc,
        m = TrimSpace (value_of (R_Query r) "member_id") ∧
        Get now (TrimSpace (value_of (R_Query r) "state")) (au_states au) = (state, true) ∧
        A_FamilyGroup state = Some loc ∧
        member_authorized glob (SelfRoot (g_trustProxy glob) r) (TrimSpace (value_of (R_Query r) "code"))
          m name token all state loc au w au' w'
  | _ => au' = au ∧ fam w' = fam w
  end.
Proof using FL.
  intros E Hst Hi Hag. unfold authorizeFamilyMember in E.
  destruct (group_of_session _ _ w) as [fg w1] eqn:E1.
  destruct (kept_group_of_session _ _ _ _ _ E1 Hi) as [Hi1 Hf1].
  case_bool_decide; [simplify_eq; by rewrite Hf1|].
  unfold authStates_Get in E. destruct (Web_Now w1) as [now w2] eqn:E2.
  destruct (kept_Now _ _ _ E2 Hi1) as [Hi2 Hf2]. rewrite Hf1 in Hf2.
  destruct (Get now _ (au_states au)) as [state ok] eqn:E3.
  destruct ok; [|simplify_eq; by rewrite Hf2].
  destruct (family_at au state) as [[loc g]|] eqn:E4; [|simplify_eq; by rewrite Hf2].
  case_bool_decide as Hm; [simplify_eq; by rewrite Hf2|].
  destruct (find_member _ g) as [[i ms]|] eqn:E5; [|simplify_eq; by rewrite Hf2].
  case_bool_decide as Hc; [destruct (g_traktSrv glob); simplify_eq; by rewrite Hf2|].
  apply family_at_spec in E4 as [Hp Hg]. apply list_find_Some in E5 as (Hms & Hid & _).
  rewrite <-Hf2 in Hag. destruct (exchange_member_spec _ _ _ _ _ _ _ _ _ _ _ _ _ _ _ E Hst Hi2 Hag Hp Hg Hms)
    as (Hi' & Hag' & Ha).
  split_and!; [done..|]. destruct a as [?|?|m name token all]; [by rewrite <-Hf2..|].
  destruct Ha as [-> [Hs Hst' Hses]]. rewrite Hf2 in Hs, Hst'. exists now, state, loc. by split_and!.
Qed.

(** ** A new family *)

Lemma add_members_spec gid labels w r w' :
  add_members gid labels w = (r, w') → inv w → trimmed gid →
  inv w' ∧ fm_groups (fam w') = fm_groups (fam w) ∧
  ∃ new, new ##ₘ fm_members (fam w) ∧ fm_members (fam w') = new ∪ fm_members (fam w) ∧
    map_Forall (λ _ s, GM_FamilyGroupID s = gid) new ∧ (size new ≤ List.length labels)%nat ∧
    ∀ states, r = Some states →
      MS_TempLabel <$> states = TrimSpace <$> labels ∧ NoDup (MS_MemberID <$> states) ∧
      Forall (λ ms, trimmed (MS_MemberID ms) ∧ MS_AuthorizationStatus ms = "pending" ∧
                is_Some (new !! MS_MemberID ms)) states ∧
      map_Forall (λ k s, ∃ ms, ms ∈ states ∧ MS_MemberID ms = k ∧ GM_AuthorizationStatus s = "pending" ∧
                    GM_TempLabel s = MS_TempLabel ms ∧ GM_AccessToken s = "") new.
Proof using FL.
  revert w r w'. induction labels as [|label labels IH]; intros w r w' E Hi Hg; simpl in E.
  { simplify_eq. split_and!; [done|done|]. exists ∅. split_and!.
    - apply map_disjoint_empty_l.
    - by rewrite (left_id_L ∅ (∪)).
    - apply map_Forall_empty.
    - rewrite map_size_empty. simpl. lia.
    - intros states [= <-]. split_and!; [done|constructor|constructor|apply map_Forall_empty]. }
  destruct (newCorrelationID w) as [mid w1] eqn:E1. apply kept_newCorrelationID in E1 as [H1 Hmid].
  destruct (H1 Hi) as [Hi1 Hf1].
  destruct (Web_Now w1) as [now w2] eqn:E2. destruct (kept_Now _ _ _ E2 Hi1) as [Hi2 Hf2].
  match type of E with context [Fam_AddGroupMember ?m w2] =>
    pose proof (fam_Add m w2 Hi2 Hmid Hg ltac:(done)) as Hadd; destruct (Fam_AddGroupMember m w2) as [[[e|] m'] w3] end;
    destruct Hadd as [Hi3 Hadd]; simpl in Hadd.
  { simplify_eq. rewrite Hadd, Hf2, Hf1. split_and!; [done|done|]. exists ∅. split_and!.
    - apply map_disjoint_empty_l.
    - by rewrite (left_id_L ∅ (∪)).
    - apply map_Forall_empty.
    - rewrite map_size_empty. lia.
    - done. }
  destruct Hadd as (Hnone & Hlab & s & Hs & Hsg & Hf3). rewrite Hf2, Hf1 in *.
  destruct (add_members gid labels w3) as [r' w4] eqn:E4. simplify_eq.
  destruct (IH _ _ _ E4 Hi3 Hg) as (Hi4 & Hg4 & new & Hdis & Hnew & Hgr & Hsize & Hr). rewrite Hf3 in *. simpl in *.
  apply map_disjoint_insert_r in Hdis as [Hn Hdis].
  split_and!; [done|done|]. exists (<[mid := s]> new). split_and!.
  - by apply map_disjoint_insert_l_2.
  - by rewrite Hnew, <-insert_union_l, insert_union_r.
  - by apply map_Forall_insert_2.
  - rewrite map_size_insert_None by done. simpl. lia.
  - intros states Est. destruct r' as [states'|]; [|done]. simpl in Est. simplify_eq.
    destruct (Hr states' eq_refl) as (Hl & Hnd & Hst & Hmap). destruct Hs as [Hs1 Hs2 Hs3 Hs4 Hs5 Hs6]. simpl in Hs2, Hs4, Hs6, Hlab.
    rewrite !fmap_cons. cbn [MS_TempLabel MS_MemberID]. rewrite Hlab, Hl, TrimSpace_idem. split_and!; [done| | |].
    + constructor; [|done]. intros (ms & -> & Hin)%list_elem_of_fmap.
      rewrite Forall_forall in Hst. destruct (Hst ms Hin) as (_ & _ & [x Hx]). congruence.
    + constructor; [simpl; rewrite lookup_insert_eq; by split_and!; [..|eexists]|].
      eapply Forall_impl; [exact Hst|]. intros ms (? & ? & ?). split_and!; [done|done|].
      rewrite lookup_insert_is_Some. destruct (decide (mid = MS_MemberID ms)); auto.
    + apply map_Forall_insert_2.
      * eexists. split; [left|]. simpl. split_and!; [done|by rewrite Hs6|by rewrite Hs2, ?TrimSpace_idem|by rewrite Hs4].
      * intros k x Hx. destruct (Hmap k x Hx) as (ms & Hin & Hrest). exists ms. split; [by right|done].
Qed.

(** Deleting the new group leaves what was there before. *)
Lemma rolled_back w gid new F :
  inv w → gid ∉ fm_groups (fam w) → new ##ₘ fm_members (fam w) →
  map_Forall (λ _ s, GM_FamilyGroupID s = gid) new →
  F = mkFamilies (({[gid]} ∪ fm_groups (fam w)) ∖ {[gid]})
        (filter (λ kv, GM_FamilyGroupID kv.2 ≠ gid) (new ∪ fm_members (fam w))) →
  F = fam w.
Proof using FL.
  intros Hi Hg Hd Hn ->. pose proof (fam_integrity w) as Hint.
  destruct (fam w) as [G M]. simpl in *. f_equal.
  - apply set_eq. intros x. rewrite elem_of_difference, elem_of_union, elem_of_singleton. split.
    + by intros [[->|?] ?].
    + intros Hx. split; [by right|]. by intros ->.
  - rewrite map_filter_union by done. rewrite (map_empty_filter_2 _ new), (left_id_L ∅ (∪)).
    + apply map_filter_id. intros k m Hk Hm. simpl in Hm. apply Hg. rewrite <-Hm. by eapply Hint.
    + intros k m Hk Hm. simpl in Hm. apply Hm, (Hn k m Hk).
Qed.

(** The family that a successful request sets up. *)
Record family_created (req : familyRequest) (gid token : string) (au : Auths) (w : W) (au' : Auths) (w' : W) : Prop := {
  fc_count : (2 ≤ List.length (FR_Members req) ≤ 10)%nat;
  fc_labels : Forall (λ label, TrimSpace label ≠ "") (FR_Members req);
  fc_group : gid ∉ fm_groups (fam w) ∧ fm_groups (fam w') = {[gid]} ∪ fm_groups (fam w);
  fc_members : ∃ states new,
    au_heap au' = au_heap au ++ [mkFGS gid (TrimSpace (FR_PlexUsername req)) states] ∧
    MS_TempLabel <$> states = TrimSpace <$> FR_Members req ∧
    new ##ₘ fm_members (fam w) ∧ fm_members (fam w') = new ∪ fm_members (fam w) ∧
    (∀ id, is_Some (new !! id) ↔ id ∈ MS_MemberID <$> states) ∧ (size new ≤ 10)%nat ∧
    map_Forall (λ _ s, GM_FamilyGroupID s = gid ∧ GM_AuthorizationStatus s = "pending" ∧ GM_AccessToken s = "") new;
  fc_session : au_states au !! token = None ∧
    ∃ now, au_states au' = <[token := mkAuth "family" "" "" "" now (Some (List.length (au_heap au)))]> (au_states au);
}.

Lemma unlabelled_None members : unlabelled members = None → Forall (λ label, TrimSpace label ≠ "") members.
Proof. unfold unlabelled. intros Hf%fmap_None%list_find_None. exact Hf. Qed.

(** From the creation of the group on. *)
Lemma new_family_agrees w w' au gid plex labels states new :
  agree (fam w) au → trimmed gid → gid ∉ fm_groups (fam w) → (2 ≤ List.length labels ≤ 10)%nat →
  fm_groups (fam w') = {[gid]} ∪ fm_groups (fam w) → new ##ₘ fm_members (fam w) →
  fm_members (fam w') = new ∪ fm_members (fam w) → map_Forall (λ _ s, GM_FamilyGroupID s = gid) new →
  MS_TempLabel <$> states = TrimSpace <$> labels → NoDup (MS_MemberID <$> states) →
  Forall (λ ms, trimmed (MS_MemberID ms) ∧ MS_AuthorizationStatus ms = "pending" ∧ is_Some (new !! MS_MemberID ms)) states →
  map_Forall (λ k s, ∃ ms, ms ∈ states ∧ MS_MemberID ms = k ∧ GM_AuthorizationStatus s = "pending" ∧
                    GM_TempLabel s = MS_TempLabel ms ∧ GM_AccessToken s = "") new →
  agree (fam w') (mkAuths (au_states au) (au_heap au ++ [mkFGS gid plex states])).
Proof.
  intros Hag Hgid Hng Hlen Hgr Hdis Hmem Hown Hlab Hnd Hst Hmap. apply agree_snoc.
  - eapply agree_mono; [..|exact Hag]; [rewrite Hgr; apply union_subseteq_r|].
    rewrite Hmem. by apply map_union_subseteq_r.
  - split; simpl; [done|by rewrite Hgr; apply elem_of_union_l, elem_of_singleton| |done|].
    + apply (f_equal List.length) in Hlab. rewrite !length_fmap in Hlab. lia.
    + eapply Forall_impl; [exact Hst|]. intros ms (Ht & Hp & [s Hs]). split; [done|]. exists s.
      destruct (Hmap _ _ Hs) as (ms' & _ & _ & Hps & _). rewrite Hmem, Hp.
      split_and!; [by apply lookup_union_Some_l|by eapply Hown|done|].
      unfold is_authorized. by rewrite Hp.
  - simpl. intros (g & Eg & Hin)%list_elem_of_fmap. apply Hng. rewrite Eg.
    destruct Hag as [_ _ Ha]. rewrite Forall_forall in Ha. by apply ga_stored, Ha.
Qed.

(** A refused request: sessions as they were, and the store too unless the
    clean-up of a half-made group failed. *)
Definition refused (a : answer) (au : Auths) (w : W) (au' : Auths) (w' : W) : Prop :=
  au' = au ∧ (∃ status message, a = writeJSONError status message ∧ 400 ≤ status) ∧
  (fam w' = fam w ∨
   ∃ gid w1 e new, Fam_DeleteFamilyGroup gid w1 = (Some e, w') ∧
     gid ∉ fm_groups (fam w) ∧ fm_groups (fam w') = {[gid]} ∪ fm_groups (fam w) ∧
     new ##ₘ fm_members (fam w) ∧ fm_members (fam w') = new ∪ fm_members (fam w) ∧ (size new ≤ 10)%nat ∧
     map_Forall (λ _ s, GM_FamilyGroupID s = gid) new).

Lemma refused_kept a au w w' status message :
  inv w' → fam w' = fam w → agree (fam w) au → a = writeJSONError status message → 400 ≤ status →
  inv w' ∧ agree (fam w') au ∧ refused a au w au w'.
Proof. intros Hi Hf Hag Ha Hs. unfold refused. rewrite Hf.
  split_and!; [done|done|done|by exists status, message|by left]. Qed.

Definition created_answer (gid token : string) : answer :=
  Json (mkReply StatusOK [("state", JStr token); ("family_group_id", JStr gid)]).

(** From the id of the group on. *)
Lemma create_group_spec req gid plex created updated draws au w0 w a au' w' :
  inv w → fam w = fam w0 → agree (fam w) au → trimmed gid → plex = TrimSpace (FR_PlexUsername req) →
  (2 ≤ List.length (FR_Members req) ≤ 10)%nat → unlabelled (FR_Members req) = None →
  create_group draws gid plex created updated (FR_Members req) au w = Some (a, au', w') →
  inv w' ∧ agree (fam w') au' ∧
  ((∃ token, a = created_answer gid token ∧ family_created req gid token au w0 au' w') ∨ refused a au w0 au' w').
Proof using FL.
  intros Hi Hf0 Hag Hgid -> Hlen Hlab E. unfold create_group in E.
  pose proof (fam_Create (mkFG gid (TrimSpace (FR_PlexUsername req)) created updated) w Hi Hgid) as Hc.
  destruct (Fam_CreateFamilyGroup _ w) as [[e|] w1]; destruct Hc as [Hi1 Hc]; simpl in Hc.
  { simplify_eq. rewrite Hf0 in *. destruct (refused_kept (writeJSONError StatusInternalServerError "failed to create family group") au' w0 w' _ _ Hi1 Hc Hag eq_refl ltac:(done)) as (?&?&?).
    split_and!; [done..|by right]. }
  destruct Hc as [Hng Hf1].
  destruct (add_members gid (FR_Members req) w1) as [r w2] eqn:E2.
  destruct (add_members_spec _ _ _ _ _ E2 Hi1 Hgid) as (Hi2 & Hg2 & new & Hdis & Hmem & Hown & Hsize & Hr).
  rewrite Hf1 in Hg2, Hdis, Hmem. simpl in Hg2, Hdis, Hmem. destruct r as [states|].
  - destruct (Hr states eq_refl) as (Hl & Hnd & Hst & Hmap).
    destruct (Web_Now w2) as [now w3] eqn:E3. destruct (kept_Now _ _ _ E3 Hi2) as [Hi3 Hf3].
    destruct (authStates_Create _ _ _ w3) as [[[token au1] w4]|] eqn:E4; simpl in E; [|done]. simplify_eq.
    apply authStates_Create_spec in E4 as (H4 & Htok & Hheap & now' & Hstates). simpl in *.
    destruct (H4 Hi3) as [Hi4 Hf4]. rewrite Hf3 in Hf4.
    assert (agree (fam w') (mkAuths (au_states au) (au_heap au ++ [mkFGS gid (TrimSpace (FR_PlexUsername req)) states]))) as Hag'.
    { rewrite Hf4. by eapply new_family_agrees. }
    split_and!; [done| |].
    + destruct au' as [st heap]. simpl in *. subst st heap.
      apply (agree_session _ _ token _ Hag'). simpl. intros l [= <-]. rewrite list_lookup_middle by done. by eexists.
    + left. exists token. split; [done|]. rewrite Hf0 in *.
      split; [done|by apply unlabelled_None|by rewrite Hf4| |split; [done|by eexists]].
      exists states, new. rewrite Hf4. split_and!; try done.
      * intros id. rewrite list_elem_of_fmap. split.
        -- intros [s Hs]. destruct (Hmap _ _ Hs) as (ms & Hin & <- & _). by exists ms.
        -- intros (ms & -> & Hin). rewrite Forall_forall in Hst. by apply Hst.
      * lia.
      * intros k s Hs. destruct (Hmap _ _ Hs) as (ms & _ & _ & ? & _ & ?). split_and!; [by eapply Hown|done..].
  - pose proof (fam_Delete gid w2 Hi2 Hgid) as Hd.
    destruct (Fam_DeleteFamilyGroup gid w2) as [e w3] eqn:E3. destruct Hd as [Hi3 Hd]. simplify_eq.
    destruct e as [e|].
    + split_and!; [done| |right].
      * rewrite Hd. eapply agree_mono; [..|exact Hag]; [rewrite Hg2; apply union_subseteq_r|]. rewrite Hmem.
        by apply map_union_subseteq_r.
      * split_and!; [done|eexists _, _; by split|]. right. rewrite Hf0 in *. exists gid, w2, e, new.
        rewrite Hd. split_and!; try done. lia.
    + rewrite Hg2, Hmem in Hd. apply rolled_back in Hd; [|done..]. rewrite Hf0 in *.
      destruct (refused_kept (writeJSONError StatusInternalServerError "failed to create group members") au' w0 w' _ _ Hi3 Hd Hag eq_refl ltac:(done)) as (?&?&?).
      split_and!; [done..|by right].
Qed.

(** A branch that refuses the request. *)
Local Ltac refusal Href E := apply Href in E; [|done..]; intuition.

Lemma createFamilyAuthState_spec glob draws r au w a au' w' :
  createFamilyAuthState glob draws r au w = Some (a, au', w') → inv w → agree (fam w) au →
  inv w' ∧ agree (fam w') au' ∧
  ((∃ req gid token, decode_request dec_familyRequest (mkFamilyReq "" "" []) r = Some req ∧
      a = created_answer gid token ∧ family_created req gid token au w au' w') ∨ refused a au w au' w').
Proof using FL.
  intros E Hi Hag. unfold createFamilyAuthState in E.
  assert (∀ status message w1, 400 ≤ status → inv w1 → fam w1 = fam w →
    Some (writeJSONError status message, au, w1) = Some (a, au', w') →
    inv w' ∧ agree (fam w') au' ∧ refused a au w au' w') as Href.
  { intros status message w1 Hs Hi1 Hf1 Ea. simplify_eq. by eapply refused_kept. }
  case_bool_decide; [refusal Href E|].
  destruct (decode_request _ _ r) as [req|] eqn:Er; [|refusal Href E].
  case_bool_decide; [refusal Href E|].
  case_bool_decide; [refusal Href E|].
  case_match eqn:E2; [refusal Href E|].
  case_match eqn:E10; [refusal Href E|].
  destruct (unlabelled _) eqn:Eu; [refusal Href E|].
  case_match; [refusal Href E|].
  match type of E with context [Web_GetFamilyGroupByPlex ?p w] =>
    pose proof (fam_ByPlex p w Hi) as [Hi1 Hf1]; destruct (Web_GetFamilyGroupByPlex p w) as [ex w1] end. simpl in Hi1, Hf1.
  assert (E' : (let '(groupID, w) := newCorrelationID w1 in
    let '(created, w) := Web_Now w in
    let '(updated, w) := Web_Now w in
    create_group draws groupID (TrimSpace (FR_PlexUsername req)) created updated (FR_Members req) au w) = Some (a, au', w') ∨
    refused a au w au' w' ∧ inv w' ∧ agree (fam w') au').
  { destruct ex as [[g|]|e]; [right|by left..]. refusal Href E. }
  clear E. destruct E' as [E|]; [|intuition].
  destruct (newCorrelationID w1) as [gid w2] eqn:E3. apply kept_newCorrelationID in E3 as [H3 Hgid].
  destruct (H3 Hi1) as [Hi2 Hf2].
  destruct (Web_Now w2) as [created w3] eqn:E4. destruct (kept_Now _ _ _ E4 Hi2) as [Hi3 Hf3].
  destruct (Web_Now w3) as [updated w4] eqn:E5. destruct (kept_Now _ _ _ E5 Hi3) as [Hi4 Hf4].
  assert (fam w4 = fam w) as Hf by congruence. rewrite <-Hf in Hag.
  apply Nat.ltb_ge in E2, E10.
  destruct (create_group_spec _ _ _ _ _ _ _ _ _ _ _ _ Hi4 Hf Hag Hgid eq_refl (conj E2 E10) Eu E)
    as (? & ? & [(token & ? & ?)|?]); split_and!; try done; [left|by right].
  by exists req, gid, token.
Qed.

(** ** Single users *)

Lemma kept_start_session draws mode user id cid au w a au' w' :
  start_session draws mode user id cid au w = Some (a, au', w') →
  kept inv fam w w' ∧ au_heap au' = au_heap au ∧
  ∃ token state, A_FamilyGroup state = None ∧ au_states au' = <[token := state]> (au_states au).
Proof using FL.
  unfold start_session. destruct (Web_Now w) as [now w1] eqn:E1.
  destruct (authStates_Create _ _ _ w1) as [[[token au1] w2]|] eqn:E2; simpl; [|done]. intros [= <- <- <-].
  apply authStates_Create_spec in E2 as (H2 & _ & Hh & now' & Hs). split_and!; [|done|eexists token, _; by split; [|exact Hs]].
  etrans; [by eapply kept_Now|done].
Qed.

Lemma createAuthState_spec glob draws r au w a au' w' :
  createAuthState glob draws r au w = Ret (Some (a, au', w')) →
  kept inv fam w w' ∧ au_heap au' = au_heap au ∧
  (au_states au' = au_states au ∨
   ∃ token state, A_FamilyGroup state = None ∧ au_states au' = <[token := state]> (au_states au)).
Proof using FL.
  unfold createAuthState. intros E.
  assert (∀ status message w1, kept inv fam w w1 →
    Ret (Some (writeJSONError status message, au, w1)) = Ret (Some (a, au', w')) →
    kept inv fam w w' ∧ au_heap au' = au_heap au ∧
    (au_states au' = au_states au ∨
     ∃ token state, A_FamilyGroup state = None ∧ au_states au' = <[token := state]> (au_states au))) as Href.
  { intros status message w1 Hk [= <- <- <-]. by split_and!; [| |left]. }
  case_bool_decide; [by apply Href in E|]. destruct (decode_request _ _ r) as [req|]; [|by apply Href in E].
  case_bool_decide.
  - case_match; [by apply Href in E|]. case_bool_decide; [by apply Href in E|].
    destruct (Web_GetUser _ w) as [[user w1]|] eqn:E1; simpl in E; [|done]. apply fam_GetUser in E1.
    destruct user as [user|]; [|by eapply Href in E]. case_bool_decide; [by eapply Href in E|].
    destruct (newCorrelationID w1) as [cid w2] eqn:E2. apply kept_newCorrelationID in E2 as [Hc _].
    injection E as E. apply kept_start_session in E as (Hk & Hh & Hs).
    split_and!; [by do 2 (etrans; [done|])|done|by right].
  - case_bool_decide; [by apply Href in E|]. injection E as E. apply kept_start_session in E as (Hk & Hh & Hs).
    by split_and!; [| |right].
Qed.

Lemma kept_persist name id a r d e w x w' :
  persistAuthorizedUser name id a r d e w = Ret (x, w') → kept inv fam w w'.
Proof using FL.
  unfold persistAuthorizedUser. case_bool_decide.
  - destruct (Web_GetUser id w) as [[user w1]|] eqn:E1; simpl; [|done]. apply fam_GetUser in E1.
    destruct user as [user|]; [|by intros [= <- <-]]. destruct (if _ && _ then _ else _) as [ex inp].
    case_match; [by intros [= <- <-]|]. case_match; [by intros [= <- <-]|].
    destruct (Web_Now w1) as [now w2] eqn:E2. apply kept_Now in E2. unfold UpdateUser, save. simpl.
    destruct (U_store user); simpl; [|done]. destruct (Web_WriteUser _ w2) as [w3|] eqn:E3; simpl; [|done].
    apply fam_WriteUser in E3. intros [= <- <-]. by do 2 (etrans; [done|]).
  - pose proof (fam_uuid w) as Hu. destruct (Web_uuid w) as [nid w1].
    destruct (Web_Now w1) as [now w2] eqn:E2. apply kept_Now in E2. unfold NewUser, save. simpl.
    destruct (Web_WriteUser _ w2) as [w3|] eqn:E3; simpl; [|done].
    apply fam_WriteUser in E3. intros [= <- <-]. by do 2 (etrans; [done|]).
Qed.

Lemma kept_exchange_code glob root az code w a w' :
  exchange_code glob root az code w = Ret (a, w') → kept inv fam w w'.
Proof using FL.
  unfold exchange_code.
  destruct (authRequestFunc _ _ _ _ _ _ w) as [[result ok] w1] eqn:E1. apply kept_authRequestFunc in E1.
  destruct ok; simpl; [|by intros [= <- <-]]. destruct (tokens_of result) as [[acc ref]|]; [|by intros [= <- <-]].
  destruct (fetchDisplayNameFunc _ _ w1) as [fetched w2] eqn:E2. apply kept_fetchDisplayNameFunc in E2.
  destruct (display_name fetched) as [[n tr] pr]. destruct (Web_Now w2) as [now w3] eqn:E3. apply kept_Now in E3.
  destruct (persistAuthorizedUser _ _ _ _ _ _ w3) as [[p w4]|] eqn:E4; simpl; [|done]. apply kept_persist in E4.
  intros [= <- <-]. by do 3 (etrans; [done|]).
Qed.

Lemma kept_authorize_session glob root code az w a w' :
  authorize_session glob root code az w = Ret (a, w') → kept inv fam w w'.
Proof using FL.
  unfold authorize_session. destruct (if _ && _ then _ else _) as [cid w1] eqn:E1.
  assert (kept inv fam w w1) as H1.
  { destruct (_ && _); [by apply kept_newCorrelationID in E1 as []|by simplify_eq]. }
  clear E1. unfold with_stored. simpl.
  match goal with |- context [mbind _ (if ?b then ?x else ?y)] =>
    destruct (if b then x else y) as [[[stored az2] w2]|] eqn:E2 end; simpl; [|done].
  assert (kept inv fam w1 w2) as H2.
  { destruct (_ && _ && _); [|by simplify_eq]. destruct (Web_GetUser _ w1) as [[u w3]|] eqn:E3; simpl in E2; [|done].
    apply fam_GetUser in E3. by simplify_eq. }
  clear E2. case_bool_decide; [by intros [= <- <-]; etrans|]. case_bool_decide; [by intros [= <- <-]; etrans|].
  intros E%kept_exchange_code. by do 2 (etrans; [done|]).
Qed.

Lemma authorize_spec glob r au w a au' w' :
  authorize glob r au w = Ret (a, au', w') →
  kept inv fam w w' ∧ au_heap au' = au_heap au ∧ au_states au' ⊆ au_states au.
Proof using FL.
  unfold authorize. case_bool_decide.
  - destruct (authorize_session _ _ _ _ w) as [[x w1]|] eqn:E1; simpl; [|done].
    intros [= <- <- <-]. split_and!; [by eapply kept_authorize_session|done..].
  - unfold authStates_Consume. destruct (Web_Now w) as [now w1] eqn:E1. apply kept_Now in E1.
    destruct (Consume now _ (au_states au)) as [[state ok] states] eqn:E2.
    assert (states ⊆ au_states au) as Hs.
    { unfold Consume in E2. repeat case_match; simplify_eq; first [done|apply delete_subseteq]. }
    destruct ok; simpl; [|by intros [= <- <- <-]].
    destruct (authorize_session _ _ _ _ w1) as [[x w2]|] eqn:E3; simpl; [|done].
    intros [= <- <- <-]. split_and!; [|done..]. etrans; [done|by eapply kept_authorize_session].
Qed.

(** ** Runs of the handlers *)

Inductive web_step (glob : Globals) : Auths * W → Auths * W → Prop :=
| StepCreateAuthState draws r au w a au' w' :
    createAuthState glob draws r au w = Ret (Some (a, au', w')) → web_step glob (au, w) (au', w')
| StepCreateFamilyAuthState draws r au w a au' w' :
    createFamilyAuthState glob draws r au w = Some (a, au', w') → web_step glob (au, w) (au', w')
| StepAuthorize r au w a au' w' :
    authorize glob r au w = Ret (a, au', w') → web_step glob (au, w) (au', w')
| StepAuthorizeFamilyMember draws r au w a au' w' :
    authorizeFamilyMember glob draws r au w = Some (a, au', w') → web_step glob (au, w) (au', w').

Lemma agree_step glob s s' :
  g_storage glob = true → web_step glob s s' → inv s.2 ∧ agree (fam s.2) s.1 → inv s'.2 ∧ agree (fam s'.2) s'.1.
Proof using FL.
  intros Hst Hstep [Hi Hag]. destruct Hstep as [draws r au w a au' w' E|draws r au w a au' w' E|r au w a au' w' E|draws r au w a au' w' E];
    simpl in *.
  - apply createAuthState_spec in E as (Hk & Hh & Hs). destruct (Hk Hi) as [Hi' ->]. split; [done|].
    destruct au' as [states heap]. simpl in *. subst heap. destruct Hs as [->|(token & state & Hn & ->)]; [by destruct au|].
    apply agree_session; [done|]. by rewrite Hn.
  - by apply createFamilyAuthState_spec in E as (? & ? & _).
  - apply authorize_spec in E as (Hk & Hh & Hs). destruct (Hk Hi) as [Hi' ->]. split; [done|].
    destruct Hag as [Hp Hd Ha]. split; rewrite Hh; [|done..]. intros k st Hlook. by eapply (Hp k), lookup_weaken.
  - by apply authorizeFamilyMember_spec in E as (? & ? & _).
Qed.

Definition no_sessions : Auths := mkAuths newAuthStateStore [].

Lemma agree_reachable glob w0 au w :
  g_storage glob = true → inv w0 → rtc (web_step glob) (no_sessions, w0) (au, w) → inv w ∧ agree (fam w) au.
Proof using FL.
  intros Hst Hi Hr.
  refine (rtc_ind_r (λ s, inv s.2 ∧ agree (fam s.2) s.1) (no_sessions, w0) _ _ (au, w) Hr).
  - split; [done|]. split; simpl; [apply map_Forall_empty|constructor|constructor].
  - intros y z _ Hyz IH. by eapply agree_step.
Qed.
End Frame.
