(* ===== verification/PgWeb.v ===== *)
(** * The PostgreSQL store as the store of the authorization handlers

    [PostgresqlStore] (PgFamily.v, PgStore.v) implements the interface
    [FamilyLaws] of Families.v, whatever statements fail. *)

From S2P Require Import Prelude GoLib Text Float Json Instances Common Entities Buffers Pg PgFamily PgStore PgInvariant Trakt Sessions Webhooks Request OAuth Families.

Open Scope Z_scope.

(** The database and the number of calls made so far: each has its own
    environment, and requests to Trakt their own answers. *)
Record Web := mkWeb { web_db : Db; web_calls : nat }.

Section PgWeb.
Context `{UT : UnicodeTables, PG : PgServer, PL : !PgServerLaws PG, JT : JsonText}.
Context (envs : nat → Env) (trakt : nat → request → result response).

Definition web_call {A} (f : Env → Db → A * Db) (w : Web) : A * Web :=
  let '(a, db) := f (envs (web_calls w)) (web_db w) in (a, mkWeb db (S (web_calls w))).
Definition web_env (w : Web) : Env := envs (web_calls w).
Definition tick (w : Web) : Web := mkWeb (web_db w) (S (web_calls w)).

#[local] Instance pg_http : Http Web := { Do req w := (trakt (web_calls w) req, tick w) }.

(** Methods of [Store] that answer a pointer: PostgreSQL never answers nil
    without an error. *)
Definition found {A} (r : result A) : result (option A) :=
  match r with Ok a => Ok (Some a) | Err e => Err e end.

#[local] Instance pg_web_store : WebStore Web := {
  Web_GetFamilyGroupByPlex u := web_call (λ env db, (found (GetFamilyGroupByPlex env u db), db));
  Web_ListGroupMembers g := web_call (λ env db, (ListGroupMembers env g db, db));
  Web_GetUser id w := u ← GetUser (web_env w) id (web_db w); Ret (u, tick w);
  Web_GetUserByName n w := u ← GetUserByName (web_env w) (web_env (tick w)) n (web_db w); Ret (u, tick (tick w));
  Web_WriteUser u w := db ← WriteUser (web_env w) u (web_db w); Ret (mkWeb db (S (web_calls w)));
  Web_Now w := (clock (web_env w), tick w);
  Web_Rand w := (match rnd (web_env w) with Ok b => Some b | Err _ => None end, clock (web_env w), tick w);
  Web_uuid w := (fresh_id (web_env w), tick w);
}.

#[local] Instance pg_family_store : FamilyStore Web := {
  Fam_CreateFamilyGroup g := web_call (λ env db,
    let '(_, err, db) := CreateFamilyGroup env (Some g) db in (err, db));
  Fam_DeleteFamilyGroup id := web_call (λ env db, DeleteFamilyGroup env id db);
  Fam_AddGroupMember m := web_call (λ env db,
    let '(m', err, db) := AddGroupMember env (Some m) db in ((err, default m m'), db));
  Fam_GetGroupMember id := web_call (λ env db, (found (GetGroupMember env id db), db));
  Fam_UpdateGroupMember m := web_call (λ env db,
    let '(_, err, db) := UpdateGroupMember env (Some m) db in (err, db));
}.

(** The families of the database. *)
Definition pg_families (w : Web) : Families :=
  mkFamilies (dom (family_groups (web_db w)))
    (map_imap (λ id r, Some (scanGroupMemberRow (id, r))) (group_members (web_db w))).
Definition pg_inv (w : Web) : Prop := db_ok up_to_five (web_db w).

Lemma pg_members_lookup w id :
  fm_members (pg_families w) !! id = (λ r, scanGroupMemberRow (id, r)) <$> group_members (web_db w) !! id.
Proof. simpl. rewrite map_lookup_imap. by destruct (_ !! id). Qed.

Lemma pg_members_insert w id r db n :
  group_members db = <[id := r]> (group_members (web_db w)) → family_groups db = family_groups (web_db w) →
  pg_families (mkWeb db n) =
    mkFamilies (fm_groups (pg_families w)) (<[id := scanGroupMemberRow (id, r)]> (fm_members (pg_families w))).
Proof.
  intros Hm Hg. unfold pg_families. simpl. rewrite Hm, Hg. f_equal. apply map_eq. intros k.
  rewrite map_lookup_imap, !lookup_insert. case_decide; [by subst|]. rewrite map_lookup_imap. done.
Qed.

Lemma null_nullable s : null_string (nullableString s) = TrimSpace s.
Proof. unfold nullableString, null_string. case_bool_decide as E; [by rewrite E|done]. Qed.

(** The row of a validated member, read back. *)
Lemma pg_stored_as m v id g expiry c :
  GM_AuthorizationStatus m ≠ "" → id = GM_ID m →
  GroupMember_Validate (Some (set_GM id (lower_trakt m) (default_status m) m)) = (Some v, None) →
  stored_as m (scanGroupMemberRow (GM_ID v,
    mkMemberRow g (GM_TempLabel v) (nullableString (GM_TraktUsername v)) (nullableString (GM_AccessToken v))
      (nullableString (GM_RefreshToken v)) expiry (GM_AuthorizationStatus v) c)) ∧
  GM_ID v = GM_ID m ∧ GM_FamilyGroupID v = TrimSpace (GM_FamilyGroupID m) ∧ GM_TempLabel v = TrimSpace (GM_TempLabel m).
Proof.
  intros Hst -> [[= <-] _]%GroupMember_Validate_wf. unfold default_status, lower_trakt. simpl.
  rewrite (bool_decide_eq_false_2 (GM_AuthorizationStatus m = "")) by done. split; [|done].
  split; simpl; rewrite ?null_nullable, ?TrimSpace_idem; try done.
  case_bool_decide as E; [by rewrite E|done].
Qed.

(** *** The laws *)

(** The driver always reports the affected rows, and [rand.Read] fills its
    buffer with bytes. *)
Record sound_envs : Prop := {
  se_affected : ∀ i, fault (envs i) RowsAffected = None;
  se_rnd : ∀ i b, rnd (envs i) = Ok b → List.length b = 16%nat ∧ Forall byte_range b;
}.

Lemma pg_tick w : pg_inv w → pg_inv (tick w) ∧ pg_families (tick w) = pg_families w.
Proof. done. Qed.

Lemma pg_WriteUser u w w' : Web_WriteUser u w = Ret w' → kept pg_inv pg_families w w'.
Proof.
  simpl. unfold WriteUser. intros E Hi.
  pose proof (run_op_db_ok up_to_five (λ _ h, h) (web_env w) (OpWriteUser u) (web_db w) I Hi) as Hok. simpl in Hok. unfold WriteUser in Hok.
  destruct (statement _ _ _ _) as [[x|e] db] eqn:Es; simpl in E, Hok; simplify_eq. split; [done|].
  unfold statement in Es. destruct (fault _ _); [done|]. unfold upsert_user in Es. simplify_eq/=.
  by repeat case_match; simplify_eq.
Qed.

Lemma pg_List g w : pg_inv w → trimmed g →
  let '(r, w') := Web_ListGroupMembers g w in
  pg_inv w' ∧ pg_families w' = pg_families w ∧
  ∀ ms, r = Ok ms →
    ∀ m, m ∈ ms ↔ fm_members (pg_families w) !! GM_ID m = Some m ∧ GM_FamilyGroupID m = g.
Proof using PL.
  intros Hi [Hne Ht]. simpl. split_and!; [done|done|]. intros ms E m.
  unfold ListGroupMembers in E. rewrite Ht, bool_decide_eq_false_2 in E by done.
  unfold query_all, statement in E. destruct (fault _ (Stmt 0)); [done|]. simpl in E.
  destruct (fault _ RowsErr); simplify_eq. rewrite list_elem_of_fmap, map_lookup_imap. split.
  - intros ([id r] & -> & Hin). rewrite order_asc_perm in Hin. apply select_spec in Hin as [Hl Hg].
    apply bool_decide_eq_true in Hg. simpl. by rewrite Hl.
  - intros [Hl Hg]. destruct (group_members (web_db w) !! GM_ID m) as [r|] eqn:E; simpl in Hl; [|done].
    injection Hl as Hm. exists (GM_ID m, r). split; [done|]. rewrite order_asc_perm. apply select_spec.
    split; [done|]. apply bool_decide_eq_true. by rewrite <-Hg, <-Hm.
Qed.

Lemma pg_Get id w : pg_inv w → trimmed id →
  let '(r, w') := Fam_GetGroupMember id w in
  pg_inv w' ∧ pg_families w' = pg_families w ∧
  ∀ m, r = Ok (Some m) → GM_ID m = id ∧ fm_members (pg_families w) !! id = Some m.
Proof using PL.
  intros Hi [Hne Ht]. simpl. split_and!; [done|done|]. intros m E.
  unfold GetGroupMember in E. rewrite Ht, bool_decide_eq_false_2 in E by done.
  destruct (fault (envs (web_calls w)) (Stmt 0)) eqn:Ef.
  { unfold statement in E. by rewrite Ef in E. }
  rewrite query_row_key in E by done. rewrite map_lookup_imap.
  destruct (group_members (web_db w) !! id) as [r|]; simpl in E; [|done]. by injection E as <-.
Qed.

Lemma pg_Create g w : pg_inv w → trimmed (FG_ID g) →
  let '(err, w') := Fam_CreateFamilyGroup g w in
  pg_inv w' ∧
  match err with
  | Some _ => pg_families w' = pg_families w
  | None => FG_ID g ∉ fm_groups (pg_families w) ∧
      pg_families w' = mkFamilies ({[FG_ID g]} ∪ fm_groups (pg_families w)) (fm_members (pg_families w))
  end.
Proof using PL.
  intros Hi [Hne Ht]. pose proof (db_ok_CreateFamilyGroup up_to_five (web_env w) (Some g) _ Hi) as Hok.
  unfold Fam_CreateFamilyGroup, pg_family_store, web_call. unfold web_env in Hok.
  destruct (CreateFamilyGroup _ _ _) as [[g' err] db] eqn:E. cbn [snd] in Hok. split; [exact Hok|]. clear Hok.
  unfold CreateFamilyGroup, FamilyGroup_Validate in E. simpl in E.
  destruct (bool_decide (_ = "")); [by simplify_eq|].
  rewrite (bool_decide_eq_false_2 (FG_ID g = "")) in E by done.
  unfold statement in E. destruct (fault _ _); [by simplify_eq|].
  destruct (insert_family_group _ _ _ _) as [[[c u] db1]|e] eqn:Ei; simplify_eq; [|done].
  apply insert_family_group_ok in Ei as (Hn & _ & _ & ->). split; [by apply not_elem_of_dom|].
  unfold pg_families. simpl. by rewrite dom_insert_L.
Qed.

Lemma pg_Add m w :
  pg_inv w → trimmed (GM_ID m) → trimmed (GM_FamilyGroupID m) → GM_AuthorizationStatus m ≠ "" →
  let '(err, m', w') := Fam_AddGroupMember m w in
  pg_inv w' ∧
  match err with
  | Some _ => pg_families w' = pg_families w
  | None =>
      fm_members (pg_families w) !! GM_ID m = None ∧ GM_TempLabel m' = TrimSpace (GM_TempLabel m) ∧
      ∃ s, stored_as m s ∧ GM_FamilyGroupID s = GM_FamilyGroupID m ∧
           pg_families w' = mkFamilies (fm_groups (pg_families w)) (<[GM_ID m := s]> (fm_members (pg_families w)))
  end.
Proof using PL.
  intros Hi [Hne _] [_ Htg] Hst. pose proof (db_ok_AddGroupMember up_to_five (web_env w) (Some m) _ Hi) as Hok.
  unfold Fam_AddGroupMember, pg_family_store, web_call. unfold web_env in Hok.
  destruct (AddGroupMember _ _ _) as [[m' err] db] eqn:E. cbn [snd] in Hok. split; [exact Hok|]. clear Hok.
  unfold AddGroupMember in E. rewrite (bool_decide_eq_false_2 (GM_ID m = "")) in E by done.
  destruct (GroupMember_Validate _) as [[v|] [e|]] eqn:Ev; try by simplify_eq.
  unfold statement in E. destruct (fault _ _); [by simplify_eq|].
  destruct (insert_group_member _ _ _) as [[c db1]|e] eqn:Ei; simplify_eq; [|done].
  unfold insert_group_member in Ei. destruct (check _ (negb _)) eqn:Ec; simpl in Ei; [|done].
  apply check_ok in Ec. destruct (check _ _); simpl in Ei; [|done]. injection Ei as <- <-.
  destruct (pg_stored_as m v (GM_ID m) (GM_FamilyGroupID v) (timestamp <$> nullableTime (GM_TokenExpiry v))
              (timestamp (db_now (envs (web_calls w)))) Hst eq_refl Ev) as (Hs & Hid & Hg & Hl).
  rewrite Hid in *. split_and!; [|done|].
  - rewrite pg_members_lookup. unfold exists_in in Ec. apply negb_true_iff, bool_decide_eq_false in Ec.
    by rewrite (proj2 (eq_None_not_Some _) Ec).
  - eexists. split_and!; [exact Hs|simpl; by rewrite Hg|]. by apply pg_members_insert.
Qed.

Lemma pg_Update m w : sound_envs →
  pg_inv w → trimmed (GM_ID m) → GM_AuthorizationStatus m ≠ "" →
  let '(err, w') := Fam_UpdateGroupMember m w in
  pg_inv w' ∧
  match err with
  | Some _ => pg_families w' = pg_families w
  | None =>
      ∃ old s, fm_members (pg_families w) !! GM_ID m = Some old ∧
        stored_as m s ∧ GM_FamilyGroupID s = GM_FamilyGroupID old ∧
        pg_families w' = mkFamilies (fm_groups (pg_families w)) (<[GM_ID m := s]> (fm_members (pg_families w)))
  end.
Proof using PL.
  intros [Hra _] Hi [Hne _] Hst. pose proof (db_ok_UpdateGroupMember up_to_five (web_env w) (Some m) _ Hi) as Hok.
  unfold Fam_UpdateGroupMember, pg_family_store, web_call. unfold web_env in Hok.
  destruct (UpdateGroupMember _ _ _) as [[m' err] db] eqn:E. cbn [snd] in Hok. split; [exact Hok|]. clear Hok.
  unfold UpdateGroupMember in E.
  destruct (GroupMember_Validate _) as [[v|] [e|]] eqn:Ev; try by simplify_eq.
  unfold statement, update_group_member in E. destruct (fault _ (Stmt 0)); [by simplify_eq|].
  assert (GM_ID v = GM_ID m) as Hid by (by apply GroupMember_Validate_wf in Ev as [[= <-] _]).
  rewrite Hid in E. destruct (group_members (web_db w) !! GM_ID m) as [old|] eqn:El.
  - cbn [affected_or] in E. rewrite Hra in E. cbn [Z.eqb] in E. injection E as <- <- <-.
    destruct (pg_stored_as m v (GM_ID m) (M_family_group_id old) (timestamp <$> nullableTime (GM_TokenExpiry v))
                (M_created_at old) Hst eq_refl Ev) as (Hs & _ & _ & _).
    rewrite Hid in Hs. eexists _, _. rewrite pg_members_lookup, El. split_and!; [done|exact Hs|done|].
    by apply pg_members_insert.
  - simpl in E. rewrite Hra in E. by simplify_eq.
Qed.

Lemma pg_Delete id w : sound_envs → pg_inv w → trimmed id →
  let '(err, w') := Fam_DeleteFamilyGroup id w in
  pg_inv w' ∧
  match err with
  | Some _ => pg_families w' = pg_families w
  | None => pg_families w' = mkFamilies (fm_groups (pg_families w) ∖ {[id]})
              (filter (λ kv, GM_FamilyGroupID kv.2 ≠ id) (fm_members (pg_families w)))
  end.
Proof using PL.
  intros [Hra _] Hi [Hne Ht]. pose proof (db_ok_DeleteFamilyGroup up_to_five (web_env w) id _ Hi) as Hok.
  unfold Fam_DeleteFamilyGroup, pg_family_store, web_call. unfold web_env in Hok.
  destruct (DeleteFamilyGroup _ _ _) as [err db] eqn:E. cbn [snd] in Hok. split; [exact Hok|]. clear Hok.
  unfold DeleteFamilyGroup in E. rewrite Ht, bool_decide_eq_false_2 in E by done.
  unfold statement, delete_family_group in E. destruct (fault _ (Stmt 0)); [by simplify_eq/=|].
  destruct (exists_in _ _); simpl in E; rewrite Hra in E; simplify_eq/=; [|done].
  unfold pg_families. simpl. f_equal; [by rewrite dom_delete_L|].
  apply map_eq. intros k. apply option_eq. intros s.
  rewrite map_lookup_imap, map_lookup_filter_Some, map_lookup_imap. simpl.
  destruct (keep_where _ _ !! k) as [r|] eqn:Ek; simpl.
  - apply keep_where_lookup in Ek as [Ek Hn]. rewrite Ek in *. apply negb_true_iff, bool_decide_eq_false in Hn. simpl.
    split; [intros [= <-]; done|by intros [? _]].
  - split; [done|]. intros [Hk Hs]. destruct (group_members (web_db w) !! k) as [r|] eqn:Er; simpl in Hk; [|done].
    injection Hk as <-. simpl in Hs.
    match type of Ek with keep_where ?f ?m !! k = None => assert (keep_where f m !! k = Some r) end; [|congruence].
    apply keep_where_lookup. rewrite Er. split; [done|]. by apply negb_true_iff, bool_decide_eq_false.
Qed.

Lemma pg_family_laws : sound_envs → FamilyLaws pg_inv pg_families.
Proof using PL JT.
  intros Hs. split.
  - intros w k m [Hint _] Hk. rewrite pg_members_lookup in Hk.
    destruct (group_members (web_db w) !! k) as [r|] eqn:E; simpl in Hk; [|done]. injection Hk as <-. simpl.
    apply elem_of_dom. by eapply (member_group _ Hint).
  - intros w k m _ Hk. rewrite pg_members_lookup in Hk.
    destruct (group_members (web_db w) !! k) as [r|]; simpl in Hk; [|done]. by injection Hk as <-.
  - intros req w. exact (pg_tick w).
  - intros w. exact (pg_tick w).
  - intros w. split; [exact (pg_tick w)|]. simpl. destruct (rnd (web_env w)) as [b|e] eqn:E; [|by split].
    destruct (se_rnd Hs _ _ E). by split; intros b' [= <-].
  - intros w. exact (pg_tick w).
  - intros id w u w'. simpl. destruct (GetUser _ _ _); simpl; [|done]. intros [= <- <-]. exact (pg_tick w).
  - apply pg_WriteUser.
  - intros u w. exact (pg_tick w).
  - apply pg_List.
  - apply pg_Get.
  - apply pg_Create.
  - apply pg_Add.
  - intros m w. by apply pg_Update.
  - intros id w. by apply pg_Delete.
Qed.
End PgWeb.

(** ** Examples *)

#[local] Existing Instances ascii_tables memory_server tree_text.

(** Every call has its own second and its own random bytes; Trakt gives every
    code the same tokens, those of Ann's account. *)
Definition house_env (i : nat) : Env :=
  mkEnv (λ _, None) ((1700000000 + Z.of_nat i) * Second) ((1700000000 + Z.of_nat i) * Second) "id"
    (Ok (replicate 15 0 ++ [Z.of_nat i `mod` 256])) ∅.
Definition house_trakt (_ : nat) (_ : request) : result response :=
  Ok (mkResponse 200 "200 OK" (json_print (JObj
    [("access_token", JStr "at"); ("refresh_token", JStr "rt"); ("user", JObj [("name", JStr "Ann")])])) None).

Lemma house_sound : sound_envs house_env.
Proof.
  split; [done|]. intros i b [= <-]. split; [done|]. unfold byte_range.
  pose proof (Z.mod_pos_bound (Z.of_nat i) 256 ltac:(lia)). repeat constructor; lia.
Qed.

Definition house : Globals := mkGlobals false true (Some (New "id" "secret")).
Definition empty_web : Web := mkWeb NewPostgresqlClient 0.
Lemma empty_web_ok : pg_inv empty_web.
Proof. exact (db_ok_empty _). Qed.
