(* ===== verification/FamilyFlow.v ===== *)
(** * The authorization of a family, end to end

    The theorems about [createFamilyAuthState] and [authorizeFamilyMember]
    (OAuth.v) on any state that the authorization handlers can reach, from the
    contract [FamilyLaws] and then on the PostgreSQL store, which keeps it, with
    a household as their example. *)

From S2P Require Import Prelude GoLib Text Float Json Instances Common Entities Buffers Pg PgFamily PgStore PgInvariant Trakt Sessions Webhooks Request OAuth Families PgWeb.

Open Scope Z_scope.

(** ** Properties *)

Section Claims.
Context {W : Type} `{UT : UnicodeTables, JT : JsonText, UR : UrlText, HT : Http W, WS : WebStore W, FS : FamilyStore W}.
Context (inv : W → Prop) (fam : W → Families) {FL : FamilyLaws inv fam}.

(** C19: on a store that keeps the promises [FamilyLaws], as PostgreSQL does,
    whatever requests the four authorization handlers have served, in whatever
    order and with whatever answers of Trakt, the sessions agree with
    the store: every session of a family points to its family; every family
    has two to ten members with different ids, all of them stored members of
    its group; and a member counts as authorized in the session exactly when
    it is authorized in the store, under the same account. *)
Theorem family_sessions_agree (glob : Globals) (w0 w : W) (au : Auths) :
  g_storage glob = true → inv w0 → rtc (web_step glob) (no_sessions, w0) (au, w) →
  agree (fam w) au.
Proof using FL. intros Hst Hi Hr. by eapply agree_reachable. Qed.

(** [authorizeFamilyMember] and [createFamilyAuthState] on any such store; the
    theorems below are about PostgreSQL. *)
Lemma member_authorized_law (glob : Globals) (w0 w : W) (au : Auths) (draws : list (option (list Z) * Z))
    (r : Request) (a : answer) (au' : Auths) (w' : W) :
  g_storage glob = true → inv w0 → rtc (web_step glob) (no_sessions, w0) (au, w) →
  authorizeFamilyMember glob draws r au w = Some (a, au', w') →
  match a with
  | MemberPage m name token all =>
      ∃ now state loc,
        m = TrimSpace (value_of (R_Query r) "member_id") ∧
        Get now (TrimSpace (value_of (R_Query r) "state")) (au_states au) = (state, true) ∧
        A_FamilyGroup state = Some loc ∧
        member_authorized fam glob (SelfRoot (g_trustProxy glob) r) (TrimSpace (value_of (R_Query r) "code"))
          m name token all state loc au w au' w'
  | _ => au' = au ∧ fam w' = fam w
  end.
Proof using FL.
  intros Hst Hi Hr E. destruct (agree_reachable inv fam _ _ _ _ Hst Hi Hr) as [Hi' Hag].
  by destruct (authorizeFamilyMember_spec inv fam _ _ _ _ _ _ _ _ E Hst Hi' Hag) as (_ & _ & Ha).
Qed.

Lemma family_created_law (glob : Globals) (w0 w : W) (au : Auths) (draws : list (option (list Z) * Z))
    (r : Request) (a : answer) (au' : Auths) (w' : W) :
  g_storage glob = true → inv w0 → rtc (web_step glob) (no_sessions, w0) (au, w) →
  createFamilyAuthState glob draws r au w = Some (a, au', w') →
  (∃ req gid token, decode_request dec_familyRequest (mkFamilyReq "" "" []) r = Some req ∧
     a = created_answer gid token ∧ family_created fam req gid token au w au' w') ∨
  refused fam a au w au' w'.
Proof using FL.
  intros Hst Hi Hr E. destruct (agree_reachable inv fam _ _ _ _ Hst Hi Hr) as [Hi' Hag].
  by destruct (createFamilyAuthState_spec inv fam _ _ _ _ _ _ _ _ E Hi' Hag) as (_ & _ & Ha).
Qed.
End Claims.

(** ** On PostgreSQL *)

Section PgClaims.
Context `{UT : UnicodeTables, PG : PgServer, PL : !PgServerLaws PG, JT : JsonText, UR : UrlText}.
(** The environment of each call of the store, with any statements failing, and
    the answers of Trakt. *)
Context (envs : nat → Env) (trakt : nat → request → result response) (SE : sound_envs envs).
#[local] Instance claim_http : Http Web := pg_http trakt.
#[local] Instance claim_web : WebStore Web := pg_web_store envs.
#[local] Instance claim_store : FamilyStore Web := pg_family_store envs.
#[local] Instance claim_laws : FamilyLaws pg_inv pg_families := pg_family_laws envs trakt SE.

(** C20: on the PostgreSQL store (the disk and Redis stores drop the tokens of a
    member), [authorizeFamilyMember] answers with the closing page only after an
    authorization, and whatever else it answers it changes neither sessions nor
    store.  With the page, the request came with a valid session of a family
    and the id of one of its members; that member, and no other, has become an
    authorized member of the store with the tokens Trakt issued for the code;
    no other member of the group had the account, unless the members could not
    be listed; the family is changed where all its sessions see it; the page's
    token is a new session with the age of the old one; and the page says that
    all are authorized exactly if all members are authorized in the store. *)
Theorem family_member_authorized (glob : Globals) (w0 w : Web) (au : Auths) (draws : list (option (list Z) * Z))
    (r : Request) (a : answer) (au' : Auths) (w' : Web) :
  g_storage glob = true → pg_inv w0 → rtc (web_step glob) (no_sessions, w0) (au, w) →
  authorizeFamilyMember glob draws r au w = Some (a, au', w') →
  match a with
  | MemberPage m name token all =>
      ∃ now state loc,
        m = TrimSpace (value_of (R_Query r) "member_id") ∧
        Get now (TrimSpace (value_of (R_Query r) "state")) (au_states au) = (state, true) ∧
        A_FamilyGroup state = Some loc ∧
        member_authorized pg_families glob (SelfRoot (g_trustProxy glob) r) (TrimSpace (value_of (R_Query r) "code"))
          m name token all state loc au w au' w'
  | _ => au' = au ∧ pg_families w' = pg_families w
  end.
Proof using PL SE. exact (member_authorized_law pg_inv pg_families glob w0 w au draws r a au' w'). Qed.

(** C21: on the PostgreSQL store (on the disk store a group whose index entry
    cannot be written stays behind), [createFamilyAuthState] sets up the whole
    family or nothing.  With status 200 there is a new group with two to ten pending members without
    tokens, one for each label of the request, and a new session that points to
    exactly these.  Any other answer is an error that leaves sessions and store
    as they were, except that a group whose clean-up fails stays behind. *)
Theorem family_created_or_refused (glob : Globals) (w0 w : Web) (au : Auths) (draws : list (option (list Z) * Z))
    (r : Request) (a : answer) (au' : Auths) (w' : Web) :
  g_storage glob = true → pg_inv w0 → rtc (web_step glob) (no_sessions, w0) (au, w) →
  createFamilyAuthState glob draws r au w = Some (a, au', w') →
  (∃ req gid token, decode_request dec_familyRequest (mkFamilyReq "" "" []) r = Some req ∧
     a = created_answer gid token ∧ family_created pg_families req gid token au w au' w') ∨
  refused pg_families a au w au' w'.
Proof using PL SE. exact (family_created_law pg_inv pg_families glob w0 w au draws r a au' w'). Qed.
End PgClaims.

(** ** Examples *)

#[local] Existing Instances ascii_tables memory_server tree_text plain_urls.

#[local] Instance house_http : Http Web := pg_http house_trakt.
#[local] Instance house_web : WebStore Web := pg_web_store house_env.
#[local] Instance house_store : FamilyStore Web := pg_family_store house_env.

#[local] Instance house_laws : FamilyLaws pg_inv pg_families := 
  pg_family_laws (PL:=memory_server_laws) house_env house_trakt house_sound.

Definition set_up : Request :=
  mkReq "POST" "" "" "/oauth/family/state" "localhost:8000" false ∅ ∅ ∅
    (json_print (JObj [("mode", JStr "family"); ("plex_username", JStr "Smith");
       ("members", JArr [JObj [("temp_label", JStr "Ann")]; JObj [("temp_label", JStr "Bob")]])])).
Definition set_up_answer : option (answer * Auths * Web) :=
  createFamilyAuthState house [(Some (replicate 16 1), 0)] set_up no_sessions empty_web.
Definition set_up_state : Auths * Web := match set_up_answer with Some (_, au, w) => (au, w) | None => (no_sessions, empty_web) end.

(** The browser of the member with the given label comes back from Trakt. *)
Definition callback (i : nat) (au : Auths) : Request :=
  let id := match au_heap au with g :: _ => match GS_Members g !! i with Some ms => MS_MemberID ms | None => "" end | [] => "" end in
  mkReq "GET" "" "" "/authorize/family/member" "localhost:8000" false ∅
    {["state" := generateCorrelationID (Some (replicate 16 1)) 0; "code" := "c"; "member_id" := id]} ∅ "".
Definition member_answer (i : nat) : option (answer * Auths * Web) :=
  authorizeFamilyMember house [(Some (replicate 16 2), 0)] (callback i set_up_state.1) set_up_state.1 set_up_state.2.

Lemma set_up_ok : is_Some set_up_answer.
Proof. apply is_Some_alt. vm_compute. exact I. Qed.
Lemma set_up_reached : rtc (web_step house) (no_sessions, empty_web) (set_up_state.1, set_up_state.2).
Proof.
  apply rtc_once. unfold set_up_state. destruct set_up_ok as [[[a au] w] E]. rewrite E.
  exact (StepCreateFamilyAuthState house _ set_up no_sessions empty_web a au w E).
Qed.

Lemma family_sessions_agree_witness : agree (pg_families set_up_state.2) set_up_state.1.
Proof.
  apply (family_sessions_agree pg_inv pg_families house empty_web set_up_state.2 set_up_state.1).
  - reflexivity.
  - exact empty_web_ok.
  - exact set_up_reached.
Defined.

(** Ann is the first of the two to be authorized, under her account. *)
Definition page_of (x : option (answer * Auths * Web)) : option (string * bool) :=
  match x with Some (MemberPage _ name _ all, _, _) => Some (name, all) | _ => None end.
Lemma member_answer_page : page_of (member_answer 0) = Some ("Ann", false).
Proof. vm_compute. reflexivity. Qed.

Lemma family_member_authorized_witness :
  match member_answer 0 with
  | Some (MemberPage m name token all, au', w') =>
      name = "Ann" ∧ ∃ s, fm_members (pg_families w') !! m = Some s ∧ GM_AuthorizationStatus s = "authorized" ∧
        GM_TraktUsername s = TrimSpace (ToLower "Ann")
  | _ => False
  end.
Proof.
  pose proof member_answer_page as Hp. destruct (member_answer 0) as [[[a au'] w']|] eqn:E; [|discriminate Hp].
  pose proof (family_member_authorized (PL:=memory_server_laws) house_env house_trakt house_sound house empty_web set_up_state.2 set_up_state.1
    [(Some (replicate 16 2), 0)] (callback 0 set_up_state.1) a au' w' eq_refl empty_web_ok set_up_reached E) as Ht.
  destruct a as [?|?|m name token all]; [discriminate Hp..|]. injection Hp as -> _. split; [reflexivity|].
  destruct Ht as (now & state & loc & _ & _ & _ & [_ (t & w1 & res & w2 & acc & ref & old & s & _ & _ & _ & _ & Hs & Hf) _]).
  exists s. rewrite Hf. split; [apply lookup_insert_eq|]. split; [apply (auth_status _ _ _ _ _ Hs)|apply (auth_account _ _ _ _ _ Hs)].
Defined.

Definition status_of (x : option (answer * Auths * Web)) : Z :=
  match x with Some (Json r, _, _) => reply_status r | _ => 0 end.
Lemma set_up_status : status_of set_up_answer = StatusOK.
Proof. vm_compute. reflexivity. Qed.

Lemma family_created_or_refused_witness :
  match set_up_answer with
  | Some (a, au, w) => ∃ gid token, a = created_answer gid token ∧ fm_groups (pg_families w) = {[gid]}
  | None => False
  end.
Proof.
  pose proof set_up_status as Hs. destruct set_up_answer as [[[a au] w]|] eqn:E; [|discriminate Hs].
  destruct (family_created_or_refused (PL:=memory_server_laws) house_env house_trakt house_sound house empty_web empty_web no_sessions
    [(Some (replicate 16 1), 0)] set_up a au w eq_refl empty_web_ok (rtc_refl _ _) E)
    as [(req & gid & token & _ & Ha & Hc)|(_ & (status & message & -> & Hle) & _)].
  - exists gid, token. split; [exact Ha|]. destruct Hc as [_ _ [_ Hg] _ _]. rewrite Hg.
    change (fm_groups (pg_families empty_web)) with (dom (∅ : gmap string GroupRow)). rewrite dom_empty_L.
    apply (right_id_L ∅ (∪)).
  - exfalso. simpl in Hs. unfold StatusOK in Hs. lia.
Defined.
