(* ===== verification/UserFlow.v ===== *)
(** * The authorization of a single user, end to end

    What [authorize] (OAuth.v) does to sessions and stored users, against
    interfaces of the store ([UserLaws], [UserPanics]) that the PostgreSQL store
    implements; the theorem is stated on that store. *)

From S2P Require Import Prelude GoLib Text Float Json Instances Common Entities Buffers Pg PgFamily PgStore PgInvariant Trakt Sessions Webhooks Request OAuth Families PgWeb.

Open Scope Z_scope.

(** ** What the store promises *)

(** A user as it comes back from the store. *)
Record saved_as `{UnicodeTables} (u s : User) : Prop := {
  saved_ID : U_ID s = U_ID u;
  saved_name : U_Username s = ToLower (U_Username u);
  saved_access : U_AccessToken s = U_AccessToken u;
  saved_refresh : U_RefreshToken s = U_RefreshToken u;
}.

Section Users.
Context {W : Type} `{UT : UnicodeTables, JT : JsonText, UR : UrlText, HT : Http W, WS : WebStore W}.

(** [usr] is the table of users by id. *)
Class UserLaws (usr : W → gmap string User) : Prop := {
  usr_Do req w : usr (Do req w).2 = usr w;
  usr_Now w : usr (Web_Now w).2 = usr w;
  usr_Rand w : usr (Web_Rand w).2 = usr w;
  usr_uuid w : usr (Web_uuid w).2 = usr w;
  usr_GetUser id w u w' : Web_GetUser id w = Ret (u, w') → usr w' = usr w ∧ usr w !! id = u;
  usr_WriteUser u w w' : Web_WriteUser u w = Ret w' → ∃ s, saved_as u s ∧ usr w' = <[U_ID u := s]> (usr w);
}.

Context (usr : W → gmap string User) {UL : UserLaws usr}.

Lemma usr_newCorrelationID w : usr (newCorrelationID w).2 = usr w.
Proof using UL.
  unfold newCorrelationID. pose proof (usr_Rand w) as Hr. by destruct (Web_Rand w) as [[rnd nanos] w1].
Qed.

Lemma usr_AuthRequest t uri n c r g w : usr (AuthRequest t uri n c r g w).2 = usr w.
Proof using UL.
  unfold AuthRequest.
  match goal with |- context [Do ?req w] => pose proof (usr_Do req w) as Hk; destruct (Do req w) as [[resp|e] w1] end;
    simpl in *; repeat case_match; done.
Qed.

Lemma usr_fetchDisplayNameFunc t a w : usr (fetchDisplayNameFunc t a w).2 = usr w.
Proof using UL.
  unfold fetchDisplayNameFunc. destruct t as [t|]; [|done]. unfold FetchDisplayName.
  case_match; [done|]. destruct (NewRequest _) as [req|]; [|done].
  pose proof (usr_Do req w) as Hk. destruct (Do req w) as [[resp|e] w1]; simpl in *; repeat case_match; done.
Qed.

(** ** Storing the user *)

(** The user that an authorization writes: a selected user keeps its id and
    takes no other name; otherwise it is a new user. *)
Record authorizes (users : gmap string User) (name id access refresh : string) (u : User) : Prop := {
  az_tokens : U_AccessToken u = access ∧ U_RefreshToken u = refresh;
  az_user : if bool_decide (id = "") then U_Username u = ToLower (TrimSpace name)
            else ∃ old, users !! id = Some old ∧ U_ID u = U_ID old ∧ U_Username u ≠ "" ∧
                   (ToLower (TrimSpace (U_Username old)) = "" ∨ ToLower (TrimSpace (U_Username old)) = U_Username u) ∧
                   (ToLower (TrimSpace name) = "" ∨ ToLower (TrimSpace name) = U_Username u);
}.

(** The two names [persistAuthorizedUser] compares, after each has taken the
    place of the other if that is empty. *)
Lemma filled_names (ex inp ex' inp' : string) :
  (if bool_decide (ex = "") && bool_decide (inp ≠ "") then (inp, inp)
   else if bool_decide (inp = "") && bool_decide (ex ≠ "") then (ex, ex) else (ex, inp)) = (ex', inp') →
  bool_decide (ex' ≠ "") && bool_decide (inp' ≠ "") && bool_decide (ex' ≠ inp') = false → inp' ≠ "" →
  (ex = "" ∨ ex = inp') ∧ (inp = "" ∨ inp = inp').
Proof.
  intros E Hc Hne. destruct (decide (ex = "")) as [->|He], (decide (inp = "")) as [->|Hi];
    repeat (rewrite ?bool_decide_eq_true_2, ?bool_decide_eq_false_2 in E by tauto); simpl in E;
    rewrite ?bool_decide_eq_true_2 in E by tauto; simpl in E; simplify_eq; auto.
  rewrite !andb_false_iff, !bool_decide_eq_false in Hc.
  destruct Hc as [[Hc|Hc]|Hc]; [tauto..|]. apply dec_stable in Hc. auto.
Qed.

Lemma persist_spec name id access refresh d e w x w' :
  persistAuthorizedUser name id access refresh d e w = Ret (x, w') →
  match x with
  | Err _ => usr w' = usr w
  | Ok (u, reused) => authorizes (usr w) name id access refresh u ∧
      ∃ s, saved_as u s ∧ usr w' = <[U_ID u := s]> (usr w)
  end.
Proof using UL.
  unfold persistAuthorizedUser. destruct (decide (id = "")) as [->|Hid].
  - rewrite bool_decide_eq_false_2 by tauto.
    pose proof (usr_uuid w) as Hu. destruct (Web_uuid w) as [nid w1]. simpl in Hu.
    pose proof (usr_Now w1) as Hn. destruct (Web_Now w1) as [now w2]. simpl in Hn. unfold NewUser, save. simpl.
    destruct (Web_WriteUser _ w2) as [w3|] eqn:E3; simpl; [|done]. apply usr_WriteUser in E3 as (s & Hs & Hw).
    intros [= <- <-]. rewrite Hn, Hu in Hw. split; [by split|by exists s].
  - rewrite bool_decide_eq_true_2 by done.
    destruct (Web_GetUser id w) as [[user w1]|] eqn:E1; simpl; [|done]. apply usr_GetUser in E1 as [Hw1 Hu].
    destruct user as [user|]; [|by intros [= <- <-]].
    match goal with |- context [match (if ?b then ?x else ?y) with (_, _) => _ end] =>
      destruct (if b then x else y) as [ex inp] eqn:Ef end.
    destruct (_ && _ && _) eqn:Ec; [by intros [= <- <-]|]. destruct (decide (inp = "")) as [->|Hinp]; [by intros [= <- <-]|].
    rewrite bool_decide_eq_false_2 by done.
    pose proof (usr_Now w1) as Hn. destruct (Web_Now w1) as [now w2]. simpl in Hn. unfold UpdateUser, save. simpl.
    destruct (U_store user); simpl; [|done]. destruct (Web_WriteUser _ w2) as [w3|] eqn:E3; simpl; [|done].
    apply usr_WriteUser in E3 as (s & Hs & Hw). intros [= <- <-]. rewrite Hn, Hw1 in Hw. split; [|by exists s].
    split; [done|]. rewrite bool_decide_eq_false_2 by done. exists user.
    destruct (filled_names _ _ _ _ Ef Ec Hinp). by split_and!.
Qed.

(** ** The outcome of an authorization *)

(** The redirect says that it failed, and no user is touched. *)
Definition failed (a : answer) (w w' : W) : Prop :=
  usr w' = usr w ∧
  ∃ base params, a = Redirect base params ∧ (params !! "result" = Some "error" ∨ params !! "result" = Some "cancelled").

(** The redirect says success, and one user has the tokens that Trakt issued
    for the code. *)
Definition succeeded (glob : Globals) (root code : string) (az : authorization) (a : answer) (w w' : W) : Prop :=
  (∃ base params, a = Redirect base params ∧ params !! "result" = Some "success") ∧
  ∃ t w1 res w2 access refresh u s,
    g_traktSrv glob = Some t ∧
    AuthRequest t (root +:+ (if renewing az then "/manual/authorize" else "/authorize")) (az_username az) code ""
      "authorization_code" w1 = ((res, true), w2) ∧
    tokens_of res = Some (access, refresh) ∧
    authorizes (usr w) (az_username az) (az_existingID az) access refresh u ∧ saved_as u s ∧
    usr w' = <[U_ID u := s]> (usr w).

Lemma failed_redirect_failed root az message w w' : usr w' = usr w → failed (failed_redirect root az message) w w'.
Proof. intros Hw. split; [done|]. eexists _, _. split; [done|]. left. by apply nonblank_head. Qed.

Lemma exchange_code_outcome glob root az code w a w' :
  exchange_code glob root az code w = Ret (a, w') →
  succeeded glob root code az a w w' ∨ failed a w w'.
Proof using UL.
  unfold exchange_code, authRequestFunc. destruct (g_traktSrv glob) as [t|] eqn:Et; cbn [negb].
  2: { intros [= <- <-]. right. by apply failed_redirect_failed. }
  match goal with |- context [AuthRequest ?a ?b ?c ?d ?e ?f w] =>
    pose proof (usr_AuthRequest a b c d e f w) as H1; destruct (AuthRequest a b c d e f w) as [[res ok] w1] eqn:E1 end.
  simpl in H1. destruct ok; cbn [negb]; [|intros [= <- <-]; right; by apply failed_redirect_failed].
  destruct (tokens_of res) as [[acc ref]|] eqn:Etok; [|intros [= <- <-]; right; by apply failed_redirect_failed].
  pose proof (usr_fetchDisplayNameFunc (Some t) acc w1) as H2.
  destruct (fetchDisplayNameFunc _ acc w1) as [fetched w2]. simpl in H2.
  destruct (display_name fetched) as [[n tr] pr].
  pose proof (usr_Now w2) as H3. destruct (Web_Now w2) as [now w3]. simpl in H3.
  destruct (persistAuthorizedUser _ _ _ _ _ _ w3) as [[[[u reused]|err] w4]|] eqn:E4; simpl; [| |done];
    apply persist_spec in E4; intros [= <- <-]; assert (usr w3 = usr w) as Hw by congruence; rewrite Hw in E4.
  - left. destruct E4 as [Ha (s & Hs & Hw')]. split.
    + eexists _, _. split; [done|]. by apply nonblank_head.
    + by exists t, w, res, w1, acc, ref, u, s.
  - right. by apply failed_redirect_failed.
Qed.

(** A request gets its mode and user from its session. *)
Lemma authorize_session_outcome glob root code az w a w' :
  authorize_session glob root code az w = Ret (a, w') →
  (∃ az', az_mode az' = az_mode az ∧ az_existingID az' = az_existingID az ∧
     (az_username az' = az_username az ∨
      ∃ old, usr w !! az_existingID az = Some old ∧ az_username az' = ToLower (TrimSpace (U_Username old))) ∧
     succeeded glob root code az' a w w') ∨
  failed a w w'.
Proof using UL.
  unfold authorize_session.
  assert (∃ cid w1, (if renewing az && bool_decide (az_correlationID az = "") then newCorrelationID w
                     else (az_correlationID az, w)) = (cid, w1) ∧ usr w1 = usr w) as (cid & w1 & -> & Hw1).
  { destruct (_ && _); [|by eexists _, _]. pose proof (usr_newCorrelationID w).
    destruct (newCorrelationID w) as [cid w1]. by exists cid, w1. }
  unfold with_stored. simpl.
  match goal with |- context [mbind _ (if ?b then ?x else ?y)] =>
    destruct (if b then x else y) as [[[stored az2] w2]|] eqn:E2 end; simpl; [|done].
  assert (usr w2 = usr w ∧ az_mode az2 = az_mode az ∧ az_existingID az2 = az_existingID az ∧
    (az_username az2 = az_username az ∨
      ∃ old, usr w !! az_existingID az = Some old ∧ az_username az2 = ToLower (TrimSpace (U_Username old)))) as (Hw2 & Hm & Hid & Hn).
  { destruct (_ && _ && _); [|by simplify_eq; split_and!; auto].
    destruct (Web_GetUser _ w1) as [[u w3]|] eqn:E3; simpl in E2; [|done].
    apply usr_GetUser in E3 as [Hw3 Hu]. rewrite Hw1 in *. injection E2 as _ <- <-. destruct u as [u|]; simpl.
    - case_bool_decide; simpl; split_and!; try done; [right; by exists u|by left].
    - by split_and!; auto. }
  clear E2. case_bool_decide.
  { intros [= <- <-]. right. split; [done|]. eexists _, _. split; [done|]. left. by apply nonblank_head. }
  case_bool_decide.
  { intros [= <- <-]. right. split; [done|]. eexists _, _. split; [done|]. right.
    destruct (renewing az2); by apply nonblank_head. }
  intros [Hs|Hf]%exchange_code_outcome.
  - left. exists az2. unfold succeeded in *. rewrite Hw2 in Hs. split; [done|]. split; [done|]. by split.
  - right. unfold failed in *. by rewrite Hw2 in Hf.
Qed.
End Users.

(** ** Panics *)

Section Panics.
Context {W : Type} `{UT : UnicodeTables, JT : JsonText, UR : UrlText, HT : Http W, WS : WebStore W}.

(** [broken why]: a call of the store panics with [why]; users that are read can
    be written. *)
Class UserPanics (broken : string → Prop) : Prop := {
  panic_GetUser id w why : Web_GetUser id w = Panic why → broken why;
  panic_WriteUser u w why : Web_WriteUser u w = Panic why → broken why;
  read_store id w u w' : Web_GetUser id w = Ret (Some u, w') → U_store u = true;
}.
Context (broken : string → Prop) {UP : UserPanics broken}.

Lemma persist_panics name id access refresh d e w why :
  persistAuthorizedUser name id access refresh d e w = Panic why → broken why.
Proof using UP.
  unfold persistAuthorizedUser. case_bool_decide.
  - destruct (Web_GetUser id w) as [[user w1]|why1] eqn:E1; simpl;
      [|intros [= <-]; by eapply panic_GetUser].
    destruct user as [user|]; [|done]. apply read_store in E1.
    match goal with |- context [match (if ?b then ?x else ?y) with (_, _) => _ end] =>
      destruct (if b then x else y) as [ex inp] end.
    destruct (_ && _ && _); [done|]. case_bool_decide; [done|]. destruct (Web_Now w1) as [now w2].
    unfold UpdateUser, save. simpl. rewrite E1.
    destruct (Web_WriteUser _ w2) eqn:E3; simpl; [done|]. intros [= <-]. by eapply panic_WriteUser.
  - destruct (Web_uuid w) as [nid w1]. destruct (Web_Now w1) as [now w2]. unfold NewUser, save. simpl.
    destruct (Web_WriteUser _ w2) eqn:E3; simpl; [done|]. intros [= <-]. by eapply panic_WriteUser.
Qed.

Lemma exchange_code_panics glob root az code w why :
  exchange_code glob root az code w = Panic why → broken why.
Proof using UP.
  unfold exchange_code. destruct (authRequestFunc _ _ _ _ _ _ w) as [[res ok] w1]. destruct ok; [|done]. simpl.
  destruct (tokens_of res) as [[acc ref]|]; [|done]. destruct (fetchDisplayNameFunc _ acc w1) as [fetched w2].
  destruct (display_name fetched) as [[n tr] pr]. destruct (Web_Now w2) as [now w3].
  destruct (persistAuthorizedUser _ _ _ _ _ _ w3) as [[x w4]|] eqn:E; simpl; [done|].
  intros [= <-]. by eapply persist_panics.
Qed.

Lemma authorize_session_panics glob root code az w why :
  authorize_session glob root code az w = Panic why → broken why.
Proof using UP.
  unfold authorize_session.
  match goal with |- context [let '(_, _) := ?x in _] => destruct x as [cid w1] end. unfold with_stored. simpl.
  destruct (renewing _ && _ && _); simpl.
  - destruct (Web_GetUser _ w1) as [[u w2]|] eqn:E; simpl; [|intros [= <-]; by eapply panic_GetUser].
    repeat (case_bool_decide; simpl; try done); by apply exchange_code_panics.
  - repeat (case_bool_decide; simpl; try done). by apply exchange_code_panics.
Qed.

(** [authorize] panics only where the store does. *)
Lemma authorize_panics glob r au w why : authorize glob r au w = Panic why → broken why.
Proof using UP.
  unfold authorize. cbv zeta. case_bool_decide.
  - destruct (authorize_session _ _ _ _ w) as [[a w1]|] eqn:E; simpl; [done|].
    intros [= <-]. by eapply authorize_session_panics.
  - destruct (authStates_Consume _ au w) as [[[state ok] au1] w1]. destruct ok; [|done]. simpl.
    destruct (authorize_session _ _ _ _ w1) as [[a w2]|] eqn:E; simpl; [done|].
    intros [= <-]. by eapply authorize_session_panics.
Qed.
End Panics.

(** ** Properties *)

Section Claims.
Context {W : Type} `{UT : UnicodeTables, JT : JsonText, UR : UrlText, HT : Http W, WS : WebStore W}.
Context (usr : W → gmap string User) {UL : UserLaws usr}.

(** What a request that is answered has done to sessions and users: the session
    is used up, and a redirect with the result success means that the session,
    if the request named one, was valid, that Trakt issued tokens for the code,
    and that exactly one user was written, with these tokens. *)
Definition authorized (glob : Globals) (r : Request) (au : Auths) (w : W) (a : answer) (au' : Auths) (w' : W) : Prop :=
  let token := TrimSpace (value_of (R_Query r) "state") in
  let code := TrimSpace (value_of (R_Query r) "code") in
  au_heap au' = au_heap au ∧
  au_states au' = (if decide (token = "") then au_states au else delete token (au_states au)) ∧
  (failed usr a w w' ∨
   ∃ az0 az, succeeded usr glob (SelfRoot (g_trustProxy glob) r) code az a w w' ∧
     az_mode az = az_mode az0 ∧ az_existingID az = az_existingID az0 ∧
     (az_username az = az_username az0 ∨
      ∃ old, usr w !! az_existingID az0 = Some old ∧ az_username az = ToLower (TrimSpace (U_Username old))) ∧
     (if decide (token = "") then az0 = requested r
      else ∃ now state, au_states au !! token = Some state ∧ now - A_Created state ≤ 15 * Minute ∧
             az0 = with_session state (requested r))).

Lemma authorize_law (glob : Globals) (r : Request) (au : Auths) (w : W) (a : answer) (au' : Auths) (w' : W) :
  authorize glob r au w = Ret (a, au', w') → authorized glob r au w a au' w'.
Proof using UL.
  unfold authorized, authorize. set (token := TrimSpace (value_of (R_Query r) "state")). simpl. intros E.
  destruct (decide (token = "")) as [Ht|Ht].
  - rewrite bool_decide_eq_true_2 in E by done.
    destruct (authorize_session _ _ _ _ w) as [[x w1]|] eqn:E1; simpl in E; [|done]. injection E as <- <- <-.
    split_and!; [done|done|]. apply (authorize_session_outcome usr) in E1 as [(az & ? & ? & ? & ?)|]; [right|by left].
    by exists (requested r), az.
  - rewrite bool_decide_eq_false_2 in E by done. unfold authStates_Consume in E.
    pose proof (usr_Now w) as Hn. destruct (Web_Now w) as [now w1]. simpl in Hn.
    unfold Consume in E. rewrite bool_decide_eq_false_2 in E by done.
    destruct (au_states au !! token) as [state|] eqn:El.
    + destruct (expired now state) eqn:Ee; simpl in E.
      * injection E as <- <- <-. split_and!; [done|done|]. left. split; [done|]. eexists _, _. split; [done|]. left.
        by apply lookup_insert_eq.
      * destruct (authorize_session _ _ _ _ w1) as [[x w2]|] eqn:E1; simpl in E; [|done]. injection E as <- <- <-.
        split_and!; [done|done|]. rewrite expired_spec in Ee. apply bool_decide_eq_false in Ee.
        apply (authorize_session_outcome usr) in E1 as [(az & ? & ? & Hu & Hs)|Hf]; unfold failed, succeeded in *; rewrite ?Hn in *.
        -- right. exists (with_session state (requested r)), az. split_and!; [apply Hs|apply Hs|done|done|done|].
           exists now, state. split_and!; [done|lia|done].
        -- by left.
    + simpl in E. injection E as <- <- <-. split_and!; [done|symmetry; by apply delete_id|]. left. split; [done|].
      eexists _, _. split; [done|]. left. by apply lookup_insert_eq.
Qed.
End Claims.

(** ** PostgreSQL *)

Section PgUsers.
Context `{UT : UnicodeTables, PG : PgServer, PL : !PgServerLaws PG}.
Context (envs : nat → Env) (trakt : nat → request → result response).

Definition pg_users (w : Web) : gmap string User :=
  map_imap (λ id r, Some (scan_user (id, r))) (users (web_db w)).

(** [PostgresqlStore] keeps the promises, if no failure of the connection is
    the driver's answer for a missing row. *)
Lemma pg_user_laws :
  (∀ i p, fault (envs i) p ≠ Some ErrNoRows) →
  @UserLaws _ _ (pg_http trakt) (pg_web_store envs) pg_users.
Proof using PL.
  intros Hf. split; [done|done|done|done| |].
  - intros id w u w'. simpl. unfold GetUser. destruct (fault (web_env envs w) (Stmt 0)) as [e|] eqn:E.
    { unfold statement. rewrite E. rewrite bool_decide_eq_false_2; [done|]. intros ->. by apply Hf in E. }
    rewrite query_row_key by done. unfold pg_users. rewrite map_lookup_imap.
    destruct (users (web_db w) !! id) as [r|]; simpl;
    by intros [= <- <-].
  - intros u w w'. simpl. unfold WriteUser, statement. destruct (fault _ _); [done|]. simpl. intros [= <-].
    eexists. split.
    2: { unfold pg_users. simpl. apply map_eq. intros k. rewrite map_lookup_imap, !lookup_insert.
         case_decide; [by subst|by rewrite map_lookup_imap]. }
    by split.
Qed.

(** A call that fails makes [PostgresqlStore] panic. *)
Definition store_broken (why : string) : Prop :=
  ∃ i e, fault (envs i) (Stmt 0) = Some e ∧ (why = Error e ∨ why = "query error: " +:+ Error e).

Lemma pg_user_panics : @UserPanics _ (pg_web_store envs) store_broken.
Proof using PL.
  split.
  - intros id w why. simpl. unfold GetUser. destruct (fault (web_env envs w) (Stmt 0)) as [e|] eqn:E.
    + unfold statement. rewrite E. case_bool_decide; [done|]. simpl. intros [= <-]. exists (web_calls w), e. auto.
    + rewrite query_row_key by done. by destruct (users (web_db w) !! id).
  - intros u w why. simpl. unfold WriteUser, statement. destruct (fault _ (Stmt 0)) as [e|] eqn:E; simpl; [|done].
    intros [= <-]. exists (web_calls w), e. auto.
  - intros id w u w'. simpl. unfold GetUser. destruct (statement _ _ _ _) as [[row|e] ?]; simpl.
    + by intros [= <- <-].
    + by case_bool_decide.
Qed.

Context `{JT : JsonText, UR : UrlText}.
Hypothesis steady : ∀ i p, fault (envs i) p ≠ Some ErrNoRows.
#[local] Instance claim_http : Http Web := pg_http trakt.
#[local] Instance claim_web : WebStore Web := pg_web_store envs.

(** C22: on the PostgreSQL store, [authorize] redirects, and what it says is
    what it did.  The session of an answered request is used up.  A redirect
    with the result success means that the session, if the request named one,
    was valid, that Trakt issued tokens for the code, and that exactly one user
    was written, with these tokens: the user selected, under its stored name, or
    a new user with the name asked for.  With the results error and cancelled no
    user has changed.  The only other outcome is the panic of the store when one
    of its statements fails; so [authorize] always redirects while the database
    works. *)
Theorem authorize_outcome (glob : Globals) (r : Request) (au : Auths) (w : Web) :
  match authorize glob r au w with
  | Ret (a, au', w') => authorized pg_users glob r au w a au' w'
  | Panic why => store_broken why
  end.
Proof using PL steady.
  destruct (authorize glob r au w) as [[[a au'] w']|why] eqn:E.
  - eapply authorize_law; [exact (pg_user_laws steady)|exact E].
  - eapply authorize_panics; [exact pg_user_panics|exact E].
Qed.
End PgUsers.

(** ** Examples *)

#[local] Existing Instances ascii_tables memory_server tree_text plain_urls.
#[local] Instance home_http : Http Web := pg_http house_trakt.
#[local] Instance home_web : WebStore Web := pg_web_store house_env.
Lemma house_steady i p : fault (house_env i) p ≠ Some ErrNoRows.
Proof. done. Qed.

(** A session of fifteen minutes for a new user, and its browser coming back. *)
Definition sam_sessions : Auths :=
  mkAuths {["tok" := mkAuth "onboarding" "sam" "" "" (1700000000 * Second) None]} [].
Definition sam_back : Request :=
  mkReq "GET" "" "" "/authorize" "localhost:8000" false ∅ {["state" := "tok"; "code" := "c"]} ∅ "".
Definition sam_answer : outcome (answer * Auths * Web) := authorize house sam_back sam_sessions empty_web.

Definition result_of (x : outcome (answer * Auths * Web)) : option string :=
  match x with Ret (Redirect _ params, _, _) => params !! "result" | _ => None end.
Lemma sam_result : result_of sam_answer = Some "success".
Proof. vm_compute. reflexivity. Qed.

Lemma authorize_outcome_witness :
  match sam_answer with
  | Ret (_, au', w') => au_states au' = ∅ ∧ ∃ id s, pg_users w' = {[id := s]}
  | Panic _ => False
  end.
Proof.
  pose proof sam_result as Hr.
  pose proof (authorize_outcome (PL:=memory_server_laws) house_env house_trakt house_steady house sam_back sam_sessions
                empty_web) as Ho.
  change (match sam_answer with
          | Ret (a, au', w') => authorized pg_users house sam_back sam_sessions empty_web a au' w'
          | Panic why => store_broken house_env why
          end) in Ho.
  destruct sam_answer as [[[a au'] w']|]; [|discriminate Hr].
  destruct Ho as (_ & Hs & [(_ & base & params & -> & Hp)|(az0 & az & (_ & t & w1 & res & w2 & acc & ref & u & s & _ & _ & _ & _ & _ & Hw) & _)]).
  - exfalso. simpl in Hr. rewrite Hr in Hp. destruct Hp as [Hp|Hp]; discriminate Hp.
  - split; [rewrite Hs; reflexivity|]. exists (U_ID u), s. rewrite Hw. reflexivity.
Defined.
