(* ===== verification/Wizard.v ===== *)
(** * The landing page: [main.go], lines 318-396 and 1495-1893

    The data of the page that guides through the authorizations: from the
    parameters of the request (those of the redirects of OAuth.v among them)
    to the steps, banners and addresses it shows.  Rendering it is the
    template's business. *)

From S2P Require Import Prelude GoLib Text Float Json Instances Common Entities Buffers Codec Pg PgFamily PgStore Trakt Sessions Webhooks Request OAuth Families PgWeb.

Open Scope Z_scope.

Definition StepFuture : string := "future".
Definition StepActive : string := "active".
Definition StepComplete : string := "complete".

Record WizardStep := mkStep {
  WS_ID : string;
  WS_Title : string;
  WS_Description : string;
  WS_State : string;
  WS_Summary : string;
}.
Record Banner := mkBanner { B_Type : string; B_Message : string; B_Detail : string; B_CorrelationID : string }.
Record ManualUser := mkManual {
  MU_ID : string;
  MU_Username : string;
  MU_TraktDisplayName : string;
  MU_DisplayLabel : string;
  MU_WebhookURL : string;
  MU_LastUpdated : string;
  MU_UpdatedAt : Time;
}.
Record OnboardingContext := mkOnboarding {
  OC_Steps : list WizardStep;
  OC_Username : string;
  OC_WebhookURL : string;
  OC_Result : string;
  OC_Banner : option Banner;
}.
Record ManualRenewContext := mkRenew {
  MC_Enabled : bool;
  MC_Steps : list WizardStep;
  MC_Users : list ManualUser;
  MC_SelectedID : string;
  MC_WebhookURL : string;
  MC_Result : string;
  MC_Banner : option Banner;
  MC_EmptyMessage : string;
  MC_HasUsers : bool;
  MC_SelectedUser : option ManualUser;
  MC_DisplayName : string;
  MC_DisplayNameWarning : string;
  MC_DisplayNameMissing : bool;
}.
Record FamilyContext := mkFamily {
  FC_Steps : list WizardStep;
  FC_PlexUsername : string;
  FC_MemberLabels : list string;
  FC_Members : list FamilyMemberState;
  FC_WebhookURL : string;
  FC_Result : string;
  FC_Banner : option Banner;
}.
Record AuthorizePage := mkPage {
  P_SelfRoot : string;
  P_ClientID : string;
  P_Mode : string;
  P_Onboarding : OnboardingContext;
  P_Manual : ManualRenewContext;
  P_Family : FamilyContext;
}.

(** The methods of [Store] that only the page and the admin API use. *)
Class PageStore (W : Type) := {
  Page_ListUsers : W → outcome (list User * W);
  Page_GetFamilyGroup : string → W → result (option FamilyGroup) * W;
}.

(** ** Steps *)

Definition set_state (state : string) (s : WizardStep) : WizardStep :=
  mkStep (WS_ID s) (WS_Title s) (WS_Description s) state (WS_Summary s).
Definition set_summary (summary : string) (s : WizardStep) : WizardStep :=
  mkStep (WS_ID s) (WS_Title s) (WS_Description s) (WS_State s) summary.

Definition applyStepStates (steps : list WizardStep) (activeIndex : Z) : list WizardStep :=
  let activeIndex := if activeIndex <? 0 then 0 else activeIndex in
  let activeIndex := if Z.of_nat (List.length steps) <=? activeIndex
                     then Z.of_nat (List.length steps) - 1 else activeIndex in
  imap (λ i s, set_state (if Z.of_nat i <? activeIndex then StepComplete
                          else if Z.of_nat i =? activeIndex then StepActive else StepFuture) s) steps.

Definition webhook_of (root id : string) : string := root +:+ "/api?id=" +:+ id.

(** [t.UTC().Format("2006-01-02 15:04 MST")] *)
Definition format_minute (t : Time) : string :=
  let '(y, m, d) := civil_of_day (day_of t) in
  let minute := (t `mod` Day) `div` Minute in
  of_bytes (pad_int 4 y ++ ["-"%char] ++ pad_int 2 m ++ ["-"%char] ++ pad_int 2 d ++ [" "%char] ++
            pad_int 2 (minute `div` 60) ++ [":"%char] ++ pad_int 2 (minute `mod` 60)) +:+ " UTC".

(** ** Renewal *)

Definition with_display (username displayName : string) : string :=
  if bool_decide (displayName ≠ "") then username +:+ " (" +:+ displayName +:+ ")" else username.

Definition manual_user (root : string) (u : User) : ManualUser :=
  let refreshed := if IsZero (U_Updated u) then "unknown" else format_minute (U_Updated u) in
  let displayName := TrimSpace (U_TraktDisplayName u) in
  mkManual (U_ID u) (U_Username u) displayName
    (with_display (U_Username u) displayName +:+ " • refreshed " +:+ refreshed)
    (webhook_of root (U_ID u)) refreshed (U_Updated u).

(** Later updates first; equal ones keep their order. *)
Definition later_update (a b : ManualUser) : Prop := MU_UpdatedAt b ≤ MU_UpdatedAt a.
#[global] Instance later_update_dec : RelDecision later_update.
Proof. intros a b. unfold later_update. apply _. Defined.

Section Page.
Context {W : Type} `{UnicodeTables, WebStore W, PageStore W}.

Definition buildManualUsers (glob : Globals) (root : string) (w : W) : outcome (list ManualUser * W) :=
  if negb (g_storage glob) then Ret ([], w) else
  '(storedUsers, w) ← Page_ListUsers w;
  Ret (merge_sort later_update (manual_user root <$> storedUsers), w).

Definition buildManualContext (manualUsers : list ManualUser) (query : gmap string string) (mode : string)
    : ManualRenewContext :=
  let renew := bool_decide (mode = "renew") in
  let param key := if renew then TrimSpace (value_of query key) else "" in
  let selectedID := param "id" in
  let result := ToLower (param "result") in
  let stepParam := ToLower (param "step") in
  let correlationID := param "correlation_id" in
  let displayNameParam := param "display_name" in
  let displayNameWarning := param "display_name_warning" in
  let displayNameMissing := bool_decide (param "display_name_missing" = "1") in
  let steps :=
    [mkStep "select" "1. Choose Plaxt user" "Select the user account that needs token renewal." "" "";
     mkStep "confirm" "2. Confirm details" "Verify the webhook URL and user information." "" "";
     mkStep "result" "3. Review outcome" "Check if the token renewal was successful." "" ""] in
  let activeIndex :=
    if negb renew then 0
    else if bool_decide (stepParam = "result") then 2
    else if bool_decide (stepParam = "confirm") then 1
    else if bool_decide (stepParam = "select") then 0
    else if bool_decide (result ∈ ["success"; "error"; "cancelled"]) then 2
    else if bool_decide (result = "") && bool_decide (selectedID ≠ "") then 1
    else 0 in
  let steps := applyStepStates steps activeIndex in
  let selectedUser := snd <$> list_find (λ u, MU_ID u = selectedID) manualUsers in
  let steps := match selectedUser with
               | Some u =>
                   let display := if bool_decide (TrimSpace (MU_TraktDisplayName u) ≠ "")
                                  then MU_Username u +:+ " (" +:+ MU_TraktDisplayName u +:+ ")"
                                  else MU_Username u in
                   alter (set_summary ("Selected user: " +:+ display)) 0%nat
                     (alter (set_summary ("Confirm renewal for " +:+ display)) 1%nat steps)
               | None => steps
               end in
  let webhook := match selectedUser with Some u => MU_WebhookURL u | None => "" end in
  let resolvedDisplayName :=
    match selectedUser with
    | Some u => if bool_decide (displayNameParam = "") then MU_TraktDisplayName u else displayNameParam
    | None => displayNameParam
    end in
  let displayNameMissing := if bool_decide (TrimSpace resolvedDisplayName ≠ "") then false else displayNameMissing in
  let '(banner, steps) :=
    if bool_decide (result = "success") then
      (Some (mkBanner "success" "Manual renewal completed. Tokens refreshed."
               (if bool_decide (displayNameWarning = "truncated")
                then "Trakt display name was truncated to 50 characters." else "")
               (truncateCorrelationID correlationID)),
       alter (set_summary "Renewal succeeded") 2%nat steps)
    else if bool_decide (result = "error") then
      let errMsg := TrimSpace (value_of query "error") in
      (Some (mkBanner "error" (if bool_decide (errMsg = "") then "Manual renewal failed. Please retry." else errMsg)
               "Check the server logs for details or contact support." (truncateCorrelationID correlationID)),
       alter (set_summary "Renewal failed") 2%nat steps)
    else if bool_decide (result = "cancelled") then
      (Some (mkBanner "cancelled" "Manual renewal was cancelled. No changes applied."
               "Your existing tokens remain active." (truncateCorrelationID correlationID)),
       alter (set_summary "Renewal cancelled") 2%nat steps)
    else (None, steps) in
  let any := negb (bool_decide (manualUsers = [])) in
  mkRenew any steps manualUsers selectedID webhook result banner
    "No Plaxt users yet. Ask a maintainer to authorize with Trakt first." any selectedUser
    resolvedDisplayName displayNameWarning displayNameMissing.

(** ** Onboarding *)

Definition buildOnboardingContext (root : string) (query : gmap string string) : OnboardingContext :=
  let modeParam := ToLower (TrimSpace (value_of query "mode")) in
  let renew := bool_decide (modeParam = "renew") in
  let username := if renew then "" else TrimSpace (value_of query "username") in
  let result := if renew then "" else ToLower (TrimSpace (value_of query "result")) in
  let stepHint := if renew then "" else ToLower (TrimSpace (value_of query "step")) in
  let selectedID := TrimSpace (value_of query "id") in
  let webhook := webhook_of root (if bool_decide (selectedID ≠ "") then selectedID else "generate-your-own-silly") in
  let steps :=
    [mkStep "username" "1. Enter Plex username" "Enter your Plex username to personalize the setup." "" "";
     mkStep "authorize" "2. Authorize with Trakt" "Connect your Trakt account to enable scrobbling." "" "";
     mkStep "webhook" "3. Connect Plex webhook" "Add the webhook URL to Plex to start automatic scrobbling." "" ""] in
  let activeIndex :=
    if bool_decide (stepHint = "webhook") then 2
    else if bool_decide (stepHint = "authorize") then 1
    else if bool_decide (stepHint = "username") then 0
    else if bool_decide (result = "success") then 2
    else if bool_decide (result ∈ ["error"; "cancelled"]) then 1
    else 0 in
  let steps := applyStepStates steps activeIndex in
  let steps := if bool_decide (username ≠ "")
               then alter (set_summary ("Plex username: " +:+ username)) 0%nat steps else steps in
  let steps :=
    if bool_decide (result = "success")
    then alter (set_summary "Trakt authorization complete") 1%nat
           (alter (set_summary ("Webhook ready: " +:+ webhook)) 2%nat steps)
    else if bool_decide (result ∈ ["error"; "cancelled"])
    then alter (set_summary "Awaiting successful Trakt authorization") 1%nat steps
    else steps in
  let banner :=
    if bool_decide (result = "success") then
      Some (mkBanner "success"
              (if bool_decide (modeParam ≠ "renew")
               then "Plaxt is ready! Copy your webhook into Plex to finish setup."
               else "Tokens refreshed! You can keep using your Plaxt webhook.") "" "")
    else if bool_decide (result = "error") then
      let errMsg := TrimSpace (value_of query "error") in
      Some (mkBanner "error" (if bool_decide (errMsg = "") then "Unable to refresh tokens. Please try again." else errMsg) "" "")
    else if bool_decide (result = "cancelled") then
      Some (mkBanner "cancelled" "Trakt authorization was cancelled. Existing tokens are unchanged." "" "")
    else None in
  mkOnboarding steps username webhook result banner.

(** ** Families *)

Definition family_steps (s1 s2 s3 : string) : list WizardStep :=
  [mkStep "setup" "Setup Family Group" "Enter the shared Plex username and add family member labels." s1 "";
   mkStep "authorize" "Authorize Members" "Each family member connects their own Trakt account." s2 "";
   mkStep "webhook" "Configure Webhook" "Add the webhook URL to Plex to enable family scrobbling." s3 ""].

Definition member_state (m : GroupMember) : FamilyMemberState :=
  mkFMS (GM_ID m) (GM_TempLabel m) (GM_TraktUsername m) (GM_AuthorizationStatus m) zeroTime.

(** The steps of a family with the given members. *)
Definition progress_steps (members : list FamilyMemberState) (stepParam : string) : list WizardStep :=
  if forallb is_authorized members then family_steps StepComplete StepComplete StepActive
  else if existsb is_authorized members || bool_decide (stepParam = "authorize")
  then family_steps StepComplete StepActive StepFuture
  else family_steps StepActive StepFuture StepFuture.

(** The stored family: name, webhook, members and the steps of its progress. *)
Definition load_family (glob : Globals) (root familyGroupID stepParam : string) (w : W)
    : (string * string * list FamilyMemberState * list WizardStep) * W :=
  let steps := family_steps StepActive StepFuture StepFuture in
  if g_storage glob && bool_decide (familyGroupID ≠ "") then
    match Page_GetFamilyGroup familyGroupID w with
    | (Ok (Some g), w) =>
        let webhook := webhook_of root (FG_ID g) in
        match Web_ListGroupMembers (FG_ID g) w with
        | (Ok (m :: ms), w) =>
            let members := member_state <$> (m :: ms) in
            ((FG_PlexUsername g, webhook, members, progress_steps members stepParam), w)
        | (_, w) => ((FG_PlexUsername g, webhook, [], steps), w)
        end
    | (_, w) => (("", "", [], steps), w)
    end
  else (("", "", [], steps), w).

Definition buildFamilyContext (glob : Globals) (root : string) (query : gmap string string) (w : W) : FamilyContext * W :=
  let result := ToLower (value_of query "result") in
  let stepParam := ToLower (value_of query "step") in
  let '((plexUsername, webhook, members, steps), w) :=
    load_family glob root (value_of query "family_group_id") stepParam w in
  let steps :=
    if bool_decide (result = "success") then family_steps StepComplete StepComplete StepComplete
    else if bool_decide (result = "error") then family_steps StepActive StepFuture StepFuture
    else steps in
  (mkFamily steps plexUsername [] members webhook result None, w).

Definition prepareAuthorizePage (glob : Globals) (r : Request) (w : W) : outcome (AuthorizePage * W) :=
  let root := SelfRoot (g_trustProxy glob) r in
  let query := R_Query r in
  let mode := ToLower (value_of query "mode") in
  '(manualUsers, w) ← buildManualUsers glob root w;
  let mode := if bool_decide (mode ≠ "renew") && bool_decide (mode ≠ "family") then "onboarding" else mode in
  let clientID := match g_traktSrv glob with Some t => ClientId t | None => "" end in
  let onboarding := buildOnboardingContext root query in
  let manual := buildManualContext manualUsers query mode in
  let '(family, w) := buildFamilyContext glob root query w in
  Ret (mkPage root clientID mode onboarding manual family, w).
End Page.

(** ** Lemmas *)

(** Finished steps, the current one, and those to come. *)
Definition in_order (steps : list WizardStep) : Prop :=
  ∃ done todo, WS_State <$> steps = replicate done StepComplete ++ [StepActive] ++ replicate todo StepFuture.

Lemma states_set_summary (text : string) (i : nat) (steps : list WizardStep) : WS_State <$> alter (set_summary text) i steps = WS_State <$> steps.
Proof.
  apply list_eq. intros j. rewrite !list_lookup_fmap. destruct (decide (i = j)) as [->|Hne].
  - rewrite list_lookup_alter_eq. by destruct (steps !! j).
  - by rewrite list_lookup_alter_ne.
Qed.

Lemma applyStepStates_in_order steps i : steps ≠ [] → in_order (applyStepStates steps i).
Proof.
  intros Hne. unfold applyStepStates. cbv zeta.
  set (k := if Z.of_nat _ <=? _ then _ else _).
  assert (0 ≤ k < Z.of_nat (List.length steps)) as Hk.
  { assert (0 < List.length steps)%nat by (destruct steps; [done|simpl; lia]).
    unfold k. repeat case_match; lia. }
  clearbody k. exists (Z.to_nat k), (List.length steps - S (Z.to_nat k))%nat.
  apply list_eq_same_length with (n := List.length steps).
  - rewrite !length_app, !length_replicate. simpl. lia.
  - by rewrite length_fmap, length_imap.
  - intros j x y Hj. rewrite list_lookup_fmap, list_lookup_imap.
    destruct (lookup_lt_is_Some_2 steps j Hj) as [s ->]. simpl. intros [= <-] Hy.
    destruct (Z.ltb_spec (Z.of_nat j) k).
    + rewrite lookup_app_l, lookup_replicate_2 in Hy by (rewrite ?length_replicate; lia). congruence.
    + rewrite lookup_app_r in Hy by (rewrite length_replicate; lia). rewrite length_replicate in Hy.
      destruct (Z.eqb_spec (Z.of_nat j) k) as [E|E].
      * replace (j - Z.to_nat k)%nat with 0%nat in Hy by lia. simpl in Hy. congruence.
      * replace (j - Z.to_nat k)%nat with (S (j - Z.to_nat k - 1)) in Hy by lia. simpl in Hy.
        rewrite lookup_replicate_2 in Hy by lia. congruence.
Qed.

Lemma in_order_states (steps steps' : list WizardStep) : WS_State <$> steps' = WS_State <$> steps → in_order steps → in_order steps'.
Proof. intros E (d & t & Hs). exists d, t. by rewrite E. Qed.

(** The parameter a redirect carries. *)
Lemma nonblank_Some (l : list (string * string)) k v :
  NoDup l.*1 → (k, v) ∈ l → TrimSpace v ≠ "" → nonblank l !! k = Some v.
Proof.
  intros Hnd Hin Hv. unfold nonblank. induction l as [|[k0 v0] l IH]; [by apply not_elem_of_nil in Hin|].
  apply NoDup_cons in Hnd as [Hk Hnd]. apply elem_of_cons in Hin as [[= <- <-]|Hin].
  - rewrite filter_cons_True by done. apply lookup_insert_eq.
  - assert (k ≠ k0) as Hne by (intros ->; by apply Hk, (list_elem_of_fmap_2' fst _ (k0, v))).
    rewrite filter_cons. case_decide; [|by apply IH].
    simpl. rewrite lookup_insert_ne by done. by apply IH.
Qed.
Lemma nonblank_None (l : list (string * string)) k : (∀ v, (k, v) ∈ l → TrimSpace v = "") → nonblank l !! k = None.
Proof.
  intros Hk. unfold nonblank. apply not_elem_of_list_to_map_1.
  intros ([k' v] & -> & [Hv Hin]%list_elem_of_filter)%list_elem_of_fmap. by apply Hv, Hk.
Qed.

Section PageLemmas.
Context {W : Type} `{UT : UnicodeTables, WS : WebStore W, PS : PageStore W}.

Lemma onboarding_in_order root query : in_order (OC_Steps (buildOnboardingContext root query)).
Proof.
  unfold buildOnboardingContext. cbv zeta. cbn [OC_Steps].
  match goal with |- context [applyStepStates ?l ?i] => pose proof (applyStepStates_in_order l i ltac:(done)) as Ho;
    generalize dependent (applyStepStates l i); intros st Ho end.
  apply (in_order_states st); [|done]. repeat case_match; by rewrite ?states_set_summary.
Qed.

Lemma manual_in_order users query mode : in_order (MC_Steps (buildManualContext users query mode)).
Proof.
  unfold buildManualContext. cbv zeta.
  match goal with |- context [let '(_, _) := ?x in _] => destruct x as [banner steps] eqn:E end. cbn [MC_Steps].
  match type of E with context [applyStepStates ?l ?i] => pose proof (applyStepStates_in_order l i ltac:(done)) as Ho;
    generalize dependent (applyStepStates l i); intros st Ho E end.
  apply (in_order_states st); [|done]. repeat case_match; simplify_eq; by rewrite ?states_set_summary.
Qed.

Lemma family_in_order glob root query w :
  let ctx := (buildFamilyContext glob root query w).1 in
  in_order (FC_Steps ctx) ∨ FC_Result ctx = "success" ∧ FC_Steps ctx = family_steps StepComplete StepComplete StepComplete.
Proof.
  unfold buildFamilyContext. cbv zeta.
  destruct (load_family _ _ _ _ w) as [[[[plex webhook] members] steps] w1] eqn:E. cbn [fst FC_Steps FC_Result].
  case_bool_decide; [by right|]. left. case_bool_decide; [by exists 0%nat, 2%nat|].
  assert (steps = family_steps StepActive StepFuture StepFuture ∨ ∃ ms p, steps = progress_steps ms p) as [->|(ms & p & ->)].
  { unfold load_family in E. repeat case_match; simplify_eq; eauto. }
  - by exists 0%nat, 2%nat.
  - unfold progress_steps. repeat case_match; [by exists 2%nat, 0%nat|by exists 1%nat, 1%nat|by exists 0%nat, 2%nat].
Qed.

Lemma prepareAuthorizePage_parts glob r w page w' :
  prepareAuthorizePage glob r w = Ret (page, w') →
  let root := SelfRoot (g_trustProxy glob) r in
  let mode := ToLower (value_of (R_Query r) "mode") in
  ∃ users w1,
    P_SelfRoot page = root ∧
    P_Mode page = (if bool_decide (mode ≠ "renew") && bool_decide (mode ≠ "family") then "onboarding" else mode) ∧
    P_Onboarding page = buildOnboardingContext root (R_Query r) ∧
    P_Manual page = buildManualContext users (R_Query r) (P_Mode page) ∧
    P_Family page = (buildFamilyContext glob root (R_Query r) w1).1.
Proof.
  unfold prepareAuthorizePage. destruct (buildManualUsers _ _ w) as [[users w1]|]; simpl; [|done].
  destruct (buildFamilyContext _ _ _ w1) as [family w2] eqn:E. intros [= <- <-].
  exists users, w1. by rewrite E.
Qed.
End PageLemmas.

Section SuccessPages.
Context `{UT : UnicodeTables}.

Lemma onboarding_success root query id :
  query !! "result" = Some "success" → query !! "mode" = Some "onboarding" → query !! "step" = Some "webhook" →
  query !! "id" = Some id → TrimSpace id = id → id ≠ "" →
  let ctx := buildOnboardingContext root query in
  WS_State <$> OC_Steps ctx = [StepComplete; StepComplete; StepActive] ∧
  OC_WebhookURL ctx = webhook_of root id ∧ B_Type <$> OC_Banner ctx = Some "success".
Proof.
  intros Hres Hm Hs Hid Ht Hne. unfold buildOnboardingContext, value_of. rewrite Hres, Hm, Hs, Hid. simpl default.
  cbv zeta. rewrite Ht, (bool_decide_eq_true_2 (id ≠ "")) by done. split_and!; [|reflexivity..].
  change (bool_decide (ToLower (TrimSpace "onboarding") = "renew")) with false. cbn [OC_Steps].
  destruct (bool_decide (TrimSpace (default "" (query !! "username")) ≠ "")); reflexivity.
Qed.

Lemma renew_success users query id :
  query !! "result" = Some "success" → query !! "step" = Some "result" →
  query !! "id" = Some id → TrimSpace id = id → id ≠ "" →
  let ctx := buildManualContext users query "renew" in
  WS_State <$> MC_Steps ctx = [StepComplete; StepComplete; StepActive] ∧
  MC_SelectedID ctx = id ∧ B_Type <$> MC_Banner ctx = Some "success".
Proof.
  intros Hres Hs Hid Ht Hne. unfold buildManualContext, value_of. rewrite Hres, Hs, Hid. simpl default.
  cbv zeta. change (bool_decide ("renew" = "renew")) with true. cbn iota. rewrite Ht.
  destruct (list_find _ users) as [[i u]|]; split_and!; reflexivity.
Qed.
End SuccessPages.

(** What a redirect of success carries. *)
Lemma success_params root az user reused dn truncated prompt base params :
  success_redirect root az user reused dn truncated prompt = Redirect base params →
  TrimSpace (U_ID user) = U_ID user → U_ID user ≠ "" →
  params !! "result" = Some "success" ∧ params !! "id" = Some (U_ID user) ∧
  params !! "mode" = Some (if renewing az then "renew" else "onboarding") ∧
  params !! "step" = Some (if renewing az then "result" else "webhook").
Proof.
  unfold success_redirect. cbv zeta. intros [= _ <-] Ht Hne.
  match goal with |- context [nonblank ?l] => set (ps := l) end.
  assert (NoDup ps.*1) as Hnd.
  { unfold ps. destruct (renewing az), (_ && bool_decide (az_correlationID az ≠ "")); simpl;
      apply (bool_decide_eq_true_1 (NoDup _)); reflexivity. }
  assert (Hin : ∀ x, In x ps → x ∈ ps) by (intros x; by rewrite list_elem_of_In).
  destruct (renewing az) eqn:Er; split_and!;
    (apply nonblank_Some; [done|apply Hin; unfold ps; simpl; tauto|rewrite ?Ht; done]).
Qed.

(** ** Properties *)

Section PageClaims.
Context {W : Type} `{UT : UnicodeTables, WS : WebStore W, PS : PageStore W}.

(** C34: whatever parameters the landing page is asked with, each of its three
    wizards has exactly one current step, with the steps before it finished and
    those after it still to come; only the family wizard can also be finished
    altogether, and only if the result is success. *)
Theorem page_steps_in_order (glob : Globals) (r : Request) (w : W) (page : AuthorizePage) (w' : W) :
  prepareAuthorizePage glob r w = Ret (page, w') →
  in_order (OC_Steps (P_Onboarding page)) ∧ in_order (MC_Steps (P_Manual page)) ∧
  (in_order (FC_Steps (P_Family page)) ∨
   FC_Result (P_Family page) = "success" ∧
   FC_Steps (P_Family page) = family_steps StepComplete StepComplete StepComplete).
Proof.
  intros (users & w1 & _ & _ & -> & -> & ->)%prepareAuthorizePage_parts.
  split_and!; [apply onboarding_in_order|apply manual_in_order|apply family_in_order].
Qed.

(** A member whose authorization failed is sent to the landing page of
    the family wizard with [step=authorize], but the page then shows the first
    step, the set-up of a new family, and not the step to authorize members. *)
Lemma failed_member_sees_setup (glob : Globals) (root groupID base : string) (ps : list (string * string))
    (params : gmap string string) (r : Request) (w : W) (page : AuthorizePage) (w' : W) :
  member_redirect root groupID (("result", "error") :: ps) = Redirect base params → "step" ∉ ps.*1 →
  R_Query r = params → prepareAuthorizePage glob r w = Ret (page, w') →
  value_of params "step" = "authorize" ∧ P_Mode page = "family" ∧
  FC_Steps (P_Family page) = family_steps StepActive StepFuture StepFuture.
Proof.
  unfold member_redirect. intros Hr Hs Hq (users & w1 & _ & Hmode & _ & _ & ->)%prepareAuthorizePage_parts.
  rewrite (bool_decide_eq_false_2 ("step" ∈ _)) in Hr by (rewrite fmap_cons, elem_of_cons; by intros [?|?]).
  injection Hr as _ Hp. rewrite Hq in *.
  assert (params !! "mode" = Some "family" ∧ params !! "step" = Some "authorize" ∧ params !! "result" = Some "error")
    as (Hm & Hst & Hres).
  { clear Hmode. rewrite <-Hp. pose proof (nonblank_head "result" "error" ps ltac:(done)) as Hh.
    destruct (bool_decide (groupID ≠ "")); split_and!; by simplify_map_eq. }
  unfold value_of in *. rewrite Hst. split; [done|]. split.
  - rewrite Hmode, Hm. reflexivity.
  - unfold buildFamilyContext, value_of. rewrite Hres. cbv zeta.
    destruct (load_family _ _ _ _ w1) as [[[[plex webhook] members] steps] w2].
    reflexivity.
Qed.

(** The landing page that a successful authorization leads to.  For a new
    user the onboarding wizard is at its last step, with the webhook address of
    that very user to copy; for a renewal the renewal wizard is at its last
    step with the user selected; both with a banner of success. *)
Lemma success_page (glob : Globals) (root base : string) (az : authorization) (user : User) (reused : bool)
    (displayName : option string) (truncated prompt : bool) (params : gmap string string) (r : Request)
    (w : W) (page : AuthorizePage) (w' : W) :
  success_redirect root az user reused displayName truncated prompt = Redirect base params →
  TrimSpace (U_ID user) = U_ID user → U_ID user ≠ "" →
  R_Query r = params → prepareAuthorizePage glob r w = Ret (page, w') →
  if renewing az then
    P_Mode page = "renew" ∧ WS_State <$> MC_Steps (P_Manual page) = [StepComplete; StepComplete; StepActive] ∧
    MC_SelectedID (P_Manual page) = U_ID user ∧ B_Type <$> MC_Banner (P_Manual page) = Some "success"
  else
    P_Mode page = "onboarding" ∧ WS_State <$> OC_Steps (P_Onboarding page) = [StepComplete; StepComplete; StepActive] ∧
    OC_WebhookURL (P_Onboarding page) = webhook_of (SelfRoot (g_trustProxy glob) r) (U_ID user) ∧
    B_Type <$> OC_Banner (P_Onboarding page) = Some "success".
Proof.
  intros Hr Ht Hne Hq (users & w1 & _ & Hmode & -> & -> & _)%prepareAuthorizePage_parts.
  destruct (success_params _ _ _ _ _ _ _ _ _ Hr Ht Hne) as (Hres & Hid & Hm & Hs). subst params.
  destruct (renewing az); simpl in Hm, Hs; unfold value_of in Hmode; rewrite Hm in Hmode;
    (split; [rewrite Hmode; reflexivity|]).
  - rewrite Hmode. change (ToLower (default "" (Some "renew"))) with "renew". simpl.
    by apply renew_success.
  - by apply onboarding_success.
Qed.
End PageClaims.

(** ** Examples *)

#[local] Existing Instances ascii_tables memory_server.
#[local] Instance shop_web : WebStore Web := pg_web_store house_env.
#[local] Instance pg_page_store : PageStore Web := {
  Page_ListUsers w := l ← ListUsers (web_env house_env w) (web_db w); Ret (l, tick w);
  Page_GetFamilyGroup id := web_call house_env (λ env db, (found (GetFamilyGroup env id db), db));
}.

Definition visit (query : gmap string string) : Request := mkReq "GET" "" "" "/" "localhost:8000" false ∅ query ∅ "".
Definition page_at (query : gmap string string) : AuthorizePage :=
  match prepareAuthorizePage house (visit query) empty_web with
  | Ret (page, _) => page
  | Panic _ => mkPage "" "" "" (mkOnboarding [] "" "" "" None) (mkRenew false [] [] "" "" "" None "" false None "" "" false)
                 (mkFamily [] "" [] [] "" "" None)
  end.
Lemma page_at_ok query : ∃ w', prepareAuthorizePage house (visit query) empty_web = Ret (page_at query, w').
Proof.
  unfold page_at, prepareAuthorizePage. simpl. destruct (buildFamilyContext _ _ _ _) as [family w'].
  by exists w'.
Qed.

Lemma page_steps_in_order_witness : in_order (OC_Steps (P_Onboarding (page_at {["step" := "WEBHOOK"]}))).
Proof.
  destruct (page_at_ok {["step" := "WEBHOOK"]}) as [w' E].
  exact (proj1 (page_steps_in_order house (visit {["step" := "WEBHOOK"]}) empty_web _ w' E)).
Defined.

(** Where a member of an expired session ends. *)
Definition expired_params : gmap string string :=
  {["step" := "authorize"; "mode" := "family"; "result" := "error"; "error" := session_expired]}.
Lemma failed_member_sees_setup_witness :
  member_redirect "http://localhost:8000" "" [("result", "error"); ("error", session_expired)] =
    Redirect "http://localhost:8000/" expired_params ∧
  FC_Steps (P_Family (page_at expired_params)) = family_steps StepActive StepFuture StepFuture.
Proof.
  assert (Hr : member_redirect "http://localhost:8000" "" [("result", "error"); ("error", session_expired)] =
               Redirect "http://localhost:8000/" expired_params) by (vm_compute; reflexivity).
  split; [exact Hr|]. destruct (page_at_ok expired_params) as [w' E].
  destruct (failed_member_sees_setup house "http://localhost:8000" "" "http://localhost:8000/"
    [("error", session_expired)] expired_params (visit expired_params) empty_web (page_at expired_params) w' Hr) as (_ & _ & Hs).
  - apply not_elem_of_cons. split; [discriminate|apply not_elem_of_nil].
  - reflexivity.
  - exact E.
  - exact Hs.
Defined.

(** Where a new user ends. *)
Definition sam : User := mkUser "u1" "sam" "at" "rt" "Sam" 0 0 true.
Definition sam_params : gmap string string :=
  {["result" := "success"; "username" := "sam"; "id" := "u1"; "display_name" := "Sam"; "mode" := "onboarding"; "step" := "webhook"]}.
Lemma success_page_witness :
  OC_WebhookURL (P_Onboarding (page_at sam_params)) = "http://localhost:8000/api?id=u1".
Proof.
  destruct (page_at_ok sam_params) as [w' E].
  destruct (success_page house "http://localhost:8000" "http://localhost:8000/"
    (mkAuthorization "onboarding" "sam" "" "") sam false (Some "Sam") false false sam_params
    (visit sam_params) empty_web (page_at sam_params) w') as (_ & _ & Hw & _).
  - vm_compute. reflexivity.
  - reflexivity.
  - discriminate.
  - reflexivity.
  - exact E.
  - rewrite Hw. vm_compute. reflexivity.
Defined.
