(* ===== verification/Admin.v ===== *)
(** * Admin, telemetry and monitoring API: [main.go], lines 1895-1935, 2331-3148

    The JSON handlers over users, family groups and the scrobble queue, and the
    metrics of the retry queue.  Every handler gives its response and the store
    it leaves; a nil dereference is a panic (which [recoveryMiddleware] of
    Request.v turns into status 500).  Times are printed as JSON strings; a
    time outside the years 0-9999 would make the encoder fail and leave the body
    empty. *)

From S2P Require Import Prelude GoLib Text Float Json Instances Common Entities Buffers Codec Worker Trakt Drain Sessions Webhooks Request OAuth Wizard.

Open Scope Z_scope.

(** A response: a text of [http.Error], JSON, or a status alone. *)
Inductive response_body := TextBody (s : string) | JsonBody (j : json) | NoBody.
Record admin_reply := mkAdmin { adm_status : Z; adm_body : response_body }.
Definition http_Error (message : string) (code : Z) : admin_reply := mkAdmin code (TextBody message).
Definition json_ok (j : json) : admin_reply := mkAdmin StatusOK (JsonBody j).

(** The methods of [Store] that only the admin API uses. *)
Class AdminStore (W : Type) := {
  Adm_DeleteUser : string → string → W → bool * W;
  Adm_ListFamilyGroups : W → result (list FamilyGroup) * W;
  Adm_RemoveGroupMember : string → string → W → option error * W;
  Adm_GetQueueSize : string → W → result Z * W;
  Adm_DequeueScrobbles : string → Z → W → outcome (result (list QueuedScrobbleEvent) * W);
}.

(** [d.Seconds()] and its truncation to [int64] *)
Definition fadd (x y : float64) : float64 := SFadd 53 1024 x y.
Definition Seconds (d : Duration) : float64 :=
  fadd (float_of_int (d `quot` Second)) (fdiv (float_of_int (d `rem` Second)) (float_of_int Second)).

Definition deref {A} (p : option A) : outcome A := match p with Some a => Ret a | None => Panic nil_deref end.

(** ** Users *)

(** The state of tokens that are valid for the given time. *)
Definition expiry_status (timeUntilExpiry : Duration) : string :=
  if timeUntilExpiry <? 0 then "expired"
  else if timeUntilExpiry <? 48 * Hour then "warning" else "healthy".

Record adminUserResponse := mkAdminUser {
  AU_ID : string;
  AU_Username : string;
  AU_TraktDisplayName : string;
  AU_WebhookURL : string;
  AU_Updated : Time;
  AU_Status : string;
}.

Section Admin.
Context {W : Type} `{UnicodeTables, TimeText, JsonText, WebStore W, PageStore W, FamilyStore W, AdminStore W}.

Definition json_of_adminUser (u : adminUserResponse) : json := enc_struct
  [always "id" (JStr (AU_ID u)); always "username" (JStr (AU_Username u));
   always "trakt_display_name" (JStr (AU_TraktDisplayName u)); always "webhook_url" (JStr (AU_WebhookURL u));
   always "updated" (JStr (time_text (AU_Updated u))); always "token_age_hours" (enc_int 0);
   always "status" (JStr (AU_Status u))].

Definition admin_user (root : string) (user : User) (now : Time) : adminUserResponse :=
  mkAdminUser (U_ID user) (U_Username user) (U_TraktDisplayName user) (webhook_of root (U_ID user))
    (U_Updated user) (expiry_status (time_Sub (U_TokenExpiry user) now)).

Fixpoint admin_users (root : string) (users : list User) (w : W) : list adminUserResponse * W :=
  match users with
  | [] => ([], w)
  | user :: users =>
      let '(now, w) := Web_Now w in
      let '(rest, w) := admin_users root users w in (admin_user root user now :: rest, w)
  end.

Definition unavailable (w : W) : outcome (admin_reply * W) :=
  Ret (http_Error "storage unavailable" StatusServiceUnavailable503, w).

Definition listAdminUsers (glob : Globals) (r : Request) (w : W) : outcome (admin_reply * W) :=
  if negb (g_storage glob) then unavailable w else
  '(users, w) ← Page_ListUsers w;
  let '(response, w) := admin_users (SelfRoot (g_trustProxy glob) r) users w in
  Ret (json_ok (JArr (json_of_adminUser <$> response)), w).

(** The user named in the route. *)
Definition with_user (glob : Globals) (r : Request) (w : W) (k : string → User → W → outcome (admin_reply * W))
    : outcome (admin_reply * W) :=
  if negb (g_storage glob) then unavailable w else
  let id := TrimSpace (value_of (R_Vars r) "id") in
  if bool_decide (id = "") then Ret (http_Error "missing user id" StatusBadRequest, w) else
  '(user, w) ← Web_GetUser id w;
  match user with
  | None => Ret (http_Error "user not found" StatusNotFound, w)
  | Some user => k id user w
  end.

Definition getAdminUser (glob : Globals) (r : Request) (w : W) : outcome (admin_reply * W) :=
  with_user glob r w (λ id user w,
    let '(now, w) := Web_Now w in
    Ret (json_ok (json_of_adminUser (admin_user (SelfRoot (g_trustProxy glob) r) user now)), w)).

Record userPayload := mkUserPayload { UP_Username : option string; UP_TraktDisplayName : option string }.
Definition dec_userPayload : decoder userPayload := dec_struct (find_field
  [("username", dec_at UP_Username (λ v p, mkUserPayload v (UP_TraktDisplayName p)) (dec_ptr "" dec_string));
   ("trakt_display_name", dec_at UP_TraktDisplayName (λ v p, mkUserPayload (UP_Username p) v) (dec_ptr "" dec_string))]).

Definition success_message (message : string) : admin_reply :=
  json_ok (JObj [("message", JStr message); ("success", JBool true)]).

(** The user with the fields of the payload. *)
Definition edited (payload : userPayload) (user : User) : User :=
  let name := match UP_Username payload with
              | Some n => if bool_decide (TrimSpace n ≠ "") then ToLower (TrimSpace n) else U_Username user
              | None => U_Username user
              end in
  let display := match UP_TraktDisplayName payload with
                 | Some d => TrimSpace d
                 | None => U_TraktDisplayName user
                 end in
  mkUser (U_ID user) name (U_AccessToken user) (U_RefreshToken user) display (U_Updated user)
    (U_TokenExpiry user) (U_store user).

Definition updateAdminUser (glob : Globals) (r : Request) (w : W) : outcome (admin_reply * W) :=
  with_user glob r w (λ id user w,
    match json_parse (R_Body r) with
    | None => Ret (http_Error "invalid JSON" StatusBadRequest, w)
    | Some j =>
        match dec_userPayload j (mkUserPayload None None) with
        | DOk payload =>
            w ← Web_WriteUser (edited payload user) w;
            Ret (success_message "User updated successfully", w)
        | _ => Ret (http_Error "invalid JSON" StatusBadRequest, w)
        end
    end).

Definition deleteAdminUser (glob : Globals) (r : Request) (w : W) : outcome (admin_reply * W) :=
  with_user glob r w (λ id user w,
    let '(deleted, w) := Adm_DeleteUser id (U_Username user) w in
    if negb deleted then Ret (http_Error "failed to delete user" StatusInternalServerError, w)
    else Ret (success_message "User deleted successfully", w)).

Definition dec_display : decoder string := dec_struct (find_field
  [("display_name", dec_at (λ s, s) (λ v _, v) dec_string)]).

Definition updateTraktDisplayName (glob : Globals) (r : Request) (w : W) : outcome (admin_reply * W) :=
  if negb (g_storage glob) then unavailable w else
  let id := TrimSpace (value_of (R_Vars r) "id") in
  if bool_decide (id = "") then Ret (http_Error "missing user id" StatusBadRequest, w) else
  match decode_request dec_display "" r with
  | None => Ret (http_Error "invalid request body" StatusBadRequest, w)
  | Some displayName =>
      '(user, w) ← Web_GetUser id w;
      match user with
      | None => Ret (http_Error "user not found" StatusNotFound, w)
      | Some user =>
          let trimmed := TrimSpace displayName in
          '(user, truncated, w) ← UpdateDisplayName Web_WriteUser user
                                    (if bool_decide (trimmed ≠ "") then Some trimmed else None) w;
          Ret (json_ok (JObj [("display_name", JStr (U_TraktDisplayName user)); ("truncated", JBool truncated)]), w)
      end
  end.

(** ** Family groups *)

Definition authorized_count (members : list GroupMember) : Z :=
  Z.of_nat (List.length (List.filter (λ m, bool_decide (GM_AuthorizationStatus m = "authorized")) members)).

(** [adminFamilyGroupResponse] *)
Definition group_fields (root : string) (group : FamilyGroup) (members : list GroupMember) : list (option (string * json)) :=
  [always "id" (JStr (FG_ID group)); always "plex_username" (JStr (FG_PlexUsername group));
   always "member_count" (enc_int (Z.of_nat (List.length members)));
   always "authorized_count" (enc_int (authorized_count members));
   always "webhook_url" (JStr (webhook_of root (FG_ID group)));
   always "created_at" (JStr (time_text (FG_CreatedAt group)));
   always "updated_at" (JStr (time_text (FG_UpdatedAt group)))].

(** Groups whose members cannot be listed are left out. *)
Fixpoint list_groups (root : string) (groups : list FamilyGroup) (w : W) : list json * W :=
  match groups with
  | [] => ([], w)
  | group :: groups =>
      let '(members, w) := Web_ListGroupMembers (FG_ID group) w in
      let '(rest, w) := list_groups root groups w in
      (match members with Ok members => enc_struct (group_fields root group members) :: rest | Err _ => rest end, w)
  end.

Definition listFamilyGroups (glob : Globals) (r : Request) (w : W) : outcome (admin_reply * W) :=
  if negb (g_storage glob) then unavailable w else
  match Adm_ListFamilyGroups w with
  | (Err _, w) => Ret (http_Error "failed to list family groups" StatusInternalServerError, w)
  | (Ok groups, w) =>
      let '(response, w) := list_groups (SelfRoot (g_trustProxy glob) r) groups w in
      Ret (json_ok (JArr response), w)
  end.

(** The state of a member; the clock is read only for tokens with an expiry. *)
Definition member_status (member : GroupMember) (w : W) : string * W :=
  if bool_decide (GM_AuthorizationStatus member = "authorized") then
    match GM_TokenExpiry member with
    | Some expiry => let '(now, w) := Web_Now w in (expiry_status (time_Sub expiry now), w)
    | None => (GM_AuthorizationStatus member, w)
    end
  else (GM_AuthorizationStatus member, w).

Fixpoint member_responses (members : list GroupMember) (w : W) : list json * W :=
  match members with
  | [] => ([], w)
  | m :: members =>
      let '(status, w) := member_status m w in
      let '(rest, w) := member_responses members w in
      (enc_struct
         [always "id" (JStr (GM_ID m)); always "family_group_id" (JStr (GM_FamilyGroupID m));
          always "temp_label" (JStr (GM_TempLabel m));
          omit_nil "trakt_username" JStr (omit_empty (GM_TraktUsername m));
          always "authorization_status" (JStr (GM_AuthorizationStatus m));
          omit_nil "token_expiry" (λ t, JStr (time_text t)) (GM_TokenExpiry m);
          always "created_at" (JStr (time_text (GM_CreatedAt m))); always "status" (JStr status)] :: rest, w)
  end.

(** The group named in the route. *)
Definition with_group (glob : Globals) (r : Request) (w : W) (k : string → outcome (admin_reply * W))
    : outcome (admin_reply * W) :=
  if negb (g_storage glob) then unavailable w else
  let groupID := TrimSpace (value_of (R_Vars r) "id") in
  if bool_decide (groupID = "") then Ret (http_Error "missing group id" StatusBadRequest, w) else k groupID.

Definition getFamilyGroupDetail (glob : Globals) (r : Request) (w : W) : outcome (admin_reply * W) :=
  with_group glob r w (λ groupID,
    match Page_GetFamilyGroup groupID w with
    | (Err _, w) => Ret (http_Error "family group not found" StatusNotFound, w)
    | (Ok group, w) =>
        match Web_ListGroupMembers groupID w with
        | (Err _, w) => Ret (http_Error "failed to list members" StatusInternalServerError, w)
        | (Ok members, w) =>
            let '(responses, w) := member_responses members w in
            group ← deref group;
            Ret (json_ok (enc_struct (group_fields (SelfRoot (g_trustProxy glob) r) group members ++
                                      [always "members" (JArr responses)])), w)
        end
    end).

Definition dec_label_only : decoder string := dec_struct (find_field
  [("label", dec_at (λ s, s) (λ v _, v) dec_string)]).

Definition addFamilyGroupMember (glob : Globals) (r : Request) (w : W) : outcome (admin_reply * W) :=
  with_group glob r w (λ groupID,
    match decode_request dec_label_only "" r with
    | None => Ret (http_Error "invalid request body" StatusBadRequest, w)
    | Some label =>
    let label := TrimSpace label in
    if bool_decide (label = "") then Ret (http_Error "label is required" StatusBadRequest, w) else
    match Page_GetFamilyGroup groupID w with
    | (Err _, w) => Ret (http_Error "family group not found" StatusNotFound, w)
    | (Ok _, w) =>
    match Web_ListGroupMembers groupID w with
    | (Err _, w) => Ret (http_Error "failed to check member count" StatusInternalServerError, w)
    | (Ok members, w) =>
    if (10 <=? List.length members)%nat
    then Ret (http_Error "maximum 10 members per family group" StatusBadRequest, w) else
    let '(id, w) := newCorrelationID w in
    let '(now, w) := Web_Now w in
    match Fam_AddGroupMember (mkGM id groupID label "" "" "" None "pending" now) w with
    | (Some _, _, w) => Ret (http_Error "failed to add member" StatusInternalServerError, w)
    | (None, member, w) =>
        Ret (json_ok (JObj
          [("authorization_url", JStr (SelfRoot (g_trustProxy glob) r +:+ "/authorize/family/member?group_id=" +:+
                                       groupID +:+ "&member_id=" +:+ GM_ID member));
           ("member_id", JStr (GM_ID member)); ("message", JStr "Member added successfully");
           ("success", JBool true)]), w)
    end end end end).

Definition removeFamilyGroupMember (glob : Globals) (r : Request) (w : W) : outcome (admin_reply * W) :=
  if negb (g_storage glob) then unavailable w else
  let groupID := TrimSpace (value_of (R_Vars r) "group_id") in
  let memberID := TrimSpace (value_of (R_Vars r) "member_id") in
  if bool_decide (groupID = "") || bool_decide (memberID = "")
  then Ret (http_Error "missing group_id or member_id" StatusBadRequest, w) else
  match Fam_GetGroupMember memberID w with
  | (Err _, w) => Ret (http_Error "member not found" StatusNotFound, w)
  | (Ok member, w) =>
      member ← deref member;
      if bool_decide (GM_FamilyGroupID member ≠ groupID)
      then Ret (http_Error "member not found" StatusNotFound, w) else
      match Adm_RemoveGroupMember groupID memberID w with
      | (Some _, w) => Ret (http_Error "failed to remove member" StatusInternalServerError, w)
      | (None, w) => Ret (success_message "Member removed successfully", w)
      end
  end.

Definition deleteFamilyGroup (glob : Globals) (r : Request) (w : W) : outcome (admin_reply * W) :=
  with_group glob r w (λ groupID,
    match Page_GetFamilyGroup groupID w with
    | (Err _, w) => Ret (http_Error "family group not found" StatusNotFound, w)
    | (Ok group, w) =>
        match Fam_DeleteFamilyGroup groupID w with
        | (Some _, w) => Ret (http_Error "failed to delete family group" StatusInternalServerError, w)
        | (None, w) =>
            group ← deref group;
            Ret (success_message "Family group deleted successfully", w)
        end
    end).

(** ** Telemetry *)

Record telemetry := mkTelemetry { T_Event : string; T_Mode : string; T_Success : option bool; T_DurationMs : Z }.
Definition dec_telemetry : decoder telemetry := dec_struct (find_field
  [("event", dec_at T_Event (λ v t, mkTelemetry v (T_Mode t) (T_Success t) (T_DurationMs t)) dec_string);
   ("mode", dec_at T_Mode (λ v t, mkTelemetry (T_Event t) v (T_Success t) (T_DurationMs t)) dec_string);
   ("success", dec_at T_Success (λ v t, mkTelemetry (T_Event t) (T_Mode t) v (T_DurationMs t)) (dec_ptr false dec_bool));
   ("duration_ms", dec_at T_DurationMs (λ v t, mkTelemetry (T_Event t) (T_Mode t) (T_Success t) v) dec_int)]).

(** The response and the fields logged. *)
Definition telemetryHandler (r : Request) : admin_reply * option (list (string * json)) :=
  match decode_request dec_telemetry (mkTelemetry "" "" None 0) r with
  | None => (http_Error "invalid request body" StatusBadRequest, None)
  | Some req =>
      (mkAdmin 204 NoBody,
       Some ([("event", JStr (T_Event req)); ("mode", JStr (T_Mode req)); ("duration_ms", enc_int (T_DurationMs req))] ++
             match T_Success req with Some b => [("success", JBool b)] | None => [] end))
  end.

(** ** Queue monitoring *)

Definition determineQueueStatus (queueSize : Z) (oldestAgeSeconds : option Z) (drainActive : bool) : string :=
  if queueSize =? 0 then "healthy"
  else if drainActive then "draining"
  else if match oldestAgeSeconds with Some age => 3600 <? age | None => false end then "stalled"
  else "queued".

(** What the monitor shows of a user. *)
Record userQueue := mkUserQueue {
  UQ_User : User;
  UQ_QueueSize : Z;
  UQ_Oldest : option (Z * Time);
  UQ_Drain : option UserDrainInfo;
}.
Definition UQ_Status (u : userQueue) : string :=
  determineQueueStatus (UQ_QueueSize u) (fst <$> UQ_Oldest u) (bool_decide (is_Some (UQ_Drain u))).
(** A [map[string]interface{}] is printed in the order of its keys. *)
Definition json_of_userQueue (u : userQueue) : json := JObj (present
  [always "drain_active" (JBool (bool_decide (is_Some (UQ_Drain u))));
   omit_nil "events_failed" (λ d, enc_int (DI_EventsFailed d)) (UQ_Drain u);
   omit_nil "events_processed" (λ d, enc_int (DI_EventsProcessed d)) (UQ_Drain u);
   omit_nil "oldest_event_age_seconds" (λ o, enc_int o.1) (UQ_Oldest u);
   omit_nil "oldest_event_timestamp" (λ o, JStr (time_text o.2)) (UQ_Oldest u);
   always "queue_size" (enc_int (UQ_QueueSize u)); always "status" (JStr (UQ_Status u));
   always "trakt_display_name" (JStr (U_TraktDisplayName (UQ_User u)));
   always "user_id" (JStr (U_ID (UQ_User u))); always "username" (JStr (U_Username (UQ_User u)))]).

(** The queue of one user: its size, its oldest event and its drain.  An error
    of the store counts as an empty answer. *)
Definition user_queue (tracker : DrainStateTracker) (user : User) (w : W) : outcome (userQueue * W) :=
  let '(size, w) := Adm_GetQueueSize (U_ID user) w in
  let queueSize := match size with Ok n => n | Err _ => 0 end in
  '(events, w) ← Adm_DequeueScrobbles (U_ID user) 1 w;
  let '(oldest, w) := match events with
                      | Ok (e :: _) =>
                          let '(now, w) := Web_Now w in
                          (Some (int_of_float (Seconds (time_Sub now (E_CreatedAt e))), E_CreatedAt e), w)
                      | _ => (None, w)
                      end in
  Ret (mkUserQueue user queueSize oldest (GetUserInfo (U_ID user) tracker), w).

Fixpoint user_queues (tracker : DrainStateTracker) (users : list User) (w : W) : outcome (list userQueue * W) :=
  match users with
  | [] => Ret ([], w)
  | user :: users =>
      '(u, w) ← user_queue tracker user w;
      '(rest, w) ← user_queues tracker users w;
      Ret (u :: rest, w)
  end.

(** The counters of the loop over the users. *)
Definition count_user (acc : Z * Z) (u : userQueue) : Z * Z :=
  let '(usersWithQueues, totalEvents) := acc in
  if 0 <? UQ_QueueSize u then (wrap64 (usersWithQueues + 1), wrap64 (totalEvents + UQ_QueueSize u)) else acc.

Record queueStatus := mkQueueStatus {
  QS_TotalUsers : Z;
  QS_UsersWithQueues : Z;
  QS_TotalEvents : Z;
  QS_DrainActive : bool;
  QS_Mode : string;
  QS_LastHealthCheck : Time;
  QS_Users : list userQueue;
}.
Definition json_of_queueStatus (q : queueStatus) : json := JObj
  [("system", JObj
     [("drain_active", JBool (QS_DrainActive q)); ("last_health_check", JStr (time_text (QS_LastHealthCheck q)));
      ("mode", JStr (QS_Mode q)); ("total_events", enc_int (QS_TotalEvents q));
      ("total_users", enc_int (QS_TotalUsers q)); ("users_with_queues", enc_int (QS_UsersWithQueues q))]);
   ("users", JArr (json_of_userQueue <$> QS_Users q))].

Definition queue_status (tracker : DrainStateTracker) (w : W) : outcome (queueStatus * W) :=
  '(users, w) ← Page_ListUsers w;
  '(infos, w) ← user_queues tracker users w;
  let '(usersWithQueues, totalEvents) := foldl count_user (0, 0) infos in
  Ret (mkQueueStatus (Z.of_nat (List.length users)) usersWithQueues totalEvents
         (negb (bool_decide (GetAllActiveUsers tracker = []))) (GetMode tracker) (GetLastHealthCheck tracker) infos, w).

Definition getQueueStatus (glob : Globals) (tracker : DrainStateTracker) (w : W) : outcome (admin_reply * W) :=
  if negb (g_storage glob) then unavailable w else
  '(status, w) ← queue_status tracker w; Ret (json_ok (json_of_queueStatus status), w).

Definition omit_zero (n : Z) : option Z := if n =? 0 then None else Some n.
Definition json_of_LogEvent (e : QueueLogEvent) : json := enc_struct
  [always "timestamp" (JStr (time_text (L_Timestamp e))); always "operation" (JStr (L_Operation e));
   always "user_id" (JStr (L_UserID e)); omit_nil "username" JStr (omit_empty (L_Username e));
   omit_nil "event_id" JStr (omit_empty (L_EventID e)); omit_nil "queue_size" enc_int (omit_zero (L_QueueSize e));
   omit_nil "retry_count" enc_int (omit_zero (L_RetryCount e)); omit_nil "error" JStr (omit_empty (L_Error e));
   omit_nil "details" JStr (omit_empty (L_Details e))].

Definition getQueueEvents (queueEventLog : option QueueEventLog) : outcome admin_reply :=
  match queueEventLog with
  | None => Ret (http_Error "queue event log unavailable" StatusServiceUnavailable503)
  | Some l => events ← GetRecent 50 l; Ret (json_ok (JObj [("events", JArr (json_of_LogEvent <$> events))]))
  end.

(** The counts of events by a key. *)
Definition count_by (key : QueuedScrobbleEvent → string) (events : list QueuedScrobbleEvent) : gmap string Z :=
  foldl (λ m e, <[key e := wrap64 (default 0 (m !! key e) + 1)]> m) ∅ events.
Definition calculateQueueStats (events : list QueuedScrobbleEvent) : gmap string Z * gmap string Z :=
  (count_by E_Action events, count_by (λ e, Itoa (E_RetryCount e)) events).

Definition json_of_counts (m : gmap string Z) : json :=
  JObj (merge_sort (λ a b, String.le a.1 b.1) ((λ kv, (kv.1, enc_int kv.2)) <$> map_to_list m)).

Definition getUserQueueDetail (glob : Globals) (r : Request) (w : W) : outcome (admin_reply * W) :=
  with_user glob r w (λ userID user w,
    '(events, w) ← Adm_DequeueScrobbles userID 100 w;
    match events with
    | Err _ => Ret (http_Error "failed to fetch queue" StatusInternalServerError, w)
    | Ok events =>
        let '(byAction, byRetryCount) := calculateQueueStats events in
        Ret (json_ok (JObj
          [("events", JArr (json_of_Event <$> events)); ("queue_size", enc_int (Z.of_nat (List.length events)));
           ("stats", JObj [("by_action", json_of_counts byAction); ("by_retry_count", json_of_counts byRetryCount)]);
           ("trakt_display_name", JStr (U_TraktDisplayName user)); ("user_id", JStr (U_ID user));
           ("username", JStr (U_Username user))]), w)
    end).

(** ** Metrics of the retry queue *)

Context `{RS : RetryStore W}.

(** The numbers logged: queued items, permanent failures, all. *)
Definition logRetryQueueMetrics (w : W) : option (Z * Z * Z) * W :=
  let '(now, w) := time_Now w in
  match FetchDueItems (time_Add now (24 * Hour)) 1000 w with
  | (Err _, w) => (None, w)
  | (Ok items, w) =>
      let permanentCount := Z.of_nat (List.length
        (List.filter (λ i, bool_decide (RQ_Status i = "permanent_failure")) items)) in
      let queuedCount := Z.of_nat (List.length
        (List.filter (λ i, negb (bool_decide (RQ_Status i = "permanent_failure"))) items)) in
      (Some (queuedCount, permanentCount, Z.of_nat (List.length items)), w)
  end.
End Admin.
