(* ===== verification/AdminFlow.v ===== *)
(** * What the admin API does and shows

    Properties of the handlers of Admin.v against the stored families
    (Families.v) and the queues of the users; those about members on the
    PostgreSQL store. *)

From S2P Require Import Prelude GoLib Text Float Json Instances Common Entities Buffers Codec Pg PgFamily PgStore PgInvariant Worker Trakt Drain Sessions Webhooks Request OAuth Families PgWeb Wizard Admin.

Open Scope Z_scope.

(** ** Counting *)

Definition with_key (key : QueuedScrobbleEvent → string) (k : string) (events : list QueuedScrobbleEvent) : list QueuedScrobbleEvent :=
  filter (λ e, key e = k) events.

Lemma count_by_spec key events k :
  Z.of_nat (List.length events) ≤ int64_max →
  count_by key events !! k =
    (if decide (with_key key k events = []) then None else Some (Z.of_nat (List.length (with_key key k events)))).
Proof.
  induction events as [|e events IH] using rev_ind; intros Hl; [done|].
  rewrite length_app in Hl. simpl in Hl. specialize (IH ltac:(lia)).
  unfold count_by in *. rewrite foldl_app. simpl. unfold with_key in *. rewrite filter_app, filter_cons, filter_nil.
  destruct (decide (key e = k)) as [<-|Hne].
  - rewrite lookup_insert_eq. rewrite decide_False by (intros [_ ?]%app_eq_nil; done). rewrite IH.
    rewrite length_app. simpl. pose proof (length_filter (λ e0, key e0 = key e) events) as Hf.
    assert (Z.of_nat (List.length (filter (λ e0, key e0 = key e) events)) + 1 ≤ int64_max) by lia.
    case_decide as E; [rewrite E; simpl; f_equal; apply wrap64_small; unfold int64_min, int64_max; lia|].
    simpl. rewrite wrap64_small by (unfold int64_min in *; lia). f_equal. lia.
  - by rewrite lookup_insert_ne, app_nil_r.
Qed.

(** ** The monitor *)

Section Monitor.
Context {W : Type} `{UT : UnicodeTables, TT : TimeText, WS : WebStore W, PS : PageStore W, AS : AdminStore W}.

(** The store answers with the sizes of the queues, and asking changes none. *)
Class QueueSizes (size : W → string → Z) : Prop := {
  qs_range w u : 0 ≤ size w u;
  qs_Now w : size (Web_Now w).2 = size w;
  qs_ListUsers w users w' : Page_ListUsers w = Ret (users, w') → size w' = size w;
  qs_GetQueueSize u w : ∃ w', Adm_GetQueueSize u w = (Ok (size w u), w') ∧ size w' = size w;
  qs_Dequeue u n w events w' : Adm_DequeueScrobbles u n w = Ret (events, w') → size w' = size w;
}.
Context (size : W → string → Z) {QL : QueueSizes size}.

Lemma user_queue_spec tracker user w u w' :
  user_queue tracker user w = Ret (u, w') →
  size w' = size w ∧ UQ_User u = user ∧ UQ_QueueSize u = size w (U_ID user) ∧ UQ_Drain u = activeUsers tracker !! U_ID user.
Proof using QL.
  unfold user_queue. destruct (qs_GetQueueSize (U_ID user) w) as (w1 & -> & H1).
  destruct (Adm_DequeueScrobbles _ _ w1) as [[events w2]|] eqn:E2; simpl; [|done].
  apply qs_Dequeue in E2. rewrite H1 in E2. destruct events as [[|e es]|err].
  - by intros [= <- <-].
  - pose proof (qs_Now w2) as H3. destruct (Web_Now w2) as [now w3]. simpl in H3. intros [= <- <-]. simpl.
    by rewrite H3, E2.
  - by intros [= <- <-].
Qed.

Lemma user_queues_spec tracker users : ∀ w infos w',
  user_queues tracker users w = Ret (infos, w') →
  size w' = size w ∧ UQ_User <$> infos = users ∧ UQ_QueueSize <$> infos = (λ u, size w (U_ID u)) <$> users ∧
  UQ_Drain <$> infos = (λ u, activeUsers tracker !! U_ID u) <$> users.
Proof using QL.
  induction users as [|user users IH]; intros w infos w'; simpl; [by intros [= <- <-]|].
  destruct (user_queue tracker user w) as [[u w1]|] eqn:E1; simpl; [|done].
  apply user_queue_spec in E1 as (H1 & Hu & Hs & Hd).
  destruct (user_queues tracker users w1) as [[rest w2]|] eqn:E2; simpl; [|done].
  apply IH in E2 as (H2 & Hu2 & Hs2 & Hd2). intros [= <- <-]. rewrite H2, H1 in *.
  split_and!; [done|..]; rewrite !fmap_cons; by f_equal.
Qed.
End Monitor.

Definition total_of (sizes : list Z) : Z := foldr Z.add 0 sizes.
Definition nonempty (sizes : list Z) : list Z := filter (λ n, 0 < n) sizes.

Lemma count_users_spec infos : ∀ a b,
  Forall (λ u, 0 ≤ UQ_QueueSize u) infos → 0 ≤ a → 0 ≤ b →
  a + Z.of_nat (List.length infos) ≤ int64_max → b + total_of (UQ_QueueSize <$> infos) ≤ int64_max →
  foldl count_user (a, b) infos =
    (a + Z.of_nat (List.length (nonempty (UQ_QueueSize <$> infos))), b + total_of (UQ_QueueSize <$> infos)).
Proof.
  induction infos as [|u infos IH]; intros a b Hf Ha Hb Hla Hlb; [cbn; f_equal; lia|].
  apply Forall_cons in Hf as [Hu Hf]. rewrite fmap_cons in *. cbn [foldl foldr total_of] in *.
  set (sizes := UQ_QueueSize <$> infos) in *.
  assert (0 ≤ foldr Z.add 0 sizes) as Hpos.
  { clear -Hf. subst sizes. induction Hf as [|u l Hu _ IH]; [done|]. rewrite fmap_cons. cbn [foldr]. simpl in Hu. lia. }
  simpl in Hu. cbn [List.length] in Hla. unfold nonempty, count_user at 2. rewrite filter_cons.
  fold (nonempty sizes). unfold total_of in IH. destruct (Z.ltb_spec 0 (UQ_QueueSize u)).
  - rewrite decide_True by done. rewrite !wrap64_small by (unfold int64_min; lia).
    rewrite IH by (done || lia). cbn [List.length]. f_equal; lia.
  - rewrite decide_False by lia. rewrite IH by (done || lia). f_equal. lia.
Qed.

(** ** A new member *)

Definition group_size (F : Families) (gid : string) : nat :=
  size (filter (λ kv, GM_FamilyGroupID kv.2 = gid) (fm_members F)).

Section Members.
Context {W : Type} `{UT : UnicodeTables, JT : JsonText, HT : Http W, WS : WebStore W, FS : FamilyStore W, PS : PageStore W}.
Context (inv : W → Prop) (fam : W → Families) {FL : FamilyLaws inv fam}.
Hypothesis group_kept : ∀ g w, kept inv fam w (Page_GetFamilyGroup g w).2.

(** A list of the members of a group is at least as long as there are members. *)
Lemma group_size_le w gid ms :
  inv w →
  (∀ m, m ∈ ms ↔ fm_members (fam w) !! GM_ID m = Some m ∧ GM_FamilyGroupID m = gid) →
  (group_size (fam w) gid ≤ List.length ms)%nat.
Proof using FL.
  intros Hi Hms. unfold group_size. set (M := filter _ _).
  assert (∀ k m, M !! k = Some m → GM_ID m = k ∧ m ∈ ms) as HM.
  { intros k m [Hk Hg]%map_lookup_filter_Some. assert (GM_ID m = k) as <- by (by eapply fam_keyed).
    split; [done|]. by apply Hms. }
  rewrite <-length_map_to_list, <-(length_fmap snd). apply submseteq_length, NoDup_submseteq.
  - apply NoDup_fmap_2_strong; [|apply NoDup_map_to_list].
    intros [k1 m1] [k2 m2] H1%elem_of_map_to_list H2%elem_of_map_to_list Heq. simpl in *. subst m2.
    apply HM in H1 as [<- _], H2 as [<- _]. done.
  - intros m ([k m'] & -> & Hin%elem_of_map_to_list)%list_elem_of_fmap. by apply HM in Hin as [_ ?].
Qed.

Lemma group_size_insert F id s :
  fm_members F !! id = None →
  group_size (mkFamilies (fm_groups F) (<[id := s]> (fm_members F))) (GM_FamilyGroupID s) =
  S (group_size F (GM_FamilyGroupID s)).
Proof.
  intros Hn. unfold group_size. simpl. rewrite map_filter_insert_True by done.
  apply map_size_insert_None. apply map_lookup_filter_None. by left.
Qed.

(** The members of a family through the admin API, on any store that keeps
    [FamilyLaws]. *)
Lemma add_member_law (glob : Globals) (r : Request) (w : W) (reply : admin_reply) (w' : W) :
  inv w → addFamilyGroupMember glob r w = Ret (reply, w') →
  let gid := TrimSpace (value_of (R_Vars r) "id") in
  400 ≤ adm_status reply ∧ fam w' = fam w ∨
  adm_status reply = StatusOK ∧ (group_size (fam w) gid < 10)%nat ∧
  group_size (fam w') gid = S (group_size (fam w) gid) ∧
  ∃ id s, fm_members (fam w) !! id = None ∧ GM_FamilyGroupID s = gid ∧ GM_AuthorizationStatus s = "pending" ∧
    GM_AccessToken s = "" ∧ GM_RefreshToken s = "" ∧
    fam w' = mkFamilies (fm_groups (fam w)) (<[id := s]> (fm_members (fam w))).
Proof using FL group_kept.
  unfold addFamilyGroupMember, with_group, unavailable. set (gid := TrimSpace _). cbv beta zeta. intros Hi E.
  assert (∀ message status w1, 400 ≤ status → fam w1 = fam w →
    @Ret (admin_reply * W) (http_Error message status, w1) = Ret (reply, w') →
    400 ≤ adm_status reply ∧ fam w' = fam w) as Href by (by intros message status w1 Hs Hf [= <- <-]).
  destruct (negb _); [left; by eapply Href in E|].
  case_bool_decide as Hg; [left; by eapply Href in E|].
  destruct (decode_request _ _ r) as [label|]; [|left; by eapply Href in E].
  case_bool_decide; [left; by eapply Href in E|].
  pose proof (group_kept gid w Hi) as [Hi1 Hf1]. destruct (Page_GetFamilyGroup gid w) as [[g|e] w1]; simpl in Hi1, Hf1;
    [|left; by eapply Href in E].
  assert (trimmed gid) as Htg by (split; [done|apply TrimSpace_idem]).
  pose proof (fam_List gid w1 Hi1 Htg) as Hl. destruct (Web_ListGroupMembers gid w1) as [[ms|e] w2];
    destruct Hl as (Hi2 & Hf2 & Hl); rewrite Hf1 in *; [|left; by eapply Href in E].
  destruct (Nat.leb_spec 10 (List.length ms)); [left; by eapply Href in E|].
  assert (group_size (fam w) gid ≤ List.length ms)%nat as Hsize by (by apply group_size_le, Hl).
  destruct (newCorrelationID w2) as [id w3] eqn:E3. apply (kept_newCorrelationID inv fam) in E3 as [H3 Hid].
  destruct (H3 Hi2) as [Hi3 Hf3].
  destruct (Web_Now w3) as [now w4] eqn:E4. destruct (kept_Now inv fam _ _ _ E4 Hi3) as [Hi4 Hf4].
  assert (fam w4 = fam w) as Hf by congruence.
  match type of E with context [Fam_AddGroupMember ?m w4] =>
    pose proof (fam_Add m w4 Hi4 Hid Htg ltac:(done)) as Ha; destruct (Fam_AddGroupMember m w4) as [[[e|] m'] w5] end;
    destruct Ha as [Hi5 Ha]; simpl in Ha; rewrite Hf in Ha; [left; by eapply Href in E|].
  destruct Ha as (Hn & _ & s & Hs & Hsg & Hf5). right. injection E as <- <-. split; [done|]. split; [lia|].
  split; [rewrite Hf5, <-Hsg; by apply group_size_insert|].
  exists id, s. destruct Hs as [_ _ _ Hs4 Hs5 Hs6]. simpl in *. by split_and!.
Qed.

Lemma add_member_returns glob r w : ∃ reply w', addFamilyGroupMember glob r w = Ret (reply, w').
Proof.
  unfold addFamilyGroupMember, with_group, unavailable. repeat case_match; by eexists _, _.
Qed.
End Members.

Section PgMembers.
Context `{UT : UnicodeTables, PG : PgServer, PL : !PgServerLaws PG, JT : JsonText, UR : UrlText, TT : TimeText}.
(** The environment of each call of the store, with any statements failing, and
    the answers of Trakt. *)
Context (envs : nat → Env) (trakt : nat → request → result response) (SE : sound_envs envs).
#[local] Instance members_http : Http Web := pg_http trakt.
#[local] Instance members_web : WebStore Web := pg_web_store envs.
#[local] Instance members_store : FamilyStore Web := pg_family_store envs.
#[local] Instance members_page : PageStore Web := {
  Page_ListUsers w := l ← ListUsers (web_env envs w) (web_db w); Ret (l, tick w);
  Page_GetFamilyGroup id := web_call envs (λ env db, (found (GetFamilyGroup env id db), db));
}.
#[local] Instance members_laws : FamilyLaws pg_inv pg_families := pg_family_laws envs trakt SE.

Lemma pg_group_kept g w : kept pg_inv pg_families w (Page_GetFamilyGroup g w).2.
Proof. intros Hw. split; [exact Hw|reflexivity]. Qed.

(** C32: on the PostgreSQL store, whatever statements fail, the admin API adds a
    member to a family only while it has fewer than ten.  With status 200
    exactly one member has been added to the group named in the route: pending,
    without tokens, under a new id; with any other status the families are
    unchanged.  (The disk store may fail after it has written the member.) *)
Theorem add_member_outcome (glob : Globals) (r : Request) (w : Web) :
  pg_inv w →
  let gid := TrimSpace (value_of (R_Vars r) "id") in
  ∃ reply w', addFamilyGroupMember glob r w = Ret (reply, w') ∧
  (400 ≤ adm_status reply ∧ pg_families w' = pg_families w ∨
   adm_status reply = StatusOK ∧ (group_size (pg_families w) gid < 10)%nat ∧
   group_size (pg_families w') gid = S (group_size (pg_families w) gid) ∧
   ∃ id s, fm_members (pg_families w) !! id = None ∧ GM_FamilyGroupID s = gid ∧ GM_AuthorizationStatus s = "pending" ∧
     GM_AccessToken s = "" ∧ GM_RefreshToken s = "" ∧
     pg_families w' = mkFamilies (fm_groups (pg_families w)) (<[id := s]> (fm_members (pg_families w)))).
Proof using PL SE trakt.
  intros Hi gid. destruct (add_member_returns glob r w) as (reply & w' & E). exists reply, w'. split; [done|].
  exact (add_member_law pg_inv pg_families pg_group_kept glob r w reply w' Hi E).
Qed.
End PgMembers.

(** ** The monitor and the statistics *)

Section Totals.
Context {W : Type} `{UT : UnicodeTables, TT : TimeText, WS : WebStore W, PS : PageStore W, AS : AdminStore W}.
Context (size : W → string → Z) {QL : QueueSizes size}.

(** The queue monitor reports every user of the store once and in order,
    with the size of the user's queue; the total is the sum of the sizes and
    the number of users with queues counts those that are not empty; a user is
    shown as healthy exactly if the queue is empty, and as draining exactly if
    it is not and a drain of the user is running. *)
Lemma queue_status_totals (tracker : DrainStateTracker) (w w1 : W) (users : list User) (status : queueStatus) (w' : W) :
  Page_ListUsers w = Ret (users, w1) → queue_status tracker w = Ret (status, w') →
  let sizes := (λ u, size w (U_ID u)) <$> users in
  Z.of_nat (List.length users) ≤ int64_max → total_of sizes ≤ int64_max →
  UQ_User <$> QS_Users status = users ∧ UQ_QueueSize <$> QS_Users status = sizes ∧
  QS_TotalUsers status = Z.of_nat (List.length users) ∧
  QS_UsersWithQueues status = Z.of_nat (List.length (nonempty sizes)) ∧
  QS_TotalEvents status = total_of sizes ∧
  Forall (λ u, (UQ_Status u = "healthy" ↔ UQ_QueueSize u = 0) ∧
               (UQ_Status u = "draining" ↔ UQ_QueueSize u ≠ 0 ∧ is_Some (activeUsers tracker !! U_ID (UQ_User u))))
    (QS_Users status).
Proof using QL.
  intros El E sizes Hu Ht. unfold queue_status in E. rewrite El in E. cbn [mbind outcome_bind] in E.
  destruct (user_queues tracker users w1) as [[infos w2]|] eqn:Eq; cbn [mbind outcome_bind] in E; [|done].
  apply (user_queues_spec size) in Eq as (_ & Hus & Hsz & Hdr). rewrite (qs_ListUsers _ _ _ El) in Hsz. fold sizes in Hsz.
  assert (List.length infos = List.length users) as Hlen by (by rewrite <-Hus, length_fmap).
  rewrite (count_users_spec infos 0 0) in E; [|..]; try lia.
  - injection E as <- <-. cbn [QS_Users QS_TotalUsers QS_UsersWithQueues QS_TotalEvents].
    rewrite Hus, Hsz. split_and!; [done|done|done|lia|lia|].
    apply Forall_lookup. intros i u Hi.
    assert (UQ_Drain u = activeUsers tracker !! U_ID (UQ_User u)) as Hd.
    { apply (f_equal (lookup i)) in Hdr, Hus. rewrite !list_lookup_fmap, Hi in Hdr. rewrite list_lookup_fmap, Hi in Hus.
      simpl in Hus. rewrite <-Hus in Hdr. simpl in Hdr. by injection Hdr. }
    rewrite <-Hd. unfold UQ_Status, determineQueueStatus.
    destruct (Z.eqb_spec (UQ_QueueSize u) 0) as [->|Hne]; [split; [done|split; [done|tauto]]|].
    destruct (UQ_Drain u) as [d|]; simpl.
    + split; [by split|]. split; [intros _; split; [done|by eexists]|done].
    + repeat case_match; (split; [by split|split; [done|intros [_ [? ?]]; done]]).
  - apply Forall_lookup. intros i u Hi. apply (f_equal (lookup i)) in Hsz.
    unfold sizes in Hsz. rewrite !list_lookup_fmap, Hi in Hsz. destruct (users !! i) as [v|]; [|done]. injection Hsz as ->. apply qs_range.
  - rewrite Hsz. lia.
Qed.
End Totals.

(** the statistics of a user's queue are exact: under each action the
    number of events with it, under each retry count the number of events with
    that count, and nothing else. *)
Lemma queue_stats_counts (events : list QueuedScrobbleEvent) (action : string) (n : Z) :
  Z.of_nat (List.length events) ≤ int64_max → Forall (λ e, int64_min ≤ E_RetryCount e ≤ int64_max) events →
  int64_min ≤ n ≤ int64_max →
  let count l := if decide (l = []) then None else Some (Z.of_nat (List.length l)) in
  let '(byAction, byRetryCount) := calculateQueueStats events in
  byAction !! action = count (filter (λ e, E_Action e = action) events) ∧
  byRetryCount !! Itoa n = count (filter (λ e, E_RetryCount e = n) events).
Proof.
  intros Hl Hr Hn. simpl. rewrite !count_by_spec by done. split; [done|].
  assert (with_key (λ e, Itoa (E_RetryCount e)) (Itoa n) events = filter (λ e, E_RetryCount e = n) events) as ->; [|done].
  unfold with_key. clear Hl. induction Hr as [|e events He _ IH]; [done|]. rewrite !filter_cons, IH.
  destruct (decide (E_RetryCount e = n)) as [->|Hne]; [by rewrite decide_True|].
  rewrite decide_False; [done|]. intros Heq. apply (f_equal Atoi) in Heq. rewrite !Atoi_Itoa in Heq by done. congruence.
Qed.

(** ** The metrics of the retry queue *)

Section Metrics.
Context `{UT : UnicodeTables, PG : PgServer}.
Context (envs : nat → Env).

Lemma due_item_not_permanent env now limit db items db' :
  ListDueRetryItems env now limit db = (Ok items, db') → Forall (λ i, RQ_Status i ≠ "permanent_failure") items.
Proof.
  unfold ListDueRetryItems. destruct (fault env BeginTx); [done|].
  destruct (statement env 0 _ db) as [[rows|e] db1]; [|done]. destruct (fault env RowsErr); [done|].
  case_bool_decide as He.
  - destruct (fault env Commit); [done|]. intros [= <- <-]. rewrite (fmap_nil_inv _ _ He). constructor.
  - destruct (statement env 1 _ db) as [[u|e] db2]; [|done]. destruct (fault env Commit); [done|].
    intros [= <- <-]. apply Forall_fmap, Forall_true. done.
Qed.

(** The metrics of the retry queue never report a permanent failure,
    however many there are: the items are those that are due, which permanent
    failures are not. *)
Lemma permanent_failures_never_counted (w : World) :
  let '(logged, w') := logRetryQueueMetrics (RS:=pg_retry_store envs) w in
  ∀ queued permanent total, logged = Some (queued, permanent, total) → permanent = 0 ∧ queued = total.
Proof.
  unfold logRetryQueueMetrics. simpl. unfold pg_call, FetchDueItems. simpl. unfold pg_call.
  destruct (ListDueRetryItems _ _ _ _) as [[items|e] db] eqn:E; [|done]. intros q p t [= <- <- <-].
  apply due_item_not_permanent in E. clear -E.
  induction E as [|i items Hi _ [IH1 IH2]]; [done|]. simpl in *.
  rewrite (bool_decide_eq_false_2 (RQ_Status i = _)) by done. simpl. lia.
Qed.
End Metrics.

(** ** Examples *)

#[local] Existing Instances ascii_tables memory_server tree_text decimal_time plain_urls.
#[local] Instance desk_http : Http Web := pg_http house_trakt.
#[local] Instance desk_web : WebStore Web := pg_web_store house_env.
#[local] Instance desk_store : FamilyStore Web := pg_family_store house_env.
#[local] Instance desk_page : PageStore Web := members_page house_env.

(** The household of one family without members. *)
Definition home_web : Web := mkWeb home_db 0.
Lemma home_web_ok : pg_inv home_web.
Proof. apply db_ok_CreateFamilyGroup, db_ok_empty. Qed.
Definition add_kid : Request :=
  mkReq "POST" "" "" "/admin/api/family-groups/fg/members" "localhost:8000" false ∅ ∅ {["id" := "fg"]}
    (json_print (JObj [("label", JStr "Kid")])).
Definition add_kid_status : outcome Z :=
  '(reply, _) ← addFamilyGroupMember house add_kid home_web; Ret (adm_status reply).
Lemma add_kid_ok : add_kid_status = Ret 200.
Proof. vm_compute. reflexivity. Qed.

Lemma add_member_outcome_witness :
  ∃ reply w', addFamilyGroupMember house add_kid home_web = Ret (reply, w') ∧
    group_size (pg_families w') "fg" = S (group_size (pg_families home_web) "fg").
Proof.
  pose proof add_kid_ok as Hs. unfold add_kid_status in Hs.
  destruct (add_member_outcome (PL:=memory_server_laws) house_env house_trakt house_sound house add_kid home_web
              home_web_ok) as (reply & w' & E & [[Hle _]|(_ & _ & Hn & _)]).
  - exfalso. change (addFamilyGroupMember house add_kid home_web = Ret (reply, w')) in E. rewrite E in Hs. cbn [mbind outcome_bind] in Hs. injection Hs as Hs. rewrite Hs in Hle. lia.
  - exists reply, w'. split; [exact E|exact Hn].
Defined.

(** Two users, one of them with three queued events. *)
#[local] Instance two_users : PageStore unit := {
  Page_ListUsers w := Ret ([mkUser "u1" "ann" "" "" "" 0 0 true; mkUser "u2" "bob" "" "" "" 0 0 true], w);
  Page_GetFamilyGroup _ w := (Ok None, w);
}.
#[local] Instance two_queues : AdminStore unit := {
  Adm_DeleteUser _ _ w := (true, w);
  Adm_ListFamilyGroups w := (Ok [], w);
  Adm_RemoveGroupMember _ _ w := (None, w);
  Adm_GetQueueSize u w := (Ok (if bool_decide (u = "u1") then 3 else 0), w);
  Adm_DequeueScrobbles u _ w := Ret (Ok (if bool_decide (u = "u1") then [sample_event "1"] else []), w);
}.
#[local] Instance still_web : WebStore unit := {
  Web_GetFamilyGroupByPlex _ w := (Err ErrFamilyGroupNotFound, w);
  Web_ListGroupMembers _ w := (Ok [], w);
  Web_GetUser _ w := Ret (None, w);
  Web_GetUserByName _ w := Ret (None, w);
  Web_WriteUser _ w := Ret w;
  Web_Now w := (1700000000 * Second, w);
  Web_Rand w := (None, 0, w);
  Web_uuid w := ("id", w);
}.
Definition sizes_of (w : unit) (u : string) : Z := if bool_decide (u = "u1") then 3 else 0.
#[local] Instance sizes_law : QueueSizes sizes_of.
Proof.
  split; try done.
  - intros w u. unfold sizes_of. by case_bool_decide.
  - intros u w. by exists w.
Qed.
Definition shown : queueStatus :=
  match queue_status NewDrainStateTracker tt with Ret (s, _) => s | Panic _ => mkQueueStatus 0 0 0 false "" 0 [] end.

Lemma queue_status_totals_witness : QS_TotalEvents shown = 3 ∧ QS_UsersWithQueues shown = 1.
Proof.
  destruct (queue_status_totals sizes_of NewDrainStateTracker tt tt
    [mkUser "u1" "ann" "" "" "" 0 0 true; mkUser "u2" "bob" "" "" "" 0 0 true] shown tt)
    as (_ & _ & _ & H1 & H2 & _).
  - reflexivity.
  - unfold shown. destruct (queue_status NewDrainStateTracker tt) as [[s []]|] eqn:E; [reflexivity|discriminate E].
  - vm_compute. discriminate.
  - vm_compute. discriminate.
  - split; [exact H2|exact H1].
Defined.

Lemma queue_stats_counts_witness :
  (calculateQueueStats [sample_event "1"; sample_event "2"]).1 !! E_Action (sample_event "1") = Some 2.
Proof.
  destruct (queue_stats_counts [sample_event "1"; sample_event "2"] (E_Action (sample_event "1")) 0) as [H1 _].
  - vm_compute. discriminate.
  - repeat constructor; vm_compute; discriminate.
  - split; vm_compute; discriminate.
  - exact H1.
Defined.

(** A queue with a permanent failure. *)
Definition failed_world : World :=
  mkWorld (MarkRetryFailure ok_env "r1" 5 (1700000000 * Second) "gone" true retry_db).2 0 [].
Definition logged_metrics : option (Z * Z * Z) := (logRetryQueueMetrics (RS:=pg_retry_store (λ _, ok_env)) failed_world).1.

Lemma permanent_failures_never_counted_witness :
  (R_status <$> retry_queue_items (wd_db failed_world) !! "r1") = Some "permanent_failure" ∧
  logged_metrics = Some (0, 0, 0).
Proof.
  split; [vm_compute; reflexivity|].
  pose proof (permanent_failures_never_counted (λ _, ok_env) failed_world) as Hp.
  assert (Ht : (λ x, x.2) <$> logged_metrics = Some 0) by (vm_compute; reflexivity).
  unfold logged_metrics in *. destruct (logRetryQueueMetrics failed_world) as [[[[q p] t]|] w']; [|discriminate Ht].
  destruct (Hp q p t eq_refl) as [-> ->]. injection Ht as ->. reflexivity.
Defined.
