(* ===== verification/Assets.v ===== *)
(** * The manifest of the front end: [assets_manifest.go]

    The pages name their scripts and styles by a key; [pathFor] looks up the
    file the build made of it in a manifest that is read again when the file
    is newer.  What [os.Stat] and [os.ReadFile] say at each call is an argument. *)

From S2P Require Import Prelude GoLib Float Json Instances Trakt.

Open Scope Z_scope.

Record assetManifest := mkManifest {
  M_entries : gmap string string;
  M_isLoaded : bool;
  M_modTime : Time;
}.

Definition ErrNotExist : error := Sentinel "file does not exist".

(** The file at some moment: its time of modification and its text, if there is one. *)
Abbreviation version := (option (Time * string)).

Section Assets.
Context `{JsonText}.

(** [json.Unmarshal] into a [map[string]string]; [None] is its error. *)
Definition decode_entries (data : string) : option (gmap string string) :=
  match json_parse data with
  | Some JNull => Some ∅
  | Some (JObj fs) =>
      foldl (λ m kv, m ← m; match dec_string kv.2 "" with DOk v => Some (<[kv.1 := v]> m) | _ => None end) (Some ∅) fs
  | _ => None
  end.

Definition unloaded : assetManifest := mkManifest ∅ false zeroTime.

Definition reload (stat : result Time) (read : result string) (m : assetManifest) : option error * assetManifest :=
  match stat with
  | Err err => (Some err, if errors_Is err ErrNotExist then unloaded else m)
  | Ok modTime =>
      match read with
      | Err err => (Some err, m)
      | Ok data =>
          match decode_entries data with
          | None => (Some json_error, m)
          | Some entries => (None, mkManifest entries true modTime)
          end
      end
  end.

Definition newAssetManifest (stat : result Time) (read : result string) : assetManifest :=
  (reload stat read unloaded).2.

(** [stat] is the first reading, [stat2] and [read] those of [reload]. *)
Definition ensureLatest (stat stat2 : result Time) (read : result string) (m : assetManifest) : assetManifest :=
  match stat with
  | Err err => if errors_Is err ErrNotExist then unloaded else m
  | Ok modTime =>
      if negb (M_isLoaded m) || After modTime (M_modTime m) then (reload stat2 read m).2 else m
  end.

(** [filepath.ToSlash] changes nothing where the separator is a slash. *)
Definition normalizeAssetKey (key : string) : string := TrimPrefix (TrimPrefix key "/") "static/".

Definition entry_path (m : assetManifest) (key : string) : string :=
  if negb (M_isLoaded m) then "/static/" +:+ normalizeAssetKey key else
  match M_entries m !! normalizeAssetKey key with
  | Some rel => if bool_decide (rel = "") then "/static/" +:+ normalizeAssetKey key else "/static/" +:+ rel
  | None => "/static/" +:+ normalizeAssetKey key
  end.
Definition pathFor (stat stat2 : result Time) (read : result string) (m : assetManifest) (key : string)
    : string * assetManifest :=
  let m := ensureLatest stat stat2 read m in (entry_path m key, m).

(** [appAssets] may not be set. *)
Definition assetPath (stat stat2 : result Time) (read : result string) (appAssets : option assetManifest) (key : string)
    : string * option assetManifest :=
  match appAssets with
  | Some m => let '(path, m) := pathFor stat stat2 read m key in (path, Some m)
  | None => ("/static/" +:+ normalizeAssetKey key, None)
  end.

(** ** A manifest that is always read *)

Definition stat_of (v : version) : result Time := match v with Some (t, _) => Ok t | None => Err ErrNotExist end.
Definition read_of (v : version) : result string := match v with Some (_, d) => Ok d | None => Err ErrNotExist end.

Definition fresh_path (v : version) (key : string) : string := entry_path (newAssetManifest (stat_of v) (read_of v)) key.

(** The paths of successive requests, each with the file at that moment. *)
Fixpoint paths (m : assetManifest) (requests : list (version * string)) : list string :=
  match requests with
  | [] => []
  | (v, key) :: requests =>
      let '(path, m) := pathFor (stat_of v) (stat_of v) (read_of v) m key in path :: paths m requests
  end.

(** Later versions have later times, and those with the same time the same text. *)
Definition dated (v v' : version) : Prop :=
  ∀ t d t' d', v = Some (t, d) → v' = Some (t', d') → t ≤ t' ∧ (t = t' → d = d').
(** Every version is a manifest. *)
Definition readable (v : version) : Prop := ∀ t d, v = Some (t, d) → is_Some (decode_entries d).

(** What is loaded is some earlier version, if anything. *)
Definition loaded_from (seen : list version) (m : assetManifest) : Prop :=
  m = unloaded ∨ ∃ t d entries, Some (t, d) ∈ seen ∧ decode_entries d = Some entries ∧ m = mkManifest entries true t.

Lemma reload_version v m : readable v →
  (reload (stat_of v) (read_of v) m).2 = newAssetManifest (stat_of v) (read_of v) ∧
  loaded_from [v] (newAssetManifest (stat_of v) (read_of v)).
Proof.
  intros Hr. destruct v as [[t d]|]; [|by split; [|left]]. destruct (Hr t d eq_refl) as [es He].
  unfold newAssetManifest. simpl. rewrite He. split; [done|]. right. exists t, d, es. split_and!; [left|done..].
Qed.

(** The cached manifest is the one the file holds now. *)
Lemma ensureLatest_version seen v m :
  loaded_from seen m → Forall (λ v0, dated v0 v) seen → readable v →
  ensureLatest (stat_of v) (stat_of v) (read_of v) m = newAssetManifest (stat_of v) (read_of v).
Proof.
  intros Hm Hd Hr. destruct v as [[t d]|]; [|done]. unfold ensureLatest. cbn [stat_of].
  destruct (negb _ || _) eqn:E; [exact (proj1 (reload_version (Some (t, d)) m Hr))|].
  destruct Hm as [->|(t0 & d0 & es & Hin & He & ->)]; [done|]. cbn in E. apply Z.ltb_ge in E.
  rewrite Forall_forall in Hd. destruct (Hd _ Hin t0 d0 t d eq_refl eq_refl) as [Hle Heq].
  assert (t0 = t) as -> by lia. rewrite <-(Heq eq_refl). unfold newAssetManifest. simpl. by rewrite He.
Qed.

(** C33: caching the manifest makes no difference: as long as the file is a
    manifest whenever it exists and gets a later time whenever it changes, each
    request is answered with the path the current file gives, also when the
    file comes and goes. *)
Theorem asset_paths_current (v0 : version) (requests : list (version * string)) :
  Forall readable (v0 :: requests.*1) → ForallOrdPairs dated (v0 :: requests.*1) →
  paths (newAssetManifest (stat_of v0) (read_of v0)) requests = (λ r, fresh_path r.1 r.2) <$> requests.
Proof.
  intros Hr Hd.
  assert (∀ seen m, loaded_from seen m → (∀ v r, v ∈ seen → r ∈ requests.*1 → dated v r) →
            paths m requests = (λ r, fresh_path r.1 r.2) <$> requests) as K; cycle 1.
  { apply (K [v0]).
    - apply Forall_cons in Hr as [Hr _]. by apply (reload_version v0 unloaded).
    - intros v r ->%list_elem_of_singleton Hin. inversion Hd as [|? ? Hall _]; subst.
      rewrite Forall_forall in Hall. by apply Hall. }
  apply Forall_cons in Hr as [_ Hr]. inversion Hd as [|? ? _ Hd']; subst. clear Hd.
  induction requests as [|[v key] requests IH]; intros seen m Hm Hs; [done|]. simpl in *.
  apply Forall_cons in Hr as [Hv Hr]. inversion Hd' as [|? ? Hall Hd'']; subst.
  rewrite (ensureLatest_version seen v m); [|done| |done].
  - f_equal. apply (IH Hr Hd'' (v :: seen)).
    + destruct (proj2 (reload_version v m Hv)) as [->|(t & d & es & <-%list_elem_of_singleton & He & ->)]; [by left|].
      right. exists t, d, es. split_and!; [left|done..].
    + intros v' r [->|Hv']%elem_of_cons Hin; [|apply Hs; [done|by right]].
      rewrite Forall_forall in Hall. by apply Hall.
  - apply Forall_forall. intros v' Hv'. apply Hs; [done|left].
Qed.
End Assets.

(** ** Example *)

Definition manifest_text (file : string) : string := json_print (JsonText:=tree_text) (JObj [("js/app.js", JStr file)]).
Definition versions : list (version * string) :=
  [(Some (1, manifest_text "dist/app.1.js"), "/static/js/app.js"); (None, "js/app.js");
   (Some (2, manifest_text "dist/app.2.js"), "js/app.js")].

Lemma asset_paths_current_witness :
  paths (H:=tree_text) (newAssetManifest (H:=tree_text) (stat_of None) (read_of None)) versions =
    ["/static/dist/app.1.js"; "/static/js/app.js"; "/static/dist/app.2.js"].
Proof.
  rewrite (asset_paths_current (H:=tree_text) None versions).
  - vm_compute. reflexivity.
  - repeat constructor; intros t d E; simplify_eq/=; (eexists; vm_compute; reflexivity).
  - repeat first [apply FOP_nil | apply FOP_cons | apply Forall_nil_2 | apply Forall_cons_2];
      intros t d t' d' E E'; simplify_eq/=; (split; lia).
Defined.
