(* ===== verification/Server.v ===== *)
(** * Configuration and start-up: [lib/config/main.go], [lib/logging/logger.go]
      and [main] of [main.go]

    What the environment decides (the Trakt credentials, the trust in proxies,
    the store, the host check, the address), the table of routes, and the
    middlewares around a handler.  The router and [handlers.ProxyHeaders] are
    libraries: the handler of a request and the rewriting of its headers are
    arguments. *)

From S2P Require Import Prelude GoLib Text Float Json Instances Common Entities Buffers Worker Trakt Sessions Webhooks Request Admin.

Open Scope Z_scope.

(** ** [getConfig] *)

Definition getConfig (getenv : string → string) (readFile : string → result string) (name : string) : outcome string :=
  if bool_decide (getenv name ≠ "") then Ret (getenv name)
  else if bool_decide (getenv (name +:+ "_FILE") ≠ "") then
    match readFile (getenv (name +:+ "_FILE")) with
    | Err err => Panic (Error err)
    | Ok file => Ret (TrimSpace file)
    end
  else Ret "".

(** ** [main] *)

Inductive storage_choice :=
| PostgresqlStorage (url : string)
| RedisURL (url : string)
| RedisURI (uri password : string)
| DiskStorage.

Inductive log_level := LevelDebug | LevelInfo | LevelWarn | LevelError.

Record Setup := mkSetup {
  SU_logging : log_level * bool;
  SU_trustProxy : bool;
  SU_requestLogMod : string;
  SU_storage : storage_choice;
  SU_retryWorker : bool;
  SU_allowedHostnames : option string;
  SU_listen : string;
}.

Section Server.
Context `{UnicodeTables}.

(** [logging.Init]: the level, and whether the output is JSON. *)
Definition Init (getenv : string → string) : log_level * bool :=
  let format := ToLower (TrimSpace (getenv "LOG_FORMAT")) in
  let format := if bool_decide (format = "") then "json" else format in
  let level := ToLower (TrimSpace (getenv "LOG_LEVEL")) in
  (if bool_decide (level = "debug") then LevelDebug
   else if bool_decide (level = "warn") then LevelWarn
   else if bool_decide (level = "error") then LevelError
   else LevelInfo, negb (bool_decide (format = "text"))).

Definition trust_proxy (getenv : string → string) : bool :=
  let v := ToLower (TrimSpace (getenv "TRUST_PROXY")) in
  if bool_decide (v ≠ "") then bool_decide (v = "1") || bool_decide (v = "true") || bool_decide (v = "yes") else true.

Definition choose_storage (getenv : string → string) : storage_choice :=
  if bool_decide (getenv "POSTGRESQL_URL" ≠ "") then PostgresqlStorage (getenv "POSTGRESQL_URL")
  else if bool_decide (getenv "REDIS_URL" ≠ "") then RedisURL (getenv "REDIS_URL")
  else if bool_decide (getenv "REDIS_URI" ≠ "") then RedisURI (getenv "REDIS_URI") (getenv "REDIS_PASSWORD")
  else DiskStorage.

Definition allowed_hostnames (getenv : string → string) : option string :=
  if bool_decide (getenv "REDIRECT_URI" ≠ "") then Some (getenv "REDIRECT_URI")
  else if bool_decide (getenv "ALLOWED_HOSTNAMES" ≠ "") then Some (getenv "ALLOWED_HOSTNAMES")
  else None.

Definition main (getenv : string → string) : Setup :=
  let storage := choose_storage getenv in
  mkSetup (Init getenv) (trust_proxy getenv) (ToLower (TrimSpace (getenv "REQUEST_LOG"))) storage
    (match storage with PostgresqlStorage _ => true | _ => false end) (allowed_hostnames getenv)
    (if bool_decide (getenv "LISTEN" = "") then "0.0.0.0:8000" else getenv "LISTEN").

(** The routes: path, method and handler. *)
Definition routes : list (string * string * string) :=
  [("/authorize", "GET", "authorize"); ("/authorize/family/member", "GET", "authorizeFamilyMember");
   ("/manual/authorize", "GET", "authorize"); ("/oauth/state", "POST", "createAuthState");
   ("/oauth/family/state", "POST", "createFamilyAuthState"); ("/api", "POST", "api");
   ("/api/telemetry", "POST", "telemetryHandler"); ("/users/{id}/trakt-display-name", "POST", "updateTraktDisplayName");
   ("/healthcheck", "GET", "healthcheckHandler"); ("/admin", "GET", "renderAdminDashboard");
   ("/admin/family", "GET", "renderFamilyAdmin"); ("/admin/api/users", "GET", "listAdminUsers");
   ("/admin/api/users/{id}", "GET", "getAdminUser"); ("/admin/api/users/{id}", "PUT", "updateAdminUser");
   ("/admin/api/users/{id}", "DELETE", "deleteAdminUser"); ("/admin/queue", "GET", "renderQueueMonitor");
   ("/admin/api/queue/status", "GET", "getQueueStatus"); ("/admin/api/queue/events", "GET", "getQueueEvents");
   ("/admin/api/queue/user/{id}", "GET", "getUserQueueDetail"); ("/admin/api/family-groups", "GET", "listFamilyGroups");
   ("/admin/api/family-groups/{id}", "GET", "getFamilyGroupDetail");
   ("/admin/api/family-groups/{id}/members", "POST", "addFamilyGroupMember");
   ("/admin/api/family-groups/{group_id}/members/{member_id}", "DELETE", "removeFamilyGroupMember");
   ("/admin/api/family-groups/{id}", "DELETE", "deleteFamilyGroup"); ("/", "GET", "renderLandingPage")].

(** ** A request through the middlewares *)

(** [router.Use] puts the first middleware outermost: recovery, the request
    log, the headers of proxies, the host check.  The request log sees the path
    before the headers are applied, and nothing of a request that panics. *)
Definition respond {W} (su : Setup) (proxyHeaders : Request → Request) (h : Request → W → outcome (reply * W))
    (r : Request) (w : W) : outcome (reply * W) :=
  let r := if SU_trustProxy su then proxyHeaders r else r in
  match SU_allowedHostnames su with
  | Some hosts => allowedHostsHandler hosts h r w
  | None => h r w
  end.
Definition requestLoggerMiddleware (su : Setup) (r : Request) (a : reply) : option Z :=
  if shouldLog (SU_requestLogMod su) (R_Path r) (reply_status a) then Some (reply_status a) else None.
Definition serve {W} (su : Setup) (proxyHeaders : Request → Request) (lost : W → W)
    (h : Request → W → outcome (reply * W)) (r : Request) (w : W) : reply * W * option Z :=
  match respond su proxyHeaders h r w with
  | Ret (a, w) => (a, w, requestLoggerMiddleware su r a)
  | Panic _ => (recoveryMiddleware (respond su proxyHeaders h) lost r w, None)
  end.

(** Every request is answered, and with the answer of [recoveryMiddleware]. *)
Lemma serve_recovers {W} su proxyHeaders lost (h : Request → W → outcome (reply * W)) r w :
  (serve su proxyHeaders lost h r w).1 = recoveryMiddleware (respond su proxyHeaders h) lost r w.
Proof. unfold serve, recoveryMiddleware. by destruct (respond su proxyHeaders h r w) as [[]|]. Qed.

(** No two routes compete for a request with the same path template. *)
Lemma routes_distinct : NoDup routes.*1.
Proof. apply (bool_decide_unpack _). vm_compute. exact I. Qed.

(** A client that is not behind a proxy passes the host check of a server that
    trusts proxies by naming an allowed host itself: when the headers of the
    request, which such a server believes, name an allowed host, the handler
    runs whatever host the request was sent to. *)
Lemma host_check_believes_headers {W} su proxyHeaders lost (h : Request → W → outcome (reply * W)) r w hosts :
  SU_trustProxy su = true → SU_allowedHostnames su = Some hosts →
  isAllowedHost hosts (R_Host (proxyHeaders r)) = true →
  (serve su proxyHeaders lost h r w).1 = recoveryMiddleware h lost (proxyHeaders r) w.
Proof.
  intros Ht Hh Hok. rewrite serve_recovers. unfold recoveryMiddleware, respond. rewrite Ht, Hh.
  unfold allowedHostsHandler. rewrite Hok. by destruct (bool_decide _).
Qed.

(** Without trust in proxies a request for another host gets 401 and reaches
    no handler. *)
Lemma host_check_refuses {W} su proxyHeaders lost (h : Request → W → outcome (reply * W)) r w hosts :
  SU_trustProxy su = false → SU_allowedHostnames su = Some hosts → R_Path r ≠ "/healthcheck" →
  isAllowedHost hosts (R_Host r) = false →
  serve su proxyHeaders lost h r w =
    (textReply StatusUnauthorized "Oh no!", w,
     if bool_decide (SU_requestLogMod su = "off") then None else Some StatusUnauthorized).
Proof.
  intros Ht Hh Hp Hok. unfold serve, respond. rewrite Ht, Hh. unfold allowedHostsHandler.
  rewrite bool_decide_false, Hok by done. simpl. unfold requestLoggerMiddleware, shouldLog.
  by repeat case_bool_decide.
Qed.
End Server.

(** ** [startRetryQueueWorker] *)

Section RetryTasks.
Context {W : Type} `{UnicodeTables, JsonText, RetryStore W, TraktScrobbler W}.

Definition startRetryQueueWorker (notifier : Notifier W) : Worker W := NewWorker (Some notifier) 0 0.

(** The two goroutines it starts: the worker, and the metrics after five
    seconds and then every five minutes.  A batch and a report are taken as one
    turn each. *)
Inductive retry_turn := WorkerTick | MetricsTick.
Definition take_turn (wk : Worker W) (turn : retry_turn) (w : W) : outcome W :=
  match turn with
  | WorkerTick => processBatch wk w
  | MetricsTick => Ret (logRetryQueueMetrics w).2
  end.
Fixpoint take_turns (wk : Worker W) (turns : list retry_turn) (w : W) : outcome W :=
  match turns with
  | [] => Ret w
  | turn :: turns => w ← take_turn wk turn w; take_turns wk turns w
  end.

(** The zero values of the configuration stand for the defaults. *)
Lemma startRetryQueueWorker_defaults notifier :
  startRetryQueueWorker notifier = mkWorker (Some notifier) (15 * Second) 50.
Proof. done. Qed.

(** Without metrics in between, the turns are the loop of [Start]. *)
Lemma worker_turns wk n w : take_turns wk (replicate n WorkerTick) w = Start wk n w.
Proof.
  revert w. induction n as [|n IH]; intros w; [done|]. simpl. by destruct (processBatch wk w); simpl.
Qed.
End RetryTasks.
