(* ===== verification/Pages.v ===== *)
(** * Pages: [main.go], lines 1487-1493, 2320-2327 and 2832-2889

    The handlers that execute an HTML template, with the functions they give to
    it, and the health page.  The language of [html/template] and the package
    behind the health page are interfaces. *)

From S2P Require Import Prelude GoLib Text Float Json Instances Common Entities Buffers Pg PgStore Trakt Sessions Webhooks Request OAuth Wizard Assets Server.

Open Scope Z_scope.

(** [html/template]: parsing a text, and executing a template on a page (or on
    nil) with the function [assetPath], whose state is an [A].  Execution writes
    as it goes: the result is what was written, and the error that stopped it. *)
Class Templates := {
  template : Type;
  template_Parse : string → result template;
  template_Execute : ∀ A, (string → A → string * A) → template → option AuthorizePage → A →
                       string * option error * A;
}.

(** The last element of a path, by which [ParseFiles] names a template. *)
Definition base_name (file : string) : string :=
  match LastIndexByte file "/" with Some i => slice_from (S i) file | None => file end.

(** What the file system holds while a page is made. *)
Record Files := mkFiles {
  fs_read : string → result string;
  fs_manifest : version;
}.

Lemma slice_static name : slice_from 7 ("static/" +:+ name) = name.
Proof. apply (slice_from_app "static/"). Qed.

Definition html (body : string) : reply := textReply StatusOK body.

Section Pages.
Context `{UT : UnicodeTables, JT : JsonText, TM : Templates}.

(** The template functions: [assetPath]. *)
Definition templateFuncs (fs : Files) (key : string) (assets : option assetManifest) : string * option assetManifest :=
  assetPath (stat_of (fs_manifest fs)) (stat_of (fs_manifest fs)) (read_of (fs_manifest fs)) assets key.

(** [template.Must(template.New(name).Funcs(templateFuncs).ParseFiles(file))]
    then [Execute]: a file that cannot be read or parsed panics; a template of
    another name than the file defines nothing; an error of the execution is
    logged. *)
Definition render (fs : Files) (name file : string) (page : option AuthorizePage) (assets : option assetManifest)
    : outcome (reply * option assetManifest) :=
  match fs_read fs file with
  | Err err => Panic (Error err)
  | Ok text =>
      match template_Parse text with
      | Err err => Panic (Error err)
      | Ok t =>
          if bool_decide (base_name file = name) then
            let '(out, _, assets) := template_Execute _ (templateFuncs fs) t page assets in Ret (html out, assets)
          else Ret (html "", assets)
      end
  end.

Definition renderAdminDashboard (fs : Files) := render fs "admin.html" "static/admin.html" None.
Definition renderFamilyAdmin (fs : Files) := render fs "family-admin.html" "static/family-admin.html" None.
Definition renderQueueMonitor (fs : Files) := render fs "queue.html" "static/queue.html" None.

(** The landing page is a page of the store's data: it may panic before it is
    rendered. *)
Definition renderLandingPage {W} `{WS : WebStore W, PS : PageStore W} (fs : Files) (glob : Globals) (r : Request)
    (st : W * option assetManifest) : outcome (reply * (W * option assetManifest)) :=
  '(page, w) ← prepareAuthorizePage glob r st.1;
  '(a, assets) ← render fs "index.html" "static/index.html" (Some page) st.2;
  Ret (a, (w, assets)).

(** ** The health page *)

(** [healthcheck.Handler] with a timeout and named checkers. *)
Definition healthcheck_lib (W : Type) : Type :=
  Duration → list (string * (W → option error * W)) → W → reply * W.

Definition healthcheckHandler {W} (lib : healthcheck_lib W) (ping : W → option error * W) (w : W) : reply * W :=
  lib (5 * Second) [("storage", ping)] w.

(** What the package documents: 200 when every check succeeds, 503 otherwise.
    A check that exceeds the timeout counts as one that fails. *)
Definition healthcheck_documented {W} (lib : healthcheck_lib W) : Prop :=
  ∀ timeout name check w,
    let '(err, w') := check w in
    lib timeout [(name, check)] w =
      (mkReply (if bool_decide (err = None) then StatusOK else StatusServiceUnavailable)
         (reply_json (lib timeout [(name, check)] w).1), w').
(** ** What a visitor gets *)

(** A page is rendered whole or up to an error of its template, with status
    200, when its file can be read and parsed; otherwise the handler panics. *)
Lemma render_outcome fs name page assets :
  LastIndexByte ("static/" +:+ name) "/" = Some 6%nat →
  (∃ text t, fs_read fs ("static/" +:+ name) = Ok text ∧ template_Parse text = Ok t ∧
     let '(out, _, assets') := template_Execute _ (templateFuncs fs) t page assets in
     render fs name ("static/" +:+ name) page assets = Ret (html out, assets')) ∨
  ∃ err, (fs_read fs ("static/" +:+ name) = Err err ∨
          ∃ text, fs_read fs ("static/" +:+ name) = Ok text ∧ template_Parse text = Err err) ∧
     render fs name ("static/" +:+ name) page assets = Panic (Error err).
Proof.
  intros Hi. unfold render, base_name. rewrite Hi.
  destruct (fs_read fs _) as [text|err]; [|right; exists err; auto].
  destruct (template_Parse text) as [t|err] eqn:Ht; [left|right; exists err; eauto].
  exists text, t. split_and!; [done..|]. rewrite bool_decide_true by apply slice_static.
  by destruct (template_Execute _ _ t page assets) as [[out e] assets'].
Qed.

(** Every visit of the landing page is answered, with the page made from the
    request and the store, or with 500 when the store, the file or its template
    fails. *)
Lemma landing_page_served {W} `{WS : WebStore W, PS : PageStore W} su proxyHeaders lost fs glob r w assets :
  SU_allowedHostnames su = None →
  let r' := if SU_trustProxy su then proxyHeaders r else r in
  let '(a, st, _) := serve su proxyHeaders lost (renderLandingPage fs glob) r (w, assets) in
  (∃ page w' text t, prepareAuthorizePage glob r' w = Ret (page, w') ∧
     fs_read fs "static/index.html" = Ok text ∧ template_Parse text = Ok t ∧
     let '(out, _, assets') := template_Execute _ (templateFuncs fs) t (Some page) assets in
     a = html out ∧ st = (w', assets')) ∨
  a = textReply StatusInternalServerError "internal server error" ∧ st = lost (w, assets).
Proof.
  intros Hh r'. unfold serve, recoveryMiddleware, respond. rewrite Hh. fold r'. unfold renderLandingPage. cbn [fst snd].
  destruct (prepareAuthorizePage glob r' w) as [[page w']|]; simpl; [|by right].
  destruct (render_outcome fs "index.html" (Some page) assets eq_refl) as [(text & t & Hf & Ht & E)|(err & _ & E)].
  - destruct (template_Execute _ _ t (Some page) assets) as [[out e] assets'] eqn:Ex.
    change ("static/" +:+ "index.html") with "static/index.html" in E. rewrite E. simpl.
    left. exists page, w', text, t. split_and!; [done..|]. by rewrite Ex.
  - change ("static/" +:+ "index.html") with "static/index.html" in E. rewrite E. by right.
Qed.

(** The health page answers 200 exactly when the store answers a ping. *)
Lemma health_page_status {W} (lib : healthcheck_lib W) (ping : W → option error * W) (w : W) :
  healthcheck_documented lib →
  reply_status (healthcheckHandler lib ping w).1 = StatusOK ↔ (ping w).1 = None.
Proof.
  intros Hlib. unfold healthcheckHandler. specialize (Hlib (5 * Second) "storage" ping w).
  destruct (ping w) as [err w']. rewrite Hlib. simpl. by case_bool_decide.
Qed.
End Pages.

(** ** An example *)

(** Checks in order; the names of the failing ones are the body. *)
Definition plain_healthcheck {W} : healthcheck_lib W := λ _ checks w,
  let '(bad, w) := foldl (λ acc c, let '(err, w) := c.2 acc.2 in
      (match err with None => acc.1 | Some e => acc.1 ++ [(c.1, JStr (Error e))] end, w)) ([], w) checks in
  (mkReply (if bool_decide (bad = []) then StatusOK else StatusServiceUnavailable) bad, w).

Lemma health_page_status_witness :
  reply_status (healthcheckHandler plain_healthcheck (λ n : nat, (Some (Errorf "down"), S n)) 0%nat).1 = 503 ∧
  (reply_status (healthcheckHandler plain_healthcheck (λ n : nat, (None, n)) 0%nat).1 = StatusOK).
Proof.
  split; [reflexivity|]. apply health_page_status; [|reflexivity].
  intros timeout name check n. unfold plain_healthcheck. simpl. by destruct (check n) as [[e|] n'].
Defined.
