(* ===== verification/Outage.v ===== *)
(** * A refused scrobble on the disk and Redis stores

    The Trakt client (Trakt.v) on a store that implements the abstract queue
    (Queue.v): a scrobble that Trakt cannot take goes to the queue, through the
    [EnqueueScrobble] that the stores share (Fallback.v), and the drain hands it
    to the client again.  Shown for any such store and then for the two that
    there are; Delivery.v does the same for PostgreSQL. *)

From S2P Require Import Prelude GoLib Float Json Instances Common Entities Buffers Fallback Trakt Drain Queue Fs Disk DiskQueue Redis RedisServer RedisQueue.

Open Scope Z_scope.

(** The store with its fallback buffers, the calls so far, the requests sent
    and the monitoring log. *)
Record Caller (W : Type) := mkCaller {
  ca_store : Buffered W;
  ca_calls : nat;
  ca_sent : list request;
  ca_log : QueueEventLog;
}.
Arguments mkCaller {W} ca_store ca_calls ca_sent ca_log.
Arguments ca_store {W} c.
Arguments ca_calls {W} c.
Arguments ca_sent {W} c.
Arguments ca_log {W} c.

(** The answers that mean an outage. *)
Definition refuses (r : result response) : bool :=
  match r with Ok resp => transientStatus (StatusCode resp) | Err _ => true end.

Section Outage.
Context `{UT : UnicodeTables, JT : JsonText, UP : UrlText} {W X : Type} `{QS : QueueStore W}.
(** The other methods of the store: what they draw from the process, the
    enqueue operation with its fuel, the size of a queue, the playback cache. *)
Context (srcs : nat → Sources)
  (enqueue : nat → QueuedScrobbleEvent → nat * Buffered W → option (outcome (option error * (nat * Buffered W))))
  (queue_size : string → W → result Z * W)
  (get_body : string → string → W → CacheItem * W) (write_body : CacheItem → W → outcome W).
Context (answer : nat → request → result response) (t : Trakt).

Definition on_caller {A} (f : W → A * W) (c : Caller W) : A * Caller W :=
  let '(a, x) := f (storage (ca_store c)) in
  (a, mkCaller (set_storage x (ca_store c)) (S (ca_calls c)) (ca_sent c) (ca_log c)).

#[local] Instance caller_http : Http (Caller W) := {
  Do req c := (answer (List.length (ca_sent c)) req,
               mkCaller (ca_store c) (ca_calls c) (ca_sent c ++ [req]) (ca_log c));
}.

(** An enqueue that panics or never returns is an error here; the theorems
    show that it returns. *)
#[local] Instance caller_scrobbles : ScrobbleStore (Caller W) := {
  Store_GetScrobbleBody player key := on_caller (get_body player key);
  Store_WriteScrobbleBody item c :=
    x ← write_body item (storage (ca_store c));
    Ret (mkCaller (set_storage x (ca_store c)) (ca_calls c) (ca_sent c) (ca_log c));
  Store_EnqueueScrobble event c :=
    match enqueue 1 event (ca_calls c, ca_store c) with
    | Some (Ret (err, (k, s))) => (err, mkCaller s k (ca_sent c) (ca_log c))
    | Some (Panic why) => (Some (Errorf why), c)
    | None => (Some (Errorf "stack overflow"), c)
    end;
  Store_GetQueueSize u := on_caller (queue_size u);
  queueEventLog_Append e c :=
    l ← Log_Append e (ca_log c); Ret (mkCaller (ca_store c) (ca_calls c) (ca_sent c) l);
  store_Now c := on_caller (λ x, (src_now (srcs (ca_calls c)), x)) c;
}.

(** What the store promises: the queue methods are those of a map of events,
    and enqueueing an event it can keep adds that event. *)
Context (q_inv : W → Prop) (q_abs : W → Queue) (q_user : string → Prop) (q_event : QueuedScrobbleEvent → Prop)
  {QR : QueueRefines W q_inv q_abs q_user}.
Hypothesis q_enqueue : ∀ k event e s,
  q_inv (storage s) → prepare (src_rnd (srcs k)) (src_now (srcs k)) event = Ok e → q_event e →
  q_abs (storage s) !! E_ID e = None → fallbackBuffers s !! E_UserID e = None →
  ∃ m' x, enqueue 1 event (k, s) = Some (Ret (None, (S k, set_storage x s))) ∧
    evicted (E_UserID e) (q_abs (storage s)) m' ∧ q_inv x ∧ q_abs x = <[E_ID e := e]> m'.
Hypothesis q_size : ∀ u x, q_inv x → q_user u → ∃ n x', queue_size u x = (Ok n, x') ∧ q_inv x' ∧ q_abs x' = q_abs x.
Hypothesis q_valid : ∀ e, q_event e → validateEvent e = None ∧ q_user (E_UserID e).

(** The event a refused scrobble becomes. *)
Definition refused_event (now : Time) (user : User) (action : string) (item : CacheItem) (id : string) : QueuedScrobbleEvent :=
  mkEvent id (U_ID user) (Body item) action (Progress (Body item)) now 0 zeroTime (PlayerUuid item) (RatingKey item).

(** The store can take it: the event is one it keeps, under a new id, for a
    user without a fallback buffer and with room in the queue. *)
Record has_room (c : Caller W) (user : User) (action : string) (item : CacheItem) (id : string) : Prop := {
  room_event : q_event (refused_event (src_now (srcs (ca_calls c))) user action item id);
  room_id : generateEventID (src_rnd (srcs (ca_calls c))) = Ok id ∧ q_abs (storage (ca_store c)) !! id = None;
  room_buffer : fallbackBuffers (ca_store c) !! U_ID user = None;
  room_queue : Z.of_nat (List.length (of_user (U_ID user) (q_abs (storage (ca_store c))))) < maxQueuePerUser;
  room_log : ∃ l, ring_rep 100 (Log_events (ca_log c)) l;
}.

Lemma prepare_refused rnd now user action item id :
  generateEventID rnd = Ok id → validateEvent (refused_event now user action item id) = None →
  prepare rnd now (mkEvent "" (U_ID user) (Body item) action (Progress (Body item)) zeroTime 0 zeroTime
    (PlayerUuid item) (RatingKey item)) = Ok (refused_event now user action item id).
Proof.
  intros Hg Hv. unfold prepare. cbn [E_ID]. rewrite bool_decide_true by done. rewrite Hg. simpl.
  change (validateEvent (set_E_ID _ _)) with (validateEvent (refused_event now user action item id)).
  by rewrite Hv.
Qed.

Lemma of_user_insert u e m :
  m !! E_ID e = None → E_UserID e = u → of_user u (<[E_ID e := e]> m) ≡ₚ e :: of_user u m.
Proof.
  intros Hn Hu. unfold of_user. rewrite map_to_list_insert by done. cbn [fmap list_fmap snd].
  by rewrite filter_cons_True.
Qed.

(** An outage hands the scrobble to the store. *)
Lemma scrobbleRequest_refused c user action item id parts :
  url_Parse ("https://api.trakt.tv/scrobble/" +:+ action) = Ok parts →
  q_inv (storage (ca_store c)) → has_room c user action item id →
  (∀ req, refuses (answer (List.length (ca_sent c)) req) = true) →
  let e := refused_event (src_now (srcs (ca_calls c))) user action item id in
  ∃ c' req, scrobbleRequest t action item user c = Ret c' ∧
    req_body req = json_print (ScrobbleBody_MarshalJSON (Body item)) ∧ ca_sent c' = ca_sent c ++ [req] ∧
    q_inv (storage (ca_store c')) ∧
    q_abs (storage (ca_store c')) = <[id := e]> (q_abs (storage (ca_store c))) ∧
    fallbackBuffers (ca_store c') = fallbackBuffers (ca_store c).
Proof using QR q_enqueue q_size q_valid.
  intros Hurl Hi [He [Hg Hid] Hb Hroom [l Hl]] Hout e. destruct (q_valid e He) as [Hv Hu].
  destruct (q_enqueue (ca_calls c) _ e (ca_store c) Hi (prepare_refused _ _ _ _ _ _ Hg Hv) He Hid Hb)
    as (m' & x & Eq & Hev & Hx & Ha).
  unfold evicted in Hev. rewrite decide_True in Hev by done. subst m'.
  unfold scrobbleRequest, scrobble_post, NewRequest. cbn [req_url]. rewrite Hurl.
  set (req := mkRequest _ _ _ _). cbn [Do caller_http]. specialize (Hout req).
  set (c0 := mkCaller _ _ _ _).
  assert (∃ c', enqueueScrobbleEvent t user item action c0 = Ret c' ∧ ca_sent c' = ca_sent c ++ [req] ∧
    q_inv (storage (ca_store c')) ∧ q_abs (storage (ca_store c')) = <[id := e]> (q_abs (storage (ca_store c))) ∧
    fallbackBuffers (ca_store c') = fallbackBuffers (ca_store c)) as (c' & E & Hs & Hrest).
  { unfold enqueueScrobbleEvent. cbn [Store_EnqueueScrobble caller_scrobbles c0 ca_calls ca_store]. rewrite Eq.
    destruct (has_queueEventLog t); [|by eexists].
    cbn [Store_GetQueueSize caller_scrobbles]. unfold on_caller at 1. cbn [ca_store storage set_storage].
    destruct (q_size (U_ID user) x Hx Hu) as (n & x' & -> & Hx' & Ha').
    cbn. unfold Log_Append. match goal with |- context [ring_Put ?v _] =>
      destruct (ring_Put_rep 100 _ _ v ltac:(lia) Hl) as (r' & -> & _) end.
    eexists. split; [reflexivity|]. cbn. by rewrite Ha', Ha. }
  exists c', req. split; [|by split_and!; try apply Hrest].
  destruct (answer _ req) as [resp|]; [simpl in Hout; by rewrite Hout|done].
Qed.

(** The drain of the same store, later: users with their tokens, the clock and
    what Trakt then answers. *)
Context (get_user : string → X → option User * X) (list_users : W → result (list string) * W)
  (clock : nat → Time) (trakt : nat → string → CacheItem → string → option error).

Lemma refused_then_drained c user action item id parts token (users_ok : X → Prop) (x : X) (k : nat)
    (log : list QueueLogEvent) (d : DrainStateTracker) :
  url_Parse ("https://api.trakt.tv/scrobble/" +:+ action) = Ok parts →
  q_inv (storage (ca_store c)) → has_room c user action item id →
  (∀ req, refuses (answer (List.length (ca_sent c)) req) = true) →
  (∀ x, users_ok x → ∃ v x', get_user (U_ID user) x = (Some v, x') ∧ users_ok x' ∧ U_AccessToken v = token) →
  (∀ i a ci s, trakt i a ci s = None) → users_ok x →
  let u := U_ID user in
  let old := q_abs (storage (ca_store c)) in
  let n := List.length (of_user u old) in
  let e := refused_event (src_now (srcs (ca_calls c))) user action item id in
  ∃ c' w' d' events,
    scrobbleRequest t action item user c = Ret c' ∧
    drainUserQueue (H0:=queue_drain_store get_user list_users clock trakt) (S (S n)) u
      (mkQueueWorld (storage (ca_store c')) x k [] log, d) = Some (w', d', mkCounts (Z.of_nat (S n)) 0) ∧
    events ≡ₚ e :: of_user u old ∧ StronglySorted second_before events ∧
    qw_sent w' = (sent_of token <$> events) ∧
    q_abs (qw_store w') = filter (λ ie, E_UserID ie.2 ≠ u) old.
Proof using QR q_enqueue q_size q_valid.
  intros Hurl Hi Hroom Hout Hu Ht Hx u old n e.
  destruct (scrobbleRequest_refused c user action item id parts Hurl Hi Hroom Hout)
    as (c' & req & E & _ & _ & Hi' & Ha & _). fold e old in Ha.
  pose proof (proj2 (room_id _ _ _ _ _ Hroom)) as Hid.
  assert (of_user u (q_abs (storage (ca_store c'))) ≡ₚ e :: of_user u old) as Hp.
  { rewrite Ha. by apply (of_user_insert u e old). }
  assert (List.length (of_user u (q_abs (storage (ca_store c')))) = S n) as Hn by (by rewrite Hp).
  pose proof (room_queue _ _ _ _ _ Hroom) as Hq. fold u old n in Hq. unfold maxQueuePerUser in Hq.
  destruct (queue_delivered get_user list_users clock trakt q_inv q_abs q_user u token users_ok Hu Ht
    (mkQueueWorld (storage (ca_store c')) x k [] log) d Hi' Hx)
    as (w' & d' & events & Ed & Hev & Hs & Hsent & Hrest).
  - exact (proj2 (q_valid e (room_event _ _ _ _ _ Hroom))).
  - cbn [qw_store]. rewrite Hn. unfold int64_max. lia.
  - cbn [qw_store qw_sent] in *. rewrite Hn in Ed. exists c', w', d', events. split_and!; try done.
    + by rewrite Hev.
    + rewrite Hrest, Ha, map_filter_insert_False by (cbn; tauto). by rewrite delete_id.
Qed.
End Outage.

(** ** Redis and disk *)

Section Stores.
Context `{UT : UnicodeTables, TT : TimeText, TL : !TimeTextLaws TT, JT : JsonText, JL : !JsonTextLaws JT, UP : UrlText}.
(** The process, the answers of Trakt to the client, and what the drain sees:
    users, clock. *)
Context {X : Type} (srcs : nat → Sources) (answer : nat → request → result response) (t : Trakt)
  (get_user : string → X → option User * X) (clock : nat → Time).

(** C7: on a Redis server that behaves as documented, an outage delays a
    scrobble that the store has room for.  When Trakt refuses it (no connection,
    429, 502, 503, 504), the event is valid and its text can be read back, its
    id is new, the user has no fallback buffer and fewer than 1000 queued
    events ([has_room]), the client queues it; when Trakt accepts again, the
    drain hands it to the client exactly once, with its action, player, item and
    body and the token the user has by then, together with whatever else was
    queued for the user, in order of the whole seconds of their creation, counts
    all of them as successes, and removes the events of the user and no
    others. *)
Theorem redis_scrobble_delivered {R : Type} `{RE : Redis R, RL : !RedisLaws R}
    (get_body : string → string → R → CacheItem * R) (write_body : CacheItem → R → outcome R)
    (list_users : R → result (list string) * R)
    (c : Caller R) (user : User) (action : string) (item : CacheItem) (id token : string) (parts : string * string)
    (users_ok : X → Prop) (x : X) (k : nat) (log : list QueueLogEvent) (d : DrainStateTracker) :
  url_Parse ("https://api.trakt.tv/scrobble/" +:+ action) = Ok parts →
  redis_inv (storage (ca_store c)) → has_room srcs redis_abs storable c user action item id →
  (∀ req, refuses (answer (List.length (ca_sent c)) req) = true) →
  (∀ x, users_ok x → ∃ v x', get_user (U_ID user) x = (Some v, x') ∧ users_ok x' ∧ U_AccessToken v = token) →
  users_ok x →
  let u := U_ID user in
  let old := redis_abs (storage (ca_store c)) in
  let n := List.length (of_user u old) in
  let e := refused_event (src_now (srcs (ca_calls c))) user action item id in
  ∃ c' w' d' events,
    scrobbleRequest (H2:=caller_http answer)
      (H3:=caller_scrobbles srcs (Redis.EnqueueScrobble srcs) Redis.GetQueueSize get_body write_body)
      t action item user c = Ret c' ∧
    drainUserQueue (H0:=queue_drain_store (QS:=redis_queue_store) get_user list_users clock (λ _ _ _ _, None))
      (S (S n)) u (mkQueueWorld (storage (ca_store c')) x k [] log, d) = Some (w', d', mkCounts (Z.of_nat (S n)) 0) ∧
    events ≡ₚ e :: of_user u old ∧ StronglySorted second_before events ∧
    qw_sent w' = (sent_of token <$> events) ∧
    redis_abs (qw_store w') = filter (λ ie, E_UserID ie.2 ≠ u) old.
Proof using TL JL.
  intros Hurl Hi Hroom Hout Hu Hx.
  apply (refused_then_drained (QS:=redis_queue_store) srcs _ _ get_body write_body answer t
    redis_inv redis_abs (λ _, True) storable (QR:=redis_queue_refines)) with (parts := parts) (users_ok := users_ok); try done.
  - intros i event e s. by apply redis_enqueue_refines.
  - intros u r Hr _. apply redis_inv_abs in Hr as [Hup Hq].
    destruct (RedisQueue.GetQueueSize_queue _ u r Hup Hq) as (r' & E & Hup' & Hq').
    eexists _, r'. split; [exact E|]. by apply redis_inv_intro.
  - intros e He. split; [apply He|done].
Qed.

(** The same on a disk that works, for users whose ids are file names. *)
Lemma disk_scrobble_delivered (get_body : string → string → Disk → CacheItem * Disk)
    (write_body : CacheItem → Disk → outcome Disk)
    (c : Caller Disk) (user : User) (action : string) (item : CacheItem) (id token : string) (parts : string * string)
    (users_ok : X → Prop) (x : X) (k : nat) (log : list QueueLogEvent) (d : DrainStateTracker) :
  url_Parse ("https://api.trakt.tv/scrobble/" +:+ action) = Ok parts →
  disk_inv (storage (ca_store c)) → has_room srcs disk_abs good c user action item id →
  (∀ req, refuses (answer (List.length (ca_sent c)) req) = true) →
  (∀ x, users_ok x → ∃ v x', get_user (U_ID user) x = (Some v, x') ∧ users_ok x' ∧ U_AccessToken v = token) →
  users_ok x →
  let u := U_ID user in
  let old := disk_abs (storage (ca_store c)) in
  let n := List.length (of_user u old) in
  let e := refused_event (src_now (srcs (ca_calls c))) user action item id in
  ∃ c' w' d' events,
    scrobbleRequest (H2:=caller_http answer)
      (H3:=caller_scrobbles srcs (Disk.EnqueueScrobble no_faults srcs) (Disk.GetQueueSize no_faults) get_body write_body)
      t action item user c = Ret c' ∧
    drainUserQueue (H0:=queue_drain_store (QS:=disk_queue_store) get_user
                          (Disk.ListUsersWithQueuedEvents no_faults) clock (λ _ _ _ _, None))
      (S (S n)) u (mkQueueWorld (storage (ca_store c')) x k [] log, d) = Some (w', d', mkCounts (Z.of_nat (S n)) 0) ∧
    events ≡ₚ e :: of_user u old ∧ StronglySorted second_before events ∧
    qw_sent w' = (sent_of token <$> events) ∧
    disk_abs (qw_store w') = filter (λ ie, E_UserID ie.2 ≠ u) old.
Proof using TL JL.
  intros Hurl Hi Hroom Hout Hu Hx.
  apply (refused_then_drained (QS:=disk_queue_store) srcs _ _ get_body write_body answer t
    disk_inv disk_abs plain good (QR:=disk_queue_refines)) with (parts := parts) (users_ok := users_ok); try done.
  - intros i event e s. by apply disk_enqueue_refines.
  - intros u dk Hd Hp. pose proof (disk_inv_abs _ Hd) as Hq.
    destruct (DiskQueue.GetQueueSize_refines _ u dk Hq Hp) as (d' & E & Hs).
    eexists _, d'. split; [exact E|]. unfold same_fs in Hs. apply disk_inv_intro. by rewrite Hs.
  - intros e He. split; [apply He|apply He].
Qed.
End Stores.

(** ** An example *)

#[local] Existing Instances ascii_tables decimal_time tree_text.
#[local] Instance any_url : UrlText := { url_Parse s := Ok ("https", "api.trakt.tv") }.

(** Trakt answers 503; one event of the user is queued already. *)
Definition down (n : nat) (req : request) : result response := Ok (mkResponse 503 "503" "" None).
Definition waiting : Caller memory := mkCaller (NewRedisStore one_event_memory) 0 [] (NewQueueEventLog 100).
Definition film_fan : User := mkUser "user" "sam" "old" "ref" "Sam" 0 0 true.
Definition film : CacheItem := mkCacheItem "player" "server" "42" "media.stop"
  (mkBody 95 (Some (mkMovie (Some "Heat") (Some 1995) emptyIds)) None None) "".
Definition film_id : string := "00000000-0000-4000-8000-000000000000".

Lemma film_storable : storable (refused_event (1700000000 * Second) film_fan "stop" film film_id).
Proof.
  split; [reflexivity|]. split; [split; [|vm_compute; reflexivity]|split; reflexivity].
  unfold Event_int, Body_int, Ids_int, int64_opt, int64_min, int64_max. simpl.
  split; [|lia]. split; [|done]. intros m [= <-]. simpl. lia.
Qed.

Lemma film_has_room : has_room (λ _, sample_sources) redis_abs storable waiting film_fan "stop" film film_id.
Proof.
  pose proof (proj2 one_event_memory_inv) as Ha. split.
  - exact film_storable.
  - split; [reflexivity|]. cbn [waiting ca_store NewRedisStore storage]. rewrite Ha. reflexivity.
  - reflexivity.
  - cbn [waiting ca_store NewRedisStore storage]. rewrite Ha. reflexivity.
  - exists []. exact (ring_New_rep 100).
Qed.

Lemma redis_scrobble_delivered_witness :
  ∃ c' w' d' events,
    scrobbleRequest (H2:=caller_http down)
      (H3:=caller_scrobbles (λ _, sample_sources) (Redis.EnqueueScrobble (λ _, sample_sources)) Redis.GetQueueSize
             (λ _ _ r, (emptyCacheItem, r)) (λ _ r, Ret r))
      (SetQueueEventLog (New "id" "secret")) "stop" film film_fan waiting = Ret c' ∧
    drainUserQueue (H0:=queue_drain_store (QS:=redis_queue_store) (λ _, signed_in) (λ r, (Ok [], r)) (λ _, 0)
                          (λ _ _ _ _, None))
      3 "user" (mkQueueWorld (storage (ca_store c')) tt 0 [] [], NewDrainStateTracker) = Some (w', d', mkCounts 2 0) ∧
    events ≡ₚ [refused_event (1700000000 * Second) film_fan "stop" film film_id; uuid_event "1"] ∧
    qw_sent w' = sent_of "acc" <$> events.
Proof.
  assert (Hl : of_user "user" (redis_abs one_event_memory) = [uuid_event "1"]).
  { rewrite (proj2 one_event_memory_inv). vm_compute. reflexivity. }
  destruct (redis_scrobble_delivered (TL:=decimal_time_laws) (JL:=tree_text_laws) (UP:=any_url) (λ _, sample_sources) down
    (SetQueueEventLog (New "id" "secret")) (λ _, signed_in) (λ _, 0) (λ _ _ r, (emptyCacheItem, r)) (λ _ r, Ret r)
    (λ r, (Ok [], r)) waiting film_fan "stop" film film_id "acc" ("https", "api.trakt.tv") (λ _, True) tt 0 []
    NewDrainStateTracker eq_refl (proj1 one_event_memory_inv) film_has_room (λ _, eq_refl))
    as (c' & w' & d' & events & H1 & H2 & H3 & _ & H4 & _).
  - intros x _. eexists _, x. split_and!; reflexivity || exact I.
  - exact I.
  - cbn [waiting ca_store NewRedisStore storage film_fan U_ID] in H2, H3. rewrite Hl in H2, H3.
    exists c', w', d', events. split; [exact H1|split; [exact H2|split; [exact H3|exact H4]]].
Defined.
