(* ===== verification/Concurrent.v ===== *)
(** * Webhooks that are handled at once

    [Handle] of [lib/trakt/main.go] reads the playback cache of an item, talks to
    Trakt and writes the cache, between [t.ml.Lock(lockKey)] and the deferred
    [Unlock].  Here any number of threads handle a webhook each, in any
    interleaving of the atomic actions of the lock (MultiLock.v), of the reads
    of the cache and of what follows them, on one shared world.  What follows
    the read, from the decision to the write of the cache, is one step; bodies
    that panic are left out. *)

From S2P Require Import Prelude GoLib Text Float Json Instances Common Entities Buffers Fallback Pg PgFamily PgStore Trakt MultiLock LockSafety Delivery.

Open Scope Z_scope.

(** [fmt.Sprintf("%s:%s", hook.Player.UUID, hook.Metadata.RatingKey)] *)
Definition cell (player ratingKey : string) : string := player +:+ ":" +:+ ratingKey.
Definition lockKey (hook : Webhook) : string :=
  cell (Player_UUID (Hook_Player hook)) (MD_RatingKey (Hook_Metadata hook)).

(** The guards before the lock. *)
Definition identified (hook : Webhook) : bool :=
  negb (bool_decide (Player_UUID (Hook_Player hook) = "") || bool_decide (MD_RatingKey (Hook_Metadata hook) = "")).

(** What [getAction] finds out. *)
Abbreviation found := (string * CacheItem * Z)%type.

Section Concurrent.
Context {W : Type} `{UT : UnicodeTables, JT : JsonText, UP : UrlText, HW : Http W, SW : ScrobbleStore W}.
Context (t : Trakt).

(** [Handle] after [getAction]. *)
Definition handle_rest (hook : Webhook) (user : User) (x : found) (w : W) : outcome W :=
  let '(event, cache, progress) := x in
  let md := Hook_Metadata hook in
  let send (body : ScrobbleBody) :=
    let item := set_cache (Player_UUID (Hook_Player hook)) (Server_UUID (Hook_Server hook))
                  (MD_RatingKey md) (Hook_Event hook) (set_Progress progress body) cache in
    scrobbleRequest t event item user w in
  if bool_decide (event = "") then Ret w
  else if bool_decide (ServerUuid cache = Server_UUID (Hook_Server hook)) then
    if bool_decide (LastAction cache = actionStop) ||
       bool_decide (LastAction cache = event) && (progress =? Progress (Body cache))
    then Ret w
    else send (Body cache)
  else
    match media_of md with
    | None => Ret w
    | Some body => send body
    end.

Lemma Handle_split hook user w :
  identified hook = true →
  Handle t (Some hook) user w = let '(x, w) := getAction hook w in handle_rest hook user x w.
Proof.
  unfold identified. rewrite negb_true_iff. intros Hid. unfold Handle. rewrite Hid.
  by destruct (getAction hook w) as [[[event cache] progress] w'].
Qed.

Lemma Handle_unidentified hook user w : identified hook = false → Handle t (Some hook) user w = Ret w.
Proof. unfold identified. rewrite negb_false_iff. intros Hid. unfold Handle. by rewrite Hid. Qed.

(** ** The threads *)

(** The webhook and the user of each thread. *)
Context (hook_of : tid → Webhook) (user_of : tid → User).

Record Handlers := mkHandlers {
  hs_locks : lock_state;
  hs_world : W;
  hs_found : gmap tid found;    (** threads between [getAction] and the rest *)
  hs_done : list tid;           (** threads that are through, the last one last *)
}.

Inductive handler_action :=
| Ignore                           (** return before the lock *)
| Acquire (choice : option nat)    (** enter [Lock(lockKey)] *)
| LockStep                         (** the next action of [Lock] or [Unlock] *)
| GetAction                        (** [t.getAction(hook)] *)
| Rest                             (** the rest of the body *)
| Release (choice : option nat).   (** enter [Unlock(lockKey)] *)

Definition set_locks (l : lock_state) (s : Handlers) : Handlers :=
  mkHandlers l (hs_world s) (hs_found s) (hs_done s).
Definition holding (u : tid) (s : Handlers) : bool := in_section Write u (lockKey (hook_of u)) (hs_locks s).

(** One step of thread [u]; [None]: not its turn, or a panic of the body. *)
Definition handler_step (u : tid) (a : handler_action) (s : Handlers) : option Handlers :=
  let hook := hook_of u in
  let fresh := bool_decide (u ∉ hs_done s) && bool_decide (hs_found s !! u = None) in
  match a with
  | Ignore =>
      if negb (identified hook) && fresh
      then Some (mkHandlers (hs_locks s) (hs_world s) (hs_found s) (hs_done s ++ [u])) else None
  | Acquire choice =>
      if identified hook && fresh
      then l ← lock_step u (StartLock Write (lockKey hook) choice) (hs_locks s); Some (set_locks l s) else None
  | LockStep => l ← lock_step u Step (hs_locks s); Some (set_locks l s)
  | GetAction =>
      if holding u s && fresh then
        let '(x, w) := getAction hook (hs_world s) in
        Some (mkHandlers (hs_locks s) w (<[u := x]> (hs_found s)) (hs_done s))
      else None
  | Rest =>
      x ← hs_found s !! u;
      match handle_rest hook (user_of u) x (hs_world s) with
      | Panic _ => None
      | Ret w => Some (mkHandlers (hs_locks s) w (delete u (hs_found s)) (hs_done s ++ [u]))
      end
  | Release choice =>
      if bool_decide (u ∈ hs_done s)
      then l ← lock_step u (StartUnlock choice) (hs_locks s); Some (set_locks l s) else None
  end.

(** A run in which every state of the lock is [ok]. *)
Fixpoint run_handlers (ok : lock_state → bool) (trace : list (tid * handler_action)) (s : Handlers) : option Handlers :=
  match trace with
  | [] => Some s
  | (u, a) :: trace =>
      s ← handler_step u a s;
      if ok (hs_locks s) then run_handlers ok trace s else None
  end.

Definition no_handlers (w : W) : Handlers := mkHandlers NewMultipleLock w ∅ [].

(** One webhook after the other. *)
Fixpoint handle_each (us : list tid) (w : W) : outcome W :=
  match us with
  | [] => Ret w
  | u :: us => w ← Handle t (Some (hook_of u)) (user_of u) w; handle_each us w
  end.

(** ** The playback cache *)

(** What is cached for a player and an item. *)
Definition cached (player ratingKey : string) (w : W) : CacheItem := (Store_GetScrobbleBody player ratingKey w).1.

(** A read changes nothing; a write changes what is cached under its own cell
    only, and nothing else the client does changes the cache. *)
Class CacheLaws : Prop := {
  cache_read p k w : (Store_GetScrobbleBody p k w).2 = w;
  cache_write p k item w w' : Store_WriteScrobbleBody item w = Ret w' →
    cell p k ≠ cell (PlayerUuid item) (RatingKey item) → cached p k w' = cached p k w;
  cache_Do p k req w : cached p k (Do req w).2 = cached p k w;
  cache_enqueue p k e w : cached p k (Store_EnqueueScrobble e w).2 = cached p k w;
  cache_size p k u w : cached p k (Store_GetQueueSize u w).2 = cached p k w;
  cache_now p k w : cached p k (store_Now w).2 = cached p k w;
  cache_log p k e w w' : queueEventLog_Append e w = Ret w' → cached p k w' = cached p k w;
}.
Context {CL : CacheLaws}.

Lemma enqueue_cache user item action w w' p k :
  enqueueScrobbleEvent t user item action w = Ret w' → cached p k w' = cached p k w.
Proof using CL.
  unfold enqueueScrobbleEvent. match goal with |- context [Store_EnqueueScrobble ?e w] => pose proof (cache_enqueue p k e w) as H1;
    destruct (Store_EnqueueScrobble e w) as [[err|] w1] end; simpl in H1; [by intros [= <-]|].
  destruct (has_queueEventLog t); [|by intros [= <-]].
  pose proof (cache_size p k (U_ID user) w1) as H2. destruct (Store_GetQueueSize _ w1) as [r w2]. simpl in H2.
  pose proof (cache_now p k w2) as H3. destruct (store_Now w2) as [now w3]. simpl in H3.
  intros Hlog%(cache_log p k). congruence.
Qed.

Lemma request_cache action item user w w' p k :
  scrobbleRequest t action item user w = Ret w' → cell p k ≠ cell (PlayerUuid item) (RatingKey item) →
  cached p k w' = cached p k w.
Proof using CL.
  unfold scrobbleRequest. intros E Hne. destruct (scrobble_post _ _ _ _) as [req|]; [|by injection E as <-].
  pose proof (cache_Do p k req w) as H1. destruct (Do req w) as [[resp|] w1]; simpl in H1; rewrite <-H1.
  - destruct (transientStatus _); [by eapply enqueue_cache|]. destruct (successStatus _); [|by injection E as <-].
    destruct (decode_body _ _); [|by injection E as <-|done]. by eapply cache_write.
  - by eapply enqueue_cache.
Qed.

Lemma rest_cache hook user x w w' p k :
  handle_rest hook user x w = Ret w' → cell p k ≠ lockKey hook → cached p k w' = cached p k w.
Proof using CL.
  unfold handle_rest. destruct x as [[event cache] progress]. intros E Hne.
  repeat case_match; simplify_eq; try done; by eapply request_cache.
Qed.

(** [getAction] leaves the world and depends on the cell of its item only. *)
Lemma getAction_world hook w : (getAction hook w).2 = w.
Proof using CL.
  unfold getAction. pose proof (cache_read (Player_UUID (Hook_Player hook)) (MD_RatingKey (Hook_Metadata hook)) w) as Hr.
  destruct (Store_GetScrobbleBody _ _ w) as [item w']. simpl in Hr. subst w'. by destruct (action_of _ _).
Qed.

Lemma getAction_cached hook w w' :
  cached (Player_UUID (Hook_Player hook)) (MD_RatingKey (Hook_Metadata hook)) w' =
  cached (Player_UUID (Hook_Player hook)) (MD_RatingKey (Hook_Metadata hook)) w →
  (getAction hook w').1 = (getAction hook w).1.
Proof.
  unfold getAction, cached. destruct (Store_GetScrobbleBody _ _ w') as [i' w1'], (Store_GetScrobbleBody _ _ w) as [i w1].
  simpl. intros ->. by destruct (action_of _ _).
Qed.

(** ** Serializability *)

(** A step of the lock moves its thread only. *)
Lemma lock_step_moves u a l l' : lock_step u a l = Some l' → ∃ p, pcs l' = <[u := p]> (pcs l).
Proof.
  unfold lock_step. intros E.
  destruct (pc_of u l) as [|md k m|md k m|md k m|md k m|k m|k m|k m|k m]; destruct a as [md' k' c|c|]; try done.
  - destruct (getLocker c k' l) as [m l1] eqn:Eg. simplify_eq. destruct (getLocker_pcs _ _ _ _ _ Eg) as (_ & _ & Hp).
    simpl. rewrite Hp. by eexists.
  - simplify_eq. by eexists.
  - destruct (refs l !! m) as [r|]; [|done]. simpl in E. destruct (acquire _ _ _ _) as [l1|] eqn:Ea; [|done].
    simplify_eq/=. apply acquire_frame in Ea as (_ & _ & Hp). rewrite Hp. by eexists.
  - destruct (getLocker c k l) as [n l1] eqn:Eg. simplify_eq. destruct (getLocker_pcs _ _ _ _ _ Eg) as (_ & _ & Hp).
    simpl. rewrite Hp. by eexists.
  - destruct (refs l !! m) as [r|]; [|done]. simpl in E. destruct (release _ _ _) as [l1|] eqn:Ea; [|done].
    simplify_eq/=. apply release_frame in Ea as (_ & _ & Hp). rewrite Hp. by eexists.
  - simplify_eq. by eexists.
  - destruct (refs l !! m) as [r|]; [|done]. simplify_eq/=. by eexists.
  - destruct (refs l !! m) as [r|]; [|done]. simplify_eq/=. by eexists.
  - simplify_eq. by eexists.
Qed.

Lemma lock_step_other u v a l l' : lock_step u a l = Some l' → v ≠ u → pc_of v l' = pc_of v l.
Proof. intros [p Hp]%lock_step_moves Hne. rewrite (pc_of_insert v u p l l' Hp). by rewrite decide_False. Qed.

Lemma in_section_other u v a l l' md key :
  lock_step u a l = Some l' → v ≠ u → in_section md v key l' = in_section md v key l.
Proof. intros E Hne. unfold in_section. by rewrite (lock_step_other u v a l l' E Hne). Qed.

(** Every thread between [getAction] and the rest holds its lock, and what it
    found is still there to be found; the world is that of the threads that are
    through, one after the other. *)
Record handlers_ok (w0 : W) (s : Handlers) : Prop := {
  ho_lock : lock_inv (hs_locks s);
  ho_inside : ∀ u, pc_of u (hs_locks s) ≠ Idle → identified (hook_of u) = true;
  ho_found : ∀ u x, hs_found s !! u = Some x →
    holding u s = true ∧ u ∉ hs_done s ∧ x = (getAction (hook_of u) (hs_world s)).1;
  ho_done : NoDup (hs_done s) ∧ handle_each (hs_done s) w0 = Ret (hs_world s);
}.

Lemma handle_each_snoc us u w :
  handle_each (us ++ [u]) w = (w ← handle_each us w; Handle t (Some (hook_of u)) (user_of u) w).
Proof.
  revert w. induction us as [|v us IH]; intros w; cbn [app handle_each].
  - cbn [mbind outcome_bind]. by destruct (Handle t (Some (hook_of u)) (user_of u) w).
  - destruct (Handle t (Some (hook_of v)) (user_of v) w); [apply IH|done].
Qed.

Lemma holding_pc u s : holding u s = true → ∃ m, pc_of u (hs_locks s) = Holding Write (lockKey (hook_of u)) m.
Proof. apply in_section_pc. Qed.

(** The steps of the lock. *)
Lemma ok_lock_step w0 u a l s :
  handlers_ok w0 s → lock_step u a (hs_locks s) = Some l → calm l = true →
  (match a with StartLock _ _ _ => identified (hook_of u) = true | _ => True end) →
  hs_found s !! u = None → handlers_ok w0 (set_locks l s).
Proof.
  intros [Hl Hin Hf Hd] E Hc Ha Hn. split; [by eapply lock_inv_step| | |done].
  - intros v Hv. simpl in Hv. destruct (decide (v = u)) as [->|Hne].
    + destruct a; [done|..]; apply Hin; intros Hi; unfold lock_step in E; by rewrite Hi in E.
    + apply Hin. by rewrite <-(lock_step_other u v a _ _ E Hne).
  - intros v x Hv. destruct (decide (v = u)) as [->|Hne]; [simpl in Hv; congruence|].
    destruct (Hf v x Hv) as (Hh & Hrest). split; [|done]. unfold holding. cbn [set_locks hs_locks].
    by rewrite (in_section_other u v a _ l _ _ E Hne).
Qed.

Lemma holding_no_step u s : holding u s = true → lock_step u Step (hs_locks s) = None.
Proof. intros [m Hm]%holding_pc. unfold lock_step. by rewrite Hm. Qed.

(** The rest of the body leaves what other threads found. *)
Lemma ok_rest w0 u x w s :
  handlers_ok w0 s → hs_found s !! u = Some x → handle_rest (hook_of u) (user_of u) x (hs_world s) = Ret w →
  handlers_ok w0 (mkHandlers (hs_locks s) w (delete u (hs_found s)) (hs_done s ++ [u])).
Proof using CL.
  intros [Hl Hin Hf [Hnd Hd]] Hu E. destruct (Hf u x Hu) as (Hh & Hnu & Hx). split; simpl; [done|done| |].
  - intros v y [Hne Hv]%lookup_delete_Some. destruct (Hf v y Hv) as (Hhv & Hnv & Hy). split_and!; [done|set_solver|].
    rewrite Hy. symmetry. apply getAction_cached. eapply rest_cache; [exact E|]. intros Hk.
    unfold holding in Hh, Hhv. change (cell _ _) with (lockKey (hook_of v)) in Hk. rewrite Hk in Hhv.
    apply Hne. by eapply exclusion.
  - split.
    + apply NoDup_app. split_and!; [done|set_solver|apply NoDup_singleton].
    + rewrite handle_each_snoc, Hd. cbn [mbind outcome_bind]. rewrite Handle_split.
      * destruct (getAction (hook_of u) (hs_world s)) as [y w1] eqn:Eg.
        pose proof (getAction_world (hook_of u) (hs_world s)) as Hw. rewrite Eg in Hw. simpl in Hw, Hx. by subst.
      * apply Hin. destruct (holding_pc _ _ Hh) as [m ->]. done.
Qed.

Lemma ok_step w0 u a s s' :
  handlers_ok w0 s → handler_step u a s = Some s' → calm (hs_locks s') = true → handlers_ok w0 s'.
Proof using CL.
  intros Hs E Hc. unfold handler_step in E. destruct a as [|c| | | |c].
  - destruct (negb (identified (hook_of u)) && _) eqn:Hg; [|done]. simplify_eq.
    rewrite !andb_true_iff, negb_true_iff, !bool_decide_eq_true in Hg. destruct Hg as (Hid & Hnu & Hn).
    destruct Hs as [Hl Hin Hf [Hnd Hd]]. split; simpl; [done|done| |].
    + intros v x Hv. destruct (Hf v x Hv) as (? & ? & ?). split_and!; [done|set_solver|done].
    + split; [apply NoDup_app; split_and!; [done|set_solver|apply NoDup_singleton]|].
      rewrite handle_each_snoc, Hd. cbn [mbind outcome_bind]. by apply Handle_unidentified.
  - destruct (identified (hook_of u) && _) eqn:Hg; [|done].
    rewrite !andb_true_iff, !bool_decide_eq_true in Hg. destruct Hg as (Hid & Hnu & Hn).
    destruct (lock_step u _ (hs_locks s)) as [l|] eqn:El; [|done]. simplify_eq/=. by eapply ok_lock_step.
  - destruct (lock_step u Step (hs_locks s)) as [l|] eqn:El; [|done]. simplify_eq/=.
    eapply ok_lock_step; [done..|]. destruct (hs_found s !! u) as [x|] eqn:Hx; [|done].
    destruct (ho_found _ _ Hs u x Hx) as (Hh & _). by rewrite holding_no_step in El.
  - destruct (holding u s && _) eqn:Hg; [|done]. rewrite !andb_true_iff, !bool_decide_eq_true in Hg.
    destruct Hg as (Hh & Hnu & Hn). pose proof (getAction_world (hook_of u) (hs_world s)) as Hw.
    destruct (getAction (hook_of u) (hs_world s)) as [x w] eqn:Eg. simplify_eq/=.
    destruct Hs as [Hl Hin Hf Hd]. split; simpl; [done|done| |done].
    intros v y. rewrite lookup_insert. case_decide as Hv; [subst v|apply Hf]. intros [= <-]. by rewrite Eg.
  - destruct (hs_found s !! u) as [x|] eqn:Hx; [|done]. simpl in E.
    destruct (handle_rest _ _ x (hs_world s)) as [w|] eqn:Er; [|done]. simplify_eq. by eapply ok_rest.
  - case_bool_decide as Hu; [|done]. destruct (lock_step u _ (hs_locks s)) as [l|] eqn:El; [|done]. simplify_eq/=.
    eapply ok_lock_step; [done..|]. destruct (hs_found s !! u) as [x|] eqn:Hx; [|done].
    by destruct (ho_found _ _ Hs u x Hx) as (_ & ? & _).
Qed.

Lemma ok_run w0 trace s s' : handlers_ok w0 s → run_handlers calm trace s = Some s' → handlers_ok w0 s'.
Proof using CL.
  revert s. induction trace as [|[u a] trace IH]; intros s Hs E; simplify_eq/=; [done|].
  destruct (handler_step u a s) as [s1|] eqn:E1; [|done]. simpl in E.
  destruct (calm (hs_locks s1)) eqn:Hc; [|done]. by eapply IH, E; eapply ok_step.
Qed.

Lemma no_handlers_ok w : handlers_ok w (no_handlers w).
Proof. split; [apply lock_inv_new|done|done|]. split; [constructor|done]. Qed.

(** C29: webhooks that are handled at once are handled as if one after the
    other.  Whatever the interleaving, as long as the lock is spared the race of
    [mutual_exclusion_fails], the store, the requests sent to Trakt and
    everything else in the world are what they would be if the threads that are
    through had called [Handle] one at a time, in the order in which they sent
    their requests: between the read of the playback cache and its update no
    other webhook of the same item intervenes. *)
Theorem handlers_serializable (trace : list (tid * handler_action)) (w : W) (s : Handlers) :
  run_handlers calm trace (no_handlers w) = Some s →
  NoDup (hs_done s) ∧ handle_each (hs_done s) w = Ret (hs_world s).
Proof using CL. intros Hrun. exact (ho_done _ _ (ok_run w _ _ _ (no_handlers_ok w) Hrun)). Qed.
End Concurrent.

(** The PostgreSQL store keeps the promises: it has no playback cache, so that
    a read always finds nothing (the disk store is the same in this). *)
Lemma home_cache_laws `{UnicodeTables, PG : PgServer, JT : JsonText, UrlText} (envs : nat → Env)
    (answer : nat → request → result response) :
  CacheLaws (HW:=home_http answer) (SW:=home_scrobbles envs).
Proof. by split. Qed.

(** ** An example *)

#[local] Existing Instances ascii_tables tree_text.
#[local] Instance some_url : UrlText := { url_Parse s := Ok ("https", "api.trakt.tv") }.

(** A cache by cells, and the requests sent; Trakt accepts. *)
Record Room := mkRoom { room_cache : gmap string CacheItem; room_sent : list request }.
#[local] Instance room_http : Http Room := {
  Do req w := (Ok (mkResponse 201 "" (json_print (JObj [])) None), mkRoom (room_cache w) (room_sent w ++ [req]));
}.
#[local] Instance room_store : ScrobbleStore Room := {
  Store_GetScrobbleBody p k w := (default emptyCacheItem (room_cache w !! cell p k), w);
  Store_WriteScrobbleBody c w :=
    Ret (mkRoom (<[cell (PlayerUuid c) (RatingKey c) := c]> (room_cache w)) (room_sent w));
  Store_EnqueueScrobble _ w := (None, w);
  Store_GetQueueSize _ w := (Ok 0, w);
  queueEventLog_Append _ w := Ret w;
  store_Now w := (0, w);
}.

Lemma room_laws : CacheLaws (W:=Room).
Proof.
  split; try done.
  - intros p k item w w' [= <-] Hne. unfold cached. simpl. by rewrite lookup_insert_ne.
  - by intros p k e w w' [= <-].
Qed.

(** Thread 1 handles the start of a film, the others its end, which Plex
    reported twice. *)
Definition film_hook (u : tid) : Webhook :=
  if bool_decide (u = 1%nat) then movie_hook "media.play" 0 100 else movie_hook "media.scrobble" 95 100.
Definition urls_of (w : Room) : list string := req_url <$> room_sent w.
Definition start_url := "https://api.trakt.tv/scrobble/start".
Definition stop_url := "https://api.trakt.tv/scrobble/stop".

Definition lock_up (u : tid) : list (tid * handler_action) := [(u, Acquire None); (u, LockStep); (u, LockStep)].
Definition unlock_all (u : tid) (steps : nat) : list (tid * handler_action) := (u, Release None) :: replicate steps (u, LockStep).
Definition empty_room : Room := mkRoom ∅ [].

(** Thread 2 waits for thread 1, thread 3 for thread 2. *)
Definition in_turn : list (tid * handler_action) :=
  (lock_up 1 ++ [(2, Acquire None); (2, LockStep); (1, GetAction); (3, Acquire None); (3, LockStep); (1, Rest)]
   ++ unlock_all 1 3 ++ [(2, LockStep); (2, GetAction); (2, Rest)] ++ unlock_all 2 3
   ++ [(3, LockStep); (3, GetAction); (3, Rest)])%nat.

Lemma handlers_serializable_witness :
  ∃ s, run_handlers (New "id" "secret") film_hook (λ _, sam) calm in_turn (no_handlers empty_room) = Some s ∧
    handle_each (New "id" "secret") film_hook (λ _, sam) [1; 2; 3]%nat empty_room = Ret (hs_world s) ∧
    urls_of (hs_world s) = [start_url; stop_url].
Proof.
  assert (Hd : (λ s, (hs_done s, urls_of (hs_world s))) <$>
    run_handlers (New "id" "secret") film_hook (λ _, sam) calm in_turn (no_handlers empty_room) =
    Some ([1; 2; 3]%nat, [start_url; stop_url])) by (vm_compute; reflexivity).
  destruct (run_handlers _ _ _ calm in_turn (no_handlers empty_room)) as [s|] eqn:E; [|discriminate Hd].
  injection Hd as Hdone Hurls. exists s. split; [reflexivity|]. split; [|exact Hurls]. rewrite <-Hdone.
  apply (handlers_serializable (New "id" "secret") film_hook (λ _, sam) (CL:=room_laws) in_turn empty_room s E).
Defined.

(** The race of the lock makes a difference: threads 2 and 3 are both between
    the lock and the unlock of the item, and the end of the film is sent
    twice. *)
Definition out_of_turn : list (tid * handler_action) :=
  (lock_up 1 ++ [(1, GetAction); (1, Rest); (2, Acquire None)] ++ unlock_all 1 5
   ++ [(2, LockStep); (2, LockStep)] ++ lock_up 3
   ++ [(2, GetAction); (3, GetAction); (2, Rest); (3, Rest)])%nat.

Lemma raced_handlers_send_twice :
  ∃ s, run_handlers (New "id" "secret") film_hook (λ _, sam) (λ _, true) out_of_turn (no_handlers empty_room) = Some s ∧
    hs_done s = [1; 2; 3]%nat ∧ urls_of (hs_world s) = [start_url; stop_url; stop_url].
Proof. eexists. split; [vm_compute; reflexivity|]. by vm_compute. Qed.
